(* ===== verification/_CoqProject ===== *)
-Q . S2P
Prelude.v
StateM.v
RustStr.v
Crypto.v
SecureMem.v
Glob.v
PolicyTypes.v
PolicyParser.v
PolicyEvaluator.v
PolicyEngine.v
AuditLog.v
LeaseTypes.v
ProxyScope.v
LeaseManager.v
LeaseLemmas.v
LeaseSteps.v
LeaseSafety.v
LeaseProps.v
ProxyAuth.v
PolicyWatcher.v
ProxyHttp.v
ProxyManager.v
ProxyServer.v
UnixHost.v
GateAgent.v
GateConfig.v
GateRouter.v
GateStages.v
GateSystem.v
GateVetting.v
GateDeaths.v
Token.v
Mtls.v
VaultProtocol.v
VaultBitwarden.v
VaultWorker.v
VaultManager.v
VaultFile.v
BrowserCookies.v
Browser.v
Mitm.v
MitmCookies.v
Sdk.v
CliWrap.v
GateFiles.v
GateMain.v
GateDaemon.v
GateRaces.v
GateSite.v
GateVault.v
SdkGate.v
WrapGate.v
GateAudit.v
Asserts.v
PolicyTests.v
ApprovalTests.v
LeaseTestKit.v
DelegationTests.v
LeaseTests.v
LivenessTests.v
ProxyTestKit.v
ProxyTests.v
AuthTests.v
MitmTests.v
CookieTests.v
CryptoTestKit.v
CryptoTests.v
AuditTestKit.v
AuditTests.v
TomlTestKit.v
PolicyFileTests.v
IntegrationTests.v
JsonTestKit.v
GateTests.v
TokenTests.v
VaultTests.v
SdkTests.v
CliTests.v
BrowserTests.v
SerdeTests.v
