(* ===== verification/Prelude.v ===== *)
(** * CDP: the credential gate and the components around it

    CDP hands an agent process the use of a credential without the
    credential.  The agent, through the SDK or the CLI wrapper, finds the
    gate by its fingerprint file, registers with it over a Unix socket and
    asks for a credential; the gate identifies the process through the
    kernel, asks the policy engine (and, where a policy says so, the user),
    creates a lease, and starts a local HTTP proxy for it.  The agent sends
    its requests to the proxy, which authenticates it, checks each request
    against the lease's scope, fetches the credential from the vault (a file,
    or Bitwarden in a sandboxed subprocess), adds it, forwards the request to
    the addresses pinned when the lease was created, and strips the response.
    Leases can be renewed, delegated to other agents, and revoked with
    everything delegated from them; what happens is recorded in a
    hash-chained log.  A sandboxed browser captures session cookies, which an
    intercepting proxy uses for its hosts.

    ** Files and the sources they model (under [src/crates/])

    - [Prelude]: results with panics, machine integers, [chrono] instants,
      bytes, vectors used as sets, the [cdp] hint database and the shared
      tactics and lemmas; [StateM]: a state and result monad with its laws
      and the preservation predicate [keeps]; neither has a source.
    - [RustStr]: the operations of Rust's [str], [char] and [Path] the
      sources use, UTF-8 decoding, integer parsing, hexadecimal coding.
    - [Crypto], [SecureMem]: [cdp-crypto] (token framing, key derivation
      input, sealing, the secure pool; the locked buffer of [mempool.rs]).
    - [Glob], [PolicyTypes], [PolicyParser], [PolicyEvaluator],
      [PolicyEngine], [PolicyWatcher]: [cdp-policy] ([glob.rs], [types.rs]
      and [error.rs], [parser.rs], [evaluator.rs], [lib.rs] with
      [approval.rs], [watcher.rs]).
    - [AuditLog]: [cdp-audit] ([logger.rs], [integrity.rs]).
    - [LeaseTypes], [LeaseManager]: [cdp-lease] (data, scope algebra, channel
      binding and DNS pins; then every operation of the manager).
      [LeaseLemmas] has the lemmas on its sections, [LeaseSteps] the step
      relation and the invariant, [LeaseSafety] and [LeaseProps] what follows.
    - [ProxyScope], [ProxyAuth], [ProxyHttp], [ProxyManager],
      [ProxyServer], [Mitm], [MitmCookies]: [cdp-proxy] ([scope.rs] and [lib.rs];
      [auth.rs]; the request handler of [http.rs] with [dns.rs],
      [redirect.rs] and [sanitizer.rs]; [manager.rs]; the listener tasks of
      [http.rs]; [mitm.rs] and [mitm_ca.rs]; the latter with the browser's
      cookie store).
    - [UnixHost]: the host's files, modes and environment, as far as
      [std::fs] shows them; no source of its own.
    - [GateAgent], [GateConfig], [GateRouter], [GateFiles], [GateMain]:
      [cdp-gate] ([agent_verify.rs] and [error.rs]; [config.rs];
      [router.rs] and [types.rs]; [fingerprint.rs] and [listener.rs];
      [main.rs]).  [GateStages] takes the request and death handlers apart
      at the points where they wait, [GateSystem] is the gate as a step
      relation over these sections and its other operations, [GateVetting]
      records its runs as traces and follows one request through them,
      [GateDeaths] is what a queue of death notices comes to, and
      [GateDaemon] the running process: the accept loop, a task per
      connection, the monitors with their channel, the sweep, the watcher,
      the signals, and the shutdown of [gate_main] in sections, during which
      the other tasks go on.  [GateRaces] is what interleaving does to requests and
      deaths, [GateSite] the gate together with the listener tasks of its
      proxies.  [GateVault] is the gate's proxy over either vault,
      [SdkGate] the SDK and [WrapGate] the CLI wrapper connected to the gate,
      [GateAudit] the task that writes the lease manager's events to the log
      file.
    - [Token], [Mtls]: [cdp-token] ([issuer.rs], [revocation.rs],
      [validator.rs]) and the gate's [tls_listener.rs].
    - [VaultProtocol], [VaultBitwarden], [VaultWorker], [VaultManager],
      [VaultFile]: [cdp-vault] ([protocol.rs] and [lib.rs]; [bitwarden.rs];
      [child_main.rs] and [sandbox.rs]; [subprocess.rs]; [file.rs]).
    - [BrowserCookies], [Browser]: [cdp-browser] ([cookies.rs]; [sandbox.rs],
      [snapshot.rs] and [lib.rs]).
    - [Sdk]: [cdp-sdk]; [CliWrap]: [cdp-cli-wrap].
    - The repository's own tests, run on the model.  [Asserts] has the
      assertions; [PolicyTests], [PolicyFileTests] and [ApprovalTests] are
      the test modules of [cdp-policy], [LeaseTests], [DelegationTests] and
      [LivenessTests] of [cdp-lease], [ProxyTests], [AuthTests] and
      [MitmTests] of [cdp-proxy], [CryptoTests], [AuditTests], [GateTests],
      [TokenTests], [VaultTests], [SdkTests] and [CliTests] of those crates,
      [CookieTests] and [BrowserTests] of [cdp-browser]; [SerdeTests] has the
      tests of derived serialisation and [IntegrationTests] those of
      [cdp-integration-tests].  [Asserts] also has a host with a
      temporary directory; the files named [...TestKit] instantiate the
      classes the tests need: a manager with a clock,
      URIs and globs, toy ciphers and hashes, readers of TOML and
      of JSON.

    ** How code becomes definitions

    A struct is a [Record], an enum an [Inductive], with the source's names;
    a field gets a short prefix where two structs share its name.  A method
    that changes [self] takes the state and returns the new one, written out
    or in the monad [M] of [StateM]; fallible code returns [result], whose
    third constructor is a panic; a [HashMap] is a [gmap], a [Vec] a [list],
    a string its UTF-8 bytes.  An [n]-bit integer is a [Z] and additions that
    can overflow are [add_u], which panics or wraps as the build does
    ([Build]).  The clock and random draws are arguments or a class of the
    operating system.  Third-party code is the fields of a class
    ([HmacSha256], [Sha256], [Globset], [HttpCrate], [Network], [Resolver],
    [ProcFs], [RpcCodec], [LruCache], [Aead], [VaultCodec], [Rcgen], ...).
    Where a theorem relies on what such code documents, that is a second
    class of laws ([ChronoLaws], [GlobsetLaws], [HeaderMapLaws], [LruLaws],
    [EntryCodecLaws], [TokenLaws], [VaultCodecLaws], [AeadLaws], ...), and
    the witnesses at the end of the files instantiate both with concrete
    functions.

    Interfaces between components are classes as well: the proxy is proved
    against [CredentialProvider], which [GateMain.provider_at] implements
    from any [VaultBackend]; [GateVault.SecretVault] states what a vault
    promises, with instances for the file vault and the subprocess manager.
    Two processes that talk over a socket are joined by an instance of the
    reader and writer classes whose state contains the other side
    ([VaultManager.Link], [SdkGate.GateEnd]).

    The lease manager takes its locks several times within some operations.
    [LeaseManager] therefore has one definition per locked section and one
    per operation; [LeaseSteps.lstep] has the sections as its rules, and
    [LeaseProps.lease_operations_are_runs] shows that the operations are runs
    of it.  Everything said of [reachable] managers holds for every
    interleaving of concurrent callers.  The router's handlers wait between
    their locked sections in the same way (for a lock, the user, the
    resolver), so that [GateStages.advance] and [GateStages.advance_death]
    are one section each, and the theorems [sections_are_handle_request] and
    [sections_are_handle_death] say that without interruption they are the
    handlers of [GateRouter].  [GateSystem.gstep], [GateDaemon.dstep],
    [ProxyServer.sstep], [GateSite.site_step] and [PolicyWatcher.wstep] are
    step relations for the gate, for its process with all tasks, for the
    listener tasks, for gate and listener tasks together, and for the policy
    watcher beside a changing disk; [VaultManager.mstep] and [Mitm.castep]
    for callers that share the subprocess manager and the interception
    authority, whose operations give up their lock midway.  What the world answers (processes, user,
    resolver, network, vault, the order of a hash map) is chosen anew at
    every step.  A proxied request is one step there,
    from the use of its lease on, after which it touches no shared state; a
    request already past that point when its lease is revoked runs to its
    end, as in the code.

    ** What the theorems show

    - End to end: a lease the SDK obtains is stored by the gate and honoured
      by the proxy ([sdk_lease_is_honoured]); what the proxy sends upstream
      is the vault's secret for that lease's credential, and nothing else of
      the vault ([vault_secret_reaches_upstream]); once a lease is revoked
      nothing more is sent under its tree ([revocation_silences_proxy]).
      Over whole runs of the gate with its proxies, which refine both parts
      ([site_refines_gate_and_proxies]), whatever has left was sent for a
      request that presented a stored lease's token and was within its scope
      and quota ([upstream_traffic_is_granted]), and a dead agent's leases carry nothing more ([dead_agent_is_cut_off]).  A
      lease the CLI wrapper obtains is the wrapper's: its child is refused
      ([wrapped_command_is_refused]).
    - Gate: the process refines its abstract steps from start to exit
      ([running_gate_refines_steps]), answers the lines of every connection
      in order ([requests_answered_in_order]), and its tasks can always get
      an agent that exits torn down ([exited_agent_is_torn_down]), always finish the death
      they are at ([death_handling_ends]) and revoke what they read for it
      whatever happens meanwhile ([death_revokes_what_it_read]).  The gate's
      state stays well typed ([gate_state_is_well_formed]); in any
      trace a credential is granted only to the session's holder for a scope
      the policy or the user's answer in that trace approved
      ([credential_granted_to_session_holder]); taken by
      itself an approved request is
      granted ([approved_request_is_granted]) and a refused one changes
      nothing ([refused_request_changes_nothing]); nonces are not replayed;
      the death of a registered agent tears everything down.  The fingerprint
      file's life, its discovery by an agent, what start-up and shutdown
      leave behind ([fingerprint_file_lifecycle], [fingerprint_is_discovered],
      [failed_start_blocks_restart], [shutdown_leaves_no_trace]).
    - Leases: revocation reaches exactly the tree below a lease and ends
      ([revocation_cascades]), and no later step revives any of it
      ([revoked_tree_is_dead]); the invariant on tokens, pins, limits and
      expiry ([leases_stay_in_order]); confinement along delegation chains,
      where no list is left empty, and acyclicity ([descendants_stay_confined],
      [delegated_lease_starts_within_parent]); quota, lifetime and renewal
      accounting; the death of an agent ([agent_death_revokes_root_trees]).
    - Policies: the matcher decides the declarative globs
      ([glob_matcher_decides]); validation and loading are characterised;
      evaluation refines the three-tier specification
      ([evaluate_selects_best_tier]) and grants no more than the request and
      the policy ([granted_scope_confined]); approval resolves every decision
      and its message cannot leave its AppleScript literal; hot reload only
      installs valid policies and installs what it noticed
      ([hot_reload_keeps_policies_valid], [noticed_change_is_loaded]).
    - Proxy: the scope check decides [in_scope]; authentication needs all
      three factors; whatever hosts and resolver answer, traffic is confined
      to pinned addresses of scope hosts ([proxied_traffic_is_confined]) and
      responses carry no credential headers; listener ports are exclusive.
      Captured cookies influence connections to their own origin only
      ([captured_cookies_stay_with_origin]).
      The interception authority signs within its origins
      ([ca_signs_within_origins]) and [strip_set_cookie] is equivalent to a
      filter on lines.
    - Vault: the manager refines the backend across the process boundary
      ([manager_refines_backend]), what it fetches opens to the item's value
      ([fetched_credential_opens]), the worker needs its handshake and always
      exits, a crash lasts while no unlock is half done
      ([crash_is_final]), messages and vault files round-trip.
    - Browser: the login conversation is a prefix of its script, the process
      is killed, and the cookie store holds what the filter lets through.
    - CLI wrapper and mTLS: the child's environment is confined
      ([child_environment_confined]); the identity of a TLS client is that of
      its certificate ([client_identity_is_the_certificates]).
    - Memory: a secret does not outlive the buffer that holds it
      ([secrets_do_not_outlive_buffers]), though its page lock can end before
      it ([drop_unlocks_shared_page]).
    - Audit and tokens: the log file tells what became of every lease
      ([audit_file_tells_leases]); it verifies and resumes, verification decides
      the chain and the chain is tamper evident up to a SHA-256 collision of
      two entries ([audit_chain_tamper_evident]);
      MAC and HKDF inputs are injective; issued tokens verify, accepted ones
      were signed, single-use ones are accepted once.

    - Tests: every suite has a theorem that all its tests pass
      ([integration_tests_pass], [evaluator_tests_pass], [manager_tests_pass],
      [http_tests_pass], [gate_tests_pass], ...), which checks the definitions
      against what the authors of the code expect of it, by evaluation.

    Theorems that state surprising behaviour of the code stand beside these,
    for instance [LeaseProps.agent_death_keeps_delegated_leases],
    [LeaseProps.delegation_can_widen],
    [GateRaces.credential_granted_after_death],
    [GateRaces.death_before_enrolment_is_lost],
    [GateRaces.revoked_lease_gets_listener],
    [GateRouter.port_exhaustion_leaves_lease],
    [GateDaemon.listener_outlives_stop_all],
    [VaultManager.unlock_hides_refusal], [VaultManager.unlock_hides_crash],
    [Mitm.injected_cookie_is_glued], [Mitm.parallel_misses_differ],
    [Browser.stale_reply_answers_next_command] and
    [PolicyWatcher.change_between_rounds_is_missed].

    ** Fuel and bounds

    The traversal of [collect_descendants] has fuel for every stored lease
    and one more turn; in reachable managers the delegation links form a
    forest, so it always suffices ([revocation_cascades] proves the result is
    not [None]).  The glob matcher's fuel [glob_fuel] bounds its pushes by
    the visited set and is proved sufficient for all inputs.  The redirect
    loop counts down the five hops the source allows; the JSON search counts
    down the 64 levels the source allows.  [filter_loop] has the length of
    the header block, [create_tree] that of the path (a parent is shorter),
    and the vault worker's loop any number above the bytes of its input,
    which [worker_exits] proves to be enough.  A request takes at most ten
    sections, which [sections_are_handle_request] proves to be enough.
    Everything else is structural.

    ** What is not modelled

    Tracing output; the spawning of the revocation list's clean-up timer
    (its body is modelled; the gate's own tasks and timers are steps of
    [GateDaemon.dstep]); [watch_rotation], which returns a channel nothing is
    sent on; the TLS handshakes and byte copying of [rustls] and [tokio],
    which are parameters.  Timing (constant-time comparison) is outside the
    model: only the results of the comparisons are.  Of the repository's tests
    those of [disable_core_dumps] and [watch_rotation], the ignored handshake
    of [tls_listener.rs] and the tests of [types.rs] that build a value and
    read its fields are left out. *)

From stdpp Require Export base gmap strings list fin_maps pretty.
From Stdlib Require Export ZArith Lia.
From Stdlib Require Strings.Byte.

Abbreviation byte := Byte.byte.


#[global] Open Scope string_scope.
#[global] Open Scope list_scope.
#[global] Open Scope Z_scope.

Declare Scope rust_scope.
Delimit Scope rust_scope with rust.
#[global] Open Scope rust_scope.

(** ** Results

    [Ok] and [Err] are the constructors of [std::result::Result]; [Panic] is
    an unwinding task, which the callers of the modelled code never catch. *)

Inductive result (A E : Type) : Type :=
| Ok (a : A)
| Err (e : E)
| Panic.

Arguments Ok {A E} a.
Arguments Err {A E} e.
Arguments Panic {A E}.

Definition rbind {A B E : Type} (r : result A E) (k : A -> result B E) : result B E :=
  match r with
  | Ok a => k a
  | Err e => Err e
  | Panic => Panic
  end.

Definition map_err {A E F : Type} (f : E -> F) (r : result A E) : result A F :=
  match r with
  | Ok a => Ok a
  | Err e => Err (f e)
  | Panic => Panic
  end.

Definition ok_or {A E : Type} (o : option A) (e : E) : result A E :=
  match o with
  | Some a => Ok a
  | None => Err e
  end.

Notation "'let!' x ':=' e 'in' k" := (rbind e (fun x => k))
  (at level 10, x name, e at level 100, k at level 200) : rust_scope.
Notation "'let!' ' p ':=' e 'in' k" := (rbind e (fun x => match x with p => k end))
  (at level 10, p strict pattern, e at level 100, k at level 200) : rust_scope.

Definition is_ok {A E : Type} (r : result A E) : bool :=
  match r with Ok _ => true | _ => false end.

(** ** Machine integers

    A [w]-bit unsigned integer is a [Z] in [0, 2^w).  Overflow in [+] panics
    when the build has overflow checks (debug) and wraps when it has not
    (release); [Build] carries the choice. *)

Class Build : Type := { overflow_checks : bool }.

Definition U8 : Z := 2 ^ 8.
Definition U16 : Z := 2 ^ 16.
Definition U32 : Z := 2 ^ 32.
Definition U64 : Z := 2 ^ 64.
Definition I64 : Z := 2 ^ 63.

Definition in_u (m x : Z) : Prop := 0 <= x < m.

Definition add_u `{Build} {E : Type} (m a b : Z) : result Z E :=
  if a + b <? m then Ok (a + b)
  else if overflow_checks then Panic
  else Ok ((a + b) mod m).

(** [x as i64] for a [u64], and [x as u64] for an [i64]. *)
Definition as_i64 (x : Z) : Z := if x <? I64 then x else x - U64.
Definition as_u64 (x : Z) : Z := x mod U64.

(** ** Time

    A [DateTime<Utc>] is a number of nanoseconds since the epoch and a
    [TimeDelta] a number of nanoseconds.  The supported range belongs to the
    [chrono] crate; arithmetic that leaves it panics. *)

Class Chrono : Type := {
  MIN_UTC : Z;
  MAX_UTC : Z;
  MAX_DELTA_SECS : Z
}.

Definition NANOS : Z := 10 ^ 9.

(** [chrono::Duration::seconds] *)
Definition duration_seconds `{Chrono} {E : Type} (s : Z) : result Z E :=
  if Z.abs s <=? MAX_DELTA_SECS then Ok (s * NANOS) else Panic.

(** [DateTime + Duration] *)
Definition dt_add `{Chrono} {E : Type} (t d : Z) : result Z E :=
  if (MIN_UTC <=? t + d) && (t + d <=? MAX_UTC) then Ok (t + d) else Panic.

(** [TimeDelta::num_seconds] truncates towards zero. *)
Definition num_seconds (d : Z) : Z := Z.quot d NANOS.

(** ** Bytes *)

#[export] Instance byte_eq_dec : EqDecision byte := Byte.byte_eq_dec.

Definition byte_code (b : byte) : N := Byte.to_N b.

#[export] Instance byte_countable : Countable byte.
Proof.
  refine (inj_countable' Byte.to_N
    (fun n => match Byte.of_N n with Some b => b | None => Byte.x00 end) _).
  intros b. by rewrite Byte.of_to_N.
Defined.

(** [x.to_be_bytes()] for a [u64] or [u32] of [k] bytes. *)
Fixpoint be_bytes (k : nat) (x : N) : list byte :=
  match k with
  | O => []
  | S k' =>
      be_bytes k' (x / 256)%N ++
      [match Byte.of_N (x mod 256)%N with Some b => b | None => Byte.x00 end]
  end.

(** [u32::from_be_bytes]. *)
Definition from_be_bytes (l : list byte) : N :=
  fold_left (fun acc b => acc * 256 + Byte.to_N b)%N l 0%N.

(** ** Vectors used as sets *)

(** [v.contains(&x)] *)
Definition contains {A : Type} `{EqDecision A} (l : list A) (x : A) : bool :=
  bool_decide (x ∈ l).

(** [for x in b { if !acc.contains(x) { acc.push(x.clone()) } }] *)
Definition push_new {A : Type} `{EqDecision A} (acc b : list A) : list A :=
  fold_left (fun acc x => if contains acc x then acc else acc ++ [x]) b acc.

(** [a.iter().filter(|x| b.contains(x)).cloned().collect()] *)
Definition retain_in {A : Type} `{EqDecision A} (a b : list A) : list A :=
  List.filter (fun x => contains b x) a.

(** [Option::or] and [Option::unwrap_or] *)
Definition opt_or {A : Type} (a b : option A) : option A :=
  match a with Some _ => a | None => b end.
Definition unwrap_or {A : Type} (o : option A) (d : A) : A :=
  match o with Some a => a | None => d end.

(** ** Hash maps *)

(** The order in which a [HashMap] iterates. *)
Class MapIter : Type := { map_iter : forall A, gmap string A -> list (string * A) }.
Arguments map_iter {_} {A}.

Class MapIterLaws `{MapIter} : Prop := {
  map_iter_perm : forall A (m : gmap string A), map_iter m ≡ₚ map_to_list m
}.

(** ** Formatting *)

(** [{x}] for an unsigned or signed integer. *)
Definition display_Z (z : Z) : string := pretty z.

(** The character U+0022, which string literals here do not spell. *)
Definition dquote : string := String (Ascii.ascii_of_N 34) EmptyString.

(** [{s:?}] for a string: quoting and escaping, by the standard library. *)
Class Fmt : Type := { debug_str : string -> string }.

(** A formatter to evaluate examples with. *)
Definition plain_fmt : Fmt := {| debug_str := fun s => dquote +:+ s +:+ dquote |}.

(** [v.join(sep)] *)
Fixpoint join (sep : string) (l : list string) : string :=
  match l with
  | [] => EmptyString
  | [x] => x
  | x :: l' => x +:+ sep +:+ join sep l'
  end.

(** ** Tactics *)

(** Split every boolean conjunction, disjunction-free guard and equation in
    sight into propositions. *)
Ltac bool_to_prop :=
  repeat match goal with
  | H : (_ && _)%bool = true |- _ => apply andb_prop in H; destruct H
  | H : negb _ = true |- _ => apply negb_true_iff in H
  | H : negb _ = false |- _ => apply negb_false_iff in H
  | H : bool_decide _ = true |- _ => apply bool_decide_eq_true_1 in H
  | H : bool_decide _ = false |- _ => apply bool_decide_eq_false_1 in H
  | H : (_ <? _) = true |- _ => apply Z.ltb_lt in H
  | H : (_ <? _) = false |- _ => apply Z.ltb_ge in H
  | H : (_ <=? _) = true |- _ => apply Z.leb_le in H
  | H : (_ <=? _) = false |- _ => apply Z.leb_gt in H
  | H : (_ >? _) = true |- _ => rewrite Z.gtb_ltb in H; apply Z.ltb_lt in H
  | H : (_ >? _) = false |- _ => rewrite Z.gtb_ltb in H; apply Z.ltb_ge in H
  | H : (_ =? _) = true |- _ => apply Z.eqb_eq in H
  | H : (_ =? _) = false |- _ => apply Z.eqb_neq in H
  end.

(** Case on the scrutinee of the outermost match or conditional of [H],
    keeping the equation. *)
Ltac break_match_in H :=
  match type of H with
  | context [match ?x with _ => _ end] =>
      lazymatch x with
      | context [match _ with _ => _ end] => fail
      | _ => let E := fresh "Hm" in destruct x eqn:E
      end
  end.

Ltac break_match :=
  match goal with
  | |- context [match ?x with _ => _ end] =>
      lazymatch x with
      | context [match _ with _ => _ end] => fail
      | _ => let E := fresh "Hm" in destruct x eqn:E
      end
  end.

(** Follow every branch of a definition's body in [H] and drop those whose
    outcome contradicts it. *)
Ltac branches H :=
  repeat (break_match_in H; simplify_eq/=); simplify_eq/=.

Create HintDb cdp discriminated.

(** ** Shared lemmas *)

Lemma rbind_ok {A B E : Type} (r : result A E) (k : A -> result B E) b :
  rbind r k = Ok b <-> exists a, r = Ok a /\ k a = Ok b.
Proof.
  destruct r; simpl; split; try (intros (? & ? & ?)); try discriminate; try congruence.
  intros ?. by eexists.
Qed.

Lemma rbind_no_panic {A B E : Type} (r : result A E) (k : A -> result B E) :
  r <> Panic -> (forall a, k a <> Panic) -> rbind r k <> Panic.
Proof. destruct r; simpl; auto; discriminate. Qed.

Lemma ok_or_no_panic {A E : Type} (o : option A) (e : E) : ok_or o e <> Panic.
Proof. by destruct o. Qed.

Lemma ok_or_ok {A E : Type} (o : option A) (e : E) a : ok_or o e = Ok a <-> o = Some a.
Proof. destruct o; simpl; split; congruence. Qed.

(** An early return: [if b { return Err(e) } k]. *)
Lemma guard_ok {A E : Type} (b : bool) (e : E) (k : result A E) a :
  (if b then Err e else k) = Ok a <-> b = false /\ k = Ok a.
Proof. destruct b; naive_solver. Qed.

Lemma contains_spec {A : Type} `{EqDecision A} (l : list A) x :
  contains l x = true <-> x ∈ l.
Proof. apply bool_decide_eq_true. Qed.

Lemma contains_false {A : Type} `{EqDecision A} (l : list A) x :
  contains l x = false <-> x ∉ l.
Proof. apply bool_decide_eq_false. Qed.

Lemma retain_in_spec {A : Type} `{EqDecision A} (a b : list A) x :
  x ∈ retain_in a b <-> x ∈ a /\ x ∈ b.
Proof.
  unfold retain_in. rewrite !list_elem_of_In, filter_In, contains_spec.
  by rewrite list_elem_of_In.
Qed.

Lemma push_new_spec {A : Type} `{EqDecision A} (b acc : list A) x :
  x ∈ push_new acc b <-> x ∈ acc \/ x ∈ b.
Proof.
  revert acc. induction b as [|y b IH]; intros acc; simpl.
  { set_solver. }
  unfold push_new in *; simpl. rewrite IH.
  destruct (contains acc y) eqn:E.
  - apply contains_spec in E. set_solver.
  - set_solver.
Qed.

Lemma push_new_NoDup {A : Type} `{EqDecision A} (b acc : list A) :
  NoDup acc -> NoDup (push_new acc b).
Proof.
  revert acc. induction b as [|y b IH]; intros acc Hnd; simpl; [done|].
  unfold push_new in *; simpl. apply IH.
  destruct (contains acc y) eqn:E; [done|].
  apply contains_false in E. apply NoDup_app. split; [done|].
  split; [set_solver|]. apply NoDup_singleton.
Qed.

Lemma forallb_spec {A : Type} (p : A -> bool) (l : list A) :
  forallb p l = true <-> forall x, x ∈ l -> p x = true.
Proof.
  rewrite forallb_forall. split; intros Hl x Hx.
  - apply Hl. by apply list_elem_of_In.
  - apply Hl. by apply list_elem_of_In.
Qed.

Lemma existsb_spec {A : Type} (p : A -> bool) (l : list A) :
  existsb p l = true <-> exists x, x ∈ l /\ p x = true.
Proof.
  rewrite existsb_exists. by setoid_rewrite list_elem_of_In.
Qed.

Lemma existsb_false {A : Type} (p : A -> bool) (l : list A) :
  existsb p l = false <-> forall x, x ∈ l -> p x = false.
Proof.
  split.
  - intros He x Hx. destruct (p x) eqn:E; [|done].
    assert (existsb p l = true) by (apply existsb_spec; eauto). congruence.
  - intros Hf. destruct (existsb p l) eqn:E; [|done].
    apply existsb_spec in E as (x & Hx & Hp). rewrite Hf in Hp; done.
Qed.

Lemma add_u_ok `{Build} {E : Type} m a b : a + b < m -> add_u (E:=E) m a b = Ok (a + b).
Proof. intros. unfold add_u. by rewrite (proj2 (Z.ltb_lt _ _)). Qed.

Lemma add_u_range `{Build} {E : Type} m a b c :
  0 < m -> 0 <= a -> 0 <= b -> add_u (E:=E) m a b = Ok c -> in_u m c.
Proof.
  intros ??? Ha. unfold add_u, in_u in *. branches Ha; bool_to_prop; [lia|].
  by apply Z.mod_pos_bound.
Qed.

Lemma as_i64_small x : x < I64 -> as_i64 x = x.
Proof. intros. unfold as_i64. by rewrite (proj2 (Z.ltb_lt _ _)). Qed.

(** Wrapping addition agrees with the signed reading while the signed sum
    stays in range. *)
Lemma as_i64_add `{Build} {E : Type} a b c :
  in_u U64 a -> in_u U64 b -> add_u (E:=E) U64 a b = Ok c ->
  - I64 <= as_i64 a + as_i64 b < I64 -> as_i64 c = as_i64 a + as_i64 b.
Proof.
  intros Ha Hb Hc Hr.
  assert (exists k, c = a + b - k * U64 /\ 0 <= c < U64) as (k & -> & Hk).
  { assert (in_u U64 c) as Hin by (eapply add_u_range; [| | |exact Hc]; unfold in_u, U64 in *; lia).
    unfold add_u in Hc. branches Hc; [exists 0; unfold in_u in *; lia|].
    exists ((a + b) / U64). split; [|exact Hin]. rewrite Z.mod_eq by (unfold U64; lia). lia. }
  unfold as_i64, in_u, U64, I64 in *.
  destruct (a <? 2 ^ 63) eqn:?, (b <? 2 ^ 63) eqn:?, (a + b - k * 2 ^ 64 <? 2 ^ 63) eqn:?;
    bool_to_prop; lia.
Qed.

Lemma as_i64_le x : as_i64 x <= x.
Proof. unfold as_i64, U64. break_match; lia. Qed.

Lemma as_i64_range x : in_u U64 x -> - I64 <= as_i64 x < I64.
Proof. unfold in_u, as_i64, U64, I64. intros. break_match; bool_to_prop; lia. Qed.

Create Rewrite HintDb cdp.

#[export] Hint Rewrite @contains_spec @contains_false @retain_in_spec @push_new_spec : cdp.
