(* ===== verification/StateM.v ===== *)
(** * State, errors and panics together

    The methods of [cdp-vault], [cdp-browser], [cdp-sdk] and [cdp-cli-wrap]
    take [&mut self] or talk to the operating system, and leave early with
    [?].  Here such a method is a function from the state to the state it
    leaves behind and a [result]; on an early return the state is the one
    reached so far, as in the code.  Sequencing is stdpp's [mbind], so the
    bodies read [x ← e; k]. *)

From S2P Require Import Prelude.

(** ** The monad *)

Definition M (S E A : Type) : Type := S -> S * result A E.

#[export] Instance M_ret S E : MRet (M S E) := fun A a s => (s, Ok a).

#[export] Instance M_bind S E : MBind (M S E) := fun A B k m s =>
  match m s with
  | (s', Ok a) => k a s'
  | (s', Err e) => (s', Err e)
  | (s', Panic) => (s', Panic)
  end.

#[export] Instance M_fmap S E : FMap (M S E) := fun A B f m s =>
  match m s with
  | (s', Ok a) => (s', Ok (f a))
  | (s', Err e) => (s', Err e)
  | (s', Panic) => (s', Panic)
  end.

(** [return Err(e)] *)
Definition fail {S E A : Type} (e : E) : M S E A := fun s => (s, Err e).

(** A pure fallible call. *)
Definition lift {S E A : Type} (r : result A E) : M S E A := fun s => (s, r).

Definition get {S E : Type} : M S E S := fun s => (s, Ok s).
Definition gets {S E A : Type} (f : S -> A) : M S E A := fun s => (s, Ok (f s)).
Definition modify {S E : Type} (f : S -> S) : M S E unit := fun s => (f s, Ok tt).

(** [m.map_err(f)] *)
Definition map_errM {S E F A : Type} (f : E -> F) (m : M S E A) : M S F A := fun s =>
  let '(s', r) := m s in (s', map_err f r).

(** The outcome of [m] as a value, for [match m.await { Ok .. Err .. }]. *)
Definition attempt {S E F A : Type} (m : M S E A) : M S F (result A E) := fun s =>
  let '(s', r) := m s in
  (s', match r with Panic => Panic | _ => Ok r end).

(** A call on a part of the state. *)
Definition zoom {S T E A : Type} (view : S -> T) (upd : T -> S -> S) (m : M T E A) : M S E A := fun s =>
  let '(t, r) := m (view s) in (upd t s, r).

(** [for x in l { f(x)?; }] *)
Fixpoint for_each {S E A : Type} (l : list A) (f : A -> M S E unit) : M S E unit :=
  match l with
  | [] => mret tt
  | x :: l' => _ ← f x; for_each l' f
  end.

(** ** Lemmas *)

Section Laws.
Context {S E : Type}.

Lemma bind_eq {A B : Type} (m : M S E A) (k : A -> M S E B) s :
  (m ≫= k) s = match m s with
               | (s', Ok a) => k a s'
               | (s', Err e) => (s', Err e)
               | (s', Panic) => (s', Panic)
               end.
Proof. done. Qed.

Lemma bind_ok {A B : Type} (m : M S E A) (k : A -> M S E B) s s'' b :
  (m ≫= k) s = (s'', Ok b) <-> exists s' a, m s = (s', Ok a) /\ k a s' = (s'', Ok b).
Proof.
  rewrite bind_eq. destruct (m s) as [s' [a|e|]]; split.
  - intros ?. by exists s', a.
  - intros (? & ? & [= <- <-] & ?). done.
  - discriminate.
  - intros (? & ? & ? & ?). discriminate.
  - discriminate.
  - intros (? & ? & ? & ?). discriminate.
Qed.

Lemma bind_run {A B : Type} (m : M S E A) (k : A -> M S E B) s s' a :
  m s = (s', Ok a) -> (m ≫= k) s = k a s'.
Proof. intros Hm. by rewrite bind_eq, Hm. Qed.

Lemma bind_err {A B : Type} (m : M S E A) (k : A -> M S E B) s s' e :
  m s = (s', Err e) -> (m ≫= k) s = (s', Err e).
Proof. intros Hm. by rewrite bind_eq, Hm. Qed.

Lemma lift_ok {A : Type} (r : result A E) (s s' : S) a : lift r s = (s', Ok a) <-> s' = s /\ r = Ok a.
Proof. unfold lift. split; [intros [= <- ->]|intros [-> ->]]; done. Qed.

(** What a computation keeps, its parts keep: an invariant of the state that
    every call of a body preserves is preserved by the body, whichever way
    the body is left. *)
Definition keeps {A : Type} (I : S -> Prop) (m : M S E A) : Prop := forall s, I s -> I (m s).1.

Lemma keeps_bind {A B : Type} I (m : M S E A) (k : A -> M S E B) :
  keeps I m -> (forall a, keeps I (k a)) -> keeps I (m ≫= k).
Proof.
  intros Hm Hk s Hs. rewrite bind_eq. specialize (Hm s Hs).
  destruct (m s) as [s' [a|e|]]; simpl in *; [by apply Hk|done..].
Qed.

Lemma keeps_ret {A : Type} I (a : A) : keeps I (mret a).
Proof. by intros s Hs. Qed.

Lemma keeps_fail {A : Type} I (e : E) : keeps (A:=A) I (fail e).
Proof. by intros s Hs. Qed.

Lemma keeps_lift {A : Type} I (r : result A E) : keeps I (lift r).
Proof. by intros s Hs. Qed.

Lemma keeps_gets {A : Type} I (f : S -> A) : keeps I (gets f).
Proof. by intros s Hs. Qed.
End Laws.

Lemma map_errM_ok {S E F A : Type} (f : E -> F) (m : M S E A) s s' a :
  map_errM f m s = (s', Ok a) <-> m s = (s', Ok a).
Proof. unfold map_errM. destruct (m s) as [t [b|e|]]; simpl; split; intros Heq; by simplify_eq. Qed.

Lemma keeps_map_errM {S E F A : Type} I (f : E -> F) (m : M S E A) :
  keeps I m -> keeps I (map_errM f m).
Proof. intros Hm s Hs. specialize (Hm s Hs). unfold map_errM. by destruct (m s). Qed.

Lemma keeps_attempt {S E F A : Type} I (m : M S E A) :
  keeps I m -> keeps I (attempt (F:=F) m).
Proof. intros Hm s Hs. specialize (Hm s Hs). unfold attempt. by destruct (m s). Qed.

#[export] Hint Resolve keeps_bind keeps_ret keeps_fail keeps_lift keeps_gets keeps_map_errM
  keeps_attempt : cdp.

(** Run the first call of a body in the goal with an equation for it. *)
Ltac run H := rewrite (bind_run _ _ _ _ _ H).
