(* ===== verification/RustStr.v ===== *)
(** * Rust strings

    The part of [str], [String], [char] and integer parsing and printing the
    sources use.  A Rust string is its UTF-8 encoding, a [string] of bytes;
    [chars] groups the bytes of one scalar value.  Hexadecimal coding is the
    same code in [cdp-crypto/src/hmac_ops.rs], [cdp-policy/src/parser.rs],
    [cdp-proxy/src/auth.rs], [cdp-lease/src/manager.rs] and the gate, so it
    is modelled once here. *)

From S2P Require Import Prelude.

#[local] Arguments String.append !_ _ /.

(** ** Bytes of a string *)

Definition code (c : Ascii.ascii) : N := Ascii.N_of_ascii c.

(** [s.as_bytes()] and [String::from_utf8_unchecked]. *)
Definition as_bytes (s : string) : list byte := String.list_byte_of_string s.
Definition of_bytes (l : list byte) : string := String.string_of_list_byte l.

(** A UTF-8 continuation byte, 0b10xxxxxx. *)
Definition is_cont (c : Ascii.ascii) : bool := (128 <=? code c)%N && (code c <? 192)%N.

(** [s.len()] *)
Definition len (s : string) : Z := Z.of_nat (String.length s).

(** ** Scalar values *)

Fixpoint chars_from (cur : string) (s : string) : list string :=
  match s with
  | EmptyString => if bool_decide (cur = EmptyString) then [] else [cur]
  | String c s' =>
      if is_cont c || bool_decide (cur = EmptyString)
      then chars_from (cur +:+ String c EmptyString) s'
      else cur :: chars_from (String c EmptyString) s'
  end.

(** [s.chars()], each scalar value as its encoding. *)
Definition chars (s : string) : list string := chars_from EmptyString s.

Definition enc (l : list N) : string := String.string_of_list_ascii (map Ascii.ascii_of_N l).

(** The encodings of the scalar values with the White_Space property. *)
Definition white_space : list string :=
  map enc
   [[9]; [10]; [11]; [12]; [13]; [32]; [194; 133]; [194; 160]; [225; 154; 128];
    [226; 128; 128]; [226; 128; 129]; [226; 128; 130]; [226; 128; 131];
    [226; 128; 132]; [226; 128; 133]; [226; 128; 134]; [226; 128; 135];
    [226; 128; 136]; [226; 128; 137]; [226; 128; 138]; [226; 128; 168];
    [226; 128; 169]; [226; 128; 175]; [226; 129; 159]; [227; 128; 128]]%N.

(** [char::is_whitespace] *)
Definition is_whitespace (c : string) : bool := contains white_space c.

Fixpoint drop_while {A : Type} (p : A -> bool) (l : list A) : list A :=
  match l with
  | [] => []
  | x :: l' => if p x then drop_while p l' else l
  end.

Definition concat_str (l : list string) : string := fold_right String.append EmptyString l.

(** [s.trim()] *)
Definition trim (s : string) : string :=
  concat_str (rev (drop_while is_whitespace (rev (drop_while is_whitespace (chars s))))).

(** [s.trim_end()] *)
Definition trim_end (s : string) : string :=
  concat_str (rev (drop_while is_whitespace (rev (chars s)))).

(** ** Lossy decoding *)

Definition byte_in (lo hi : N) (b : byte) : bool :=
  ((lo <=? Byte.to_N b) && (Byte.to_N b <=? hi))%N.

(** U+FFFD *)
Definition replacement : list byte := [Byte.xef; Byte.xbf; Byte.xbd].

(** What may follow a three- or four-byte lead. *)
Definition second_ok (lead b : byte) : bool :=
  if bool_decide (lead = Byte.xe0) then byte_in 160 191 b
  else if bool_decide (lead = Byte.xed) then byte_in 128 159 b
  else if bool_decide (lead = Byte.xf0) then byte_in 144 191 b
  else if bool_decide (lead = Byte.xf4) then byte_in 128 143 b
  else byte_in 128 191 b.

(** [String::from_utf8_lossy]: each maximal ill-formed prefix becomes one
    replacement character. *)
Fixpoint utf8_lossy (l : list byte) : list byte :=
  match l with
  | [] => []
  | a :: l1 =>
      if byte_in 0 127 a then a :: utf8_lossy l1
      else if byte_in 194 223 a then
        match l1 with
        | b :: l2 => if byte_in 128 191 b then a :: b :: utf8_lossy l2
                     else replacement ++ utf8_lossy l1
        | [] => replacement
        end
      else if byte_in 224 239 a then
        match l1 with
        | b :: l2 =>
            if second_ok a b then
              match l2 with
              | c :: l3 => if byte_in 128 191 c then a :: b :: c :: utf8_lossy l3
                           else replacement ++ utf8_lossy l2
              | [] => replacement
              end
            else replacement ++ utf8_lossy l1
        | [] => replacement
        end
      else if byte_in 240 244 a then
        match l1 with
        | b :: l2 =>
            if second_ok a b then
              match l2 with
              | c :: l3 =>
                  if byte_in 128 191 c then
                    match l3 with
                    | d :: l4 => if byte_in 128 191 d then a :: b :: c :: d :: utf8_lossy l4
                                 else replacement ++ utf8_lossy l3
                    | [] => replacement
                    end
                  else replacement ++ utf8_lossy l2
              | [] => replacement
              end
            else replacement ++ utf8_lossy l1
        | [] => replacement
        end
      else replacement ++ utf8_lossy l1
  end.

(** [path.to_string_lossy()] and [path.display()] for the bytes of a path. *)
Definition to_string_lossy (path : string) : string := of_bytes (utf8_lossy (as_bytes path)).

(** ** Splitting *)

Fixpoint split_from (sep : Ascii.ascii) (cur : string) (s : string) : list string :=
  match s with
  | EmptyString => [cur]
  | String c s' =>
      if bool_decide (c = sep) then cur :: split_from sep EmptyString s'
      else split_from sep (cur +:+ String c EmptyString) s'
  end.

(** [s.split(sep)] for an ASCII separator. *)
Definition split (sep : Ascii.ascii) (s : string) : list string := split_from sep EmptyString s.

(** [s.splitn(2, sep)] *)
Fixpoint splitn2_from (sep : Ascii.ascii) (cur : string) (s : string) : list string :=
  match s with
  | EmptyString => [cur]
  | String c s' =>
      if bool_decide (c = sep) then [cur; s']
      else splitn2_from sep (cur +:+ String c EmptyString) s'
  end.

Definition splitn2 (sep : Ascii.ascii) (s : string) : list string :=
  splitn2_from sep EmptyString s.

(** [s.strip_prefix(p)] *)
Fixpoint strip_prefix (p s : string) : option string :=
  match p, s with
  | EmptyString, _ => Some s
  | String a p', String b s' => if bool_decide (a = b) then strip_prefix p' s' else None
  | String _ _, EmptyString => None
  end.

Definition newline : Ascii.ascii := Ascii.ascii_of_N 10.
Definition carriage_return : Ascii.ascii := Ascii.ascii_of_N 13.

Fixpoint strip_cr (s : string) : string :=
  match s with
  | EmptyString => EmptyString
  | String c EmptyString => if bool_decide (c = carriage_return) then EmptyString else s
  | String c s' => String c (strip_cr s')
  end.

(** [split_inclusive('\n')]: every piece but a trailing empty one; a piece
    ended by a line feed loses it and one carriage return before it. *)
Fixpoint lines_of (pieces : list string) : list string :=
  match pieces with
  | [] => []
  | [last] => if bool_decide (last = EmptyString) then [] else [last]
  | p :: rest => strip_cr p :: lines_of rest
  end.

(** [s.lines()] *)
Definition lines (s : string) : list string := lines_of (split newline s).

Fixpoint words_from (cur : string) (cs : list string) : list string :=
  match cs with
  | [] => if bool_decide (cur = EmptyString) then [] else [cur]
  | c :: cs' =>
      if is_whitespace c
      then (if bool_decide (cur = EmptyString) then [] else [cur]) ++ words_from EmptyString cs'
      else words_from (cur +:+ c) cs'
  end.

(** [s.split_whitespace()] *)
Definition split_whitespace (s : string) : list string := words_from EmptyString (chars s).

(** [hay.contains(needle)] for strings *)
Fixpoint str_contains (hay needle : string) : bool :=
  match strip_prefix needle hay with
  | Some _ => true
  | None => match hay with
            | EmptyString => false
            | String _ hay' => str_contains hay' needle
            end
  end.

(** ** Paths *)

(** Unix paths as text: [Path::parent], [file_name] and [join] work on the
    pieces between slashes, where empty pieces and [.] after the first piece
    are not components. *)
Definition path_sep : Ascii.ascii := Ascii.ascii_of_N 47.

Definition pieces_rev (p : string) : list string := rev (split path_sep p).

(** Drop what is not a component at the end, never the first piece. *)
Fixpoint trim_pieces (l : list string) : list string :=
  match l with
  | [] | [_] => l
  | x :: l' => if bool_decide (x = EmptyString) || bool_decide (x = ".") then trim_pieces l' else l
  end.

Definition of_pieces (l : list string) : string :=
  match l with
  | [EmptyString] => "/"
  | _ => join "/" (rev l)
  end.

(** [path.parent()] *)
Definition path_parent (p : string) : option string :=
  match trim_pieces (pieces_rev p) with
  | [] | [EmptyString] => None
  | [_] => Some EmptyString
  | _ :: rest => Some (of_pieces (trim_pieces rest))
  end.

(** [path.file_name()] *)
Definition path_file_name (p : string) : option string :=
  match trim_pieces (pieces_rev p) with
  | [] => None
  | x :: _ => if contains [EmptyString; "."; ".."] x then None else Some x
  end.

Definition ends_with_sep (p : string) : bool :=
  match pieces_rev p with
  | EmptyString :: _ :: _ => true
  | _ => false
  end.

(** [base.join(p)] *)
Definition path_join (base p : string) : string :=
  match p with
  | String c _ =>
      if bool_decide (c = path_sep) then p
      else if bool_decide (base = EmptyString) || ends_with_sep base then base +:+ p
      else base +:+ "/" +:+ p
  | EmptyString =>
      if bool_decide (base = EmptyString) || ends_with_sep base then base else base +:+ "/"
  end.

(** ** ASCII case *)

Definition to_ascii_lowercase (c : Ascii.ascii) : Ascii.ascii :=
  if ((65 <=? code c) && (code c <=? 90))%N then Ascii.ascii_of_N (code c + 32) else c.

Fixpoint lowercase (s : string) : string :=
  match s with
  | EmptyString => EmptyString
  | String c s' => String (to_ascii_lowercase c) (lowercase s')
  end.

(** [a.eq_ignore_ascii_case(b)] *)
Definition eq_ignore_ascii_case (a b : string) : bool := bool_decide (lowercase a = lowercase b).

(** ** Integers *)

Definition digit10 (c : Ascii.ascii) : option Z :=
  if ((48 <=? code c) && (code c <=? 57))%N then Some (Z.of_N (code c) - 48) else None.

Fixpoint parse_digits (m acc : Z) (s : string) : option Z :=
  match s with
  | EmptyString => Some acc
  | String c s' =>
      match digit10 c with
      | None => None
      | Some d => if acc * 10 + d <? m then parse_digits m (acc * 10 + d) s' else None
      end
  end.

Definition plus_sign : Ascii.ascii := Ascii.ascii_of_N 43.

(** [s.parse::<uN>()] for an unsigned type of modulus [m]: an optional [+],
    at least one digit, and no overflow. *)
Definition parse_u (m : Z) (s : string) : option Z :=
  match s with
  | EmptyString => None
  | String c EmptyString => parse_digits m 0 s
  | String c s' => if bool_decide (c = plus_sign) then parse_digits m 0 s' else parse_digits m 0 s
  end.

(** ** Hexadecimal *)

Definition hex_digit (n : N) : Ascii.ascii :=
  if (n <? 10)%N then Ascii.ascii_of_N (48 + n) else Ascii.ascii_of_N (87 + n).

(** [write!(s, "{b:02x}")] *)
Definition hex_byte (b : byte) : string :=
  String (hex_digit (Byte.to_N b / 16)) (String (hex_digit (Byte.to_N b mod 16)) EmptyString).

(** [bytes_to_hex], [hex_encode]: lowercase, two digits per byte. *)
Fixpoint bytes_to_hex (l : list byte) : string :=
  match l with
  | [] => EmptyString
  | b :: l' => hex_byte b +:+ bytes_to_hex l'
  end.

Definition hex_value (c : Ascii.ascii) : option N :=
  let n := code c in
  if ((48 <=? n) && (n <=? 57))%N then Some (n - 48)%N
  else if ((97 <=? n) && (n <=? 102))%N then Some (n - 87)%N
  else if ((65 <=? n) && (n <=? 70))%N then Some (n - 55)%N
  else None.

(** [u8::from_str_radix(s, 16)] on a two-byte slice: a leading [+] is a sign,
    not a digit. *)
Definition from_str_radix_16 (a b : Ascii.ascii) : option byte :=
  if bool_decide (a = plus_sign) then
    match hex_value b with
    | Some y => Byte.of_N y
    | None => None
    end
  else
    match hex_value a, hex_value b with
    | Some x, Some y => Byte.of_N (16 * x + y)
    | _, _ => None
    end.

(** The loop over [(0..s.len()).step_by(2)]: slicing inside a scalar value
    panics, and [collect] into an [Option] stops at the first [None]. *)
Fixpoint hex_pairs {E : Type} (s : string) : result (option (list byte)) E :=
  match s with
  | EmptyString => Ok (Some [])
  | String a EmptyString => Ok None
  | String a (String b s') =>
      if is_cont a || (match s' with String c _ => is_cont c | EmptyString => false end) then Panic
      else
        match from_str_radix_16 a b with
        | None => Ok None
        | Some x =>
            match hex_pairs s' with
            | Ok (Some l) => Ok (Some (x :: l))
            | Ok None => Ok None
            | Err e => Err e
            | Panic => Panic
            end
        end
  end.

(** [hex_to_bytes] / [decode_hex]: an odd length is refused before any slice. *)
Definition hex_to_bytes {E : Type} (s : string) : result (option (list byte)) E :=
  if negb (Z.even (len s)) then Ok None else hex_pairs s.

(** A string that is all ASCII, such as a header value accepted by [to_str]. *)
Fixpoint is_ascii (s : string) : bool :=
  match s with
  | EmptyString => true
  | String c s' => (code c <? 128)%N && is_ascii s'
  end.

(** ** Lemmas *)

Lemma append_assoc (a b c : string) : (a +:+ b) +:+ c = a +:+ (b +:+ c).
Proof. induction a; simpl; [done|]. by f_equal. Qed.

Lemma append_nil_r (a : string) : a +:+ EmptyString = a.
Proof. induction a; simpl; [done|]. by f_equal. Qed.

Lemma append_inj_l (p a b : string) : p +:+ a = p +:+ b -> a = b.
Proof. induction p; simpl; [done|]. intros [= ?]. auto. Qed.

Lemma strip_prefix_app p s : strip_prefix p (p +:+ s) = Some s.
Proof. induction p; simpl; [done|]. by rewrite bool_decide_eq_true_2. Qed.

Lemma strip_prefix_Some p s r : strip_prefix p s = Some r <-> s = p +:+ r.
Proof.
  split.
  - revert s. induction p as [|a p IH]; intros [|b s]; simpl; intros Hs; simplify_eq/=; try done.
    case_bool_decide; simplify_eq/=. by rewrite (IH _ Hs).
  - intros ->. apply strip_prefix_app.
Qed.

Lemma hex_byte_radix b :
  from_str_radix_16 (hex_digit (Byte.to_N b / 16)) (hex_digit (Byte.to_N b mod 16)) = Some b.
Proof. destruct b; vm_compute; reflexivity. Qed.

Lemma hex_byte_ascii b :
  is_cont (hex_digit (Byte.to_N b / 16)) = false.
Proof. destruct b; vm_compute; reflexivity. Qed.

Lemma hex_pairs_bytes {E : Type} l : hex_pairs (E:=E) (bytes_to_hex l) = Ok (Some l).
Proof.
  induction l as [|b l IH]; [done|].
  simpl. rewrite hex_byte_ascii, hex_byte_radix, IH. simpl.
  destruct l as [|b' l]; [done|]. simpl. by rewrite hex_byte_ascii.
Qed.

Lemma len_bytes_to_hex l : len (bytes_to_hex l) = 2 * Z.of_nat (length l).
Proof. unfold len. induction l as [|b l IH]; simpl in *; lia. Qed.

(** The decoder inverts the encoder. *)
Lemma hex_roundtrip {E : Type} l : hex_to_bytes (E:=E) (bytes_to_hex l) = Ok (Some l).
Proof.
  unfold hex_to_bytes. rewrite len_bytes_to_hex, Z.even_mul. apply hex_pairs_bytes.
Qed.

Lemma bytes_to_hex_inj l1 l2 : bytes_to_hex l1 = bytes_to_hex l2 -> l1 = l2.
Proof.
  intros Heq. pose proof (hex_pairs_bytes (E:=unit) l1) as H1.
  rewrite Heq, hex_pairs_bytes in H1. congruence.
Qed.

Lemma is_ascii_not_cont c : (code c <? 128)%N = true -> is_cont c = false.
Proof. unfold is_cont. intros Hc%N.ltb_lt. apply andb_false_iff. left. apply N.leb_gt. lia. Qed.

(** Induction two characters at a time, the shape of the decoder's loop. *)
Lemma string_pair_ind (P : string -> Prop) :
  P EmptyString -> (forall a, P (String a EmptyString)) ->
  (forall a b s, P s -> P (String a (String b s))) -> forall s, P s.
Proof.
  intros H0 H1 H2 s. assert (P s /\ forall a, P (String a s)) as [? _]; [|done].
  induction s as [|c s [IH1 IH2]]; auto.
Qed.

Lemma hex_pairs_no_err {E : Type} s (e : E) : hex_pairs s <> Err e.
Proof.
  induction s as [|a|a b s IH] using string_pair_ind; try done. simpl.
  destruct (_ || _); [done|]. destruct (from_str_radix_16 a b); [|done].
  destruct (hex_pairs s) as [[?|]|?|]; congruence.
Qed.

Lemma hex_to_bytes_no_err {E : Type} s (e : E) : hex_to_bytes s <> Err e.
Proof. unfold hex_to_bytes. destruct (negb _); [done|]. apply hex_pairs_no_err. Qed.

Lemma hex_pairs_ascii {E : Type} s : is_ascii s = true -> hex_pairs (E:=E) s <> Panic.
Proof.
  induction s as [|a|a b s IH] using string_pair_ind; intros Ha; try done.
  simpl in *. bool_to_prop. rewrite (is_ascii_not_cont a) by done.
  assert ((match s with String c _ => is_cont c | EmptyString => false end) = false) as ->.
  { destruct s as [|c s]; [done|]. simpl in *. bool_to_prop. by apply is_ascii_not_cont. }
  simpl. destruct (from_str_radix_16 a b); [|done].
  destruct (hex_pairs s) as [[l|]|e|]; naive_solver.
Qed.

(** Decoding an ASCII string never panics. *)
Lemma hex_to_bytes_ascii {E : Type} s :
  is_ascii s = true -> exists o, hex_to_bytes (E:=E) s = Ok o.
Proof.
  intros Ha. destruct (hex_to_bytes s) as [o|e|] eqn:Eh; [by eexists|..].
  - by apply hex_to_bytes_no_err in Eh.
  - unfold hex_to_bytes in Eh. destruct (negb _); [done|]. by apply hex_pairs_ascii in Eh.
Qed.
