(* ===== verification/Crypto.v ===== *)
(** * cdp-crypto: tokens, key derivation, sealing and the credential pool

    Models [cdp-crypto/src/hmac_ops.rs], [hkdf_ops.rs], [cipher.rs] and
    [mempool.rs].  The primitives themselves (HMAC-SHA256, HKDF-SHA256,
    ChaCha20-Poly1305) are crates the sources call: they are the fields of
    the classes [HmacSha256], [HkdfSha256] and [Aead].  What this crate adds,
    and what is proved here, is the framing of their inputs. *)

From S2P Require Import Prelude RustStr.

(** ** Errors *)

Inductive CryptoError : Type :=
| Encryption (m : string)
| Decryption
| KeyDerivation (m : string)
| HmacVerification
| SystemCall (m : string)
| InvalidTokenFormat.

(** ** Primitives *)

Class HmacSha256 : Type := { hmac_sha256 : list byte -> list byte -> list byte }.

Class HkdfSha256 : Type := {
  hkdf_expand : list byte -> list byte -> list byte -> nat -> list byte + string
}.

Class Aead : Type := {
  aead_encrypt : list byte -> list byte -> list byte -> list byte + string;
  aead_decrypt : list byte -> list byte -> list byte -> option (list byte)
}.

(** ** HMAC tokens *)

(** [(part.len() as u64).to_be_bytes()] followed by the part. *)
Definition frame (part : list byte) : list byte :=
  be_bytes 8 (N.of_nat (length part)) ++ part.

(** The bytes fed to the MAC: the domain tag, then every framed part. *)
Definition mac_input (domain : list byte) (parts : list (list byte)) : list byte :=
  fold_left (fun acc part => acc ++ frame part) parts domain.

Definition compute_hmac_bytes `{HmacSha256} (key domain : list byte)
    (parts : list (list byte)) : list byte :=
  hmac_sha256 key (mac_input domain parts).

Definition SESSION_DOMAIN : list byte := as_bytes "cdp-session-v1" ++ [Byte.x00].
Definition LEASE_DOMAIN : list byte := as_bytes "cdp-lease-v1" ++ [Byte.x00].

(** [mac.verify_slice(&bytes).is_ok()]: the bytes are the whole tag. *)
Definition verify_slice (tag bytes : list byte) : bool := bool_decide (bytes = tag).

Definition generate_session_token `{HmacSha256} (gate_key fingerprint connection_id : list byte)
    : string :=
  bytes_to_hex (compute_hmac_bytes gate_key SESSION_DOMAIN [fingerprint; connection_id]).

Definition verify_session_token `{HmacSha256} {E : Type}
    (gate_key fingerprint connection_id : list byte) (token : string) : result bool E :=
  let! dec := hex_to_bytes token in
  match dec with
  | None => Ok false
  | Some token_bytes =>
      let mac := SESSION_DOMAIN in
      let mac := mac ++ be_bytes 8 (N.of_nat (length fingerprint)) in
      let mac := mac ++ fingerprint in
      let mac := mac ++ be_bytes 8 (N.of_nat (length connection_id)) in
      let mac := mac ++ connection_id in
      Ok (verify_slice (hmac_sha256 gate_key mac) token_bytes)
  end.

Definition generate_lease_token `{HmacSha256} (gate_key : list byte) (lease_id : string)
    (fingerprint cb_nonce : list byte) : string :=
  bytes_to_hex (compute_hmac_bytes gate_key LEASE_DOMAIN
                  [as_bytes lease_id; fingerprint; cb_nonce]).

Definition verify_lease_token `{HmacSha256} {E : Type} (gate_key : list byte)
    (lease_id : string) (fingerprint cb_nonce : list byte) (token : string) : result bool E :=
  let! dec := hex_to_bytes token in
  match dec with
  | None => Ok false
  | Some token_bytes =>
      let mac := LEASE_DOMAIN in
      let mac := mac ++ be_bytes 8 (N.of_nat (length (as_bytes lease_id))) in
      let mac := mac ++ as_bytes lease_id in
      let mac := mac ++ be_bytes 8 (N.of_nat (length fingerprint)) in
      let mac := mac ++ fingerprint in
      let mac := mac ++ be_bytes 8 (N.of_nat (length cb_nonce)) in
      let mac := mac ++ cb_nonce in
      Ok (verify_slice (hmac_sha256 gate_key mac) token_bytes)
  end.

(** ** Key derivation *)

(** The HKDF [info] field; [len as u32] keeps the low 32 bits. *)
Definition hkdf_info (credential_ref lease_id : string) : list byte :=
  let cr_bytes := as_bytes credential_ref in
  let li_bytes := as_bytes lease_id in
  be_bytes 4 (N.of_nat (length cr_bytes) mod 2 ^ 32) ++ cr_bytes ++
  be_bytes 4 (N.of_nat (length li_bytes) mod 2 ^ 32) ++ li_bytes.

Definition derive_credential_key `{HkdfSha256} (master salt : list byte)
    (credential_ref lease_id : string) : result (list byte) CryptoError :=
  match hkdf_expand salt master (hkdf_info credential_ref lease_id) 32 with
  | inl okm => Ok okm
  | inr e => Err (KeyDerivation e)
  end.

(** ** Sealed blobs *)

Record EncryptedBlob : Type := mkEncryptedBlob {
  nonce : list byte;
  ciphertext : list byte
}.

(** [nonce_] is the value [generate_nonce(&mut OsRng)] draws. *)
Definition encrypt `{Aead} (nonce_ key plaintext : list byte) : result EncryptedBlob CryptoError :=
  match aead_encrypt key nonce_ plaintext with
  | inl c => Ok (mkEncryptedBlob nonce_ c)
  | inr e => Err (Encryption e)
  end.

Definition decrypt `{Aead} (key : list byte) (blob : EncryptedBlob) : result (list byte) CryptoError :=
  match aead_decrypt key (nonce blob) (ciphertext blob) with
  | Some p => Ok p
  | None => Err Decryption
  end.

(** ** The pool of sealed credentials *)

Record SecurePool : Type := mkSecurePool { inner : gmap string EncryptedBlob }.

Definition pool_new : SecurePool := mkSecurePool ∅.
Definition pool_insert (p : SecurePool) (key : string) (blob : EncryptedBlob) : SecurePool :=
  mkSecurePool (<[key := blob]> (inner p)).
Definition pool_get (p : SecurePool) (key : string) : option EncryptedBlob := inner p !! key.
Definition pool_remove (p : SecurePool) (key : string) : SecurePool * option EncryptedBlob :=
  (mkSecurePool (delete key (inner p)), inner p !! key).
Definition pool_len (p : SecurePool) : nat := size (inner p).
Definition pool_is_empty (p : SecurePool) : bool := bool_decide (inner p = ∅).

(** ** Lemmas: big-endian integers *)

Lemma length_be_bytes k x : length (be_bytes k x) = k.
Proof.
  revert x. induction k as [|k IH]; intros x; simpl; [done|].
  rewrite length_app, IH. simpl. lia.
Qed.

Lemma byte_of_mod (x : N) : exists b, Byte.of_N (x mod 256) = Some b /\ Byte.to_N b = (x mod 256)%N.
Proof.
  destruct (Byte.of_N (x mod 256)) as [b|] eqn:E.
  - exists b. split; [done|]. by apply Byte.to_of_N.
  - apply Byte.of_N_None_iff in E. pose proof (N.mod_lt x 256). lia.
Qed.

Lemma from_be_bytes_snoc l b : from_be_bytes (l ++ [b]) = (from_be_bytes l * 256 + Byte.to_N b)%N.
Proof. unfold from_be_bytes. by rewrite fold_left_app. Qed.

Lemma from_be_bytes_be k x :
  (x < 256 ^ N.of_nat k)%N -> from_be_bytes (be_bytes k x) = x.
Proof.
  revert x. induction k as [|k IH]; intros x Hx.
  - simpl in *. unfold from_be_bytes. simpl. lia.
  - simpl. destruct (byte_of_mod x) as (b & Hb & Hv). rewrite Hb.
    rewrite from_be_bytes_snoc, IH.
    + rewrite Hv. pose proof (N.div_mod x 256). lia.
    + apply N.Div0.div_lt_upper_bound. rewrite Nat2N.inj_succ, N.pow_succ_r' in Hx. lia.
Qed.

Lemma be_bytes_inj k x y :
  (x < 256 ^ N.of_nat k)%N -> (y < 256 ^ N.of_nat k)%N ->
  be_bytes k x = be_bytes k y -> x = y.
Proof.
  intros Hx Hy Heq. rewrite <- (from_be_bytes_be k x), <- (from_be_bytes_be k y) by done.
  by rewrite Heq.
Qed.

(** ** Lemmas: framing *)

(** What a slice length on a 64-bit target satisfies. *)
Definition fits_u64 (p : list byte) : Prop := (N.of_nat (length p) < 2 ^ 64)%N.

Lemma mac_input_concat domain parts :
  mac_input domain parts = domain ++ concat (map frame parts).
Proof.
  unfold mac_input. revert domain. induction parts as [|p ps IH]; intros domain; simpl.
  - by rewrite app_nil_r.
  - by rewrite IH, <- app_assoc.
Qed.

Lemma frame_app_inj p q r s :
  fits_u64 p -> fits_u64 q -> frame p ++ r = frame q ++ s -> p = q /\ r = s.
Proof.
  unfold frame, fits_u64. intros Hp Hq Heq. rewrite <- !app_assoc in Heq.
  apply app_inj_1 in Heq as [Hl Heq]; [|by rewrite !length_be_bytes].
  apply be_bytes_inj in Hl; [|done|done].
  apply app_inj_1 in Heq; [done|lia].
Qed.

Lemma frame_nonempty p r : frame p ++ r <> [].
Proof.
  unfold frame. intros H. apply (f_equal length) in H.
  rewrite !length_app, length_be_bytes in H. simpl in H. lia.
Qed.

Lemma frames_inj ps qs :
  Forall fits_u64 ps -> Forall fits_u64 qs ->
  concat (map frame ps) = concat (map frame qs) -> ps = qs.
Proof.
  revert qs. induction ps as [|p ps IH]; intros [|q qs] Hp Hq Heq; simpl in *; [done|..].
  - by apply symmetry, frame_nonempty in Heq.
  - by apply frame_nonempty in Heq.
  - apply Forall_cons in Hp as [??]. apply Forall_cons in Hq as [??].
    apply frame_app_inj in Heq as [-> Heq]; [|done..]. f_equal. by apply IH.
Qed.

Lemma mac_input_inj domain ps qs :
  Forall fits_u64 ps -> Forall fits_u64 qs ->
  mac_input domain ps = mac_input domain qs -> ps = qs.
Proof.
  intros ??. rewrite !mac_input_concat. intros Heq%app_inv_head. by apply frames_inj.
Qed.

Lemma as_bytes_inj s t : as_bytes s = as_bytes t -> s = t.
Proof.
  intros H. rewrite <- (String.string_of_list_byte_of_string s).
  unfold as_bytes in H. by rewrite H, String.string_of_list_byte_of_string.
Qed.

(** ** Lemmas: tokens *)

Section Tokens.
Context `{HmacSha256} {E : Type}.

(** Verification is acceptance of the hex of the computed tag. *)
Lemma verify_lease_token_spec key id fp cb tok :
  verify_lease_token (E:=E) key id fp cb tok =
  (let! dec := hex_to_bytes tok in
   match dec with
   | None => Ok false
   | Some b => Ok (bool_decide (b = compute_hmac_bytes key LEASE_DOMAIN [as_bytes id; fp; cb]))
   end).
Proof.
  unfold verify_lease_token, compute_hmac_bytes, verify_slice.
  rewrite mac_input_concat. unfold frame. cbn [map concat]. by rewrite app_nil_r, <- !app_assoc.
Qed.

Lemma verify_session_token_spec key fp cid tok :
  verify_session_token (E:=E) key fp cid tok =
  (let! dec := hex_to_bytes tok in
   match dec with
   | None => Ok false
   | Some b => Ok (bool_decide (b = compute_hmac_bytes key SESSION_DOMAIN [fp; cid]))
   end).
Proof.
  unfold verify_session_token, compute_hmac_bytes, verify_slice.
  rewrite mac_input_concat. unfold frame. cbn [map concat]. by rewrite app_nil_r, <- !app_assoc.
Qed.

Lemma verify_generated_lease_token key id fp cb :
  verify_lease_token (E:=E) key id fp cb (generate_lease_token key id fp cb) = Ok true.
Proof.
  rewrite verify_lease_token_spec. unfold generate_lease_token.
  rewrite hex_roundtrip. simpl. by rewrite bool_decide_eq_true_2.
Qed.

Lemma verify_generated_session_token key fp cid :
  verify_session_token (E:=E) key fp cid (generate_session_token key fp cid) = Ok true.
Proof.
  rewrite verify_session_token_spec. unfold generate_session_token.
  rewrite hex_roundtrip. simpl. by rewrite bool_decide_eq_true_2.
Qed.

Lemma verify_lease_token_ascii key id fp cb tok :
  is_ascii tok = true -> exists b, verify_lease_token (E:=E) key id fp cb tok = Ok b.
Proof.
  intros Ha. rewrite verify_lease_token_spec.
  destruct (hex_to_bytes_ascii (E:=E) _ Ha) as [[b|] ->]; simpl; eauto.
Qed.

Lemma verify_lease_token_true key id fp cb tok :
  verify_lease_token (E:=E) key id fp cb tok = Ok true <->
  hex_to_bytes (E:=E) tok = Ok (Some (compute_hmac_bytes key LEASE_DOMAIN [as_bytes id; fp; cb])).
Proof.
  rewrite verify_lease_token_spec. destruct (hex_to_bytes tok) as [[b|]|e|]; simpl; try naive_solver.
  split; intros Hv; simplify_eq; [by bool_to_prop; subst|]. by rewrite bool_decide_eq_true_2.
Qed.

Lemma verify_session_token_true key fp cid tok :
  verify_session_token (E:=E) key fp cid tok = Ok true <->
  hex_to_bytes (E:=E) tok = Ok (Some (compute_hmac_bytes key SESSION_DOMAIN [fp; cid])).
Proof.
  rewrite verify_session_token_spec. destruct (hex_to_bytes tok) as [[b|]|e|]; simpl; try naive_solver.
  split; intros Hv; simplify_eq; [by bool_to_prop; subst|]. by rewrite bool_decide_eq_true_2.
Qed.
End Tokens.

Lemma session_lease_inputs_differ ps qs : mac_input SESSION_DOMAIN ps <> mac_input LEASE_DOMAIN qs.
Proof. rewrite !mac_input_concat. discriminate. Qed.

Lemma hkdf_info_inj c1 l1 c2 l2 :
  (N.of_nat (length (as_bytes c1)) < 2 ^ 32)%N -> (N.of_nat (length (as_bytes l1)) < 2 ^ 32)%N ->
  (N.of_nat (length (as_bytes c2)) < 2 ^ 32)%N -> (N.of_nat (length (as_bytes l2)) < 2 ^ 32)%N ->
  hkdf_info c1 l1 = hkdf_info c2 l2 -> c1 = c2 /\ l1 = l2.
Proof.
  unfold hkdf_info. intros ????. rewrite !N.mod_small by done. intros Heq.
  apply app_inj_1 in Heq as [Hc Heq]; [|by rewrite !length_be_bytes].
  apply be_bytes_inj in Hc; [|done|done].
  apply app_inj_1 in Heq as [Hc' Heq]; [|lia].
  apply app_inj_1 in Heq as [_ Heq]; [|by rewrite !length_be_bytes].
  by apply as_bytes_inj in Hc', Heq.
Qed.

(** ** Properties *)

(** The framing of token inputs is unambiguous: two lease-token inputs are
    equal only when lease id, agent fingerprint and channel-binding nonce all
    are, and no session-token input is ever a lease-token input. *)
Theorem token_inputs_unambiguous (id1 id2 : string) (fp1 cb1 fp2 cb2 sfp cid : list byte) :
  Forall fits_u64 [as_bytes id1; fp1; cb1] -> Forall fits_u64 [as_bytes id2; fp2; cb2] ->
  (mac_input LEASE_DOMAIN [as_bytes id1; fp1; cb1] = mac_input LEASE_DOMAIN [as_bytes id2; fp2; cb2] ->
   id1 = id2 /\ fp1 = fp2 /\ cb1 = cb2) /\
  mac_input SESSION_DOMAIN [sfp; cid] <> mac_input LEASE_DOMAIN [as_bytes id1; fp1; cb1].
Proof.
  intros H1 H2. split; [|apply session_lease_inputs_differ].
  intros Heq. apply mac_input_inj in Heq; [|done|done]. simplify_eq.
  split; [by apply as_bytes_inj|done].
Qed.

Lemma token_inputs_unambiguous_witness :
  mac_input LEASE_DOMAIN [as_bytes "ab"; as_bytes "c"; as_bytes "d"] <>
  mac_input LEASE_DOMAIN [as_bytes "a"; as_bytes "bc"; as_bytes "d"].
Proof.
  intros Heq.
  destruct (token_inputs_unambiguous "ab" "a" (as_bytes "c") (as_bytes "d") (as_bytes "bc")
    (as_bytes "d") [] []) as [Hi _];
    [by repeat constructor | by repeat constructor |].
  by destruct (Hi Heq).
Defined.

(** Lease tokens round-trip, and a token is accepted exactly when it decodes
    to the HMAC of the lease's own id, fingerprint and nonce. *)
Theorem lease_token_verification `{HmacSha256} (key : list byte) (id : string) (fp cb : list byte) :
  verify_lease_token (E:=unit) key id fp cb (generate_lease_token key id fp cb) = Ok true /\
  (forall tok, verify_lease_token (E:=unit) key id fp cb tok = Ok true <->
     hex_to_bytes (E:=unit) tok =
     Ok (Some (compute_hmac_bytes key LEASE_DOMAIN [as_bytes id; fp; cb]))).
Proof.
  split; [apply verify_generated_lease_token|]. intros tok. apply verify_lease_token_true.
Qed.

(** Distinct (credential, lease) pairs below 4 GiB derive their keys from
    distinct HKDF info fields. *)
Theorem credential_key_isolation (c1 l1 c2 l2 : string) :
  (N.of_nat (length (as_bytes c1)) < 2 ^ 32)%N -> (N.of_nat (length (as_bytes l1)) < 2 ^ 32)%N ->
  (N.of_nat (length (as_bytes c2)) < 2 ^ 32)%N -> (N.of_nat (length (as_bytes l2)) < 2 ^ 32)%N ->
  (c1, l1) <> (c2, l2) -> hkdf_info c1 l1 <> hkdf_info c2 l2.
Proof.
  intros ???? Hne Heq. apply hkdf_info_inj in Heq as [-> ->]; done.
Qed.

Lemma credential_key_isolation_witness : hkdf_info "ab" "c" <> hkdf_info "a" "bc".
Proof. by apply credential_key_isolation. Defined.
