(* ===== verification/SecureMem.v ===== *)
(** * cdp-crypto: secret bytes in memory

    [SecureBuffer] of [cdp-crypto/src/mempool.rs]: the buffer that holds a
    credential while it is in the clear.  The process's memory is a map from
    addresses to bytes with the set of pages that are locked into RAM; the
    system calls and the [zeroize] crate are a class over it. *)

From S2P Require Import Prelude RustStr Crypto.

(** ** Memory *)

Record Memory : Type := mkMemory { m_bytes : gmap Z byte; m_locked : gset Z }.

Definition byte_at (m : Memory) (a : Z) : byte := default Byte.x00 (m_bytes m !! a).

Definition poke (a : Z) (x : byte) (m : Memory) : Memory := mkMemory (<[a := x]> (m_bytes m)) (m_locked m).

(** [Vec<u8>]: pointer, length and capacity. *)
Record RVec : Type := mkRVec { v_ptr : Z; v_len : nat; v_cap : nat }.

(** The addresses of the allocation, and of its elements. *)
Definition extent (v : RVec) : gset Z := list_to_set (seqZ (v_ptr v) (Z.of_nat (v_cap v))).
Definition elements_of (v : RVec) : list Z := seqZ (v_ptr v) (Z.of_nat (v_len v)).

Definition load_vec (v : RVec) (m : Memory) : list byte := map (byte_at m) (elements_of v).

(** [mlock], [munlock] ([None] is success) and [Vec::zeroize]. *)
Class MemSys : Type := {
  PAGE_SIZE : Z;
  mlock : Z -> nat -> Memory -> Memory * option string;
  munlock : Z -> nat -> Memory -> Memory * option string;
  zeroize_vec : RVec -> Memory -> Memory
}.

(** The pages an interval has a byte on. *)
Definition pages `{MemSys} (a : Z) (n : nat) : gset Z :=
  list_to_set (map (fun x => x / PAGE_SIZE) (seqZ a (Z.of_nat n))).

(** What the manual pages and the crate document: a lock covers every page of
    the interval and locks do not stack, a failed call changes no lock;
    [zeroize] clears the whole capacity of a vector. *)
Class MemSysLaws `{MemSys} : Prop := {
  mlock_law : forall a n m, mlock a n m = (mkMemory (m_bytes m) (m_locked m ∪ pages a n), None) \/
    exists e, mlock a n m = (m, Some e);
  munlock_law : forall a n m, munlock a n m = (mkMemory (m_bytes m) (m_locked m ∖ pages a n), None) \/
    exists e, munlock a n m = (m, Some e);
  zeroize_byte : forall v m a,
    byte_at (zeroize_vec v m) a = if decide (a ∈ extent v) then Byte.x00 else byte_at m a;
  zeroize_locked : forall v m, m_locked (zeroize_vec v m) = m_locked m
}.

(** ** The buffer *)

Section Buffer.
Context `{MemSys}.

Record SecureBuffer : Type := mkSecureBuffer { sb_data : RVec }.

(** [new], with the warning it prints. *)
Definition secure_new (data : RVec) (m : Memory) : Memory * option string * SecureBuffer :=
  if (v_len data =? 0)%nat then (m, None, mkSecureBuffer data)
  else if v_ptr data =? 0 then (m, None, mkSecureBuffer data)
  else
    let '(m, r) := mlock (v_ptr data) (v_len data) m in
    (m, (fun e => "cdp-crypto: mlock warning: " +:+ e) <$> r, mkSecureBuffer data).

(** [drop]: pointer and length are saved before [zeroize] truncates. *)
Definition secure_drop (b : SecureBuffer) (m : Memory) : Memory :=
  let ptr := v_ptr (sb_data b) in
  let len := v_len (sb_data b) in
  let m := zeroize_vec (sb_data b) m in
  if (0 <? len)%nat && negb (ptr =? 0) then (munlock ptr len m).1 else m.

(** [deref] and [as_ref] *)
Definition secure_deref (b : SecureBuffer) (m : Memory) : list byte := load_vec (sb_data b) m.

(** ** The heap of a process that uses them *)

(** The buffers alive, each with the bytes it was made of, and the addresses
    that belonged to a dropped one and have not been written since. *)
Record SecureHeap : Type := mkSecureHeap {
  sh_mem : Memory; sh_live : list (SecureBuffer * list byte); sh_released : gset Z
}.

Inductive hstep : SecureHeap -> SecureHeap -> Prop :=
(** A vector of the caller's, allocated apart from every live buffer. *)
| h_new v m w b h : (v_len v <= v_cap v)%nat ->
    (forall c, c ∈ sh_live h -> extent v ## extent (sb_data c.1)) ->
    secure_new v (sh_mem h) = (m, w, b) ->
    hstep h (mkSecureHeap m ((b, load_vec v (sh_mem h)) :: sh_live h) (sh_released h ∖ extent v))
| h_drop i b d h : sh_live h !! i = Some (b, d) ->
    hstep h (mkSecureHeap (secure_drop b (sh_mem h)) (delete i (sh_live h)) (sh_released h ∪ extent (sb_data b)))
(** Any other code of the process; nothing has a mutable borrow of a buffer. *)
| h_store a x h : (forall c, c ∈ sh_live h -> a ∉ extent (sb_data c.1)) ->
    hstep h (mkSecureHeap (poke a x (sh_mem h)) (sh_live h) (sh_released h ∖ {[a]})).

Definition heap_start (m : Memory) : SecureHeap := mkSecureHeap m [] ∅.
End Buffer.

(** ** Lemmas *)

Section BufferLemmas.
Context `{MemSys} `{!MemSysLaws}.

Lemma elements_extent v a : (v_len v <= v_cap v)%nat -> a ∈ elements_of v -> a ∈ extent v.
Proof. unfold elements_of, extent. rewrite elem_of_list_to_set, !elem_of_seqZ. lia. Qed.

Lemma load_vec_ext v m m' : (forall a, a ∈ elements_of v -> byte_at m' a = byte_at m a) ->
  load_vec v m' = load_vec v m.
Proof. intros Ha. apply map_ext_in. intros a Hin. by apply Ha, list_elem_of_In. Qed.

Lemma secure_new_bytes v m m' w b : secure_new v m = (m', w, b) -> b = mkSecureBuffer v /\ m_bytes m' = m_bytes m.
Proof.
  unfold secure_new. destruct (_ =? 0)%nat; [by intros [= <- _ <-]|].
  destruct (v_ptr v =? 0); [by intros [= <- _ <-]|].
  destruct (mlock_law (v_ptr v) (v_len v) m) as [->|[e ->]]; by intros [= <- _ <-].
Qed.

Lemma secure_drop_byte b m a :
  byte_at (secure_drop b m) a = if decide (a ∈ extent (sb_data b)) then Byte.x00 else byte_at m a.
Proof.
  unfold secure_drop. rewrite <- zeroize_byte. destruct (_ && _); [|done].
  destruct (munlock_law (v_ptr (sb_data b)) (v_len (sb_data b)) (zeroize_vec (sb_data b) m)) as [->|[e ->]]; done.
Qed.

Lemma byte_at_poke a x m c : c <> a -> byte_at (poke a x m) c = byte_at m c.
Proof. intros Hne. unfold byte_at. simpl. by rewrite lookup_insert_ne. Qed.

(** What holds of every heap: buffers are apart, keep their bytes, and what a
    dropped one left is blank. *)
Record heap_ok (h : SecureHeap) : Prop := {
  ho_fits : forall c, c ∈ sh_live h -> (v_len (sb_data c.1) <= v_cap (sb_data c.1))%nat;
  ho_apart : forall i j c d, sh_live h !! i = Some c -> sh_live h !! j = Some d -> i <> j ->
    extent (sb_data c.1) ## extent (sb_data d.1);
  ho_bytes : forall c, c ∈ sh_live h -> secure_deref c.1 (sh_mem h) = c.2;
  ho_blank : forall a, a ∈ sh_released h -> byte_at (sh_mem h) a = Byte.x00;
  ho_free : forall a c, a ∈ sh_released h -> c ∈ sh_live h -> a ∉ extent (sb_data c.1)
}.

(** Bytes outside every live buffer may change. *)
Lemma deref_kept h c m : heap_ok h -> c ∈ sh_live h ->
  (forall a, a ∈ extent (sb_data c.1) -> byte_at m a = byte_at (sh_mem h) a) -> secure_deref c.1 m = c.2.
Proof.
  intros Hok Hc Ha. rewrite <- (ho_bytes _ Hok _ Hc). apply load_vec_ext. intros a Hin.
  apply Ha, elements_extent; [by apply (ho_fits _ Hok)|done].
Qed.

Lemma new_ok v m w b h : (v_len v <= v_cap v)%nat ->
  (forall c, c ∈ sh_live h -> extent v ## extent (sb_data c.1)) -> secure_new v (sh_mem h) = (m, w, b) ->
  heap_ok h -> heap_ok (mkSecureHeap m ((b, load_vec v (sh_mem h)) :: sh_live h) (sh_released h ∖ extent v)).
Proof.
  intros Hfit Hap [-> Hm]%secure_new_bytes Hok.
  assert (forall a, byte_at m a = byte_at (sh_mem h) a) as Hb by (intros a; unfold byte_at; by rewrite Hm).
  split; cbn [sh_live sh_mem sh_released].
  - intros c [->|Hc]%elem_of_cons; [done|by apply (ho_fits _ Hok)].
  - intros [|i] [|j] c d; cbn; [done|intros [= <-] Hd _|intros Hc [= <-] _|].
    + apply Hap. by eapply list_elem_of_lookup_2.
    + symmetry. apply Hap. by eapply list_elem_of_lookup_2.
    + intros Hc Hd Hne. eapply (ho_apart _ Hok i j); [done|done|lia].
  - intros c [->|Hc]%elem_of_cons; [by apply load_vec_ext|]. by apply (deref_kept h).
  - intros a [Ha _]%elem_of_difference. rewrite Hb. by apply (ho_blank _ Hok).
  - intros a c [Ha Hv]%elem_of_difference [->|Hc]%elem_of_cons; [done|by apply (ho_free _ Hok)].
Qed.

(** An element of a list that lost its [i]-th was at another index. *)
Lemma lookup_deleted {A : Type} i j (l : list A) x : delete i l !! j = Some x ->
  let k := if (j <? i)%nat then j else S j in l !! k = Some x /\ k <> i.
Proof.
  intros Hj. cbv zeta. destruct (Nat.ltb_spec j i).
  - rewrite list_lookup_delete_lt in Hj by done. split; [done|lia].
  - rewrite list_lookup_delete_ge in Hj by done. split; [done|lia].
Qed.

Lemma drop_ok i b d h : sh_live h !! i = Some (b, d) -> heap_ok h ->
  heap_ok (mkSecureHeap (secure_drop b (sh_mem h)) (delete i (sh_live h)) (sh_released h ∪ extent (sb_data b))).
Proof.
  intros Hi Hok.
  assert (forall c, c ∈ delete i (sh_live h) -> c ∈ sh_live h /\ extent (sb_data c.1) ## extent (sb_data b)) as Hold.
  { intros c [j [Hj Hne]%lookup_deleted]%list_elem_of_lookup. split; [by eapply list_elem_of_lookup_2|].
    by eapply (ho_apart _ Hok _ i c (b, d)). }
  split; cbn [sh_live sh_mem sh_released].
  - intros c [Hc _]%Hold. by apply (ho_fits _ Hok).
  - intros j k c e [Hj _]%lookup_deleted [Hk _]%lookup_deleted Hne. eapply (ho_apart _ Hok); [exact Hj|exact Hk|].
    destruct (Nat.ltb_spec j i), (Nat.ltb_spec k i); lia.
  - intros c [Hc Hd]%Hold. apply (deref_kept h); [done|done|]. intros a Ha. rewrite secure_drop_byte.
    rewrite decide_False; [done|]. set_solver.
  - intros a Ha. rewrite secure_drop_byte. destruct (decide _) as [|Hn]; [done|]. apply (ho_blank _ Hok). set_solver.
  - intros a c [Ha|Ha]%elem_of_union [Hc Hd]%Hold; [by apply (ho_free _ Hok)|set_solver].
Qed.

Lemma store_ok a x h : (forall c, c ∈ sh_live h -> a ∉ extent (sb_data c.1)) -> heap_ok h ->
  heap_ok (mkSecureHeap (poke a x (sh_mem h)) (sh_live h) (sh_released h ∖ {[a]})).
Proof.
  intros Ha Hok. split; cbn [sh_live sh_mem sh_released]; try apply Hok.
  - intros c Hc. apply (deref_kept h); [done|done|]. intros e He. apply byte_at_poke. intros ->. by apply (Ha c).
  - intros e [He Hne]%elem_of_difference. rewrite byte_at_poke by set_solver. by apply (ho_blank _ Hok).
  - intros e c [He _]%elem_of_difference. by apply (ho_free _ Hok).
Qed.

Lemma heap_ok_run m h : rtc hstep (heap_start m) h -> heap_ok h.
Proof.
  revert h. apply rtc_ind_r.
  - by split; cbn; try set_solver.
  - intros h1 h2 _ [v m' w b h' Hfit Hap Hn|i b d h' Hi|a x h' Ha] Hok;
      [by eapply new_ok|by eapply drop_ok|by apply store_ok].
Qed.

(** ** Properties *)

(** C38. A secret does not outlive its buffer: in whatever order buffers are
    made, dropped and other memory is written, and whether or not the system
    grants the locks, every live buffer reads back the bytes it was made of,
    and every address of a dropped one that nobody has written since is
    zero. *)
Theorem secrets_do_not_outlive_buffers (m : Memory) (h : SecureHeap) :
  rtc hstep (heap_start m) h ->
  (forall b d, (b, d) ∈ sh_live h -> secure_deref b (sh_mem h) = d) /\
  forall a, a ∈ sh_released h -> byte_at (sh_mem h) a = Byte.x00.
Proof.
  intros Hok%heap_ok_run. split; [|by apply (ho_blank _ Hok)]. intros b d Hin. apply (ho_bytes _ Hok _ Hin).
Qed.

(** The lock of one buffer ends with another's: locks are per page and do
    not stack, so dropping a buffer unlocks the pages it shares with buffers
    that are still alive. *)
Theorem drop_unlocks_shared_page (b c : SecureBuffer) (m : Memory) (p : Z) :
  (0 < v_len (sb_data b))%nat -> v_ptr (sb_data b) <> 0 ->
  p ∈ pages (v_ptr (sb_data b)) (v_len (sb_data b)) -> p ∈ pages (v_ptr (sb_data c)) (v_len (sb_data c)) ->
  (munlock (v_ptr (sb_data b)) (v_len (sb_data b)) (zeroize_vec (sb_data b) m)).2 = None ->
  p ∉ m_locked (secure_drop b m) /\
  ~ pages (v_ptr (sb_data c)) (v_len (sb_data c)) ⊆ m_locked (secure_drop b m).
Proof.
  intros Hlen Hptr Hb Hc Hu. assert (p ∉ m_locked (secure_drop b m)) as Hp.
  { unfold secure_drop. rewrite (proj2 (Nat.ltb_lt _ _)), (proj2 (Z.eqb_neq _ _)) by done. cbn [negb andb].
    destruct (munlock_law (v_ptr (sb_data b)) (v_len (sb_data b)) (zeroize_vec (sb_data b) m)) as [E|[e E]];
      rewrite E in Hu |- *; [|done]. cbn. set_solver. }
  split; [done|]. intros Hsub. by apply Hp, Hsub.
Qed.
End BufferLemmas.

(** ** A page to evaluate *)

Definition linux_mem : MemSys := {|
  PAGE_SIZE := 4096;
  mlock := fun a n m =>
    (mkMemory (m_bytes m) (m_locked m ∪ list_to_set (map (fun x => x / 4096) (seqZ a (Z.of_nat n)))), None);
  munlock := fun a n m =>
    (mkMemory (m_bytes m) (m_locked m ∖ list_to_set (map (fun x => x / 4096) (seqZ a (Z.of_nat n)))), None);
  zeroize_vec := fun v m =>
    mkMemory (foldr (fun a => <[a := Byte.x00]>) (m_bytes m) (seqZ (v_ptr v) (Z.of_nat (v_cap v)))) (m_locked m)
|}.
#[local] Existing Instance linux_mem.

Lemma lookup_foldr_insert (l : list Z) (ls : gmap Z byte) a :
  foldr (fun a => <[a := Byte.x00]>) ls l !! a = if decide (a ∈ l) then Some Byte.x00 else ls !! a.
Proof.
  induction l as [|x l IH]; simpl; [done|]. rewrite lookup_insert, IH.
  destruct (decide (x = a)) as [->|Hne]; [by rewrite decide_True by left|].
  apply decide_ext. rewrite elem_of_cons. naive_solver.
Qed.

#[local] Instance linux_mem_laws : MemSysLaws.
Proof.
  split; [by left|by left| |done]. intros v m a. unfold byte_at, extent. cbn [zeroize_vec linux_mem m_bytes].
  rewrite lookup_foldr_insert.
  destruct (decide (a ∈ list_to_set (C:=gset Z) (seqZ (v_ptr v) (Z.of_nat (v_cap v))))) as [Hin|Hin];
    rewrite elem_of_list_to_set in Hin; [by rewrite decide_True|by rewrite decide_False].
Qed.

(** Two tokens that the allocator put on one page. *)
Definition token_a : RVec := mkRVec 4096 2 4.
Definition token_b : RVec := mkRVec 4112 2 4.
Definition page_one : Memory := poke 4096 Byte.x41 (poke 4097 Byte.x42 (poke 4112 Byte.x43 (mkMemory ∅ ∅))).
Definition both_alive : SecureHeap :=
  let m := (secure_new token_b (secure_new token_a page_one).1.1).1.1 in
  mkSecureHeap m [(mkSecureBuffer token_b, [Byte.x43; Byte.x00]); (mkSecureBuffer token_a, [Byte.x41; Byte.x42])] ∅.
Definition one_alive : SecureHeap :=
  mkSecureHeap (secure_drop (mkSecureBuffer token_a) (sh_mem both_alive))
    [(mkSecureBuffer token_b, [Byte.x43; Byte.x00])] (∅ ∪ extent token_a).

Lemma secrets_do_not_outlive_buffers_witness :
  secure_deref (mkSecureBuffer token_b) (sh_mem one_alive) = [Byte.x43; Byte.x00] /\
  byte_at (sh_mem one_alive) 4096 = Byte.x00.
Proof.
  destruct (secrets_do_not_outlive_buffers page_one one_alive) as [Hl Hr].
  - eapply rtc_l; [eapply (h_new token_a); [vm_compute; lia|intros c Hc; by apply elem_of_nil in Hc|reflexivity]|].
    eapply rtc_l; [eapply (h_new token_b); [vm_compute; lia| |reflexivity]|].
    + intros c [->|Hc]%elem_of_cons; [|by apply elem_of_nil in Hc]. apply (bool_decide_unpack _). by vm_compute.
    + apply rtc_once. apply (h_drop 1 (mkSecureBuffer token_a) [Byte.x41; Byte.x42] both_alive). reflexivity.
  - split; [apply Hl; left|apply Hr]. apply (bool_decide_unpack _). by vm_compute.
Defined.

Lemma drop_unlocks_shared_page_witness :
  1 ∈ m_locked (sh_mem both_alive) /\
  1 ∉ m_locked (secure_drop (mkSecureBuffer token_a) (sh_mem both_alive)).
Proof.
  split; [apply (bool_decide_unpack _); by vm_compute|].
  apply (drop_unlocks_shared_page (mkSecureBuffer token_a) (mkSecureBuffer token_b) (sh_mem both_alive) 1).
  - vm_compute. lia.
  - discriminate.
  - apply (bool_decide_unpack _). by vm_compute.
  - apply (bool_decide_unpack _). by vm_compute.
  - reflexivity.
Defined.
