(* ===== verification/Glob.v ===== *)
(** * cdp-policy/src/glob.rs: URL path globs

    [matches_segs] is the worklist matcher of the source, with its stack and
    visited set; [glob] is the declarative meaning of a pattern.  The fuel of
    the loop bounds its iterations and is proved sufficient, so the matcher
    decides [glob]. *)

From S2P Require Import Prelude RustStr.

Definition slash : Ascii.ascii := Ascii.ascii_of_N 47.

(** [s.split('/').filter(|seg| !seg.is_empty()).collect()] *)
Definition segments (s : string) : list string :=
  List.filter (fun seg => negb (bool_decide (seg = EmptyString))) (split slash s).

Definition is_dstar (s : string) : bool := bool_decide (s = "**").
Definition is_star (s : string) : bool := bool_decide (s = "*").

(** One run of [while let Some((pi, qi)) = stack.pop()]: the list's head is
    the top of the stack.  [None] is running out of fuel. *)
Fixpoint matches_loop (fuel : nat) (path pat : list string) (stack : list (nat * nat))
    (visited : gset (nat * nat)) : option bool :=
  match fuel with
  | O => None
  | S fuel' =>
      match stack with
      | [] => Some false
      | (pi, qi) :: rest =>
          if bool_decide ((pi, qi) ∈ visited) then matches_loop fuel' path pat rest visited
          else
            let visited := {[(pi, qi)]} ∪ visited in
            match path !! pi, pat !! qi with
            | None, None => Some true
            | Some _, None => matches_loop fuel' path pat rest visited
            | None, Some _ =>
                if forallb is_dstar (drop qi pat) then Some true
                else matches_loop fuel' path pat rest visited
            | Some pseg, Some qseg =>
                if is_dstar qseg then
                  matches_loop fuel' path pat ((S pi, qi) :: (pi, S qi) :: rest) visited
                else if is_star qseg then
                  matches_loop fuel' path pat ((S pi, S qi) :: rest) visited
                else if bool_decide (qseg = pseg) then
                  matches_loop fuel' path pat ((S pi, S qi) :: rest) visited
                else matches_loop fuel' path pat rest visited
            end
      end
  end.

(** Three units per state of the (path, pattern) grid, and one to stop. *)
Definition glob_fuel (path pat : list string) : nat :=
  (3 * (S (length path) * S (length pat)) + 2)%nat.

Definition matches_segs (path pat : list string) : bool :=
  default false (matches_loop (glob_fuel path pat) path pat [(0, 0)%nat] ∅).

Definition path_matches_glob (path pattern : string) : bool :=
  matches_segs (segments path) (segments pattern).

Definition any_glob_matches (path : string) (patterns : list string) : bool :=
  existsb (fun p => path_matches_glob path p) patterns.

(** ** Meaning of a pattern *)

Inductive glob : list string -> list string -> Prop :=
| glob_nil : glob [] []
| glob_lit s p q : s <> "**" -> glob p q -> glob (s :: p) (s :: q)
| glob_star s p q : glob p q -> glob (s :: p) ("*" :: q)
| glob_dstar_zero p q : glob p q -> glob p ("**" :: q)
| glob_dstar_more s p q : glob p ("**" :: q) -> glob (s :: p) ("**" :: q).

#[export] Hint Constructors glob : cdp.

(** ** Lemmas *)

Lemma glob_nil_path q : glob [] q <-> forallb is_dstar q = true.
Proof.
  split.
  - intros Hg. remember [] as p eqn:Hp. induction Hg; simplify_eq/=; try done. by rewrite IHHg.
  - induction q as [|s q IH]; simpl; intros Hq; [constructor|].
    bool_to_prop. unfold is_dstar in *. bool_to_prop. subst. auto with cdp.
Qed.

Lemma drop_cons_inv {A : Type} (l : list A) i x r :
  x :: r = drop i l -> l !! i = Some x /\ r = drop (S i) l.
Proof.
  intros Hd. assert (l !! i = Some x) as Hl.
  { rewrite <- (Nat.add_0_r i), <- lookup_drop, <- Hd. done. }
  split; [done|]. rewrite (drop_S l x) in Hd by done. by simplify_eq.
Qed.

Lemma glob_nil_pat p : glob p [] -> p = [].
Proof. by inversion 1. Qed.

(** The successors of a grid state, as the loop pushes them. *)
Definition succs (path pat : list string) (v : nat * nat) : list (nat * nat) :=
  match path !! v.1, pat !! v.2 with
  | Some pseg, Some qseg =>
      if is_dstar qseg then [(S v.1, v.2); (v.1, S v.2)]
      else if is_star qseg then [(S v.1, S v.2)]
      else if bool_decide (qseg = pseg) then [(S v.1, S v.2)]
      else []
  | _, _ => []
  end.

(** The states on which the loop returns [true]. *)
Definition accepting (path pat : list string) (v : nat * nat) : bool :=
  match path !! v.1 with
  | None => forallb is_dstar (drop v.2 pat)
  | Some _ => false
  end.

Lemma matches_loop_pop fuel path pat v rest visited :
  matches_loop (S fuel) path pat (v :: rest) visited =
  if bool_decide (v ∈ visited) then matches_loop fuel path pat rest visited
  else if accepting path pat v then Some true
  else matches_loop fuel path pat (succs path pat v ++ rest) ({[v]} ∪ visited).
Proof.
  destruct v as [pi qi]. unfold accepting, succs. simpl.
  destruct (bool_decide _); [done|].
  destruct (path !! pi), (pat !! qi) eqn:Eq; try done.
  - by repeat case_match.
  - apply lookup_ge_None in Eq. by rewrite drop_ge.
Qed.

Section Correctness.
Context (path pat : list string).

Definition good (v : nat * nat) : Prop := glob (drop v.1 path) (drop v.2 pat).

Lemma accepting_good v : accepting path pat v = true -> good v.
Proof.
  unfold accepting, good. case_match eqn:E; [done|]. intros Hf.
  apply lookup_ge_None in E. rewrite (drop_ge path) by done. by apply glob_nil_path.
Qed.

Lemma succ_good v w : w ∈ succs path pat v -> good w -> good v.
Proof.
  unfold succs, good. destruct v as [pi qi]; simpl.
  destruct (path !! pi) as [pseg|] eqn:Ep; [|by intros ?%elem_of_nil].
  destruct (pat !! qi) as [qseg|] eqn:Eq; [|by intros ?%elem_of_nil].
  rewrite (drop_S path pseg pi), (drop_S pat qseg qi) by done.
  destruct (is_dstar qseg) eqn:Ed; unfold is_dstar, is_star in *; bool_to_prop; subst.
  - intros [->|[->|[]%elem_of_nil]%elem_of_cons]%elem_of_cons; simpl.
    + rewrite (drop_S pat "**" qi) by done. auto with cdp.
    + rewrite (drop_S path pseg pi) by done. auto with cdp.
  - case_bool_decide; subst; [|case_bool_decide; subst; [|by intros ?%elem_of_nil]];
      intros ->%list_elem_of_singleton; simpl; auto with cdp.
Qed.

(** A state is good only if it accepts or one of its successors is good. *)
Lemma good_inv v : good v -> accepting path pat v = true \/ exists w, w ∈ succs path pat v /\ good w.
Proof.
  unfold accepting, succs, good. destruct v as [pi qi]; simpl.
  destruct (path !! pi) as [pseg|] eqn:Ep.
  - rewrite (drop_S path pseg pi) by done. intros Hg. right.
    destruct (pat !! qi) as [qseg|] eqn:Eq; cycle 1.
    { apply lookup_ge_None in Eq. rewrite (drop_ge pat) in Hg by done. by inversion Hg. }
    rewrite (drop_S pat qseg qi) in Hg by done. unfold is_dstar, is_star.
    inversion Hg; subst; repeat case_bool_decide; simplify_eq; try done.
    1-3: exists (S pi, S qi); split; [apply list_elem_of_here|done].
    + exists (pi, S qi). split; [set_solver|]. simpl. by rewrite (drop_S path pseg pi).
    + exists (S pi, qi). split; [set_solver|]. simpl. by rewrite (drop_S pat "**" qi).
  - apply lookup_ge_None in Ep. rewrite (drop_ge path) by done. rewrite glob_nil_path. auto.
Qed.

(** Derivation height bounds the search, so goodness is well founded. *)
Lemma closed_not_good (visited : gset (nat * nat)) :
  (forall v, v ∈ visited -> accepting path pat v = false) ->
  (forall v w, v ∈ visited -> w ∈ succs path pat v -> w ∈ visited) ->
  forall v, v ∈ visited -> ~ good v.
Proof.
  intros Hacc Hcl.
  assert (forall p q, glob p q -> forall v, v ∈ visited ->
            p = drop v.1 path -> q = drop v.2 pat -> False) as Hi; cycle 1.
  { intros v Hv Hg. by eapply Hi. }
  assert (forall v x, v ∈ visited -> drop v.1 path = x -> x = [] ->
            glob [] (drop v.2 pat) -> False) as Hend.
  { intros v x Hv <- Hx Hq%glob_nil_path. specialize (Hacc v Hv).
    unfold accepting in Hacc. apply (f_equal length) in Hx. rewrite length_drop in Hx. simpl in Hx.
    rewrite (proj2 (lookup_ge_None path v.1)) in Hacc by lia. congruence. }
  induction 1 as [|s p q Hs Hg IH|s p q Hg IH|p q Hg IH|s p q Hg IH]; intros v Hv Ep Eq.
  - eapply Hend; [done..|]. rewrite <- Eq. constructor.
  - apply drop_cons_inv in Ep as [Hl1 ->]. apply drop_cons_inv in Eq as [Hl2 ->].
    apply (IH (S v.1, S v.2)); [|done..]. apply (Hcl v); [done|]. unfold succs.
    rewrite Hl1, Hl2. unfold is_dstar, is_star. repeat case_bool_decide; set_solver.
  - apply drop_cons_inv in Ep as [Hl1 ->]. apply drop_cons_inv in Eq as [Hl2 ->].
    apply (IH (S v.1, S v.2)); [|done..]. apply (Hcl v); [done|]. unfold succs.
    rewrite Hl1, Hl2. unfold is_dstar, is_star. repeat case_bool_decide; set_solver.
  - destruct p as [|s p].
    { eapply Hend; [done..|]. rewrite <- Eq. by constructor. }
    pose proof Ep as [Hl1 _]%drop_cons_inv. apply drop_cons_inv in Eq as [Hl2 ->].
    apply (IH (v.1, S v.2)); [|done..]. apply (Hcl v); [done|]. unfold succs.
    rewrite Hl1, Hl2. unfold is_dstar. case_bool_decide; set_solver.
  - apply drop_cons_inv in Ep as [Hl1 ->]. pose proof Eq as [Hl2 _]%drop_cons_inv.
    apply (IH (S v.1, v.2)); [|done..]. apply (Hcl v); [done|]. unfold succs.
    rewrite Hl1, Hl2. unfold is_dstar. case_bool_decide; set_solver.
Qed.

(** Partial correctness of the loop, for any stack and visited set. *)
Lemma matches_loop_sound fuel stack visited :
  (forall v, v ∈ stack -> good v -> good (0, 0)%nat) ->
  matches_loop fuel path pat stack visited = Some true -> good (0, 0)%nat.
Proof.
  revert stack visited. induction fuel as [|fuel IH]; intros [|v rest] visited Hs; try done.
  rewrite matches_loop_pop. destruct (bool_decide _).
  { apply IH. set_solver. }
  destruct (accepting path pat v) eqn:Ea.
  { intros _. apply (Hs v); [set_solver|]. by apply accepting_good. }
  apply IH. intros w [Hw|Hw]%elem_of_app ?; [|by apply (Hs w); [set_solver|]].
  apply (Hs v); [set_solver|]. by eapply succ_good.
Qed.

Lemma matches_loop_complete fuel stack visited :
  (0, 0)%nat ∈ visited \/ (0, 0)%nat ∈ stack ->
  (forall v, v ∈ visited -> accepting path pat v = false) ->
  (forall v w, v ∈ visited -> w ∈ succs path pat v -> w ∈ visited \/ w ∈ stack) ->
  matches_loop fuel path pat stack visited = Some false -> ~ good (0, 0)%nat.
Proof.
  revert stack visited. induction fuel as [|fuel IH]; intros [|v rest] visited H0 Ha Hc Hl; try done.
  - eapply closed_not_good; [done| |set_solver]. set_solver.
  - rewrite matches_loop_pop in Hl. case_bool_decide.
    { eapply IH; [| |  |done]; [set_solver|done|]. intros u w Hu Hw. specialize (Hc u w). set_solver. }
    destruct (accepting path pat v) eqn:Ea; [done|].
    eapply IH; [| | |done].
    + set_solver.
    + intros u [->%elem_of_singleton|]%elem_of_union; auto.
    + intros u w [->%elem_of_singleton|Hu]%elem_of_union Hw; [set_solver|].
      specialize (Hc u w Hu Hw). set_solver.
Qed.

(** The grid of states, which bounds the visited set. *)
Definition grid : gset (nat * nat) :=
  list_to_set (list_prod (seq 0 (S (length path))) (seq 0 (S (length pat)))).

Lemma elem_of_grid v : v ∈ grid <-> (v.1 <= length path /\ v.2 <= length pat)%nat.
Proof.
  unfold grid. destruct v as [i j]; cbn [fst snd].
  rewrite elem_of_list_to_set, list_elem_of_In, in_prod_iff, !in_seq. lia.
Qed.

Lemma size_grid : (size grid <= S (length path) * S (length pat))%nat.
Proof.
  rewrite <- (length_seq (S (length path)) 0), <- (length_seq (S (length pat)) 0), <- length_prod.
  apply submseteq_length, NoDup_submseteq; [apply NoDup_elements|].
  intros v. unfold grid. by rewrite elem_of_elements, elem_of_list_to_set.
Qed.

Lemma succs_grid v w : w ∈ succs path pat v -> w ∈ grid.
Proof.
  unfold succs. destruct v as [pi qi]; simpl. rewrite elem_of_grid.
  destruct (path !! pi) eqn:Ep; [|by intros ?%elem_of_nil].
  destruct (pat !! qi) eqn:Eq; [|by intros ?%elem_of_nil].
  apply lookup_lt_Some in Ep, Eq.
  repeat case_match; set_unfold; naive_solver lia.
Qed.

Lemma length_succs v : (length (succs path pat v) <= 2)%nat.
Proof. unfold succs. repeat case_match; simpl; lia. Qed.

Lemma matches_loop_terminates fuel stack visited :
  (3 * (size grid - size visited) + length stack < fuel)%nat ->
  visited ⊆ grid -> (forall v, v ∈ stack -> v ∈ grid) ->
  is_Some (matches_loop fuel path pat stack visited).
Proof.
  revert stack visited. induction fuel as [|fuel IH]; intros [|v rest] visited Hf Hv Hs; [lia..|done|].
  rewrite matches_loop_pop. case_bool_decide as Hin.
  { apply IH; [simpl in *; lia|done|set_solver]. }
  destruct (accepting path pat v); [done|]. apply IH.
  - assert (size ({[v]} ∪ visited) = S (size visited)) as Hsz.
    { rewrite size_union by set_solver. by rewrite size_singleton. }
    assert (size ({[v]} ∪ visited) <= size grid)%nat.
    { apply subseteq_size. set_solver. }
    pose proof (length_succs v). rewrite length_app. simpl in *. lia.
  - set_solver.
  - intros w [Hw|Hw]%elem_of_app; [by eapply succs_grid|set_solver].
Qed.
End Correctness.

Lemma matches_segs_defined path pat :
  exists b, matches_loop (glob_fuel path pat) path pat [(0, 0)%nat] ∅ = Some b.
Proof.
  apply matches_loop_terminates.
  - unfold glob_fuel. rewrite size_empty. pose proof (size_grid path pat). simpl. lia.
  - set_solver.
  - intros v ->%list_elem_of_singleton. apply elem_of_grid. simpl. lia.
Qed.

Lemma matches_segs_spec path pat : matches_segs path pat = true <-> glob path pat.
Proof.
  unfold matches_segs. destruct (matches_segs_defined path pat) as [b Hb]. rewrite Hb.
  change (glob path pat) with (good path pat (0, 0)%nat). destruct b; split; try done.
  - intros _. eapply matches_loop_sound; [|done]. set_solver.
  - intros Hg. exfalso.
    refine (matches_loop_complete path pat _ [(0, 0)%nat] ∅ _ _ _ Hb Hg); set_solver.
Qed.

Lemma any_glob_matches_spec path pats :
  any_glob_matches path pats = true <->
  exists p, p ∈ pats /\ glob (segments path) (segments p).
Proof.
  unfold any_glob_matches, path_matches_glob. rewrite existsb_spec.
  by setoid_rewrite matches_segs_spec.
Qed.

(** ** Properties *)

(** C23. The worklist matcher always terminates within its fuel, and it accepts a
    path exactly when the path's segments match the pattern's under the
    declarative reading: [*] one segment, [**] any number, literals themselves. *)
Theorem glob_matcher_decides (path pattern : string) :
  (exists b, matches_loop (glob_fuel (segments path) (segments pattern)) (segments path)
               (segments pattern) [(0, 0)%nat] ∅ = Some b /\
             path_matches_glob path pattern = b) /\
  (path_matches_glob path pattern = true <-> glob (segments path) (segments pattern)).
Proof.
  split; [|apply matches_segs_spec].
  destruct (matches_segs_defined (segments path) (segments pattern)) as [b Hb].
  exists b. split; [done|]. unfold path_matches_glob, matches_segs. by rewrite Hb.
Qed.

Example glob_examples :
  map (fun p => path_matches_glob p "/repos/*/issues/**")
    ["/repos/foo/issues"; "/repos/foo/issues/1/comments/"; "/repos/a/b/issues"; "/repos/issues"]
  = [true; true; false; false].
Proof. vm_compute. reflexivity. Qed.
