(* ===== verification/PolicyTypes.v ===== *)
(** * cdp-policy: the policy data model

    The records and enums of [cdp-policy/src/types.rs], the TOML-level
    records of [cdp-policy/src/parser.rs] and [cdp-policy/src/error.rs].
    Integers are [Z] in the range of their Rust type; a path is the string of
    its bytes. *)

From S2P Require Import Prelude.

Record AgentInfo : Type := mkAgentInfo {
  ai_uid : Z;
  ai_pid : Z;
  ai_binary_path : string;
  ai_binary_hash : list byte;
  ai_start_time : Z;
  ai_fingerprint_hash : list byte;
  ai_agent_id : option string;
  ai_agent_version : option string
}.

Record BodyConstraints : Type := mkBodyConstraints {
  bc_forbidden_fields : list string;
  bc_max_size_bytes : option Z;
  bc_allowed_content_types : list string
}.

Record NetworkConstraints : Type := mkNetworkConstraints {
  n_follow_redirects : bool;
  n_dns_resolution : string;
  n_allowed_ip_ranges : list string
}.

(** [impl Default for NetworkConstraints] *)
Definition default_network : NetworkConstraints :=
  mkNetworkConstraints false "pinned" [].

Record Scope : Type := mkScope {
  s_hosts : list string;
  s_methods : list string;
  s_paths : list string;
  s_forbidden_paths : list string;
  s_ttl_seconds : option Z;
  s_max_requests : option Z;
  s_body_constraints : option BodyConstraints;
  s_network : option NetworkConstraints
}.

(** [Scope::default()] *)
Definition default_scope : Scope := mkScope [] [] [] [] None None None None.

Record PolicyConstraints : Type := mkPolicyConstraints {
  pc_max_ttl_seconds : option Z;
  pc_max_requests_per_lease : option Z;
  pc_max_renewals : option Z;
  pc_max_cumulative_ttl_seconds : option Z;
  pc_renewable : bool;
  pc_delegation_allowed : bool;
  pc_delegation_max_depth : option Z;
  pc_delegation_require_approval : bool
}.

(** [impl Default for PolicyConstraints] *)
Definition default_constraints : PolicyConstraints :=
  mkPolicyConstraints None None None None true false None false.

Inductive PolicyDecision : Type :=
| AutoApprove (granted_scope : Scope) (policy_name : string) (constraints : PolicyConstraints)
| RequiresApproval (granted_scope : Scope) (policy_name : string) (constraints : PolicyConstraints)
| Denied (reason : string).

Record ApprovalConfig : Type := mkApprovalConfig {
  gui_command : string;
  timeout_seconds : Z;
  show_binary_hash : bool;
  label_reason_untrusted : bool;
  max_reason_length : Z
}.

Inductive ApprovalResult : Type :=
| AllowOnce
| AllowTimed (duration_seconds : Z)
| Deny.

(** [cdp-policy/src/error.rs]. *)
Inductive PolicyError : Type :=
| Parse (file reason : string)
| Validation (policy_name reason : string)
| DirectoryNotFound (dir : string)
| ApprovalTimeout (secs : Z)
| ApprovalCommand (m : string)
| Watcher (m : string)
| PolicyIo (m : string)
| GlobPattern (m : string).

(** ** Policy files, [cdp-policy/src/parser.rs] *)

Record PolicyMatch : Type := mkPolicyMatch {
  pm_agent_binary_hash : option string;
  pm_agent_binary_path : option string;
  pm_agent_id : option string;
  pm_credential_ref : string
}.

Record PolicyAllow : Type := mkPolicyAllow {
  pa_hosts : list string;
  pa_methods : list string;
  pa_paths : list string;
  pa_forbidden_paths : list string;
  pa_max_ttl_seconds : option Z;
  pa_max_requests_per_lease : option Z;
  pa_max_renewals : option Z;
  pa_max_cumulative_ttl_seconds : option Z;
  pa_renewable : bool;
  pa_body_constraints : option BodyConstraints;
  pa_network : option NetworkConstraints
}.

Record PolicyApproval : Type := mkPolicyApproval { mode : string }.

Record PolicyDelegation : Type := mkPolicyDelegation {
  pd_allowed : bool;
  pd_max_depth : option Z;
  pd_require_approval_for_delegate : bool
}.

Record PolicyEntry : Type := mkPolicyEntry {
  pe_name : string;
  pe_description : string;
  pe_match_block : PolicyMatch;
  pe_allow : PolicyAllow;
  pe_approval : PolicyApproval;
  pe_delegation : PolicyDelegation
}.

Record PolicyFile : Type := mkPolicyFile { policies : list PolicyEntry }.

Definition default_renewable : bool := true.
Definition default_approval_mode : string := "prompt".

(** [impl Default for PolicyApproval] and [PolicyDelegation::default()] *)
Definition default_approval : PolicyApproval := mkPolicyApproval default_approval_mode.
Definition default_delegation : PolicyDelegation := mkPolicyDelegation false None false.
