(* ===== verification/PolicyParser.v ===== *)
(** * cdp-policy/src/parser.rs: loading and validating policy files

    The filesystem and the TOML deserializer are the fields of [PolicyFs];
    everything the module itself decides (which files are read and in which
    order, which entries are refused and why, how a binary hash is decoded)
    is modelled. *)

From stdpp Require Import sorting.
From S2P Require Import Prelude RustStr PolicyTypes.

(** ** Environment *)

(** [read_dir] lists file names, [None] for an entry that cannot be read;
    errors are the displayed I/O or TOML error. *)
Class PolicyFs : Type := {
  path_exists : string -> bool;
  path_is_dir : string -> bool;
  read_dir : string -> list (option string) + string;
  read_to_string : string -> string -> string + string;
  toml_from_str : string -> PolicyFile + string
}.

Section Parser.
Context `{Fmt}.

(** ** Validation *)

Definition MAX_NAME_LEN : Z := 128.

Definition quoted (s : string) : string := dquote +:+ s +:+ dquote.

Definition validate_policy (entry : PolicyEntry) : result unit PolicyError :=
  let name := pe_name entry in
  (* Rule 1: policy name must be non-empty and reasonably sized. *)
  if bool_decide (trim name = EmptyString) then
    Err (Validation name "policy name must not be empty")
  else if len name >? MAX_NAME_LEN then
    Err (Validation name "policy name must not exceed 128 characters")
  (* Rule 2: credential_ref must not be empty. *)
  else if bool_decide (trim (pm_credential_ref (pe_match_block entry)) = EmptyString) then
    Err (Validation name "credential_ref must not be empty")
  else
    (* Rule 3: approval mode must be a recognised value. *)
    let m := mode (pe_approval entry) in
    if negb (bool_decide (m = "auto")) && negb (bool_decide (m = "prompt")) then
      Err (Validation name ("approval.mode must be " +:+ quoted "auto" +:+ " or " +:+
                            quoted "prompt" +:+ ", got " +:+ debug_str m))
    (* Rule 4: auto-approve requires agent_binary_hash. *)
    else if bool_decide (m = "auto") &&
            bool_decide (pm_agent_binary_hash (pe_match_block entry) = None) then
      Err (Validation name
             ("auto-approve rules must specify agent_binary_hash; " +:+
              "agent_binary_path alone is insufficient for auto-approve " +:+
              "(filesystem paths are not cryptographically verified)"))
    else
      (* Rule 5: max_renewals must not exceed the protocol maximum. *)
      let! _ :=
        match pa_max_renewals (pe_allow entry) with
        | Some r =>
            if r >? 3 then
              Err (Validation name ("max_renewals (" +:+ display_Z r +:+
                                    ") exceeds protocol maximum of 3"))
            else Ok tt
        | None => Ok tt
        end in
      (* Rule 6: max_cumulative_ttl_seconds must not exceed four hours. *)
      match pa_max_cumulative_ttl_seconds (pe_allow entry) with
      | Some t =>
          if t >? 14400 then
            Err (Validation name ("max_cumulative_ttl_seconds (" +:+ display_Z t +:+
                                  ") exceeds protocol maximum of 14400 (4 hours)"))
          else Ok tt
      | None => Ok tt
      end.

(** ** Loading a directory *)

(** The text after the last dot, when there is one and it is not the first
    character. *)
Definition extension (name : string) : option string :=
  match rev (split (Ascii.ascii_of_N 46) name) with
  | ext :: stem :: rest => if bool_decide (concat_str (stem :: rest) = EmptyString) &&
                              bool_decide (rest = []) then None else Some ext
  | _ => None
  end.

(** [OsStr::to_str] *)
Definition to_str (name : string) : option string :=
  if bool_decide (to_string_lossy name = name) then Some name else None.

Definition is_toml (name : string) : bool :=
  match extension name with
  | Some e => bool_decide (to_str e = Some "toml")
  | None => false
  end.

Definition name_le (a b : string) : Prop := String.leb a b.

#[local] Instance name_le_dec a b : Decision (name_le a b).
Proof. unfold name_le. apply _. Defined.

(** [for entry in policy_file.policies { validate_policy(&entry)?; entries.push(entry) }] *)
Fixpoint push_validated (entries ps : list PolicyEntry) : result (list PolicyEntry) PolicyError :=
  match ps with
  | [] => Ok entries
  | entry :: rest =>
      let! _ := validate_policy entry in push_validated (entries ++ [entry]) rest
  end.

(** [for path in paths { .. }] *)
Fixpoint load_files `{PolicyFs} (dir : string) (entries : list PolicyEntry) (names : list string)
    : result (list PolicyEntry) PolicyError :=
  match names with
  | [] => Ok entries
  | name :: rest =>
      let file_name := unwrap_or (to_str name) "<unknown>" in
      match read_to_string dir name with
      | inr e => Err (Parse file_name ("failed to read file: " +:+ e))
      | inl content =>
          match toml_from_str content with
          | inr e => Err (Parse file_name e)
          | inl policy_file =>
              let! entries := push_validated entries (policies policy_file) in
              load_files dir entries rest
          end
      end
  end.

(** The [.toml] names of the directory, sorted. *)
Definition toml_names (listing : list (option string)) : list string :=
  merge_sort name_le (List.filter is_toml (omap id listing)).

Definition load_policies_from_dir `{PolicyFs} (dir : string) : result (list PolicyEntry) PolicyError :=
  if negb (path_exists dir) then Err (DirectoryNotFound (to_string_lossy dir))
  else if negb (path_is_dir dir) then Err (DirectoryNotFound (to_string_lossy dir))
  else
    match read_dir dir with
    | inr e => Err (PolicyIo e)
    | inl listing => load_files dir [] (toml_names listing)
    end.

(** ** Binary hashes *)

Definition parse_binary_hash (raw : string) : result (list byte) PolicyError :=
  match strip_prefix "sha256:" raw with
  | None => Err (Parse "<none>" ("binary hash must start with " +:+ quoted "sha256:" +:+
                                 ", got " +:+ debug_str raw))
  | Some hex_str =>
      let! dec := hex_to_bytes hex_str in
      match dec with
      | None => Err (Parse "<none>" ("binary hash hex portion is not valid hexadecimal: " +:+
                                     debug_str hex_str))
      | Some bytes =>
          if bool_decide (length bytes = 32%nat) then Ok bytes
          else Err (Parse "<none>" ("binary hash must decode to exactly 32 bytes (SHA-256), got " +:+
                                    display_Z (len hex_str / 2) +:+ " bytes"))
      end
  end.

(** ** Lemmas *)

(** What a loaded entry satisfies. *)
Definition valid_entry (entry : PolicyEntry) : Prop :=
  trim (pe_name entry) <> EmptyString /\ len (pe_name entry) <= 128 /\
  trim (pm_credential_ref (pe_match_block entry)) <> EmptyString /\
  (mode (pe_approval entry) = "auto" \/ mode (pe_approval entry) = "prompt") /\
  (mode (pe_approval entry) = "auto" -> is_Some (pm_agent_binary_hash (pe_match_block entry))) /\
  (forall r, pa_max_renewals (pe_allow entry) = Some r -> r <= 3) /\
  (forall t, pa_max_cumulative_ttl_seconds (pe_allow entry) = Some t -> t <= 14400).

Lemma validate_policy_ok_spec entry : validate_policy entry = Ok tt <-> valid_entry entry.
Proof.
  unfold validate_policy, valid_entry, MAX_NAME_LEN. cbv zeta.
  rewrite !guard_ok, rbind_ok, !bool_decide_eq_false, !andb_false_iff, !negb_false_iff.
  rewrite Z.gtb_ltb, Z.ltb_ge, !bool_decide_eq_true, !bool_decide_eq_false.
  assert (forall (o : option Z) lim m,
    match o with Some x => if x >? lim then Err (m x) else Ok tt | None => Ok tt end = Ok tt :> result unit PolicyError
    <-> forall x, o = Some x -> x <= lim) as Hlim.
  { intros [x|] lim m; [|naive_solver]. rewrite guard_ok, Z.gtb_ltb, Z.ltb_ge. naive_solver. }
  rewrite <- not_eq_None_Some.
  split.
  - intros (?&?&?&?&Ha&[] & Hr & Ht). rewrite Hlim in Hr, Ht. naive_solver.
  - intros (?&?&?&?&Ha&Hr & Ht). split_and!; [done..| |].
    + destruct (decide (mode (pe_approval entry) = "auto")); auto.
    + exists tt. by rewrite !Hlim.
Qed.

Lemma push_validated_ok entries ps es :
  push_validated entries ps = Ok es <-> Forall valid_entry ps /\ es = entries ++ ps.
Proof.
  revert entries. induction ps as [|p ps IH]; intros entries; simpl.
  { rewrite app_nil_r. naive_solver. }
  rewrite rbind_ok, Forall_cons. setoid_rewrite IH. rewrite <- validate_policy_ok_spec.
  split.
  - intros ([] & ? & ? & ->). by rewrite <- app_assoc.
  - intros [[? ?] ->]. exists tt. by rewrite <- app_assoc.
Qed.

(** The entries of one file, when it can be read and parsed. *)
Definition file_entries `{PolicyFs} (dir name : string) (ps : list PolicyEntry) : Prop :=
  exists content, read_to_string dir name = inl content /\
                  toml_from_str content = inl (mkPolicyFile ps).

Lemma load_files_ok `{PolicyFs} dir names entries es :
  load_files dir entries names = Ok es <->
  exists pss, Forall2 (file_entries dir) names pss /\ Forall valid_entry (concat pss) /\
              es = entries ++ concat pss.
Proof.
  revert entries. induction names as [|name names IH]; intros entries; simpl.
  { split.
    - intros ?; simplify_eq. exists []. simpl. rewrite app_nil_r. auto.
    - intros (pss & Hf & _ & ->). inversion Hf. simpl. by rewrite app_nil_r. }
  split.
  - intros Hl. branches Hl.
    apply rbind_ok in Hl as (es' & [Hv ->]%push_validated_ok & (pss & Hf & Hvs & ->)%IH).
    exists (policies p :: pss). simpl. split_and!.
    + constructor; [|done]. exists s. split; [done|]. by destruct p.
    + by apply Forall_app.
    + by rewrite <- app_assoc.
  - intros (pss & Hf & Hvs & ->). inversion Hf as [|? ps ? pss' (content & Hc & Ht) Hf']; subst.
    rewrite Hc, Ht. simpl in *. apply Forall_app in Hvs as [??]. apply rbind_ok.
    exists (entries ++ ps). split; [by apply push_validated_ok|].
    apply IH. exists pss'. by rewrite <- app_assoc.
Qed.

Lemma toml_names_spec listing name :
  name ∈ toml_names listing <-> Some name ∈ listing /\ is_toml name = true.
Proof.
  unfold toml_names. rewrite merge_sort_Permutation, !list_elem_of_In, filter_In, <- list_elem_of_In.
  rewrite list_elem_of_omap. rewrite <- list_elem_of_In. naive_solver.
Qed.

Lemma parse_binary_hash_ok raw h :
  parse_binary_hash raw = Ok h ->
  length h = 32%nat /\ exists hex, raw = "sha256:" +:+ hex /\
    hex_to_bytes (E:=PolicyError) hex = Ok (Some h).
Proof.
  unfold parse_binary_hash. intros Hp.
  destruct (strip_prefix _ raw) as [hex|] eqn:Es; [|done].
  apply strip_prefix_Some in Es. apply rbind_ok in Hp as (dec & Hd & Hp).
  branches Hp. bool_to_prop. eauto.
Qed.

(** ** Properties *)

(** [validate_policy] accepts an entry exactly when every protocol rule
    holds: non-blank name of at most 128 bytes, non-blank credential
    reference, a known approval mode, a binary hash for auto-approval, at most
    three renewals and at most four hours of cumulative TTL. *)
Theorem validate_policy_enforces_rules (entry : PolicyEntry) :
  validate_policy entry = Ok tt <-> valid_entry entry.
Proof. apply validate_policy_ok_spec. Qed.

(** Loading a directory succeeds only with the entries of every readable
    [.toml] file, in sorted file order, each of them valid; and it succeeds
    whenever all files parse and all entries are valid. *)
Theorem load_policies_complete `{PolicyFs} (dir : string) (listing : list (option string))
    (es : list PolicyEntry) :
  path_exists dir = true -> path_is_dir dir = true -> read_dir dir = inl listing ->
  (load_policies_from_dir dir = Ok es <->
   exists pss, Forall2 (file_entries dir) (toml_names listing) pss /\
               Forall valid_entry es /\ es = concat pss) /\
  Sorted name_le (toml_names listing).
Proof.
  intros He Hd Hr. split.
  - unfold load_policies_from_dir. rewrite He, Hd, Hr. simpl. rewrite load_files_ok. naive_solver.
  - apply Sorted_merge_sort. intros a b. unfold name_le.
    destruct (String.leb_total a b); [left|right]; by apply Is_true_true.
Qed.

(** Printing 32 bytes in the documented format decodes back to them, and
    whatever decodes is a hash of 32 bytes behind the [sha256:] prefix. *)
Theorem parse_binary_hash_roundtrip (h : list byte) :
  length h = 32%nat -> parse_binary_hash ("sha256:" +:+ bytes_to_hex h) = Ok h /\
  forall raw b, parse_binary_hash raw = Ok b ->
    length b = 32%nat /\ exists digits, raw = "sha256:" +:+ digits.
Proof.
  intros Hl. split.
  - unfold parse_binary_hash. rewrite strip_prefix_app, hex_roundtrip. simpl. by rewrite bool_decide_eq_true_2.
  - intros raw b (? & hex & ? & _)%parse_binary_hash_ok. eauto.
Qed.
End Parser.

(** A directory with one policy file and one file to skip. *)
Definition demo_entry : PolicyEntry :=
  mkPolicyEntry "github" EmptyString
    (mkPolicyMatch (Some ("sha256:" +:+ bytes_to_hex (replicate 32 Byte.xab))) None None "github_api")
    (mkPolicyAllow ["api.github.com"] ["GET"] ["/repos/**"] [] (Some 3600) None (Some 3) (Some 14400)
       true None None)
    (mkPolicyApproval "auto") default_delegation.

Definition demo_fs : PolicyFs := {|
  path_exists := fun _ => true;
  path_is_dir := fun _ => true;
  read_dir := fun _ => inl [Some "b.toml"; Some "README.md"; None; Some "a.toml"];
  read_to_string := fun _ n => inl n;
  toml_from_str := fun c =>
    if bool_decide (c = "a.toml") then inl (mkPolicyFile [demo_entry]) else inl (mkPolicyFile [])
|}.

Lemma load_policies_complete_witness :
  load_policies_from_dir (H:=plain_fmt) (H0:=demo_fs) "/etc/cdp" = Ok [demo_entry].
Proof.
  apply (load_policies_complete (H:=plain_fmt) (H0:=demo_fs) "/etc/cdp"
    [Some "b.toml"; Some "README.md"; None; Some "a.toml"] [demo_entry]); [done..|].
  exists [[demo_entry]; []]. split; [|split; [|done]].
  - change (Forall2 (@file_entries demo_fs "/etc/cdp") ["a.toml"; "b.toml"] [[demo_entry]; []]).
    repeat constructor; eexists; split; reflexivity.
  - constructor; [|constructor]. apply (validate_policy_ok_spec (H:=plain_fmt)). vm_compute. reflexivity.
Defined.

Lemma parse_binary_hash_roundtrip_witness :
  parse_binary_hash (H:=plain_fmt) ("sha256:" +:+ bytes_to_hex (replicate 32 Byte.xab)) =
  Ok (replicate 32 Byte.xab).
Proof. by apply parse_binary_hash_roundtrip. Defined.
