(* ===== verification/PolicyEvaluator.v ===== *)
(** * cdp-policy/src/evaluator.rs: matching a request against the policies

    The three passes of [PolicyEvaluator::evaluate] in their order, scope
    intersection and the constraints handed to the lease manager.  A pass can
    panic (a non-ASCII binary hash in a policy is sliced inside a scalar
    value), so the passes are in [result]; nothing here returns [Err]. *)

From S2P Require Import Prelude RustStr PolicyTypes PolicyParser Glob.

(** ** Constant-time comparison *)

(** [for (x, y) in a.iter().zip(b.iter()) { diff |= x ^ y }] *)
Fixpoint xor_diff (diff : N) (a b : list byte) : N :=
  match a, b with
  | x :: a', y :: b' => xor_diff (N.lor diff (N.lxor (Byte.to_N x) (Byte.to_N y))) a' b'
  | _, _ => diff
  end.

Definition constant_time_eq (a b : list byte) : bool :=
  if negb (Nat.eqb (length a) (length b)) then false
  else (xor_diff 0 a b =? 0)%N.

(** ** Scope intersection *)

Definition min_option (a b : option Z) : option Z :=
  match a, b with
  | Some x, Some y => Some (Z.min x y)
  | Some x, None | None, Some x => Some x
  | None, None => None
  end.

Definition merge_body_constraints (requested policy : option BodyConstraints)
    : option BodyConstraints :=
  match requested, policy with
  | None, None => None
  | Some r, None => Some r
  | None, Some p => Some p
  | Some r, Some p =>
      Some (mkBodyConstraints
        (push_new (bc_forbidden_fields r) (bc_forbidden_fields p))
        (match bc_max_size_bytes r, bc_max_size_bytes p with
         | Some a, Some b => Some (Z.min a b)
         | Some x, None | None, Some x => Some x
         | None, None => None
         end)
        (if negb (bool_decide (bc_allowed_content_types p = [])) then bc_allowed_content_types p
         else bc_allowed_content_types r))
  end.

(** The host and method rule: an empty side imposes nothing, an empty
    intersection of two non-empty sides refuses the request. *)
Definition intersect_named (requested allowed : list string) : option (list string) :=
  if bool_decide (allowed = []) then Some requested
  else if bool_decide (requested = []) then Some allowed
  else
    let intersection := List.filter (fun h => contains allowed h) requested in
    if bool_decide (intersection = []) then None else Some intersection.

Definition intersect_scope (requested : Scope) (allowed : PolicyAllow) : option Scope :=
  granted_hosts ← intersect_named (s_hosts requested) (pa_hosts allowed);
  granted_methods ← intersect_named (s_methods requested) (pa_methods allowed);
  let granted_paths :=
    if bool_decide (pa_paths allowed = []) then s_paths requested
    else List.filter (fun p => any_glob_matches p (pa_paths allowed)) (s_paths requested) in
  let all_forbidden := push_new (pa_forbidden_paths allowed) (s_forbidden_paths requested) in
  let granted_paths :=
    if negb (bool_decide (all_forbidden = [])) then
      List.filter (fun p => negb (any_glob_matches p all_forbidden)) granted_paths
    else granted_paths in
  let ttl_seconds := min_option (s_ttl_seconds requested) (pa_max_ttl_seconds allowed) in
  let max_requests := min_option (s_max_requests requested) (pa_max_requests_per_lease allowed) in
  let body_constraints :=
    merge_body_constraints (s_body_constraints requested) (pa_body_constraints allowed) in
  let network := opt_or (pa_network allowed) (s_network requested) in
  Some (mkScope granted_hosts granted_methods granted_paths all_forbidden ttl_seconds
          max_requests body_constraints network).

Definition build_constraints (allow : PolicyAllow) (delegation : PolicyDelegation)
    : PolicyConstraints :=
  mkPolicyConstraints (pa_max_ttl_seconds allow) (pa_max_requests_per_lease allow)
    (pa_max_renewals allow) (pa_max_cumulative_ttl_seconds allow) (pa_renewable allow)
    (pd_allowed delegation) (pd_max_depth delegation)
    (pd_require_approval_for_delegate delegation).

(** ** The evaluator *)

Record PolicyEvaluator : Type := mkPolicyEvaluator { loaded : list PolicyEntry }.

Definition evaluator_reload (ev : PolicyEvaluator) (ps : list PolicyEntry) : PolicyEvaluator :=
  mkPolicyEvaluator ps.

Definition policy_count (ev : PolicyEvaluator) : nat := length (loaded ev).

Definition credential_ref_matches (policy_ref requested_ref : string) : bool :=
  bool_decide (policy_ref = "*") || bool_decide (policy_ref = requested_ref).

Section Evaluate.
Context `{Fmt}.

(** [iter().find(..)] with a predicate that may panic. *)
Fixpoint find_r {E : Type} (p : PolicyEntry -> result bool E) (l : list PolicyEntry)
    : result (option PolicyEntry) E :=
  match l with
  | [] => Ok None
  | x :: l' =>
      let! b := p x in
      if (b : bool) then Ok (Some x) else find_r p l'
  end.

(** Pass 1's predicate. *)
Definition hash_matches {E : Type} (agent : AgentInfo) (credential_ref : string)
    (entry : PolicyEntry) : result bool E :=
  if negb (credential_ref_matches (pm_credential_ref (pe_match_block entry)) credential_ref)
  then Ok false
  else
    match pm_agent_binary_hash (pe_match_block entry) with
    | None => Ok false
    | Some raw_hash =>
        match parse_binary_hash raw_hash with
        | Err _ => Ok false
        | Ok policy_hash => Ok (constant_time_eq policy_hash (ai_binary_hash agent))
        | Panic => Panic
        end
    end.

Definition find_by_binary_hash {E : Type} (ev : PolicyEvaluator) (agent : AgentInfo)
    (credential_ref : string) : result (option PolicyEntry) E :=
  find_r (hash_matches agent credential_ref) (loaded ev).

(** Pass 2's predicate. *)
Definition path_matches (agent : AgentInfo) (credential_ref : string) (entry : PolicyEntry) : bool :=
  if negb (credential_ref_matches (pm_credential_ref (pe_match_block entry)) credential_ref)
  then false
  else
    match pm_agent_binary_path (pe_match_block entry) with
    | None => false
    | Some policy_path => bool_decide (policy_path = to_string_lossy (ai_binary_path agent))
    end.

Definition find_by_binary_path (ev : PolicyEvaluator) (agent : AgentInfo)
    (credential_ref : string) : option PolicyEntry :=
  List.find (path_matches agent credential_ref) (loaded ev).

(** Pass 3's predicate. *)
Definition id_matches (agent : AgentInfo) (credential_ref : string) (entry : PolicyEntry) : bool :=
  if negb (credential_ref_matches (pm_credential_ref (pe_match_block entry)) credential_ref)
  then false
  else
    match pm_agent_id (pe_match_block entry), ai_agent_id agent with
    | Some policy_id, Some agent_id => bool_decide (policy_id = agent_id)
    | _, _ => false
    end.

Definition find_by_agent_id (ev : PolicyEvaluator) (agent : AgentInfo)
    (credential_ref : string) : option PolicyEntry :=
  List.find (id_matches agent credential_ref) (loaded ev).

Definition build_decision (entry : PolicyEntry) (requested_scope : Scope) : PolicyDecision :=
  match intersect_scope requested_scope (pe_allow entry) with
  | None => Denied "scope intersection is empty"
  | Some granted_scope =>
      let constraints := build_constraints (pe_allow entry) (pe_delegation entry) in
      let policy_name := pe_name entry in
      if bool_decide (mode (pe_approval entry) = "auto")
      then AutoApprove granted_scope policy_name constraints
      else RequiresApproval granted_scope policy_name constraints
  end.

Definition evaluate {E : Type} (ev : PolicyEvaluator) (agent : AgentInfo)
    (credential_ref : string) (requested_scope : Scope) : result PolicyDecision E :=
  let! h := find_by_binary_hash ev agent credential_ref in
  match h with
  | Some entry => Ok (build_decision entry requested_scope)
  | None =>
      match find_by_binary_path ev agent credential_ref with
      | Some entry => Ok (build_decision entry requested_scope)
      | None =>
          match find_by_agent_id ev agent credential_ref with
          | Some entry => Ok (build_decision entry requested_scope)
          | None => Ok (Denied "no matching policy")
          end
      end
  end.

(** ** Specification of the passes *)

Inductive tier : Type := ByHash | ByPath | ById.

Definition tier_rank (t : tier) : nat :=
  match t with ByHash => 0 | ByPath => 1 | ById => 2 end.

(** What a tier demands of an entry, without the code's encodings. *)
Definition tier_matches (t : tier) (agent : AgentInfo) (cref : string) (e : PolicyEntry) : Prop :=
  (pm_credential_ref (pe_match_block e) = "*" \/ pm_credential_ref (pe_match_block e) = cref) /\
  match t with
  | ByHash => exists raw, pm_agent_binary_hash (pe_match_block e) = Some raw /\
                          parse_binary_hash raw = Ok (ai_binary_hash agent)
  | ByPath => pm_agent_binary_path (pe_match_block e) = Some (to_string_lossy (ai_binary_path agent))
  | ById => exists id, pm_agent_id (pe_match_block e) = Some id /\ ai_agent_id agent = Some id
  end.

(** [e] is the first entry of the best tier that has one. *)
Definition selected (ps : list PolicyEntry) (agent : AgentInfo) (cref : string)
    (t : tier) (e : PolicyEntry) : Prop :=
  (exists before after, ps = before ++ e :: after /\ tier_matches t agent cref e /\
     Forall (fun x => ~ tier_matches t agent cref x) before) /\
  forall t', (tier_rank t' < tier_rank t)%nat ->
    Forall (fun x => ~ tier_matches t' agent cref x) ps.

(** ** Lemmas *)

Lemma xor_diff_zero a b diff :
  length a = length b -> xor_diff diff a b = 0%N <-> diff = 0%N /\ a = b.
Proof.
  revert b diff. induction a as [|x a IH]; intros [|y b] diff Hl; simplify_eq/=; [naive_solver|].
  rewrite IH by done. rewrite N.lor_eq_0_iff, N.lxor_eq_0_iff. split; [|naive_solver].
  intros [[-> Hxy] ->]. split; [done|]. f_equal.
  pose proof (Byte.of_to_N x) as Hx. rewrite Hxy, Byte.of_to_N in Hx. congruence.
Qed.

Lemma constant_time_eq_spec a b : constant_time_eq a b = true <-> a = b.
Proof.
  unfold constant_time_eq. destruct (Nat.eqb_spec (length a) (length b)) as [Hl|Hl]; simpl.
  - rewrite N.eqb_eq, xor_diff_zero by done. naive_solver.
  - split; [done|]. by intros ->.
Qed.

Lemma credential_ref_matches_spec p r :
  credential_ref_matches p r = true <-> p = "*" \/ p = r.
Proof. unfold credential_ref_matches. by rewrite orb_true_iff, !bool_decide_eq_true. Qed.

Lemma path_matches_spec agent cref e :
  path_matches agent cref e = true <-> tier_matches ByPath agent cref e.
Proof.
  unfold path_matches, tier_matches. rewrite <- credential_ref_matches_spec.
  destruct (credential_ref_matches _ _); simpl; [|naive_solver].
  destruct (pm_agent_binary_path _); [rewrite bool_decide_eq_true|]; naive_solver.
Qed.

Lemma id_matches_spec agent cref e :
  id_matches agent cref e = true <-> tier_matches ById agent cref e.
Proof.
  unfold id_matches, tier_matches. rewrite <- credential_ref_matches_spec.
  destruct (credential_ref_matches _ _); simpl; [|naive_solver].
  destruct (pm_agent_id _) as [p|], (ai_agent_id agent) as [a|];
    try rewrite bool_decide_eq_true; (split; [|intros (_ & ? & ? & ?)]); intros; simplify_eq; eauto.
Qed.

Lemma hash_matches_spec {E : Type} agent cref e b :
  hash_matches (E:=E) agent cref e = Ok b -> b = true <-> tier_matches ByHash agent cref e.
Proof.
  unfold hash_matches, tier_matches. rewrite <- credential_ref_matches_spec.
  destruct (credential_ref_matches _ _); simpl; [|naive_solver].
  destruct (pm_agent_binary_hash _) as [raw|]; [|naive_solver].
  destruct (parse_binary_hash raw) as [h|err|] eqn:Hh; intros ?; simplify_eq.
  - rewrite constant_time_eq_spec. split; [intros ->; eauto|]. intros (_ & ? & ? & ?). congruence.
  - split; [done|]. intros (_ & ? & ? & ?). congruence.
Qed.

Lemma find_r_Some {E : Type} (p : PolicyEntry -> result bool E) l e :
  find_r p l = Ok (Some e) ->
  exists before after, l = before ++ e :: after /\ p e = Ok true /\
    Forall (fun x => p x = Ok false) before.
Proof.
  induction l as [|x l IH]; simpl; [done|]. intros (b & Hb & Hf)%rbind_ok.
  destruct b; simplify_eq/=.
  - exists [], l. auto.
  - destruct (IH Hf) as (before & after & -> & ? & ?). exists (x :: before), after. auto.
Qed.

Lemma find_r_None {E : Type} (p : PolicyEntry -> result bool E) l :
  find_r p l = Ok None -> Forall (fun x => p x = Ok false) l.
Proof.
  induction l as [|x l IH]; simpl; [done|]. intros (b & Hb & Hf)%rbind_ok.
  destruct b; simplify_eq/=. auto.
Qed.

Lemma find_Some_split {A : Type} (p : A -> bool) l e :
  List.find p l = Some e ->
  exists before after, l = before ++ e :: after /\ p e = true /\
    Forall (fun x => p x = false) before.
Proof.
  induction l as [|x l IH]; simpl; [done|]. destruct (p x) eqn:E; intros Hf; simplify_eq.
  - exists [], l. auto.
  - destruct (IH Hf) as (before & after & -> & ? & ?). exists (x :: before), after. auto.
Qed.

Lemma find_None_Forall {A : Type} (p : A -> bool) l :
  List.find p l = None -> Forall (fun x => p x = false) l.
Proof. induction l as [|x l IH]; simpl; [done|]. destruct (p x) eqn:E; [done|]. auto. Qed.

Lemma not_hash_tier {E : Type} agent cref ps :
  Forall (fun x => hash_matches (E:=E) agent cref x = Ok false) ps ->
  Forall (fun x => ~ tier_matches ByHash agent cref x) ps.
Proof. intros Hf. eapply Forall_impl; [exact Hf|]. simpl. intros x Hx Ht. by apply (hash_matches_spec (E:=E)) in Hx as [_ Hx]; specialize (Hx Ht). Qed.

Lemma not_path_tier agent cref ps :
  Forall (fun x => path_matches agent cref x = false) ps ->
  Forall (fun x => ~ tier_matches ByPath agent cref x) ps.
Proof. intros Hf. eapply Forall_impl; [exact Hf|]. simpl. intros x Hx Ht%path_matches_spec. congruence. Qed.

Lemma not_id_tier agent cref ps :
  Forall (fun x => id_matches agent cref x = false) ps ->
  Forall (fun x => ~ tier_matches ById agent cref x) ps.
Proof. intros Hf. eapply Forall_impl; [exact Hf|]. simpl. intros x Hx Ht%id_matches_spec. congruence. Qed.

Lemma evaluate_cases {E : Type} ev agent cref req d :
  evaluate (E:=E) ev agent cref req = Ok d ->
  (exists t e, selected (loaded ev) agent cref t e /\ d = build_decision e req) \/
  (d = Denied "no matching policy" /\
   forall t, Forall (fun x => ~ tier_matches t agent cref x) (loaded ev)).
Proof.
  unfold evaluate, find_by_binary_hash, find_by_binary_path, find_by_agent_id.
  intros (h & Hh & Hd)%rbind_ok. destruct h as [e|].
  { left. exists ByHash, e. simplify_eq. split; [|done].
    apply find_r_Some in Hh as (bf & af & -> & Hp & Hb). split.
    - exists bf, af. split_and!; [done| |by eapply not_hash_tier].
      by apply (hash_matches_spec (E:=E) agent cref e true).
    - intros t'. simpl. lia. }
  apply find_r_None, not_hash_tier in Hh.
  destruct (List.find (path_matches _ _) _) as [e|] eqn:Hf.
  { left. exists ByPath, e. simplify_eq. split; [|done].
    apply find_Some_split in Hf as (bf & af & Hps & Hp & Hb). split.
    - exists bf, af. split_and!; [done| |by apply not_path_tier]. by apply path_matches_spec.
    - intros [] Hr; simpl in Hr; (done || lia). }
  apply find_None_Forall, not_path_tier in Hf.
  destruct (List.find (id_matches _ _) _) as [e|] eqn:Hi.
  { left. exists ById, e. simplify_eq. split; [|done].
    apply find_Some_split in Hi as (bf & af & Hps & Hp & Hb). split.
    - exists bf, af. split_and!; [done| |by apply not_id_tier]. by apply id_matches_spec.
    - intros [] Hr; simpl in Hr; (done || lia). }
  apply find_None_Forall, not_id_tier in Hi. right. split; [congruence|]. by intros [].
Qed.

(** *** Totality *)

Lemma is_ascii_strip p s r : strip_prefix p s = Some r -> is_ascii s = true -> is_ascii r = true.
Proof.
  revert s. induction p as [|a p IH]; intros [|b s]; simpl; intros Hs Ha; simplify_eq; try done.
  case_bool_decide; [|done]. bool_to_prop. eauto.
Qed.

Lemma parse_binary_hash_ascii raw : is_ascii raw = true -> parse_binary_hash raw <> Panic.
Proof.
  intros Ha. unfold parse_binary_hash. destruct (strip_prefix _ raw) as [r|] eqn:Es; [|done].
  destruct (hex_to_bytes_ascii (E:=PolicyError) r) as [[b|] ->]; [by eapply is_ascii_strip| |done].
  simpl. by case_bool_decide.
Qed.

(** Entries whose binary hash, if any, is ASCII text. *)
Definition ascii_hash (e : PolicyEntry) : Prop :=
  forall raw, pm_agent_binary_hash (pe_match_block e) = Some raw -> is_ascii raw = true.

Lemma hash_matches_total {E : Type} agent cref e :
  ascii_hash e -> exists b, hash_matches (E:=E) agent cref e = Ok b.
Proof.
  intros Ha. unfold hash_matches. destruct (negb _); [eauto|].
  destruct (pm_agent_binary_hash _) as [raw|] eqn:Er; [|eauto].
  pose proof (parse_binary_hash_ascii raw (Ha raw Er)). destruct (parse_binary_hash raw); eauto. done.
Qed.

Lemma find_r_total {E : Type} (p : PolicyEntry -> result bool E) l :
  Forall (fun x => exists b, p x = Ok b) l -> exists o, find_r p l = Ok o.
Proof.
  induction 1 as [|x l [b Hb] _ IH]; simpl; [eauto|]. rewrite Hb. simpl. destruct b; eauto.
Qed.

Lemma evaluate_defined {E : Type} ev agent cref req :
  Forall ascii_hash (loaded ev) -> exists d, evaluate (E:=E) ev agent cref req = Ok d.
Proof.
  intros Ha. unfold evaluate, find_by_binary_hash.
  destruct (find_r_total (E:=E) (hash_matches agent cref) (loaded ev)) as [h ->].
  { eapply Forall_impl; [exact Ha|]. simpl. intros x. apply hash_matches_total. }
  simpl. repeat case_match; eauto.
Qed.

(** *** Scope intersection *)

Lemma min_option_le a b x :
  min_option a b = Some x ->
  (forall y, a = Some y -> x <= y) /\ (forall y, b = Some y -> x <= y).
Proof. destruct a, b; simpl; intros; simplify_eq; split; intros; simplify_eq; lia. Qed.

Lemma min_option_Some a b : is_Some a \/ is_Some b -> is_Some (min_option a b).
Proof. destruct a, b; simpl; intros [[]|[]]; eauto; done. Qed.

Lemma intersect_named_spec req all g :
  intersect_named req all = Some g ->
  (all <> [] -> g <> [] /\ forall h, h ∈ g -> h ∈ all) /\
  (req <> [] -> forall h, h ∈ g -> h ∈ req).
Proof.
  unfold intersect_named. repeat case_bool_decide; intros; simplify_eq; try done.
  split; intros _; [split; [done|]|]; intros h; rewrite list_elem_of_In, filter_In, contains_spec;
    rewrite <- list_elem_of_In; naive_solver.
Qed.

Lemma intersect_named_None req all :
  intersect_named req all = None <-> req <> [] /\ all <> [] /\ forall h, h ∈ req -> h ∉ all.
Proof.
  unfold intersect_named. case_bool_decide; [naive_solver|]. case_bool_decide; [naive_solver|].
  case_bool_decide as Hc; split; try done.
  - intros _. split_and!; [done..|]. intros h Hr Ha.
    assert (h ∈ List.filter (fun h => contains all h) req) as Hin.
    { rewrite list_elem_of_In, filter_In, contains_spec. by rewrite <- list_elem_of_In. }
    rewrite Hc in Hin. by apply elem_of_nil in Hin.
  - intros (_ & _ & Hd). destruct (List.filter _ req) as [|h l] eqn:Ef; [done|].
    assert (h ∈ List.filter (fun h => contains all h) req) as Hin by (rewrite Ef; set_solver).
    rewrite list_elem_of_In, filter_In, contains_spec, <- list_elem_of_In in Hin. naive_solver.
Qed.

(** The granted scope stays within the request and within the policy. *)
Definition confined (req : Scope) (a : PolicyAllow) (g : Scope) : Prop :=
  (pa_hosts a <> [] -> s_hosts g <> [] /\ forall h, h ∈ s_hosts g -> h ∈ pa_hosts a) /\
  (s_hosts req <> [] -> forall h, h ∈ s_hosts g -> h ∈ s_hosts req) /\
  (pa_methods a <> [] -> s_methods g <> [] /\ forall m, m ∈ s_methods g -> m ∈ pa_methods a) /\
  (s_methods req <> [] -> forall m, m ∈ s_methods g -> m ∈ s_methods req) /\
  (forall p, p ∈ s_paths g ->
     p ∈ s_paths req /\
     (pa_paths a <> [] -> exists q, q ∈ pa_paths a /\ glob (segments p) (segments q)) /\
     forall f, f ∈ s_forbidden_paths g -> ~ glob (segments p) (segments f)) /\
  (forall f, f ∈ s_forbidden_paths g <-> f ∈ pa_forbidden_paths a \/ f ∈ s_forbidden_paths req) /\
  (forall m, pa_max_ttl_seconds a = Some m -> exists t, s_ttl_seconds g = Some t /\ t <= m) /\
  (forall m, s_ttl_seconds req = Some m -> exists t, s_ttl_seconds g = Some t /\ t <= m) /\
  (forall m, pa_max_requests_per_lease a = Some m -> exists t, s_max_requests g = Some t /\ t <= m) /\
  (forall m, s_max_requests req = Some m -> exists t, s_max_requests g = Some t /\ t <= m).

Lemma min_option_bound a b m :
  (a = Some m \/ b = Some m) -> exists t, min_option a b = Some t /\ t <= m.
Proof. destruct a, b; simpl; intros [?|?]; simplify_eq; eexists; (split; [done|]); lia. Qed.

Lemma intersect_scope_confined req a g : intersect_scope req a = Some g -> confined req a g.
Proof.
  unfold intersect_scope. intros (hs & Hh & (ms & Hm & Hg)%bind_Some)%bind_Some.
  simplify_eq. apply intersect_named_spec in Hh as [Hh1 Hh2], Hm as [Hm1 Hm2]. unfold confined; simpl.
  assert (forall p,
    p ∈ (if bool_decide (pa_paths a = []) then s_paths req
         else List.filter (fun p => any_glob_matches p (pa_paths a)) (s_paths req)) ->
    p ∈ s_paths req /\
    (pa_paths a <> [] -> exists q, q ∈ pa_paths a /\ glob (segments p) (segments q))) as Hp.
  { intros p. case_bool_decide; [naive_solver|].
    rewrite list_elem_of_In, filter_In, any_glob_matches_spec, <- list_elem_of_In. naive_solver. }
  split_and!; [exact Hh1|exact Hh2|exact Hm1|exact Hm2|..].
  - intros p Hin. set (fb := push_new _ _) in *. case_bool_decide as Hfb; simpl in Hin.
    + split; [naive_solver|]. split; [naive_solver|]. rewrite Hfb. intros f Hf. by apply elem_of_nil in Hf.
    + rewrite list_elem_of_In, filter_In, <- list_elem_of_In in Hin.
      destruct Hin as [Hin%Hp Hn]. split; [naive_solver|]. split; [naive_solver|].
      intros f Hf Hgl. apply negb_true_iff in Hn.
      assert (any_glob_matches p fb = true) by (apply any_glob_matches_spec; eauto). congruence.
  - intros f. apply push_new_spec.
  - intros m Hm. apply min_option_bound. auto.
  - intros m Hm. apply min_option_bound. auto.
  - intros m Hm. apply min_option_bound. auto.
  - intros m Hm. apply min_option_bound. auto.
Qed.

(** ** Properties *)

(** C22. Evaluation refines the three-tier specification: the decision is built
    from the first entry of the strongest tier that has a match, an entry of
    a weaker tier never overrides it, and without a match the request is
    denied. *)
Theorem evaluate_selects_best_tier {E : Type} (ev : PolicyEvaluator) (agent : AgentInfo)
    (cref : string) (req : Scope) (d : PolicyDecision) :
  evaluate (E:=E) ev agent cref req = Ok d ->
  (exists t e, selected (loaded ev) agent cref t e /\ d = build_decision e req) \/
  (d = Denied "no matching policy" /\
   forall t, Forall (fun x => ~ tier_matches t agent cref x) (loaded ev)).
Proof. apply evaluate_cases. Qed.

(** Evaluation is total on policy sets whose hashes are ASCII text, whatever
    else they hold. *)
Theorem evaluate_total_on_ascii {E : Type} (ev : PolicyEvaluator) (agent : AgentInfo)
    (cref : string) (req : Scope) :
  Forall ascii_hash (loaded ev) -> exists d, evaluate (E:=E) ev agent cref req = Ok d.
Proof. apply evaluate_defined. Qed.

(** C21. A granted scope never exceeds the request or the policy: hosts, methods
    and every explicitly granted path lie in both, no granted path matches a
    forbidden pattern, and TTL and request limits are at most both limits. *)
Theorem granted_scope_confined (e : PolicyEntry) (req g : Scope) (name : string)
    (c : PolicyConstraints) :
  build_decision e req = AutoApprove g name c \/ build_decision e req = RequiresApproval g name c ->
  confined req (pe_allow e) g /\ c = build_constraints (pe_allow e) (pe_delegation e) /\
  name = pe_name e.
Proof.
  unfold build_decision. destruct (intersect_scope _ _) as [g'|] eqn:Hi; [|naive_solver].
  apply intersect_scope_confined in Hi. case_bool_decide; naive_solver.
Qed.

(** Pass 3 ignores the binary hash of the entry it selects: a validated
    auto-approve rule that names an agent id approves any agent that declares
    this id, although its binary hash is not the rule's. *)
Theorem auto_approval_ignores_hash_for_declared_id (e : PolicyEntry) (agent : AgentInfo)
    (cref raw id : string) (h : list byte) :
  valid_entry e -> mode (pe_approval e) = "auto" -> pm_credential_ref (pe_match_block e) = cref ->
  pm_agent_binary_hash (pe_match_block e) = Some raw -> parse_binary_hash raw = Ok h ->
  h <> ai_binary_hash agent ->
  pm_agent_id (pe_match_block e) = Some id -> ai_agent_id agent = Some id ->
  exists g c, evaluate (E:=unit) (mkPolicyEvaluator [e]) agent cref default_scope =
              Ok (AutoApprove g (pe_name e) c).
Proof.
  intros _ Hmode Hc Hraw Hh Hne Hid Ha.
  assert (credential_ref_matches (pm_credential_ref (pe_match_block e)) cref = true) as Hcr
    by (apply credential_ref_matches_spec; auto).
  assert (exists g c, build_decision e default_scope = AutoApprove g (pe_name e) c) as (g & c & Hb).
  { unfold build_decision, intersect_scope, intersect_named; simpl. rewrite Hmode.
    repeat case_bool_decide; simpl; eauto; done. }
  unfold evaluate, find_by_binary_hash, find_by_binary_path, find_by_agent_id; simpl.
  unfold hash_matches, path_matches, id_matches. rewrite Hcr, Hraw, Hh, Hid, Ha. simpl.
  destruct (constant_time_eq h _) eqn:Ec; [by apply constant_time_eq_spec in Ec|]. simpl.
  rewrite (bool_decide_eq_true_2 (id = id)) by done.
  exists g, c. destruct (pm_agent_binary_path _); [case_bool_decide|]; by rewrite Hb.
Qed.
End Evaluate.

(** ** Example data and witnesses *)

Definition demo_agent : AgentInfo :=
  mkAgentInfo 1000 42 "/usr/bin/agent" (replicate 32 Byte.xab) 77 (replicate 32 Byte.xcd)
    (Some "ci-bot") (Some "1.0").

Definition rogue_agent : AgentInfo :=
  mkAgentInfo 1000 43 "/tmp/rogue" (replicate 32 Byte.x00) 78 (replicate 32 Byte.xce)
    (Some "ci-bot") (Some "1.0").

Definition id_entry : PolicyEntry :=
  mkPolicyEntry "ci" EmptyString
    (mkPolicyMatch (pm_agent_binary_hash (pe_match_block demo_entry)) None (Some "ci-bot") "github_api")
    (pe_allow demo_entry) (mkPolicyApproval "auto") default_delegation.

Definition demo_request : Scope :=
  mkScope ["api.github.com"; "evil.example"] ["GET"] ["/repos/a/b"; "/admin"] [] (Some 7200) None None None.

Lemma evaluate_selects_best_tier_witness :
  exists t e, selected (H:=plain_fmt) [id_entry; demo_entry] demo_agent "github_api" t e.
Proof.
  destruct (evaluate_selects_best_tier (H:=plain_fmt) (E:=unit)
    (mkPolicyEvaluator [id_entry; demo_entry]) demo_agent "github_api" demo_request
    (build_decision id_entry demo_request)) as [(t & e & Hs & _)|[Hd _]].
  - vm_compute. reflexivity.
  - by exists t, e.
  - vm_compute in Hd. discriminate Hd.
Defined.

Lemma evaluate_total_on_ascii_witness :
  exists d, evaluate (H:=plain_fmt) (E:=unit) (mkPolicyEvaluator [demo_entry]) demo_agent
              "github_api" demo_request = Ok d.
Proof.
  apply (evaluate_total_on_ascii (H:=plain_fmt)). constructor; [|constructor].
  intros raw [= <-]. vm_compute. reflexivity.
Defined.

Lemma granted_scope_confined_witness :
  exists g, confined demo_request (pe_allow demo_entry) g /\
    s_hosts g = ["api.github.com"] /\ s_paths g = ["/repos/a/b"] /\ s_ttl_seconds g = Some 3600.
Proof.
  exists (mkScope ["api.github.com"] ["GET"] ["/repos/a/b"] [] (Some 3600) None None None).
  split; [|done].
  eapply (granted_scope_confined demo_entry demo_request); left; vm_compute; reflexivity.
Defined.

Lemma auto_approval_ignores_hash_for_declared_id_witness :
  exists g c, evaluate (H:=plain_fmt) (E:=unit) (mkPolicyEvaluator [id_entry]) rogue_agent "github_api"
                default_scope = Ok (AutoApprove g "ci" c).
Proof.
  apply (auto_approval_ignores_hash_for_declared_id (H:=plain_fmt) id_entry rogue_agent "github_api"
    ("sha256:" +:+ bytes_to_hex (replicate 32 Byte.xab)) "ci-bot" (replicate 32 Byte.xab));
    try reflexivity; [|discriminate].
  apply (validate_policy_ok_spec (H:=plain_fmt)). vm_compute. reflexivity.
Defined.

(** A policy entry whose hash text holds a non-ASCII character. *)
Definition accented_entry : PolicyEntry :=
  mkPolicyEntry "accented" EmptyString
    (mkPolicyMatch (Some ("sha256:a" +:+ enc [195; 169]%N +:+ "b")) None None "github_api")
    (pe_allow demo_entry) (mkPolicyApproval "auto") default_delegation.

(** Validation does not decode the hash: a valid entry whose hash slices
    inside a scalar value makes every evaluation that reaches it panic. *)
Theorem evaluate_panics_on_sliced_scalar (req : Scope) :
  valid_entry accented_entry /\
  evaluate (H:=plain_fmt) (E:=unit) (mkPolicyEvaluator [accented_entry]) demo_agent "github_api" req = Panic.
Proof.
  split; [|vm_compute; reflexivity].
  apply (validate_policy_ok_spec (H:=plain_fmt)). vm_compute. reflexivity.
Qed.
