(* ===== verification/PolicyEngine.v ===== *)
(** * cdp-policy: user approval and the policy engine

    [cdp-policy/src/approval.rs] (the message shown to the user, the choice
    of a GUI tool and the reading of its answer) and the [PolicyEngine] of
    [cdp-policy/src/lib.rs].  The GUI processes are the fields of [Gui]: what
    a process prints and how it ends is chosen by the environment, also not
    ending before the timeout. *)

From S2P Require Import Prelude RustStr PolicyTypes PolicyParser PolicyEvaluator.

#[local] Arguments String.append !_ _ /.

(** ** Message formatting *)

(** [&hex[..16.min(hex.len())]] *)
Definition str_take (n : nat) (s : string) : string :=
  String.substring 0 (Nat.min n (String.length s)) s.

Definition summarise_paths (paths : list string) : string :=
  if (length paths <=? 3)%nat then join ", " paths
  else join ", " (take 3 paths) +:+ ", +" +:+ display_Z (Z.of_nat (length paths - 3)) +:+ " more".

Definition format_scope_summary (scope : Scope) : string :=
  let parts := if bool_decide (s_methods scope = []) then [] else [join ", " (s_methods scope)] in
  let parts :=
    match s_hosts scope with
    | [] => parts
    | host :: _ => (if bool_decide (parts = []) then parts else parts ++ ["to"]) ++ [host]
    end in
  let parts := if bool_decide (s_paths scope = []) then parts
               else parts ++ [summarise_paths (s_paths scope)] in
  join " " parts.

Definition format_duration_parts (scope : Scope) : string :=
  let parts := match s_ttl_seconds scope with
               | Some ttl => [display_Z ttl +:+ "s"]
               | None => []
               end in
  let parts := match s_max_requests scope with
               | Some max_req => parts ++ ["max " +:+ display_Z max_req +:+ " requests"]
               | None => parts
               end in
  join ", " parts.

(** [max_len] counts scalar values; [saturating_sub] stops at zero. *)
Definition truncate_reason (reason : string) (max_len : Z) : string :=
  if max_len =? 0 then EmptyString
  else
    if Z.of_nat (length (chars reason)) <=? max_len then reason
    else concat_str (take (Z.to_nat (Z.max 0 (max_len - 3))) (chars reason)) +:+ "...".

Definition format_approval_message (agent : AgentInfo) (credential_ref : string) (scope : Scope)
    (reason : string) (config : ApprovalConfig) : string :=
  let lines := ["Agent:       " +:+ to_string_lossy (ai_binary_path agent) +:+ " (PID " +:+
                display_Z (ai_pid agent) +:+ ")"] in
  let lines := if show_binary_hash config
               then lines ++ ["Binary Hash: sha256:" +:+
                              str_take 16 (bytes_to_hex (ai_binary_hash agent)) +:+ "..."]
               else lines in
  let lines := lines ++ ["Credential:  " +:+ credential_ref] in
  let scope_summary := format_scope_summary scope in
  let lines := if bool_decide (scope_summary = EmptyString) then lines
               else lines ++ ["Scope:       " +:+ scope_summary] in
  let duration_parts := format_duration_parts scope in
  let lines := if bool_decide (duration_parts = EmptyString) then lines
               else lines ++ ["Duration:    " +:+ duration_parts] in
  let truncated_reason := truncate_reason reason (max_reason_length config) in
  let reason_label := if label_reason_untrusted config
                      then "--- Agent-provided reason (UNVERIFIED) ---"
                      else "--- Agent-provided reason ---" in
  let lines := lines ++ [EmptyString; reason_label; truncated_reason] in
  join (String newline EmptyString) lines.

(** ** GUI processes *)

(** How a spawned tool ends.  [Exited None] is death by a signal. *)
Inductive ProcOutcome : Type :=
| SpawnFailed (e : string)
| ReadFailed (e : string)
| WaitFailed (e : string)
| Exited (code : option Z) (stdout : string).

(** [gui_run cmd args] is [None] when the process outlives the timeout. *)
Class Gui : Type := {
  which : string -> bool;
  gui_run : string -> list string -> option ProcOutcome
}.

Section Approval.
Context `{Fmt} `{Gui}.

Definition detect_gui_command : option string :=
  List.find which ["kdialog"; "zenity"; "osascript"].

Definition run_kdialog (gui_cmd message : string) : option (result ApprovalResult PolicyError) :=
  out ← gui_run gui_cmd ["--warningyesnocancel"; message; "--title"; "CDP Credential Request"];
  Some (match out with
        | SpawnFailed e => Err (ApprovalCommand ("failed to spawn kdialog: " +:+ e))
        | ReadFailed e | WaitFailed e => Err (ApprovalCommand ("kdialog wait failed: " +:+ e))
        | Exited (Some code) _ =>
            if code =? 0 then Ok AllowOnce
            else if code =? 1 then Ok Deny
            else if code =? 2 then Ok (AllowTimed 600)
            else Err (ApprovalCommand ("kdialog exited with unexpected code " +:+ display_Z code))
        | Exited None _ => Err (ApprovalCommand "kdialog terminated by signal")
        end).

Definition run_zenity (gui_cmd message : string) : option (result ApprovalResult PolicyError) :=
  out ← gui_run gui_cmd
          ["--question"; "--no-markup"; "--title=CDP Credential Request"; "--text=" +:+ message;
           "--ok-label=Allow Once"; "--cancel-label=Deny"; "--extra-button=Allow 10min"];
  Some (match out with
        | SpawnFailed e => Err (ApprovalCommand ("failed to spawn zenity: " +:+ e))
        | ReadFailed e => Err (ApprovalCommand ("zenity stdout read error: " +:+ e))
        | WaitFailed e => Err (ApprovalCommand ("zenity wait failed: " +:+ e))
        | Exited code stdout_text =>
            if bool_decide (code = Some 0) then Ok AllowOnce
            else if str_contains stdout_text "Allow 10min" then Ok (AllowTimed 600)
            else Ok Deny
        end).

Definition backslash : Ascii.ascii := Ascii.ascii_of_N 92.
Definition dquote_char : Ascii.ascii := Ascii.ascii_of_N 34.

(** [s.replace(c, r)] for a character [c]. *)
Fixpoint replace_char (c : Ascii.ascii) (r s : string) : string :=
  match s with
  | EmptyString => EmptyString
  | String a s' => if bool_decide (a = c) then r +:+ replace_char c r s'
                   else String a (replace_char c r s')
  end.

(** [message.replace('\\', "\\\\").replace('"', "\\\"")] *)
Definition osascript_escape (message : string) : string :=
  replace_char dquote_char (String backslash (String dquote_char EmptyString))
    (replace_char backslash (String backslash (String backslash EmptyString)) message).

Definition osascript_script (message : string) : string :=
  "display dialog " +:+ dquote +:+ osascript_escape message +:+ dquote +:+ " buttons {" +:+
  quoted "Deny" +:+ ", " +:+ quoted "Allow 10min" +:+ ", " +:+ quoted "Allow Once" +:+
  "} default button " +:+ quoted "Allow Once" +:+ " with icon caution".

Definition run_osascript (gui_cmd message : string) : option (result ApprovalResult PolicyError) :=
  out ← gui_run gui_cmd ["-e"; osascript_script message];
  Some (match out with
        | SpawnFailed e => Err (ApprovalCommand ("failed to spawn osascript: " +:+ e))
        | ReadFailed e => Err (ApprovalCommand ("osascript stdout read error: " +:+ e))
        | WaitFailed e => Err (ApprovalCommand ("osascript wait failed: " +:+ e))
        | Exited _ stdout_text =>
            if str_contains stdout_text "Allow Once" then Ok AllowOnce
            else if str_contains stdout_text "Allow 10min" then Ok (AllowTimed 600)
            else Ok Deny
        end).

(** [Path::new(s).file_name().and_then(to_str)]: the last component, when it
    is a name. *)
Definition file_name (s : string) : option string :=
  match rev (List.filter (fun c => negb (bool_decide (c = EmptyString)) && negb (bool_decide (c = ".")))
               (split (Ascii.ascii_of_N 47) s)) with
  | c :: _ => if bool_decide (c = "..") then None else Some c
  | [] => None
  end.

Definition run_gui_approval (gui_cmd message : string) (timeout_secs : Z)
    : result ApprovalResult PolicyError :=
  let base := unwrap_or (file_name gui_cmd) gui_cmd in
  let fut :=
    if bool_decide (base = "kdialog") then run_kdialog gui_cmd message
    else if bool_decide (base = "zenity") then run_zenity gui_cmd message
    else if bool_decide (base = "osascript") then run_osascript gui_cmd message
    else Some (Err (ApprovalCommand ("unsupported GUI command: " +:+ debug_str base +:+
                                     "; supported: kdialog, zenity, osascript"))) in
  match fut with
  | Some res => res
  | None => Err (ApprovalTimeout timeout_secs)
  end.

Definition prompt_user (agent : AgentInfo) (credential_ref : string) (scope : Scope)
    (reason : string) (config : ApprovalConfig) : result ApprovalResult PolicyError :=
  let message := format_approval_message agent credential_ref scope reason config in
  let! gui_cmd :=
    if negb (bool_decide (gui_command config = EmptyString)) then Ok (gui_command config)
    else ok_or detect_gui_command (ApprovalCommand "no GUI approval tool found") in
  run_gui_approval gui_cmd message (timeout_seconds config).

(** ** The engine *)

Record PolicyEngine : Type := mkPolicyEngine {
  evaluator : PolicyEvaluator;
  policy_dir : string;
  approval_config : ApprovalConfig
}.

(** [create_dir_all] is the environment's answer to creating the directory
    when it does not exist: the filesystem after it, or an error. *)
Definition engine_new (create_dir_all : PolicyFs -> string -> PolicyFs + string) (fs : PolicyFs)
    (dir : string) (config : ApprovalConfig) : result PolicyEngine PolicyError :=
  let! fs :=
    if negb (path_exists dir) then
      match create_dir_all fs dir with
      | inl fs' => Ok fs'
      | inr e => Err (PolicyIo ("failed to create policy dir " +:+ to_string_lossy dir +:+ ": " +:+ e))
      end
    else Ok fs in
  let! ps := load_policies_from_dir (H0:=fs) dir in
  Ok (mkPolicyEngine (mkPolicyEvaluator ps) dir config).

Definition engine_evaluate (eng : PolicyEngine) (agent : AgentInfo) (credential_ref : string)
    (requested_scope : Scope) : result PolicyDecision PolicyError :=
  evaluate (evaluator eng) agent credential_ref requested_scope.

Definition evaluate_with_approval (eng : PolicyEngine) (agent : AgentInfo) (credential_ref : string)
    (requested_scope : Scope) (reason : string) : result PolicyDecision PolicyError :=
  let! decision := engine_evaluate eng agent credential_ref requested_scope in
  match decision with
  | RequiresApproval granted_scope policy_name constraints =>
      let! res := prompt_user agent credential_ref granted_scope reason (approval_config eng) in
      match res with
      | AllowOnce | AllowTimed _ => Ok (AutoApprove granted_scope policy_name constraints)
      | Deny => Ok (Denied "user denied the request")
      end
  | _ => Ok decision
  end.

(** One message of the watcher's channel: the loop body of [start_watcher]. *)
Definition engine_reload (eng : PolicyEngine) (new_policies : list PolicyEntry) : PolicyEngine :=
  mkPolicyEngine (evaluator_reload (evaluator eng) new_policies) (policy_dir eng) (approval_config eng).

Definition engine_policy_count (eng : PolicyEngine) : nat := policy_count (evaluator eng).
End Approval.

(** ** Lemmas: scalar values of a string *)

Fixpoint all_cont (s : string) : bool :=
  match s with
  | EmptyString => true
  | String c s' => is_cont c && all_cont s'
  end.

(** A group as [chars] builds it after the first: a leading byte that is no
    continuation, then continuations. *)
Definition char_group (g : string) : bool :=
  match g with
  | EmptyString => false
  | String c s => negb (is_cont c) && all_cont s
  end.

Lemma chars_from_app cur s t :
  cur <> EmptyString -> all_cont s = true ->
  chars_from cur (s +:+ t) = chars_from (cur +:+ s) t.
Proof.
  revert cur. induction s as [|c s IH]; intros cur Hc Ha; simpl in *.
  { by rewrite append_nil_r. }
  bool_to_prop. rewrite H. simpl. rewrite IH; [|by destruct cur|done]. by rewrite append_assoc.
Qed.

Lemma chars_from_groups cur l :
  cur <> EmptyString -> Forall (fun g => char_group g = true) l ->
  chars_from cur (concat_str l) = cur :: l.
Proof.
  intros Hc Hl. revert cur Hc. induction Hl as [|g l Hg _ IH]; intros cur Hc; simpl.
  { by rewrite bool_decide_eq_false_2. }
  destruct g as [|c g]; [done|]. simpl in *. bool_to_prop. rewrite H. simpl.
  rewrite bool_decide_eq_false_2 by done. f_equal.
  rewrite chars_from_app by done. simpl. by apply IH.
Qed.

(** Every group of a string but the first is a [char_group]. *)
Lemma chars_from_wf cur s :
  cur <> EmptyString ->
  exists g l, chars_from cur s = g :: l /\ g <> EmptyString /\ Forall (fun g => char_group g = true) l /\
    exists t, g = cur +:+ t /\ all_cont t = true.
Proof.
  revert cur. induction s as [|c s IH]; intros cur Hc; simpl.
  { rewrite bool_decide_eq_false_2 by done. exists cur, []. split_and!; [done..|].
    exists EmptyString. by rewrite append_nil_r. }
  rewrite (bool_decide_eq_false_2 (cur = EmptyString)) by done.
  destruct (is_cont c) eqn:Ec; simpl.
  - destruct (IH (cur +:+ String c EmptyString)) as (g & l & -> & ? & ? & t & -> & ?);
      [by destruct cur|].
    do 2 eexists. split_and!; [done..|]. exists (String c t). rewrite append_assoc. simpl. by rewrite Ec.
  - destruct (IH (String c EmptyString)) as (g & l & -> & ? & ? & t & -> & ?); [done|].
    exists cur, ((String c EmptyString +:+ t) :: l). split_and!; [done|done| |].
    + constructor; [|done]. simpl. by rewrite Ec.
    + exists EmptyString. by rewrite append_nil_r.
Qed.

Lemma chars_take_dots s n :
  length (chars (concat_str (take n (chars s)) +:+ "...")) = (Nat.min n (length (chars s)) + 3)%nat.
Proof.
  assert (forall l, concat_str l +:+ "..." = concat_str (l ++ ["."; "."; "."])) as Hdots.
  { induction l as [|x l IH]; simpl; [done|]. by rewrite append_assoc, IH. }
  assert (forall c s, chars (String c s) = chars_from (String c EmptyString) s) as Hfirst.
  { intros. unfold chars. simpl. by rewrite orb_true_r. }
  rewrite Hdots. destruct s as [|c s].
  { change (chars EmptyString) with (@nil string). by rewrite take_nil, Nat.min_0_r. }
  rewrite Hfirst.
  destruct (chars_from_wf (String c EmptyString) s) as (g & l & -> & Hg & Hl & t & -> & Ht); [done|].
  destruct n as [|n]; simpl; [done|]. rewrite Hfirst.
  rewrite chars_from_app by done. simpl. rewrite chars_from_groups.
  - simpl. rewrite length_app, length_take. simpl. lia.
  - done.
  - apply Forall_app. split; [by apply Forall_take|]. by repeat constructor.
Qed.

Lemma truncate_reason_length reason max_len :
  0 <= max_len -> Z.of_nat (length (chars (truncate_reason reason max_len))) <= Z.max max_len 3.
Proof.
  intros Hm. unfold truncate_reason. destruct (Z.eqb_spec max_len 0); [simpl; lia|].
  destruct (Z.leb_spec (Z.of_nat (length (chars reason))) max_len); [lia|].
  rewrite chars_take_dots. lia.
Qed.

(** ** Lemmas: AppleScript literals *)

(** Reading the rest of a double-quoted AppleScript literal: the text it
    denotes and what follows the closing quote. *)
Fixpoint read_literal (s : string) : option (string * string) :=
  match s with
  | EmptyString => None
  | String c s' =>
      if bool_decide (c = dquote_char) then Some (EmptyString, s')
      else if bool_decide (c = backslash) then
        match s' with
        | String d s'' => match read_literal s'' with
                          | Some (t, rest) => Some (String d t, rest)
                          | None => None
                          end
        | EmptyString => None
        end
      else match read_literal s' with
           | Some (t, rest) => Some (String c t, rest)
           | None => None
           end
  end.

Lemma osascript_escape_read m rest :
  read_literal (osascript_escape m +:+ String dquote_char rest) = Some (m, rest).
Proof.
  unfold osascript_escape. induction m as [|c m IH]; [done|]. simpl.
  destruct (decide (c = backslash)) as [->|Hb].
  { rewrite bool_decide_eq_true_2 by done. simpl. by rewrite IH. }
  rewrite (bool_decide_eq_false_2 (c = backslash)) by done. simpl.
  destruct (decide (c = dquote_char)) as [->|Hq].
  { rewrite bool_decide_eq_true_2 by done. simpl. by rewrite IH. }
  rewrite (bool_decide_eq_false_2 (c = dquote_char)) by done. simpl.
  rewrite !bool_decide_eq_false_2 by done. by rewrite IH.
Qed.

(** ** Lemmas: the engine *)

Section EngineLemmas.
Context `{Fmt} `{Gui}.

Lemma evaluate_no_err {E : Type} ev agent cref req (e : E) : evaluate ev agent cref req <> Err e.
Proof.
  unfold evaluate, find_by_binary_hash.
  assert (forall l, find_r (hash_matches (E:=E) agent cref) l <> Err e) as Hf.
  { induction l as [|x l IH]; simpl; [done|].
    destruct (hash_matches agent cref x) as [[]|e'|] eqn:Hx; simpl; try done.
    unfold hash_matches in Hx. repeat case_match; simplify_eq. }
  specialize (Hf (loaded ev)). destruct (find_r _ _) as [o|?|]; simpl; try done; [|congruence].
  by repeat case_match.
Qed.

Lemma evaluate_with_approval_resolved eng agent cref req reason d :
  evaluate_with_approval eng agent cref req reason = Ok d ->
  match d with
  | AutoApprove g n c =>
      evaluate (E:=PolicyError) (evaluator eng) agent cref req = Ok (AutoApprove g n c) \/
      evaluate (E:=PolicyError) (evaluator eng) agent cref req = Ok (RequiresApproval g n c) /\
      exists r, prompt_user agent cref g reason (approval_config eng) = Ok r /\ r <> Deny
  | RequiresApproval _ _ _ => False
  | Denied m =>
      evaluate (E:=PolicyError) (evaluator eng) agent cref req = Ok (Denied m) \/
      exists g n c, evaluate (E:=PolicyError) (evaluator eng) agent cref req = Ok (RequiresApproval g n c) /\
        prompt_user agent cref g reason (approval_config eng) = Ok Deny
  end.
Proof.
  unfold evaluate_with_approval, engine_evaluate. intros (dec & Hd & Hk)%rbind_ok.
  destruct dec as [g n c|g n c|m]; simplify_eq; eauto.
  apply rbind_ok in Hk as (r & Hp & Hk). destruct r; simplify_eq.
  - right. split; [done|]. by exists AllowOnce.
  - right. split; [done|]. by eexists.
  - right. naive_solver.
Qed.

(** ** Properties *)

(** With user approval the engine never leaves a decision pending: access is
    granted only when the policy auto-approves or the prompted user allows,
    always with the scope and limits the policy computed, and a denial is the
    policy's or the user's. *)
Theorem approval_resolves_every_decision (eng : PolicyEngine) (agent : AgentInfo)
    (cref : string) (req : Scope) (reason : string) (d : PolicyDecision) :
  evaluate_with_approval eng agent cref req reason = Ok d ->
  match d with
  | AutoApprove g n c =>
      evaluate (E:=PolicyError) (evaluator eng) agent cref req = Ok (AutoApprove g n c) \/
      evaluate (E:=PolicyError) (evaluator eng) agent cref req = Ok (RequiresApproval g n c) /\
      exists r, prompt_user agent cref g reason (approval_config eng) = Ok r /\ r <> Deny
  | RequiresApproval _ _ _ => False
  | Denied m =>
      evaluate (E:=PolicyError) (evaluator eng) agent cref req = Ok (Denied m) \/
      exists g n c, evaluate (E:=PolicyError) (evaluator eng) agent cref req = Ok (RequiresApproval g n c) /\
        prompt_user agent cref g reason (approval_config eng) = Ok Deny
  end.
Proof. apply evaluate_with_approval_resolved. Qed.

(** A timed approval is not timed: whatever duration the user chose, and also
    for a one-time approval, the decision is the policy's full scope and
    limits. *)
Theorem approval_duration_is_dropped (eng : PolicyEngine) (agent : AgentInfo) (cref : string)
    (req g : Scope) (n : string) (c : PolicyConstraints) (reason : string) (r : ApprovalResult) :
  evaluate (E:=PolicyError) (evaluator eng) agent cref req = Ok (RequiresApproval g n c) ->
  prompt_user agent cref g reason (approval_config eng) = Ok r -> r <> Deny ->
  evaluate_with_approval eng agent cref req reason = Ok (AutoApprove g n c).
Proof.
  intros He Hp Hr. unfold evaluate_with_approval, engine_evaluate. rewrite He. simpl. rewrite Hp. simpl.
  by destruct r.
Qed.
End EngineLemmas.

(** The message reaches AppleScript as one literal that denotes it exactly:
    whatever the agent's reason contains, the script resumes right after it. *)
Theorem osascript_message_cannot_escape (message : string) :
  exists prefix rest,
    osascript_script message = prefix +:+ String dquote_char (osascript_escape message +:+ String dquote_char rest) /\
    read_literal (osascript_escape message +:+ String dquote_char rest) = Some (message, rest) /\
    prefix = "display dialog ".
Proof.
  exists "display dialog ".
  exists (" buttons {" +:+ quoted "Deny" +:+ ", " +:+ quoted "Allow 10min" +:+ ", " +:+
          quoted "Allow Once" +:+ "} default button " +:+ quoted "Allow Once" +:+ " with icon caution").
  split_and!; [done| |done]. apply osascript_escape_read.
Qed.

(** The displayed reason is at most [max_len] scalar values, except that a
    limit of one or two still displays the three dots. *)
Theorem displayed_reason_is_bounded (reason : string) (max_len : Z) :
  0 <= max_len ->
  Z.of_nat (length (chars (truncate_reason reason max_len))) <= Z.max max_len 3 /\
  (Z.of_nat (length (chars reason)) <= max_len -> max_len <> 0 -> truncate_reason reason max_len = reason).
Proof.
  intros Hm. split; [by apply truncate_reason_length|]. intros Hr Hz. unfold truncate_reason.
  destruct (Z.eqb_spec max_len 0); [done|]. by rewrite (proj2 (Z.leb_le _ _)).
Qed.

(** ** Example environment and witnesses *)

(** kdialog is installed and the user presses the third button. *)
Definition timed_gui : Gui := {|
  which := fun s => bool_decide (s = "kdialog");
  gui_run := fun _ _ => Some (Exited (Some 2) EmptyString)
|}.

Definition prompt_entry : PolicyEntry :=
  mkPolicyEntry "ask" EmptyString (pe_match_block demo_entry) (pe_allow demo_entry)
    default_approval default_delegation.

Definition demo_engine : PolicyEngine :=
  mkPolicyEngine (mkPolicyEvaluator [prompt_entry]) "/etc/cdp"
    (mkApprovalConfig EmptyString 30 true true 200).

Definition demo_grant : Scope :=
  mkScope ["api.github.com"] ["GET"] ["/repos/a/b"] [] (Some 3600) None None None.

Definition demo_limits : PolicyConstraints :=
  mkPolicyConstraints (Some 3600) None (Some 3) (Some 14400) true false None false.

Lemma approval_resolves_every_decision_witness :
  evaluate (H:=plain_fmt) (E:=PolicyError) (evaluator demo_engine) demo_agent "github_api" demo_request =
    Ok (AutoApprove demo_grant "ask" demo_limits) \/
  evaluate (H:=plain_fmt) (E:=PolicyError) (evaluator demo_engine) demo_agent "github_api" demo_request =
    Ok (RequiresApproval demo_grant "ask" demo_limits) /\
  exists r, prompt_user (H:=plain_fmt) (H0:=timed_gui) demo_agent "github_api" demo_grant "deploy"
              (approval_config demo_engine) = Ok r /\ r <> Deny.
Proof.
  apply (approval_resolves_every_decision (H:=plain_fmt) (H0:=timed_gui) demo_engine demo_agent
    "github_api" demo_request "deploy" (AutoApprove demo_grant "ask" demo_limits)).
  vm_compute. reflexivity.
Defined.

Lemma approval_duration_is_dropped_witness :
  evaluate_with_approval (H:=plain_fmt) (H0:=timed_gui) demo_engine demo_agent "github_api" demo_request
    "deploy" = Ok (AutoApprove demo_grant "ask" demo_limits).
Proof.
  apply (approval_duration_is_dropped (H:=plain_fmt) (H0:=timed_gui) demo_engine demo_agent "github_api"
    demo_request demo_grant "ask" demo_limits "deploy" (AllowTimed 600));
    [vm_compute; reflexivity|vm_compute; reflexivity|discriminate].
Defined.

Lemma displayed_reason_is_bounded_witness :
  Z.of_nat (length (chars (truncate_reason "deploy" 2))) <= 3 /\ truncate_reason "deploy" 2 = "...".
Proof.
  split; [|reflexivity]. apply (displayed_reason_is_bounded "deploy" 2). lia.
Defined.
