(* ===== verification/AuditLog.v ===== *)
(** * cdp-audit: the hash-chained audit log

    [cdp-audit/src/logger.rs] and [integrity.rs].  SHA-256, the RFC 3339
    printer and the JSON codec are crates: they are the fields of [Sha256],
    [Rfc3339] and [EntryCodec].  The log file is its text. *)

From S2P Require Import Prelude RustStr Crypto.

#[local] Arguments String.append !_ _ /.

(** ** JSON values, [serde_json::Value] *)

Inductive JsonNumber : Type :=
| PosInt (n : Z)
| NegInt (n : Z)
| Float (bits : Z).

(** Objects are key-ordered maps, so their pairs are sorted by key. *)
Inductive Json : Type :=
| JNull
| JBool (b : bool)
| JNumber (n : JsonNumber)
| JString (s : string)
| JArray (items : list Json)
| JObject (fields : list (string * Json)).

(** [value.get(key)] *)
Definition json_get (v : Json) (key : string) : option Json :=
  match v with
  | JObject fields => snd <$> List.find (fun kv => bool_decide (kv.1 = key)) fields
  | _ => None
  end.

(** [v.as_str()], [v.as_i64()], [v.as_bool()] *)
Definition as_str (v : Json) : option string := match v with JString s => Some s | _ => None end.
Definition as_i64_json (v : Json) : option Z :=
  match v with
  | JNumber (PosInt n) => if n <? I64 then Some n else None
  | JNumber (NegInt n) => Some n
  | _ => None
  end.

Definition as_bool (v : Json) : option bool := match v with JBool b => Some b | _ => None end.

(** [obj.insert(key, v)] on a key-ordered object. *)
Fixpoint obj_insert (key : string) (v : Json) (fields : list (string * Json)) : list (string * Json) :=
  match fields with
  | [] => [(key, v)]
  | (k, w) :: rest =>
      if bool_decide (k = key) then (key, v) :: rest
      else if String.ltb key k then (key, v) :: (k, w) :: rest
      else (k, w) :: obj_insert key v rest
  end.

(** ** Environment *)

Class Sha256 : Type := { sha256 : list byte -> list byte }.
Class Rfc3339 : Type := { rfc3339_nanos : Z -> string }.
Class JsonText : Type := { json_to_string : Json -> string }.

(** ** Events and entries *)

Inductive AuditEventType : Type :=
| AgentRegistered | AgentDied | LeaseRequested | LeaseApproved | LeaseDenied | LeaseGranted
| LeaseUsed | LeaseRenewed | LeaseRevoked | LeaseExpired | LeaseDelegated | CredentialRotated
| SecurityAlert | ProxyBlocked.

(** The serde names, which [Display] prints. *)
Definition event_name (e : AuditEventType) : string :=
  match e with
  | AgentRegistered => "agent.registered"
  | AgentDied => "agent.died"
  | LeaseRequested => "lease.requested"
  | LeaseApproved => "lease.approved"
  | LeaseDenied => "lease.denied"
  | LeaseGranted => "lease.granted"
  | LeaseUsed => "lease.used"
  | LeaseRenewed => "lease.renewed"
  | LeaseRevoked => "lease.revoked"
  | LeaseExpired => "lease.expired"
  | LeaseDelegated => "lease.delegated"
  | CredentialRotated => "credential.rotated"
  | SecurityAlert => "security.alert"
  | ProxyBlocked => "proxy.blocked"
  end.

Record AuditFields : Type := mkAuditFields {
  af_lease_id : option string;
  af_agent_fingerprint : option string;
  af_agent_binary_path : option string;
  af_credential_ref : option string;
  af_scope : option Json;
  af_policy_matched : option string;
  af_approval_method : option string;
  af_detail : option string
}.

(** [AuditFields::default()] *)
Definition no_fields : AuditFields := mkAuditFields None None None None None None None None.

Record AuditEntry : Type := mkAuditEntry {
  e_sequence : Z;
  e_timestamp : Z;
  e_event : AuditEventType;
  e_fields : AuditFields;
  e_prev_hash : string;
  e_hash : string
}.

Inductive AuditError : Type :=
| AuditIo (e : string)
| Serialization (e : string)
| ChainBroken (sequence : Z)
| InvalidEntry (line : Z) (e : string).

(** [serde_json::to_string] and [from_str] at [AuditEntry]. *)
Class EntryCodec : Type := {
  entry_to_string : AuditEntry -> string + string;
  entry_from_str : string -> AuditEntry + string
}.

Section Audit.
Context `{Sha256} `{Rfc3339} `{JsonText}.

(** ** Hashing an entry *)

(** [hasher.update(len as u64 BE); hasher.update(value)] *)
Definition hash_field (hasher value : list byte) : list byte :=
  (hasher ++ be_bytes 8 (N.of_nat (length value))) ++ value.

Definition compute_entry_hash (entry : AuditEntry) : string :=
  let f := e_fields entry in
  let hasher := [] in
  let hasher := hash_field hasher (as_bytes (display_Z (e_sequence entry))) in
  let hasher := hash_field hasher (as_bytes (rfc3339_nanos (e_timestamp entry))) in
  let hasher := hash_field hasher (as_bytes (event_name (e_event entry))) in
  let hasher := hash_field hasher (as_bytes (unwrap_or (af_lease_id f) EmptyString)) in
  let hasher := hash_field hasher (as_bytes (unwrap_or (af_agent_fingerprint f) EmptyString)) in
  let hasher := hash_field hasher (as_bytes (unwrap_or (af_agent_binary_path f) EmptyString)) in
  let hasher := hash_field hasher (as_bytes (unwrap_or (af_credential_ref f) EmptyString)) in
  let hasher := hash_field hasher
                  (as_bytes (match af_scope f with Some v => json_to_string v | None => EmptyString end)) in
  let hasher := hash_field hasher (as_bytes (unwrap_or (af_policy_matched f) EmptyString)) in
  let hasher := hash_field hasher (as_bytes (unwrap_or (af_approval_method f) EmptyString)) in
  let hasher := hash_field hasher (as_bytes (unwrap_or (af_detail f) EmptyString)) in
  let hasher := hash_field hasher (as_bytes (e_prev_hash entry)) in
  "sha256:" +:+ bytes_to_hex (sha256 hasher).

(** ** The logger *)

(** [file] is the text on disk; the path never changes. *)
Record AuditLogger : Type := mkAuditLogger {
  file : string;
  sequence : Z;
  prev_hash : string
}.

Context `{EntryCodec}.

Definition not_blank (l : string) : bool := negb (bool_decide (trim l = EmptyString)).

(** [content.lines().rfind(|l| !l.trim().is_empty())] *)
Definition last_line (content : string) : option string :=
  List.find not_blank (rev (lines content)).

Definition read_last_entry_state (content : string) : result (Z * string) AuditError :=
  match last_line content with
  | None => Ok (0, "genesis")
  | Some line =>
      match entry_from_str line with
      | inr e => Err (InvalidEntry 0 e)
      | inl entry => Ok (e_sequence entry, e_hash entry)
      end
  end.

(** [AuditLogger::new] on a file whose text is [content] ([EmptyString] when
    it was just created). *)
Definition logger_new (content : string) : result AuditLogger AuditError :=
  let! '(seq, ph) := read_last_entry_state content in
  Ok (mkAuditLogger content seq ph).

(** How the two [write_all]s and the [flush] go: all of it, or an error after
    some bytes reached the file. *)
Inductive write_outcome : Type :=
| Written
| WriteFailed (bytes : nat) (e : string).

Definition log `{Build} (lg : AuditLogger) (timestamp : Z) (w : write_outcome)
    (event : AuditEventType) (fields : AuditFields) : AuditLogger * result unit AuditError :=
  let fetched := sequence lg in
  let lg1 := mkAuditLogger (file lg) ((fetched + 1) mod U64) (prev_hash lg) in
  match add_u (E:=AuditError) U64 fetched 1 with
  | Err e => (lg1, Err e)
  | Panic => (lg1, Panic)
  | Ok seq =>
      let entry := mkAuditEntry seq timestamp event fields (prev_hash lg) EmptyString in
      let hash := compute_entry_hash entry in
      let entry := mkAuditEntry seq timestamp event fields (prev_hash lg) hash in
      match entry_to_string entry with
      | inr e => (lg1, Err (Serialization e))
      | inl line =>
          let out := line +:+ String newline EmptyString in
          match w with
          | WriteFailed k e =>
              (mkAuditLogger (file lg +:+ String.substring 0 k out) (sequence lg1) (prev_hash lg),
               Err (AuditIo e))
          | Written => (mkAuditLogger (file lg +:+ out) (sequence lg1) hash, Ok tt)
          end
      end
  end.

(** ** Chain verification *)

Inductive ChainStatus : Type :=
| Valid (entries : Z)
| Broken (at_sequence : Z) (expected_hash actual_hash : string)
| Empty.

(** The loop of [verify_chain] from line number [line_num]. *)
Fixpoint verify_lines (expected_prev : string) (count line_num : Z) (ls : list string)
    : result ChainStatus AuditError :=
  match ls with
  | [] => Ok (Valid count)
  | raw_line :: rest =>
      match entry_from_str raw_line with
      | inr e => Err (InvalidEntry line_num e)
      | inl entry =>
          if negb (bool_decide (e_prev_hash entry = expected_prev)) then
            Ok (Broken (e_sequence entry) expected_prev (e_prev_hash entry))
          else
            let computed := compute_entry_hash entry in
            if negb (bool_decide (computed = e_hash entry)) then
              Ok (Broken (e_sequence entry) computed (e_hash entry))
            else verify_lines (e_hash entry) (count + 1) (line_num + 1) rest
      end
  end.

Definition verify_chain (content : string) : result ChainStatus AuditError :=
  let ls := List.filter not_blank (lines content) in
  if bool_decide (ls = []) then Ok Empty else verify_lines "genesis" 0 1 ls.
End Audit.

(** ** What the logger relies on of the JSON codec

    Compact JSON holds no raw control character, is not blank, and parses
    back to the entry it was written from. *)

Fixpoint no_line_break (s : string) : bool :=
  match s with
  | EmptyString => true
  | String c s' => negb (bool_decide (c = newline)) && negb (bool_decide (c = carriage_return))
                   && no_line_break s'
  end.

Class EntryCodecLaws `{EntryCodec} : Prop := {
  codec_roundtrip : forall e s, entry_to_string e = inl s -> entry_from_str s = inl e;
  codec_one_line : forall e s, entry_to_string e = inl s -> no_line_break s = true;
  codec_not_blank : forall e s, entry_to_string e = inl s -> not_blank s = true
}.

(** ** Lemmas: lines of a growing file *)

Lemma split_from_app sep cur a b :
  split_from sep cur (a +:+ String sep b) = split_from sep cur a ++ split sep b.
Proof.
  revert cur. induction a as [|c a IH]; intros cur; simpl.
  { by rewrite bool_decide_eq_true_2. }
  case_bool_decide; [|done]. simpl. by rewrite IH.
Qed.

Lemma split_from_no_sep cur a : no_line_break a = true -> split_from newline cur a = [cur +:+ a].
Proof.
  revert cur. induction a as [|c a IH]; intros cur; simpl; [by rewrite append_nil_r|].
  intros Hn. bool_to_prop. rewrite bool_decide_eq_false_2 by done.
  rewrite IH by done. by rewrite append_assoc.
Qed.

Lemma lines_of_snoc l : lines_of (l ++ [EmptyString]) = map strip_cr l.
Proof.
  induction l as [|x l IH]; [done|]. simpl. rewrite <- IH.
  by destruct (l ++ [EmptyString]) eqn:E; [destruct l|].
Qed.

Lemma strip_cr_id s : no_line_break s = true -> strip_cr s = s.
Proof.
  induction s as [|c s IH]; [done|]. simpl. intros Hn. bool_to_prop.
  destruct s; [by rewrite bool_decide_eq_false_2|]. by rewrite IH.
Qed.

(** A file made of complete lines. *)
Definition ends_with_newline (content : string) : Prop :=
  content = EmptyString \/ exists c, content = c +:+ String newline EmptyString.

Lemma lines_append content line :
  ends_with_newline content -> no_line_break line = true ->
  lines (content +:+ (line +:+ String newline EmptyString)) = lines content ++ [line].
Proof.
  intros Hc Hl. unfold lines.
  assert (split newline (line +:+ String newline EmptyString) = [line; EmptyString]) as Hs.
  { unfold split. rewrite split_from_app, split_from_no_sep by done. done. }
  destruct Hc as [->|[c ->]]; simpl.
  - rewrite Hs. simpl. by rewrite strip_cr_id.
  - rewrite append_assoc. simpl. unfold split at 1 2. rewrite !split_from_app, Hs.
    change (split newline EmptyString) with [EmptyString].
    rewrite lines_of_snoc.
    change [line; EmptyString] with ([line] ++ [EmptyString]).
    rewrite app_assoc, lines_of_snoc, map_app. simpl. by rewrite strip_cr_id.
Qed.

Lemma lines_of_torn l x : x <> EmptyString -> lines_of (l ++ [x]) = map strip_cr l ++ [x].
Proof.
  intros Hx. induction l as [|y l IH]; simpl; [by rewrite bool_decide_eq_false_2|]. rewrite <- IH.
  by destruct (l ++ [x]) eqn:E; [destruct l|].
Qed.

(** A last line that was not ended. *)
Lemma lines_torn content part :
  ends_with_newline content -> no_line_break part = true -> part <> EmptyString ->
  lines (content +:+ part) = lines content ++ [part].
Proof.
  intros Hc Hn Hne. destruct Hc as [->|[c ->]]; simpl.
  - change (lines EmptyString) with (@nil string). unfold lines, split. rewrite split_from_no_sep by done. simpl.
    by rewrite bool_decide_eq_false_2.
  - unfold lines. rewrite append_assoc. simpl. unfold split at 1 2. rewrite !split_from_app.
    change (split newline EmptyString) with [EmptyString]. unfold split. rewrite (split_from_no_sep _ part) by done.
    simpl. by rewrite lines_of_snoc, lines_of_torn.
Qed.

Section Chain.
Context `{Sha256} `{Rfc3339} `{JsonText}.

(** ** Lemmas: what a hash covers *)

(** The twelve strings an entry's hash is computed from. *)
Definition entry_view (entry : AuditEntry) : list string :=
  let f := e_fields entry in
  [display_Z (e_sequence entry); rfc3339_nanos (e_timestamp entry); event_name (e_event entry);
   unwrap_or (af_lease_id f) EmptyString; unwrap_or (af_agent_fingerprint f) EmptyString;
   unwrap_or (af_agent_binary_path f) EmptyString; unwrap_or (af_credential_ref f) EmptyString;
   match af_scope f with Some v => json_to_string v | None => EmptyString end;
   unwrap_or (af_policy_matched f) EmptyString; unwrap_or (af_approval_method f) EmptyString;
   unwrap_or (af_detail f) EmptyString; e_prev_hash entry].

(** Every string is shorter than 2^64 bytes. *)
Definition entry_fits (entry : AuditEntry) : Prop :=
  Forall fits_u64 (map as_bytes (entry_view entry)).

(** The message that is hashed for an entry. *)
Definition hash_input (entry : AuditEntry) : list byte := mac_input [] (map as_bytes (entry_view entry)).

(** Two entries with different messages of one digest. *)
Definition collide (e1 e2 : AuditEntry) : Prop :=
  hash_input e1 <> hash_input e2 /\ sha256 (hash_input e1) = sha256 (hash_input e2).

(** Two lists of entries of which the last that differ collide. *)
Definition collide_at_end (es1 es2 : list AuditEntry) : Prop :=
  exists before1 e1 rest1 before2 e2 rest2, es1 = before1 ++ e1 :: rest1 /\ es2 = before2 ++ e2 :: rest2 /\
    map entry_view rest1 = map entry_view rest2 /\ collide e1 e2.

Lemma collide_further es1 es2 e1 e2 : entry_view e1 = entry_view e2 -> collide_at_end es1 es2 ->
  collide_at_end (es1 ++ [e1]) (es2 ++ [e2]).
Proof.
  intros Hv (b1 & x1 & r1 & b2 & x2 & r2 & -> & -> & Hr & Hc). exists b1, x1, (r1 ++ [e1]), b2, x2, (r2 ++ [e2]).
  rewrite <- !app_assoc, !map_app, Hr. cbn. by rewrite Hv.
Qed.

Lemma compute_entry_hash_view e : compute_entry_hash e = "sha256:" +:+ bytes_to_hex (sha256 (hash_input e)).
Proof.
  unfold hash_input, compute_entry_hash, entry_view, mac_input, hash_field, frame. cbn [map fold_left].
  by rewrite <- !app_assoc.
Qed.

Lemma entry_hash_binds e1 e2 :
  entry_fits e1 -> entry_fits e2 -> compute_entry_hash e1 = compute_entry_hash e2 ->
  entry_view e1 = entry_view e2 \/ collide e1 e2.
Proof.
  intros H1' H2' Heq. rewrite !compute_entry_hash_view in Heq.
  apply append_inj_l, bytes_to_hex_inj in Heq.
  destruct (decide (hash_input e1 = hash_input e2)) as [He|He].
  - left. apply mac_input_inj in He; [|done|done].
    apply (list_fmap_eq_inj as_bytes); [|done]. intros ??. apply as_bytes_inj.
  - by right.
Qed.

(** ** Chains *)

(** [chain h es h']: the entries link [h] to [h'], each with its own hash. *)
Inductive chain : string -> list AuditEntry -> string -> Prop :=
| chain_nil h : chain h [] h
| chain_cons e es h' :
    compute_entry_hash e = e_hash e -> chain (e_hash e) es h' -> chain (e_prev_hash e) (e :: es) h'.

#[local] Hint Constructors chain : cdp.

Lemma chain_snoc h es e h' :
  chain h (es ++ [e]) h' <->
  chain h es (e_prev_hash e) /\ compute_entry_hash e = e_hash e /\ h' = e_hash e.
Proof.
  split.
  - revert h. induction es as [|x es IH]; simpl; intros h Hc; inversion Hc as [|? ? ? Hx Hr]; subst.
    + inversion Hr; subst. auto with cdp.
    + apply IH in Hr as (? & ? & ?). auto with cdp.
  - intros (Hc & He & ->). remember (e_prev_hash e) as p eqn:Hp.
    induction Hc; subst; simpl; auto with cdp.
Qed.

Lemma chain_hash_not_genesis h es h' : chain h es h' -> es <> [] -> h' <> "genesis".
Proof.
  destruct es as [|e es] using rev_ind; [done|]. intros (_ & He & ->)%chain_snoc _.
  rewrite <- He, compute_entry_hash_view. discriminate.
Qed.

(** Two chains from the genesis that end in one hash tell the same story. *)
Lemma chains_agree es1 es2 h :
  Forall entry_fits es1 -> Forall entry_fits es2 ->
  chain "genesis" es1 h -> chain "genesis" es2 h ->
  map entry_view es1 = map entry_view es2 \/ collide_at_end es1 es2.
Proof.
  revert es2 h. induction es1 as [|e1 es1 IH] using rev_ind; intros es2 h Hf1 Hf2 Hc1 Hc2.
  - inversion Hc1; subst. destruct (decide (es2 = [])) as [->|Hne]; [auto|].
    by apply chain_hash_not_genesis in Hc2.
  - destruct es2 as [|e2 es2 _] using rev_ind.
    { inversion Hc2; subst. apply chain_hash_not_genesis in Hc1; [done|by destruct es1]. }
    apply chain_snoc in Hc1 as (Hc1 & He1 & ->). apply chain_snoc in Hc2 as (Hc2 & He2 & Hh).
    apply Forall_app in Hf1 as [Hf1 [Hfe1 _]%Forall_cons], Hf2 as [Hf2 [Hfe2 _]%Forall_cons].
    destruct (entry_hash_binds e1 e2) as [Hv|Hcol]; [done|done|congruence| |right; by exists es1, e1, [], es2, e2, []].
    assert (e_prev_hash e1 = e_prev_hash e2) as Hp by (unfold entry_view in Hv; congruence).
    rewrite <- Hp in Hc2. destruct (IH es2 _ Hf1 Hf2 Hc1 Hc2) as [Hm|?]; [|right; by apply collide_further].
    left. rewrite !map_app. simpl. congruence.
Qed.

(** ** Lemmas: verification decides the chain *)

Context `{EntryCodec}.

Definition parses (line : string) (e : AuditEntry) : Prop := entry_from_str line = inl e.

Lemma verify_lines_valid prev count n ls k :
  verify_lines prev count n ls = Ok (Valid k) <->
  exists es h, Forall2 parses ls es /\ chain prev es h /\ k = count + Z.of_nat (length es).
Proof.
  revert prev count n. induction ls as [|l ls IH]; intros prev count n; simpl.
  { split.
    - intros [= <-]. exists [], prev. split_and!; auto with cdp. simpl. lia.
    - intros (es & h & Hf & _ & ->). inversion Hf. simpl. f_equal. f_equal. lia. }
  split.
  - intros Hv. branches Hv. bool_to_prop. subst.
    apply IH in Hv as (es & h & Hf & Hc & ->).
    exists (a :: es), h. split_and!; [by constructor|auto with cdp|]. simpl. lia.
  - intros (es & h & Hf & Hc & ->). inversion Hf as [|? e ? es' Hp Hf']; subst.
    inversion Hc as [|? ? ? He Hr]; subst. rewrite Hp.
    rewrite !bool_decide_eq_true_2 by done. simpl. apply IH.
    exists es', h. split_and!; [done|done|]. simpl. lia.
Qed.

(** The entries of a log file, as [verify_chain] reads them. *)
Definition file_chain (content : string) (es : list AuditEntry) (h : string) : Prop :=
  Forall2 parses (List.filter not_blank (lines content)) es /\ chain "genesis" es h.

Lemma verify_chain_valid content k :
  verify_chain content = Ok (Valid k) <->
  exists es h, file_chain content es h /\ es <> [] /\ k = Z.of_nat (length es).
Proof.
  unfold verify_chain, file_chain. case_bool_decide as Hls.
  - split; [done|]. rewrite Hls. intros (es & h & [Hf _] & Hne & _). by inversion Hf; subst.
  - rewrite verify_lines_valid. split.
    + intros (es & h & Hf & Hc & ->). exists es, h. split_and!; [done|done| |lia].
      intros ->. by inversion Hf; simplify_eq.
    + intros (es & h & [Hf Hc] & _ & ->). exists es, h. split_and!; [done|done|lia].
Qed.

(** ** Lemmas: the logger keeps the chain *)

Context `{Build} `{!EntryCodecLaws}.

(** The logger's file holds the entries [es] and its state is their end. *)
Record well_logged (lg : AuditLogger) (es : list AuditEntry) : Prop := {
  wl_lines : ends_with_newline (file lg);
  wl_parse : Forall2 (fun l e => parses l e /\ not_blank l = true) (lines (file lg)) es;
  wl_chain : chain "genesis" es (prev_hash lg);
  wl_seq : sequence lg = match last es with Some e => e_sequence e | None => 0 end;
  wl_range : in_u U64 (sequence lg)
}.

Lemma well_logged_start : well_logged (mkAuditLogger EmptyString 0 "genesis") [].
Proof. by split; simpl; [left|constructor|constructor| |]. Qed.

Lemma log_keeps_chain lg es ts ev fields lg' :
  well_logged lg es -> log lg ts Written ev fields = (lg', Ok tt) ->
  exists e, (e_event e, e_fields e) = (ev, fields) /\ well_logged lg' (es ++ [e]).
Proof.
  intros [Hl Hp Hc Hs Hr] Hlog. unfold log in Hlog.
  destruct (add_u U64 (sequence lg) 1) as [seq|?|] eqn:Hadd; try discriminate.
  assert (seq = (sequence lg + 1) mod U64) as Hseq.
  { unfold add_u, in_u in *. branches Hadd; bool_to_prop; [|done]. symmetry. apply Z.mod_small. lia. }
  destruct (entry_to_string _) as [line|?] eqn:Hj; [|discriminate]. simplify_eq.
  eexists (mkAuditEntry _ _ _ _ _ _). split; [reflexivity|]. split; cbn [file sequence prev_hash].
  - right. exists (file lg +:+ line). by rewrite append_assoc.
  - rewrite lines_append by eauto using codec_one_line.
    apply Forall2_app; [done|]. constructor; [|constructor].
    split; [by eapply codec_roundtrip|by eapply codec_not_blank].
  - apply chain_snoc. cbn [e_prev_hash e_hash]. split_and!; [done| |done].
    by rewrite !compute_entry_hash_view.
  - by rewrite last_snoc.
  - apply Z.mod_pos_bound. done.
Qed.

Lemma not_blank_filter ls : Forall (fun l => not_blank l = true) ls -> List.filter not_blank ls = ls.
Proof. induction 1 as [|l ls Hl _ IH]; simpl; [done|]. by rewrite Hl, IH. Qed.

Lemma well_logged_file lg es :
  well_logged lg es -> file_chain (file lg) es (prev_hash lg) /\
  List.filter not_blank (lines (file lg)) = lines (file lg).
Proof.
  intros [_ Hp Hc _ _].
  assert (List.filter not_blank (lines (file lg)) = lines (file lg)) as Hf.
  { apply not_blank_filter. eapply Forall2_Forall_l; [exact Hp|].
    apply Forall_true. naive_solver. }
  split; [|done]. split; [|done]. rewrite Hf. eapply Forall2_impl; [exact Hp|]. naive_solver.
Qed.

Lemma well_logged_resume lg es : well_logged lg es -> logger_new (file lg) = Ok lg.
Proof.
  intros Hw. pose proof Hw as [_ Hp Hc Hs _]. unfold logger_new, read_last_entry_state, last_line.
  destruct lg as [content seq ph]; cbn [file sequence prev_hash] in *.
  destruct es as [|e es _] using rev_ind.
  - apply Forall2_nil_inv_r in Hp. rewrite Hp. simpl in *. inversion Hc; by subst.
  - apply Forall2_app_inv_r in Hp as (ls & l1 & _ & Hl & Hn).
    inversion Hl as [|l ? ? ? [Hpar Hnb] Hnil]; subst. inversion Hnil; subst.
    rewrite Hn, rev_app_distr. simpl. rewrite Hnb, Hpar. simpl.
    apply chain_snoc in Hc as (_ & _ & ->). by rewrite last_snoc.
Qed.

(** States of a logger opened on an empty file, after [n] complete writes. *)
Inductive logger_reachable : nat -> AuditLogger -> Prop :=
| reach_new lg : logger_new EmptyString = Ok lg -> logger_reachable 0 lg
| reach_log n lg ts ev fields lg' :
    logger_reachable n lg -> log lg ts Written ev fields = (lg', Ok tt) ->
    logger_reachable (S n) lg'.

Lemma reachable_well_logged n lg :
  logger_reachable n lg -> exists es, well_logged lg es /\ length es = n.
Proof.
  induction 1 as [lg Hn|n lg ts ev fields lg' _ (es & Hw & <-) Hlog].
  - vm_compute in Hn. simplify_eq. exists []. split; [apply well_logged_start|done].
  - destruct (log_keeps_chain _ _ _ _ _ _ Hw Hlog) as (e & _ & Hw'). exists (es ++ [e]).
    split; [done|]. rewrite length_app. simpl. lia.
Qed.

(** ** Properties *)

(** Whatever is logged, the file the logger writes verifies as a chain of
    exactly that many entries, and reopening it resumes with the same
    sequence number and hash. *)
Theorem audit_log_verifies_and_resumes (n : nat) (lg : AuditLogger) :
  logger_reachable n lg ->
  verify_chain (file lg) = Ok (if bool_decide (n = 0%nat) then Empty else Valid (Z.of_nat n)) /\
  logger_new (file lg) = Ok lg.
Proof.
  intros (es & Hw & <-)%reachable_well_logged. split; [|by eapply well_logged_resume].
  apply well_logged_file in Hw as [Hf Hl]. case_bool_decide as Hn.
  - destruct es; [|done]. destruct Hf as [Hf%Forall2_nil_inv_r _].
    unfold verify_chain. by rewrite Hf.
  - apply verify_chain_valid. exists es, (prev_hash lg). split_and!; [done| |done]. by destruct es.
Qed.

(** C33. Tamper evidence: two log files that both verify and end in the same hash
    record the same entries, field by field as hashed, unless an entry of the
    one and an entry of the other, with the same entries after them, are
    different messages of one SHA-256 digest. *)
Theorem audit_chain_tamper_evident (c1 c2 h : string) (es1 es2 : list AuditEntry) :
  file_chain c1 es1 h -> file_chain c2 es2 h ->
  Forall entry_fits es1 -> Forall entry_fits es2 ->
  map entry_view es1 = map entry_view es2 \/ collide_at_end es1 es2.
Proof. intros [_ Hc1] [_ Hc2] Hf1 Hf2. by eapply chains_agree. Qed.

(** A torn write ends the log: when an entry reached the file only in part,
    the log does not verify and cannot be opened again. *)
Theorem torn_write_blocks_reopening lg es ts k err ev f lg' part e :
  well_logged lg es -> log lg ts (WriteFailed k err) ev f = (lg', Err (AuditIo err)) ->
  file lg' = file lg +:+ part -> no_line_break part = true -> not_blank part = true ->
  entry_from_str part = inr e ->
  logger_new (file lg') = Err (InvalidEntry 0 e) /\ (forall n, verify_chain (file lg') <> Ok (Valid n)).
Proof.
  intros Hw _ Hf Hn Hb He. rewrite Hf.
  assert (part <> EmptyString) as Hne by (intros ->; by vm_compute in Hb).
  assert (lines (file lg +:+ part) = lines (file lg) ++ [part]) as Hl by (apply lines_torn; [apply Hw|done..]).
  split.
  - unfold logger_new, read_last_entry_state, last_line. rewrite Hl, rev_app_distr. simpl. by rewrite Hb, He.
  - intros n (es' & h & [Hp _] & _)%verify_chain_valid. rewrite Hl, List.filter_app in Hp. simpl in Hp.
    rewrite Hb in Hp. apply Forall2_app_inv_l in Hp as (? & ? & _ & Hp & _). inversion Hp as [|? ? ? ? Hpar]; subst.
    unfold parses in Hpar. congruence.
Qed.

(** [verify_chain] reports a valid chain exactly when every non-blank line
    parses, each entry's stored hash is the hash of its content and each
    entry names its predecessor's hash, starting at the genesis. *)
Theorem verify_chain_decides_chain (content : string) (k : Z) :
  verify_chain content = Ok (Valid k) <->
  exists es h, file_chain content es h /\ es <> [] /\ k = Z.of_nat (length es).
Proof. apply verify_chain_valid. Qed.
End Chain.

(** ** Example environment and witnesses *)

(** A codec for entries that carry one event and no context. *)
Definition tiny_to_string (e : AuditEntry) : string + string :=
  match e with
  | mkAuditEntry seq ts LeaseUsed (mkAuditFields None None None None None None None None) ph h =>
      if bool_decide (seq = 1) && bool_decide (ts = 5) && bool_decide (ph = "genesis") &&
         no_line_break ("J" +:+ h) && not_blank ("J" +:+ h)
      then inl ("J" +:+ h) else inr "unsupported"
  | _ => inr "unsupported"
  end.

Definition tiny_codec : EntryCodec := {|
  entry_to_string := tiny_to_string;
  entry_from_str := fun s =>
    match strip_prefix "J" s with
    | Some h => inl (mkAuditEntry 1 5 LeaseUsed no_fields "genesis" h)
    | None => inr "not an entry"
    end
|}.

Lemma tiny_to_string_inv e s :
  tiny_to_string e = inl s ->
  exists h, e = mkAuditEntry 1 5 LeaseUsed no_fields "genesis" h /\ s = "J" +:+ h /\
    no_line_break s = true /\ not_blank s = true.
Proof.
  destruct e as [seq ts [] [[] [] [] [] [] [] [] []] ph h]; simpl; try done.
  intros Hs. destruct (_ && _) eqn:Hb in Hs; [|done]. bool_to_prop. simplify_eq. eauto.
Qed.

Lemma tiny_codec_laws : @EntryCodecLaws tiny_codec.
Proof.
  split; intros e s (h & -> & -> & Hn & Hb)%tiny_to_string_inv; done.
Qed.

Definition id_sha : Sha256 := {| sha256 := id |}.
Definition plain_time : Rfc3339 := {| rfc3339_nanos := display_Z |}.
Definition plain_json : JsonText := {| json_to_string := fun _ => "{}" |}.
Definition release_build : Build := {| overflow_checks := false |}.

Definition demo_logger : AuditLogger :=
  fst (log (H:=id_sha) (H0:=plain_time) (H1:=plain_json) (H2:=tiny_codec) (H3:=release_build)
         (mkAuditLogger EmptyString 0 "genesis") 5 Written LeaseUsed no_fields).

Definition demo_logged : AuditEntry :=
  mkAuditEntry 1 5 LeaseUsed no_fields "genesis" (prev_hash demo_logger).

Lemma audit_log_verifies_and_resumes_witness :
  verify_chain (H:=id_sha) (H0:=plain_time) (H1:=plain_json) (H2:=tiny_codec) (file demo_logger) = Ok (Valid 1) /\
  logger_new (H2:=tiny_codec) (file demo_logger) = Ok demo_logger.
Proof.
  apply (audit_log_verifies_and_resumes (H:=id_sha) (H0:=plain_time) (H1:=plain_json)
    (H2:=tiny_codec) (H3:=release_build) (H4:=tiny_codec_laws) 1 demo_logger).
  apply (reach_log 0 (mkAuditLogger EmptyString 0 "genesis") 5 LeaseUsed no_fields demo_logger);
    [by apply reach_new|]. vm_compute. reflexivity.
Defined.

(** With the identity for SHA-256 nothing collides, and the entries are the
    same. *)
Lemma audit_chain_tamper_evident_witness :
  map (entry_view (H0:=plain_time) (H1:=plain_json)) [demo_logged] =
  map (entry_view (H0:=plain_time) (H1:=plain_json)) [demo_logged].
Proof.
  assert (file_chain (H:=id_sha) (H0:=plain_time) (H1:=plain_json) (H2:=tiny_codec)
    (file demo_logger) [demo_logged] (prev_hash demo_logger)) as Hf.
  { split; [by repeat constructor; vm_compute|]. apply (chain_cons demo_logged); [|constructor].
    vm_compute. reflexivity. }
  destruct (audit_chain_tamper_evident (H:=id_sha) (H0:=plain_time) (H1:=plain_json) (H2:=tiny_codec)
    (file demo_logger) (file demo_logger) (prev_hash demo_logger) [demo_logged] [demo_logged])
    as [He|(? & ? & ? & ? & ? & ? & _ & _ & _ & Hne & He)]; [exact Hf|exact Hf|repeat constructor..|exact He|].
  by destruct (Hne He).
Defined.
