(* ===== verification/LeaseTypes.v ===== *)
(** * cdp-lease: leases, scopes, channel binding and DNS pins

    [cdp-lease/src/types.rs], [channel_bind.rs], [dns_pin.rs] and the error
    type of [lib.rs].  The clock is an argument ([now], in nanoseconds); the
    random values drawn for ids and nonces are arguments too, and the system
    resolver is the field of [Resolver]. *)

From S2P Require Import Prelude RustStr Crypto PolicyTypes PolicyEvaluator.

(** ** Errors *)

Inductive LeaseError : Type :=
| NotFound (id : string)
| Expired_ (id : string)
| Revoked_ (id : string)
| MaxRenewalsExceeded (limit : Z)
| MaxCumulativeTtlExceeded (limit : Z)
| MaxRequestsExceeded (limit : Z)
| DelegationDepthExceeded (max : Z)
| DelegationNotAllowed
| ScopeNotSubset
| TtlExceedsParent
| TargetAgentNotAlive
| DnsResolution (host reason : string)
| AgentNotAlive
| NotRenewable
| NotActive
| LeaseCrypto (e : CryptoError).

(** ** Addresses and resolution *)

(** [std::net::IpAddr], by its octets. *)
Inductive IpAddr : Type :=
| V4 (octets : list byte)
| V6 (octets : list byte).

#[export] Instance ip_eq_dec : EqDecision IpAddr.
Proof. solve_decision. Defined.

(** [tokio::net::lookup_host]: the addresses it yields, or its error. *)
Class Resolver : Type := { lookup_host : string -> list IpAddr + string }.

(** ** Lease identifiers *)

(** [LeaseId::generate] on the 32 bytes drawn from the generator. *)
Definition lease_id_of (bytes : list byte) : string := bytes_to_hex bytes.

(** ** Leases *)

Inductive LeaseStatus : Type :=
| Active
| Expired
| Revoked (reason : string).

#[export] Instance status_eq_dec : EqDecision LeaseStatus.
Proof. solve_decision. Defined.

Record Lease : Type := mkLease {
  lease_id : string;
  credential_ref : string;
  policy_name : string;
  approval_method : string;
  agent_fingerprint_hash : list byte;
  agent_binary_path : string;
  agent_uid : Z;
  agent_pid : Z;
  granted_scope : Scope;
  lease_token : string;
  channel_binding_nonce : list byte;
  dns_pinned_ips : gmap string (list IpAddr);
  status : LeaseStatus;
  created_at : Z;
  expires_at : Z;
  ttl_seconds : Z;
  cumulative_ttl_seconds : Z;
  max_requests : option Z;
  requests_used : Z;
  renewals_used : Z;
  max_renewals : Z;
  max_cumulative_ttl_seconds : Z;
  renewable : bool;
  parent_lease_id : option string;
  child_lease_ids : list string;
  delegation_depth : Z;
  delegation_allowed : bool;
  delegation_max_depth : option Z;
  follow_redirects : bool
}.

(** [now] is what [Utc::now()] returns at the call. *)
Definition is_expired (now : Z) (l : Lease) : bool := now >? expires_at l.

Definition is_active (now : Z) (l : Lease) : bool :=
  bool_decide (status l = Active) && negb (is_expired now l).

Definition remaining_ttl_seconds (now : Z) (l : Lease) : Z := num_seconds (expires_at l - now).

(** *** Field updates the operations make *)

Definition set_status (st : LeaseStatus) (l : Lease) : Lease :=
  mkLease (lease_id l) (credential_ref l) (policy_name l) (approval_method l)
    (agent_fingerprint_hash l) (agent_binary_path l) (agent_uid l) (agent_pid l)
    (granted_scope l) (lease_token l) (channel_binding_nonce l) (dns_pinned_ips l)
    st (created_at l) (expires_at l) (ttl_seconds l) (cumulative_ttl_seconds l)
    (max_requests l) (requests_used l) (renewals_used l) (max_renewals l)
    (max_cumulative_ttl_seconds l) (renewable l) (parent_lease_id l) (child_lease_ids l)
    (delegation_depth l) (delegation_allowed l) (delegation_max_depth l) (follow_redirects l).

Definition set_renewal (exp cumulative renewals : Z) (l : Lease) : Lease :=
  mkLease (lease_id l) (credential_ref l) (policy_name l) (approval_method l)
    (agent_fingerprint_hash l) (agent_binary_path l) (agent_uid l) (agent_pid l)
    (granted_scope l) (lease_token l) (channel_binding_nonce l) (dns_pinned_ips l)
    (status l) (created_at l) exp (ttl_seconds l) cumulative
    (max_requests l) (requests_used l) renewals (max_renewals l)
    (max_cumulative_ttl_seconds l) (renewable l) (parent_lease_id l) (child_lease_ids l)
    (delegation_depth l) (delegation_allowed l) (delegation_max_depth l) (follow_redirects l).

Definition set_requests_used (n : Z) (l : Lease) : Lease :=
  mkLease (lease_id l) (credential_ref l) (policy_name l) (approval_method l)
    (agent_fingerprint_hash l) (agent_binary_path l) (agent_uid l) (agent_pid l)
    (granted_scope l) (lease_token l) (channel_binding_nonce l) (dns_pinned_ips l)
    (status l) (created_at l) (expires_at l) (ttl_seconds l) (cumulative_ttl_seconds l)
    (max_requests l) n (renewals_used l) (max_renewals l)
    (max_cumulative_ttl_seconds l) (renewable l) (parent_lease_id l) (child_lease_ids l)
    (delegation_depth l) (delegation_allowed l) (delegation_max_depth l) (follow_redirects l).

Definition push_child (id : string) (l : Lease) : Lease :=
  mkLease (lease_id l) (credential_ref l) (policy_name l) (approval_method l)
    (agent_fingerprint_hash l) (agent_binary_path l) (agent_uid l) (agent_pid l)
    (granted_scope l) (lease_token l) (channel_binding_nonce l) (dns_pinned_ips l)
    (status l) (created_at l) (expires_at l) (ttl_seconds l) (cumulative_ttl_seconds l)
    (max_requests l) (requests_used l) (renewals_used l) (max_renewals l)
    (max_cumulative_ttl_seconds l) (renewable l) (parent_lease_id l) (child_lease_ids l ++ [id])
    (delegation_depth l) (delegation_allowed l) (delegation_max_depth l) (follow_redirects l).

(** ** Scope utilities *)

Definition intersect_vecs (a b : list string) : list string := retain_in a b.

Definition lease_min_option (a b : option Z) : option Z :=
  match a, b with
  | Some x, Some y => Some (Z.min x y)
  | Some x, None => Some x
  | None, Some y => Some y
  | None, None => None
  end.

Definition lease_merge_body_constraints (a b : option BodyConstraints) : option BodyConstraints :=
  match a, b with
  | None, None => None
  | Some x, None => Some x
  | None, Some y => Some y
  | Some x, Some y =>
      Some (mkBodyConstraints
        (push_new (bc_forbidden_fields x) (bc_forbidden_fields y))
        (lease_min_option (bc_max_size_bytes x) (bc_max_size_bytes y))
        (if bool_decide (bc_allowed_content_types x = []) then bc_allowed_content_types y
         else if bool_decide (bc_allowed_content_types y = []) then bc_allowed_content_types x
         else intersect_vecs (bc_allowed_content_types x) (bc_allowed_content_types y)))
  end.

Definition intersect_scopes (requested granted : Scope) : Scope :=
  mkScope
    (intersect_vecs (s_hosts requested) (s_hosts granted))
    (intersect_vecs (s_methods requested) (s_methods granted))
    (intersect_vecs (s_paths requested) (s_paths granted))
    (push_new (s_forbidden_paths requested) (s_forbidden_paths granted))
    (lease_min_option (s_ttl_seconds requested) (s_ttl_seconds granted))
    (lease_min_option (s_max_requests requested) (s_max_requests granted))
    (lease_merge_body_constraints (s_body_constraints requested) (s_body_constraints granted))
    (s_network granted).

Definition exceeds (child parent : option Z) : bool :=
  match child, parent with
  | Some c, Some p => c >? p
  | _, _ => false
  end.

Definition is_scope_subset (child parent : Scope) : bool :=
  if negb (forallb (fun h => contains (s_hosts parent) h) (s_hosts child)) then false
  else if negb (forallb (fun m => contains (s_methods parent) m) (s_methods child)) then false
  else if negb (forallb (fun p => contains (s_paths parent) p) (s_paths child)) then false
  else if negb (forallb (fun fp => contains (s_forbidden_paths child) fp) (s_forbidden_paths parent))
  then false
  else if exceeds (s_ttl_seconds child) (s_ttl_seconds parent) then false
  else if exceeds (s_max_requests child) (s_max_requests parent) then false
  else true.

(** ** Channel binding *)

(** [generate_nonce] is the 32 bytes drawn, so it is an argument of the
    operations that call it. *)
Definition verify_binding (expected received : list byte) : bool :=
  if negb (Nat.eqb (length received) 32) then false
  else (xor_diff 0 expected received =? 0)%N.

(** ** DNS pinning *)

(** The loop of [pin_dns]; the first failing host aborts it. *)
Fixpoint pin_dns_from `{Resolver} (pinned : gmap string (list IpAddr)) (hosts : list string)
    : result (gmap string (list IpAddr)) LeaseError :=
  match hosts with
  | [] => Ok pinned
  | host :: rest =>
      match lookup_host (host +:+ ":0") with
      | inr e => Err (DnsResolution host e)
      | inl ips =>
          if bool_decide (ips = []) then Err (DnsResolution host "no addresses returned")
          else pin_dns_from (<[host := ips]> pinned) rest
      end
  end.

Definition pin_dns `{Resolver} (hosts : list string) : result (gmap string (list IpAddr)) LeaseError :=
  pin_dns_from ∅ hosts.

Definition verify_dns (pinned : gmap string (list IpAddr)) (host : string) (resolved_ip : IpAddr) : bool :=
  match pinned !! host with
  | Some ips => contains ips resolved_ip
  | None => false
  end.

(** ** Lemmas *)

Lemma verify_binding_spec expected received :
  length expected = 32%nat -> verify_binding expected received = true <-> expected = received.
Proof.
  intros Hl. unfold verify_binding. destruct (Nat.eqb_spec (length received) 32) as [Hr|Hr]; simpl.
  - rewrite N.eqb_eq, xor_diff_zero by congruence. naive_solver.
  - split; [done|]. by intros <-.
Qed.

Lemma pin_dns_from_ok `{Resolver} pinned hosts m :
  pin_dns_from pinned hosts = Ok m ->
  (forall h, h ∈ hosts -> exists ips, m !! h = Some ips /\ ips <> [] /\ lookup_host (h +:+ ":0") = inl ips) /\
  (forall h, h ∉ hosts -> m !! h = pinned !! h).
Proof.
  revert pinned. induction hosts as [|host hosts IH]; intros pinned; simpl.
  { intros [= <-]. split; [by intros h ?%elem_of_nil|done]. }
  intros Hp. branches Hp. bool_to_prop. destruct (IH _ Hp) as [Hin Hout]. split.
  - intros h [->|Hh]%elem_of_cons; [|auto]. destruct (decide (host ∈ hosts)); [auto|].
    exists l. rewrite Hout by done. by rewrite lookup_insert_eq.
  - intros h Hh%not_elem_of_cons. rewrite Hout by tauto. apply lookup_insert_ne. naive_solver.
Qed.

Lemma is_scope_subset_spec child parent :
  is_scope_subset child parent = true <->
  (forall h, h ∈ s_hosts child -> h ∈ s_hosts parent) /\
  (forall m, m ∈ s_methods child -> m ∈ s_methods parent) /\
  (forall p, p ∈ s_paths child -> p ∈ s_paths parent) /\
  (forall f, f ∈ s_forbidden_paths parent -> f ∈ s_forbidden_paths child) /\
  (forall c p, s_ttl_seconds child = Some c -> s_ttl_seconds parent = Some p -> c <= p) /\
  (forall c p, s_max_requests child = Some c -> s_max_requests parent = Some p -> c <= p).
Proof.
  unfold is_scope_subset.
  assert (forall b k : bool, (if negb b then false else k) = b && k) as Hn by (by intros []).
  assert (forall b k : bool, (if b then false else k) = negb b && k) as Hp by (by intros []).
  assert (forall a b, negb (exceeds a b) = true <-> forall c p, a = Some c -> b = Some p -> c <= p) as He.
  { intros [c|] [p|]; simpl; try naive_solver.
    rewrite negb_true_iff, Z.gtb_ltb, Z.ltb_ge. naive_solver. }
  rewrite !Hn, !Hp, !andb_true_iff, !forallb_spec, !He.
  setoid_rewrite contains_spec. tauto.
Qed.

Lemma is_expired_spec now l : is_expired now l = true <-> expires_at l < now.
Proof. unfold is_expired. by rewrite Z.gtb_ltb, Z.ltb_lt. Qed.
