(* ===== verification/ProxyScope.v ===== *)
(** * cdp-proxy: errors, configuration and scope validation

    [cdp-proxy/src/lib.rs] and [scope.rs].  The [globset] crate and
    [serde_json]'s parser are the fields of [Globset] and [JsonParse]. *)

From S2P Require Import Prelude RustStr Crypto Glob PolicyTypes PolicyEvaluator LeaseTypes AuditLog.

#[local] Arguments String.append !_ _ /.

(** ** Errors and configuration *)

Inductive ProxyError : Type :=
| AuthFailed (m : string)
| ScopeViolation (m : string)
| DnsPinMismatch (host : string) (resolved : IpAddr) (pinned : list IpAddr)
| RedirectBlocked (m : string)
| CredentialInjection (m : string)
| PortExhausted (m : string)
| ListenerError (m : string)
| UpstreamError (m : string)
| BodyTooLarge (size limit : Z)
| ForbiddenField (f : string)
| ContentTypeNotAllowed (m : string)
| LeaseFailure (e : LeaseError)
| CryptoFailure (e : CryptoError)
| IoError (m : string)
| HyperError (m : string).

Record ProxyConfig : Type := mkProxyConfig {
  bind_address : IpAddr;
  port_range_start : Z;
  port_range_end : Z
}.

Definition default_proxy_config : ProxyConfig :=
  mkProxyConfig (V4 [Byte.x7f; Byte.x00; Byte.x00; Byte.x01]) 19000 19999.

Definition dash : Ascii.ascii := Ascii.ascii_of_N 45.

Definition parse_port_range `{Fmt} (range_str : string) : result (Z * Z) ProxyError :=
  match splitn2 dash range_str with
  | [a; b] =>
      let! start := ok_or (parse_u U16 (trim a))
        (ListenerError ("invalid start port in range " +:+ debug_str range_str +:+ ": " +:+ debug_str a)) in
      let! stop := ok_or (parse_u U16 (trim b))
        (ListenerError ("invalid end port in range " +:+ debug_str range_str +:+ ": " +:+ debug_str b)) in
      if start >? stop then
        Err (ListenerError ("port range start (" +:+ display_Z start +:+ ") must be ≤ end (" +:+
                            display_Z stop +:+ ")"))
      else Ok (start, stop)
  | _ => Err (ListenerError ("invalid port range format: " +:+ debug_str range_str +:+ "; expected " +:+
                             dquote +:+ "start-end" +:+ dquote))
  end.

(** ** Crates *)

(** [globset]: compiling a pattern, assembling a set, matching a path. *)
Class Globset : Type := {
  GlobT : Type;
  GlobSetT : Type;
  glob_new : string -> GlobT + string;
  globset_build : list GlobT -> GlobSetT + string;
  globset_is_match : GlobSetT -> string -> bool
}.

(** [serde_json::from_slice::<Value>(..).ok()] *)
Class JsonParse : Type := { from_slice : list byte -> option Json }.

(** ** Scope validation *)

Section Scope.
Context `{Fmt} `{Globset} `{JsonParse}.

Definition validate_host (host : string) (allowed_hosts : list string) : result unit ProxyError :=
  if bool_decide (allowed_hosts = []) then Ok tt
  else if existsb (fun h => bool_decide (h = host)) allowed_hosts then Ok tt
  else Err (ScopeViolation ("host " +:+ debug_str host +:+ " is not in the allowed hosts list")).

(** The [for] loop of [build_glob_set], which returns on the first bad
    pattern. *)
Fixpoint compile_globs (patterns : list string) : list GlobT + string :=
  match patterns with
  | [] => inl []
  | p :: rest =>
      match glob_new p with
      | inr e => inr e
      | inl g => match compile_globs rest with
                 | inl gs => inl (g :: gs)
                 | inr e => inr e
                 end
      end
  end.

Definition build_glob_set (patterns : list string) : GlobSetT + string :=
  match compile_globs patterns with
  | inl gs => globset_build gs
  | inr e => inr e
  end.

Definition validate_path (path : string) (allowed_paths forbidden_paths : list string)
    : result unit ProxyError :=
  let! _ :=
    if bool_decide (forbidden_paths = []) then Ok tt
    else
      match build_glob_set forbidden_paths with
      | inr e => Err (ScopeViolation ("invalid forbidden path pattern: " +:+ e))
      | inl set =>
          if globset_is_match set path then
            Err (ScopeViolation ("path " +:+ debug_str path +:+ " is explicitly forbidden"))
          else Ok tt
      end in
  if bool_decide (allowed_paths = []) then Ok tt
  else
    match build_glob_set allowed_paths with
    | inr e => Err (ScopeViolation ("invalid allowed path pattern: " +:+ e))
    | inl set =>
        if globset_is_match set path then Ok tt
        else Err (ScopeViolation ("path " +:+ debug_str path +:+
                                  " does not match any allowed path pattern"))
    end.

Definition validate_method (method : string) (allowed_methods : list string) : result unit ProxyError :=
  if bool_decide (allowed_methods = []) then Ok tt
  else if existsb (fun m => eq_ignore_ascii_case m method) allowed_methods then Ok tt
  else Err (ScopeViolation ("method " +:+ debug_str method +:+ " is not in the allowed methods list")).

(** *** Forbidden fields *)

Definition MAX_JSON_DEPTH : nat := 64.

(** [fuel] is [MAX_JSON_DEPTH - depth], so the guard of the source is the
    first case. *)
Fixpoint find_forbidden_field_bounded (fuel : nat) (forbidden : list string) (value : Json)
    : option string :=
  match fuel with
  | O => None
  | S fuel' =>
      match value with
      | JObject fields =>
          (fix each (fs : list (string * Json)) : option string :=
             match fs with
             | [] => None
             | (key, child) :: rest =>
                 if existsb (fun f => bool_decide (f = key)) forbidden then Some key
                 else match find_forbidden_field_bounded fuel' forbidden child with
                      | Some bad => Some bad
                      | None => each rest
                      end
             end) fields
      | JArray items =>
          (fix each (vs : list Json) : option string :=
             match vs with
             | [] => None
             | v :: rest =>
                 match find_forbidden_field_bounded fuel' forbidden v with
                 | Some bad => Some bad
                 | None => each rest
                 end
             end) items
      | _ => None
      end
  end.

Definition find_forbidden_field (value : Json) (forbidden : list string) : option string :=
  find_forbidden_field_bounded MAX_JSON_DEPTH forbidden value.

Definition semicolon : Ascii.ascii := Ascii.ascii_of_N 59.

(** [ct.split(';').next().unwrap_or("").trim()] *)
Definition media_type (ct : string) : string := trim (default EmptyString (head (split semicolon ct))).

Definition validate_body (body : option (list byte)) (content_type : option string)
    (constraints : BodyConstraints) : result unit ProxyError :=
  let body_bytes := default [] body in
  let! _ :=
    match bc_max_size_bytes constraints with
    | Some max =>
        let size := Z.of_nat (length body_bytes) in
        if size >? max then Err (BodyTooLarge size max) else Ok tt
    | None => Ok tt
    end in
  let! _ :=
    if bool_decide (bc_allowed_content_types constraints = []) then Ok tt
    else
      let ct := default EmptyString content_type in
      if existsb (fun allowed => eq_ignore_ascii_case allowed (media_type ct))
           (bc_allowed_content_types constraints)
      then Ok tt
      else Err (ContentTypeNotAllowed ("content type " +:+ debug_str ct +:+ " is not in the allowed list")) in
  if bool_decide (bc_forbidden_fields constraints = []) || bool_decide (body_bytes = []) then Ok tt
  else
    match from_slice body_bytes with
    | None => Ok tt
    | Some value =>
        match find_forbidden_field value (bc_forbidden_fields constraints) with
        | Some bad => Err (ForbiddenField bad)
        | None => Ok tt
        end
    end.

Definition validate_request (method host path : string) (content_type : option string)
    (body : option (list byte)) (scope : Scope) : result unit ProxyError :=
  let! _ := validate_host host (s_hosts scope) in
  let! _ := validate_path path (s_paths scope) (s_forbidden_paths scope) in
  let! _ := validate_method method (s_methods scope) in
  match s_body_constraints scope with
  | Some constraints => validate_body body content_type constraints
  | None => Ok tt
  end.
End Scope.

(** ** Specification of the checks *)

(** [key_at n k v]: the value [v] has the key [k] below [n] containers. *)
Inductive key_at : nat -> string -> Json -> Prop :=
| key_here k v fs : (k, v) ∈ fs -> key_at 0 k (JObject fs)
| key_field n k k' v fs : (k', v) ∈ fs -> key_at n k v -> key_at (S n) k (JObject fs)
| key_item n k v vs : v ∈ vs -> key_at n k v -> key_at (S n) k (JArray vs).

Lemma key_at_items n k vs :
  key_at n k (JArray vs) <-> exists n' v, n = S n' /\ v ∈ vs /\ key_at n' k v.
Proof.
  split; [inversion 1; subst; eauto|]. intros (n' & v & -> & ? & ?). by eapply key_item.
Qed.

Lemma key_at_fields n k fs :
  key_at n k (JObject fs) <->
  (n = 0%nat /\ exists v, (k, v) ∈ fs) \/ (exists n' k' v, n = S n' /\ (k', v) ∈ fs /\ key_at n' k v).
Proof.
  split.
  - inversion 1; subst; [left|right]; eauto 6.
  - intros [(-> & v & ?)|(n' & k' & v & -> & ? & ?)]; [by eapply key_here|by eapply key_field].
Qed.

Lemma named_spec (F : list string) k : existsb (fun f => bool_decide (f = k)) F = true <-> k ∈ F.
Proof.
  rewrite existsb_spec. setoid_rewrite bool_decide_eq_true. split; [by intros (? & ? & <-)|eauto].
Qed.

Lemma find_forbidden_sound fuel F v k :
  find_forbidden_field_bounded fuel F v = Some k -> k ∈ F /\ exists n, (n < fuel)%nat /\ key_at n k v.
Proof.
  revert v. induction fuel as [|fuel IH]; intros v; simpl; [done|]. destruct v as [| | | |items|fields]; try done.
  - induction items as [|v vs IHv]; [done|].
    destruct (find_forbidden_field_bounded fuel F v) as [bad|] eqn:E.
    + intros [= <-]. destruct (IH _ E) as (? & n & ? & ?). split; [done|]. exists (S n).
      split; [lia|]. by eapply key_item; [left|].
    + intros Hs%IHv. destruct Hs as (? & n & ? & (n' & v' & -> & ? & ?)%key_at_items).
      split; [done|]. exists (S n'). split; [done|]. by eapply key_item; [right|].
  - induction fields as [|[k' v] fs IHf]; [done|].
    destruct (existsb _ F) eqn:En.
    { intros [= <-]. apply named_spec in En. split; [done|]. exists 0%nat. split; [lia|].
      eapply key_here. by left. }
    destruct (find_forbidden_field_bounded fuel F v) as [bad|] eqn:E.
    + intros [= <-]. destruct (IH _ E) as (? & n & ? & ?). split; [done|]. exists (S n).
      split; [lia|]. by eapply key_field; [left|].
    + intros Hs%IHf. destruct Hs as (? & n & ? & [(-> & v' & ?)|(n' & k'' & v' & -> & ? & ?)]%key_at_fields).
      * split; [done|]. exists 0%nat. split; [done|]. eapply key_here. by right.
      * split; [done|]. exists (S n'). split; [done|]. by eapply key_field; [right|].
Qed.

Lemma find_forbidden_complete fuel F v n k :
  find_forbidden_field_bounded fuel F v = None -> (n < fuel)%nat -> key_at n k v -> k ∉ F.
Proof.
  revert v n. induction fuel as [|fuel IH]; intros v n; [lia|]. simpl. intros Hf Hn Hk.
  destruct v as [| | | |items|fields]; try by inversion Hk.
  - apply key_at_items in Hk as (n' & v' & -> & Hv & Hk).
    induction items as [|v vs IHv]; [by apply elem_of_nil in Hv|].
    destruct (find_forbidden_field_bounded fuel F v) eqn:E; [done|].
    apply elem_of_cons in Hv as [->|Hv]; [|by apply IHv]. apply (IH v n'); [exact E|lia|done].
  - induction fields as [|[k' v] fs IHf].
    { apply key_at_fields in Hk as [(_ & ? & []%elem_of_nil)|(? & ? & ? & _ & []%elem_of_nil & _)]. }
    destruct (existsb _ F) eqn:En; [done|].
    destruct (find_forbidden_field_bounded fuel F v) eqn:E; [done|].
    apply key_at_fields in Hk as [(-> & v' & Hv)|(n' & k'' & v' & -> & Hv & Hk)].
    + apply elem_of_cons in Hv as [[= -> ->]|Hv].
      * by rewrite <- named_spec, En.
      * apply IHf; [done|]. by eapply key_here.
    + apply elem_of_cons in Hv as [[= -> ->]|Hv].
      * apply (IH v n'); [exact E|lia|done].
      * apply IHf; [done|]. by eapply key_field.
Qed.

(** What the code relies on of [globset]: a set matches when one of its
    patterns does. *)
Class GlobsetLaws `{Globset} : Type := {
  glob_is_match : GlobT -> string -> bool;
  set_is_any : forall gs set path, globset_build gs = inl set ->
    globset_is_match set path = existsb (fun g => glob_is_match g path) gs
}.

Section ScopeSpec.
Context `{Fmt} `{Globset} `{!GlobsetLaws} `{JsonParse}.

Definition pattern_matches (path p : string) : Prop :=
  exists g, glob_new p = inl g /\ glob_is_match g path = true.

Definition patterns_compile (ps : list string) : Prop := exists set, build_glob_set ps = inl set.

Lemma compile_globs_any ps gs path :
  compile_globs ps = inl gs ->
  existsb (fun g => glob_is_match g path) gs = true <-> exists p, p ∈ ps /\ pattern_matches path p.
Proof.
  revert gs. induction ps as [|p ps IH]; intros gs; simpl.
  { intros [= <-]. split; [done|]. by intros (? & []%elem_of_nil & _). }
  destruct (glob_new p) as [g|e] eqn:Eg; [|done]. destruct (compile_globs ps) as [gs'|e]; [|done].
  intros [= <-]. simpl. rewrite orb_true_iff, IH by done. unfold pattern_matches. split.
  - intros [Hg|(q & Hq & Hm)]; [exists p|exists q]; (split; [set_solver|]); [by exists g|done].
  - intros (q & [->|Hq]%elem_of_cons & g' & Hg' & Hm); [left; congruence|right; by exists q; eauto].
Qed.

Lemma build_glob_set_any ps set path :
  build_glob_set ps = inl set ->
  globset_is_match set path = true <-> exists p, p ∈ ps /\ pattern_matches path p.
Proof.
  unfold build_glob_set. destruct (compile_globs ps) as [gs|e] eqn:E; [|done]. intros Hb.
  rewrite (set_is_any _ _ path Hb). by apply compile_globs_any.
Qed.

(** A list of patterns under which [path] is allowed, and one that does not
    forbid it. *)
Definition allows (ps : list string) (path : string) : Prop :=
  ps = [] \/ (patterns_compile ps /\ exists p, p ∈ ps /\ pattern_matches path p).

Definition spares (ps : list string) (path : string) : Prop :=
  ps = [] \/ (patterns_compile ps /\ forall p, p ∈ ps -> ~ pattern_matches path p).

Definition body_in_scope (body : option (list byte)) (ct : option string) (c : BodyConstraints) : Prop :=
  (forall max, bc_max_size_bytes c = Some max -> Z.of_nat (length (default [] body)) <= max) /\
  (bc_allowed_content_types c = [] \/
   exists a, a ∈ bc_allowed_content_types c /\ lowercase a = lowercase (media_type (default EmptyString ct))) /\
  (forall v n k, default [] body <> [] -> from_slice (default [] body) = Some v ->
     (n < MAX_JSON_DEPTH)%nat -> key_at n k v -> k ∉ bc_forbidden_fields c).

Definition in_scope (method host path : string) (ct : option string) (body : option (list byte))
    (s : Scope) : Prop :=
  (s_hosts s = [] \/ host ∈ s_hosts s) /\
  spares (s_forbidden_paths s) path /\ allows (s_paths s) path /\
  (s_methods s = [] \/ exists m, m ∈ s_methods s /\ lowercase m = lowercase method) /\
  (forall c, s_body_constraints s = Some c -> body_in_scope body ct c).

Lemma ok_unit_bind (r k : result unit ProxyError) :
  (let! _ := r in k) = Ok tt <-> r = Ok tt /\ k = Ok tt.
Proof. destruct r as [[]| |]; simpl; intuition congruence. Qed.

Lemma ok_unless (b : bool) (e : ProxyError) (P : Prop) :
  (b = true <-> P) -> (if b then Ok tt else Err e) = Ok tt <-> P.
Proof. intros <-. by destruct b. Qed.

Lemma ok_or_empty {A : Type} `{EqDecision A} (l : list A) (k : result unit ProxyError) (P : Prop) :
  (k = Ok tt <-> P) -> (if bool_decide (l = []) then Ok tt else k) = Ok tt <-> l = [] \/ P.
Proof. intros <-. destruct (decide (l = [])); [rewrite bool_decide_eq_true_2|rewrite bool_decide_eq_false_2]; naive_solver. Qed.

Lemma validate_host_spec host hs : validate_host host hs = Ok tt <-> hs = [] \/ host ∈ hs.
Proof. apply ok_or_empty, ok_unless, named_spec. Qed.

Lemma any_ignoring_case (l : list string) x :
  existsb (fun a => eq_ignore_ascii_case a x) l = true <-> exists a, a ∈ l /\ lowercase a = lowercase x.
Proof. rewrite existsb_spec. unfold eq_ignore_ascii_case. by setoid_rewrite bool_decide_eq_true. Qed.

Lemma validate_method_spec m ms :
  validate_method m ms = Ok tt <-> ms = [] \/ exists a, a ∈ ms /\ lowercase a = lowercase m.
Proof. apply ok_or_empty, ok_unless, any_ignoring_case. Qed.

Lemma validate_path_spec path allowed forbidden :
  validate_path path allowed forbidden = Ok tt <-> spares forbidden path /\ allows allowed path.
Proof.
  unfold validate_path. rewrite ok_unit_bind.
  assert (forall ps (e1 : string -> ProxyError) (e2 : ProxyError), (match build_glob_set ps with
      | inr e => Err (e1 e) | inl set => if globset_is_match set path then Ok tt else Err e2 end) = Ok tt <->
      patterns_compile ps /\ exists p, p ∈ ps /\ pattern_matches path p) as Hall.
  { intros ps e1 e2. unfold patterns_compile. destruct (build_glob_set ps) as [set|e] eqn:E.
    - rewrite ok_unless by (by apply build_glob_set_any). naive_solver.
    - split; [done|]. by intros [[? ?] _]. }
  assert (forall ps (e1 : string -> ProxyError) (e2 : ProxyError), (match build_glob_set ps with
      | inr e => Err (e1 e) | inl set => if globset_is_match set path then Err e2 else Ok tt end) = Ok tt <->
      patterns_compile ps /\ forall p, p ∈ ps -> ~ pattern_matches path p) as Hnone.
  { intros ps e1 e2. unfold patterns_compile. destruct (build_glob_set ps) as [set|e] eqn:E.
    - pose proof (build_glob_set_any ps set path E) as Hany. destruct (globset_is_match set path).
      + split; [done|]. intros [_ Hn]. destruct (proj1 Hany) as (p & ? & ?); [done|]. by destruct (Hn p).
      + split; [|done]. intros _. split; [by eexists|]. intros p Hp Hm.
        enough (false = true) by done. apply Hany. eauto.
    - split; [done|]. by intros [[? ?] _]. }
  rewrite ok_or_empty by apply Hnone. rewrite ok_or_empty by apply Hall. done.
Qed.

Lemma size_check_spec (size : Z) (limit : option Z) :
  (match limit with
   | Some max => if size >? max then Err (BodyTooLarge size max) else Ok tt
   | None => Ok tt
   end) = Ok tt <-> forall max, limit = Some max -> size <= max.
Proof.
  destruct limit as [max|]; [|by split].
  rewrite Z.gtb_ltb. destruct (Z.ltb_spec max size).
  - split; [done|]. intros Hm. specialize (Hm max eq_refl). lia.
  - split; [|done]. by intros _ ? [= <-].
Qed.

Lemma fields_check_spec (b : list byte) (F : list string) :
  (if bool_decide (F = []) || bool_decide (b = []) then Ok tt
   else match from_slice b with
        | None => Ok tt
        | Some value => match find_forbidden_field value F with
                        | Some bad => Err (ForbiddenField bad)
                        | None => Ok tt
                        end
        end) = Ok tt <->
  forall v n k, b <> [] -> from_slice b = Some v -> (n < MAX_JSON_DEPTH)%nat -> key_at n k v -> k ∉ F.
Proof.
  destruct (bool_decide (F = [])) eqn:EF; simpl.
  { bool_to_prop. rewrite EF. split; [|done]. intros _ v n k _ _ _ _. apply not_elem_of_nil. }
  destruct (bool_decide (b = [])) eqn:Eb; bool_to_prop.
  { split; [|done]. intros _ v n k Hb. by destruct Hb. }
  destruct (from_slice b) as [v|] eqn:Ev; [|by split].
  unfold find_forbidden_field. generalize MAX_JSON_DEPTH as depth. intros depth.
  destruct (find_forbidden_field_bounded depth F v) as [bad|] eqn:Ef.
  - split; [discriminate|]. intros Hn. apply find_forbidden_sound in Ef as (Hin & n & Hlt & Hk).
    by destruct (Hn v n bad Eb eq_refl Hlt Hk).
  - split; [|reflexivity]. intros _ v' n k _ [= <-] Hlt Hk. exact (find_forbidden_complete _ _ _ _ _ Ef Hlt Hk).
Qed.

Lemma validate_body_spec body ct c : validate_body body ct c = Ok tt <-> body_in_scope body ct c.
Proof.
  unfold validate_body, body_in_scope. cbv zeta. rewrite !ok_unit_bind.
  rewrite ok_or_empty by apply ok_unless, any_ignoring_case.
  rewrite size_check_spec, fields_check_spec. reflexivity.
Qed.

(** C14. The proxy lets a request through its scope check exactly when the host,
    the path, the method and the body are within the granted scope: forbidden
    patterns win, an empty list allows everything, and a JSON body has no
    forbidden key less than 64 containers deep. *)
Theorem validate_request_decides_scope (method host path : string) (ct : option string)
    (body : option (list byte)) (s : Scope) :
  validate_request method host path ct body s = Ok tt <-> in_scope method host path ct body s.
Proof.
  unfold validate_request, in_scope.
  rewrite !ok_unit_bind, validate_host_spec, validate_path_spec, validate_method_spec.
  destruct (s_body_constraints s) as [c|].
  - rewrite validate_body_spec. naive_solver.
  - naive_solver.
Qed.

(** [n] arrays around a value. *)
Fixpoint nest (n : nat) (v : Json) : Json :=
  match n with O => v | S n' => JArray [nest n' v] end.

Lemma find_nested F n fuel v :
  (fuel <= n)%nat -> find_forbidden_field_bounded fuel F (nest n v) = None.
Proof.
  revert fuel. induction n as [|n IH]; intros [|fuel] Hle; simpl; [done|lia|done|].
  by rewrite IH by lia.
Qed.

(** A forbidden key nested below 64 arrays is not found: the body is accepted
    when its size and type are, whatever it says at that depth. *)
Theorem deep_forbidden_field_accepted (body : list byte) (k : string) (v : Json) (n : nat)
    (ct : option string) (c : BodyConstraints) :
  (64 <= n)%nat -> from_slice body = Some (nest n (JObject [(k, v)])) ->
  bc_max_size_bytes c = None -> bc_allowed_content_types c = [] ->
  k ∈ bc_forbidden_fields c -> validate_body (Some body) ct c = Ok tt.
Proof.
  intros Hn Hb Hs Hc _. unfold validate_body. rewrite Hs, Hc. simpl.
  destruct (_ || _); [done|]. rewrite Hb. unfold find_forbidden_field. by rewrite find_nested.
Qed.

(** A request for none but paths the policy does not allow is granted with an
    empty path list, which the proxy reads as no restriction: without
    forbidden patterns it lets every path through. *)
Theorem unmatched_paths_lift_restriction (requested g : Scope) (allowed : PolicyAllow) (path : string) :
  pa_paths allowed <> [] ->
  Forall (fun p => any_glob_matches p (pa_paths allowed) = false) (s_paths requested) ->
  intersect_scope requested allowed = Some g ->
  s_paths g = [] /\ (s_forbidden_paths g = [] -> validate_path path (s_paths g) (s_forbidden_paths g) = Ok tt).
Proof.
  intros Hne Hnone. unfold intersect_scope. intros (hs & _ & (ms & _ & [= <-])%bind_Some)%bind_Some. simpl.
  rewrite (bool_decide_eq_false_2 _ Hne).
  assert (List.filter (fun p => any_glob_matches p (pa_paths allowed)) (s_paths requested) = []) as ->.
  { induction Hnone as [|p ps Hp _ IH]; [done|]. simpl. by rewrite Hp. }
  destruct (negb _); simpl; (split; [done|]); by intros ->.
Qed.
End ScopeSpec.

(** ** Concrete checks *)

(** A [serde_json] that knows one body. *)
Definition deep_body : list byte := as_bytes "[..]".
Definition one_body : JsonParse :=
  {| from_slice := fun b => if bool_decide (b = deep_body)
       then Some (nest 64 (JObject [("admin", JBool true)])) else None |}.

Lemma deep_forbidden_field_accepted_witness :
  validate_body (H:=plain_fmt) (H1:=one_body) (Some deep_body) None (mkBodyConstraints ["admin"] None []) = Ok tt.
Proof.
  apply (deep_forbidden_field_accepted (H:=plain_fmt) (H2:=one_body) deep_body "admin" (JBool true) 64).
  - lia.
  - reflexivity.
  - reflexivity.
  - reflexivity.
  - by left.
Defined.

(** Patterns without wildcards, matched by equality. *)
Definition literal_globs : Globset :=
  {| GlobT := string; GlobSetT := list string; glob_new := fun p => inl p;
     globset_build := fun gs => inl gs;
     globset_is_match := fun set path => existsb (fun g => bool_decide (g = path)) set |}.

Definition literal_globs_laws : GlobsetLaws (H:=literal_globs).
Proof.
  refine (Build_GlobsetLaws literal_globs (fun (g path : string) => bool_decide (g = path)) _).
  intros gs set path [= ->]. reflexivity.
Defined.

Definition narrow_scope : Scope :=
  mkScope ["api.github.com"] ["get"] ["/user"] ["/admin"] None None None None.

Lemma validate_request_decides_scope_witness :
  in_scope (H0:=literal_globs) (H1:=literal_globs_laws) (H2:=one_body) "GET" "api.github.com" "/user" None None narrow_scope.
Proof.
  apply (validate_request_decides_scope (H:=plain_fmt) (H0:=literal_globs) (H1:=literal_globs_laws) (H2:=one_body)).
  vm_compute. reflexivity.
Defined.

(** An agent that asks for [/admin] under a policy for [/user] may send any
    path. *)
Lemma unmatched_paths_lift_restriction_witness :
  validate_path (H:=plain_fmt) (H0:=literal_globs) "/admin" [] [] = Ok tt.
Proof.
  apply (unmatched_paths_lift_restriction (H:=plain_fmt) (H0:=literal_globs)
    (mkScope [] [] ["/admin"] [] None None None None) (mkScope [] [] [] [] None None None None)
    (mkPolicyAllow [] [] ["/user"] [] None None None None true None None) "/admin").
  - discriminate.
  - repeat constructor.
  - vm_compute. reflexivity.
  - reflexivity.
Defined.
