(* ===== verification/LeaseManager.v ===== *)
(** * cdp-lease: the lease manager

    The operations of [cdp-lease/src/manager.rs], [delegation.rs] and the
    handler of [liveness.rs], one definition per operation and one per
    section of an operation that runs under a lock, so that [LeaseSteps] can
    interleave the sections.  The clock, the random draws and the resolver
    are arguments; the audit channel is the list of the events sent. *)

From S2P Require Import Prelude RustStr Crypto PolicyTypes LeaseTypes AuditLog.

(** ** State *)

(** [audit_open] says whether [audit_tx] is a connected sender; [audit_sent]
    is what went through it. *)
Record LeaseManager : Type := mkLeaseManager {
  leases : gmap string Lease;
  agent_leases : gmap (list byte) (list string);
  gate_key : list byte;
  audit_open : bool;
  audit_sent : list (AuditEventType * AuditFields)
}.

Definition manager_new (key : list byte) (audit_connected : bool) : LeaseManager :=
  mkLeaseManager ∅ ∅ key audit_connected [].

Definition with_leases (m : LeaseManager) (ls : gmap string Lease) : LeaseManager :=
  mkLeaseManager ls (agent_leases m) (gate_key m) (audit_open m) (audit_sent m).

Definition with_index (m : LeaseManager) (ix : gmap (list byte) (list string)) : LeaseManager :=
  mkLeaseManager (leases m) ix (gate_key m) (audit_open m) (audit_sent m).

(** [tx.send(..)] when there is a sender; a closed channel drops the event. *)
Definition emit_audit (m : LeaseManager) (event : AuditEventType) (fields : AuditFields) : LeaseManager :=
  if audit_open m then
    mkLeaseManager (leases m) (agent_leases m) (gate_key m) true (audit_sent m ++ [(event, fields)])
  else m.

(** ** Index and traversal helpers *)

Definition hex_encode (bytes : list byte) : string := bytes_to_hex bytes.

(** [agent_leases.entry(fp).or_default().push(id)] *)
Definition push_agent_index (ix : gmap (list byte) (list string)) (fp : list byte) (id : string)
    : gmap (list byte) (list string) :=
  <[fp := default [] (ix !! fp) ++ [id]]> ix.

Definition remove_from_agent_index (ix : gmap (list byte) (list string)) (fingerprint : list byte)
    (id : string) : gmap (list byte) (list string) :=
  match ix !! fingerprint with
  | None => ix
  | Some ids =>
      let ids := List.filter (fun x => negb (bool_decide (x = id))) ids in
      if bool_decide (ids = []) then delete fingerprint ix else <[fingerprint := ids]> ix
  end.

(** The [while let Some(id) = stack.pop()] loop; the list's head is the top.
    [None] is running out of fuel. *)
Fixpoint collect_loop (fuel : nat) (ls : gmap string Lease) (stack res : list string)
    : option (list string) :=
  match fuel with
  | O => None
  | S fuel' =>
      match stack with
      | [] => Some res
      | id :: rest =>
          let stack' := match ls !! id with
                        | Some l => child_lease_ids l ++ rest
                        | None => rest
                        end in
          collect_loop fuel' ls stack' (res ++ [id])
      end
  end.

(** One iteration per stored lease, and one to find the stack empty. *)
Definition collect_descendants (ls : gmap string Lease) (root : string) : option (list string) :=
  collect_loop (S (size ls)) ls
    (rev (match ls !! root with Some l => child_lease_ids l | None => [] end)) [].

Section Operations.
Context `{Build} `{Chrono} `{HmacSha256} `{Resolver}.

(** ** create_lease *)

(** Everything before the locks: ids, pins, limits, token and the record. *)
Definition prepare_lease (key : list byte) (id_bytes cb_nonce : list byte) (now : Z)
    (agent_info : AgentInfo) (cref : string) (scope : Scope) (constraints : PolicyConstraints)
    (pname method : string) : result Lease LeaseError :=
  let id := lease_id_of id_bytes in
  let! pins := pin_dns (s_hosts scope) in
  let ttl := unwrap_or (opt_or (s_ttl_seconds scope) (pc_max_ttl_seconds constraints)) 3600 in
  let max_req := opt_or (s_max_requests scope) (pc_max_requests_per_lease constraints) in
  let max_ren := unwrap_or (pc_max_renewals constraints) 3 in
  let max_cum := unwrap_or (pc_max_cumulative_ttl_seconds constraints) 14400 in
  let follow := match s_network scope with Some n => n_follow_redirects n | None => false end in
  let token := generate_lease_token key id (ai_fingerprint_hash agent_info) cb_nonce in
  let! d := duration_seconds (as_i64 ttl) in
  let! exp := dt_add now d in
  Ok (mkLease id cref pname method (ai_fingerprint_hash agent_info)
        (to_string_lossy (ai_binary_path agent_info)) (ai_uid agent_info) (ai_pid agent_info)
        scope token cb_nonce pins Active now exp ttl ttl max_req 0 0 max_ren max_cum
        (pc_renewable constraints) None [] 0 (pc_delegation_allowed constraints)
        (pc_delegation_max_depth constraints) follow).

(** Under the write lock of [leases]. *)
Definition insert_lease (m : LeaseManager) (l : Lease) : LeaseManager :=
  with_leases m (<[lease_id l := l]> (leases m)).

(** Under the write lock of [agent_leases]. *)
Definition index_lease (m : LeaseManager) (fp : list byte) (id : string) : LeaseManager :=
  with_index m (push_agent_index (agent_leases m) fp id).

Definition create_lease (m : LeaseManager) (id_bytes cb_nonce : list byte) (now : Z)
    (agent_info : AgentInfo) (cref : string) (scope : Scope) (constraints : PolicyConstraints)
    (pname method : string) : LeaseManager * result Lease LeaseError :=
  match prepare_lease (gate_key m) id_bytes cb_nonce now agent_info cref scope constraints pname method with
  | Err e => (m, Err e)
  | Panic => (m, Panic)
  | Ok l =>
      let m := insert_lease m l in
      let m := index_lease m (ai_fingerprint_hash agent_info) (lease_id l) in
      let m := emit_audit m LeaseGranted
        (mkAuditFields (Some (lease_id l)) (Some (hex_encode (ai_fingerprint_hash agent_info)))
           (Some (to_string_lossy (ai_binary_path agent_info))) (Some cref) None (Some pname)
           (Some method) None) in
      (m, Ok l)
  end.

(** ** renew_lease *)

(** The checks and the update on the locked lease. *)
Definition renew_checked (now : Z) (id : string) (extend_seconds : Z) (l : Lease)
    : result Lease LeaseError :=
  if negb (bool_decide (status l = Active)) then Err NotActive
  else if is_expired now l then Err (Expired_ id)
  else if negb (renewable l) then Err NotRenewable
  else if renewals_used l >=? max_renewals l then Err (MaxRenewalsExceeded (max_renewals l))
  else
    let! total := add_u U64 (cumulative_ttl_seconds l) extend_seconds in
    if total >? max_cumulative_ttl_seconds l then
      Err (MaxCumulativeTtlExceeded (max_cumulative_ttl_seconds l))
    else
      let! d := duration_seconds (as_i64 extend_seconds) in
      let! exp := dt_add (expires_at l) d in
      let! cumulative := add_u U64 (cumulative_ttl_seconds l) extend_seconds in
      let! renewals := add_u U32 (renewals_used l) 1 in
      Ok (set_renewal exp cumulative renewals l).

Definition renew_lease (m : LeaseManager) (now : Z) (id : string) (extend_seconds : Z)
    : LeaseManager * result unit LeaseError :=
  match leases m !! id with
  | None => (m, Err (NotFound id))
  | Some l =>
      match renew_checked now id extend_seconds l with
      | Err e => (m, Err e)
      | Panic => (m, Panic)
      | Ok l' =>
          let m := with_leases m (<[id := l']> (leases m)) in
          let m := emit_audit m LeaseRenewed
            (mkAuditFields (Some id) (Some (hex_encode (agent_fingerprint_hash l'))) None
               (Some (credential_ref l')) None None None
               (Some ("extended by " +:+ display_Z extend_seconds +:+ "s"))) in
          (m, Ok tt)
      end
  end.

(** ** revoke_lease *)

(** One lease of the cascade: status, index and audit event. *)
Definition revoke_one (reason detail : string) (m : LeaseManager) (id : string) : LeaseManager :=
  match leases m !! id with
  | None => m
  | Some l =>
      let fp := agent_fingerprint_hash l in
      let m := with_leases m (<[id := set_status (Revoked reason) l]> (leases m)) in
      let m := with_index m (remove_from_agent_index (agent_leases m) fp id) in
      emit_audit m LeaseRevoked
        (mkAuditFields (Some id) (Some (hex_encode fp)) None None None None None (Some detail))
  end.

(** [None] when the traversal does not end. *)
Definition revoke_lease (m : LeaseManager) (id reason : string)
    : option (LeaseManager * result unit LeaseError) :=
  match leases m !! id with
  | None => Some (m, Err (NotFound id))
  | Some _ =>
      descendants ← collect_descendants (leases m) id;
      let m := fold_left (revoke_one reason ("cascading revocation: " +:+ reason)) descendants m in
      let m := revoke_one reason reason m id in
      Some (m, Ok tt)
  end.

(** ** use_lease, get_lease *)

Definition use_checked (now : Z) (id : string) (l : Lease) : result Lease LeaseError :=
  if negb (bool_decide (status l = Active)) then Err NotActive
  else if is_expired now l then Err (Expired_ id)
  else
    match max_requests l with
    | Some max =>
        if requests_used l >=? max then Err (MaxRequestsExceeded max)
        else let! n := add_u U64 (requests_used l) 1 in Ok (set_requests_used n l)
    | None => let! n := add_u U64 (requests_used l) 1 in Ok (set_requests_used n l)
    end.

Definition use_lease (m : LeaseManager) (now : Z) (id : string)
    : LeaseManager * result Lease LeaseError :=
  match leases m !! id with
  | None => (m, Err (NotFound id))
  | Some l =>
      match use_checked now id l with
      | Err e => (m, Err e)
      | Panic => (m, Panic)
      | Ok snapshot =>
          let m := with_leases m (<[id := snapshot]> (leases m)) in
          let m := emit_audit m LeaseUsed
            (mkAuditFields (Some id) (Some (hex_encode (agent_fingerprint_hash snapshot))) None
               (Some (credential_ref snapshot)) None None None
               (Some ("request " +:+ display_Z (requests_used snapshot)))) in
          (m, Ok snapshot)
      end
  end.

Definition get_lease (m : LeaseManager) (id : string) : result Lease LeaseError :=
  ok_or (leases m !! id) (NotFound id).

(** ** revoke_agent_leases *)

Definition is_root_lease (ls : gmap string Lease) (id : string) : bool :=
  match ls !! id with
  | Some l => bool_decide (parent_lease_id l = None)
  | None => false
  end.

(** The loop over the ids read from the index; [?] leaves it on an error. *)
Fixpoint revoke_roots (m : LeaseManager) (reason : string) (ids revoked : list string)
    : option (LeaseManager * result (list string) LeaseError) :=
  match ids with
  | [] => Some (m, Ok revoked)
  | id :: rest =>
      if is_root_lease (leases m) id then
        descendants ← collect_descendants (leases m) id;
        match revoke_lease m id reason with
        | None => None
        | Some (m', Ok _) => revoke_roots m' reason rest ((revoked ++ [id]) ++ descendants)
        | Some (m', Err e) => Some (m', Err e)
        | Some (m', Panic) => Some (m', Panic)
        end
      else revoke_roots m reason rest revoked
  end.

Definition revoke_agent_leases (m : LeaseManager) (fp : list byte) (reason : string)
    : option (LeaseManager * result (list string) LeaseError) :=
  let ids := default [] (agent_leases m !! fp) in
  '(m', r) ← revoke_roots m reason ids [];
  match r with
  | Ok revoked => Some (with_index m' (delete fp (agent_leases m')), Ok revoked)
  | Err e => Some (m', Err e)
  | Panic => Some (m', Panic)
  end.

(** ** sweep_expired *)

Definition sweep_due (now : Z) (l : Lease) : bool :=
  bool_decide (status l = Active) && (expires_at l <? now).

Definition expire_one (m : LeaseManager) (id : string) : LeaseManager :=
  match leases m !! id with
  | None => m
  | Some l =>
      let fp := agent_fingerprint_hash l in
      let m := with_leases m (<[id := set_status Expired l]> (leases m)) in
      let m := with_index m (remove_from_agent_index (agent_leases m) fp id) in
      emit_audit m LeaseExpired
        (mkAuditFields (Some id) (Some (hex_encode fp)) None (Some (credential_ref l)) None None None None)
  end.

(** The map is iterated in some order; it decides the order of the events. *)
Definition sweep_expired (m : LeaseManager) (now : Z) : LeaseManager :=
  let expired_ids := map fst (List.filter (fun kv => sweep_due now kv.2) (map_to_list (leases m))) in
  fold_left expire_one expired_ids m.

(** ** delegate *)

(** The validation under the write lock and the child record; [now] is the
    clock of the checks, [created] the earlier clock of the record. *)
Definition delegate_checked (created exp now : Z) (child_id token : string) (cb_nonce : list byte)
    (pins : gmap string (list IpAddr)) (parent_id : string) (target_agent : AgentInfo)
    (child_scope : Scope) (child_ttl : Z) (parent : Lease) : result Lease LeaseError :=
  if negb (bool_decide (status parent = Active)) then Err NotActive
  else if is_expired now parent then Err (Expired_ parent_id)
  else if negb (delegation_allowed parent) then Err DelegationNotAllowed
  else
    let max_depth := unwrap_or (delegation_max_depth parent) 3 in
    let! child_depth := add_u U32 (delegation_depth parent) 1 in
    if child_depth >? max_depth then Err (DelegationDepthExceeded max_depth)
    else if negb (is_scope_subset child_scope (granted_scope parent)) then Err ScopeNotSubset
    else
      let remaining := remaining_ttl_seconds now parent in
      if (remaining <? 0) || (child_ttl >? as_u64 remaining) then Err TtlExceedsParent
      else
        Ok (mkLease child_id (credential_ref parent) "delegated" "delegation"
              (ai_fingerprint_hash target_agent) (to_string_lossy (ai_binary_path target_agent))
              (ai_uid target_agent) (ai_pid target_agent) child_scope token cb_nonce pins Active
              created exp child_ttl child_ttl None 0 0 (max_renewals parent)
              (max_cumulative_ttl_seconds parent) true (Some parent_id) [] child_depth
              (delegation_allowed parent) (delegation_max_depth parent) (follow_redirects parent)).

(** Linking the child and inserting it, still under the write lock. *)
Definition link_child (m : LeaseManager) (parent_id : string) (child : Lease) : LeaseManager :=
  let m := match leases m !! parent_id with
           | Some p => with_leases m (<[parent_id := push_child (lease_id child) p]> (leases m))
           | None => m
           end in
  with_leases m (<[lease_id child := child]> (leases m)).

Definition delegate (m : LeaseManager) (id_bytes cb_nonce : list byte) (created now : Z)
    (parent_id : string) (target_agent : AgentInfo) (child_scope : Scope) (child_ttl : Z)
    (target_alive : bool) : LeaseManager * result Lease LeaseError :=
  if negb target_alive then (m, Err TargetAgentNotAlive)
  else
    match leases m !! parent_id with
    | None => (m, Err (NotFound parent_id))
    | Some parent =>
        if negb (is_scope_subset child_scope (granted_scope parent)) then (m, Err ScopeNotSubset)
        else
          match pin_dns (s_hosts child_scope) with
          | Err e => (m, Err e)
          | Panic => (m, Panic)
          | Ok pins =>
              let child_id := lease_id_of id_bytes in
              let token := generate_lease_token (gate_key m) child_id
                             (ai_fingerprint_hash target_agent) cb_nonce in
              match (let! d := duration_seconds (as_i64 child_ttl) in
                     let! exp := dt_add created d in
                     delegate_checked created exp now child_id token cb_nonce pins parent_id
                       target_agent child_scope child_ttl parent) with
              | Err e => (m, Err e)
              | Panic => (m, Panic)
              | Ok child =>
                  let m := link_child m parent_id child in
                  let m := emit_audit m LeaseDelegated
                    (mkAuditFields (Some child_id) (Some (hex_encode (agent_fingerprint_hash parent)))
                       None (Some (credential_ref parent)) None None None
                       (Some ("delegated from " +:+ parent_id +:+ " to agent pid=" +:+
                              display_Z (ai_pid target_agent)))) in
                  let m := index_lease m (ai_fingerprint_hash target_agent) child_id in
                  (m, Ok child)
              end
          end
    end.

(** ** Liveness handler *)

Record AgentDeathNotice : Type := mkAgentDeathNotice {
  dn_pid : Z;
  dn_fingerprint_hash : list byte
}.

(** One turn of [spawn_liveness_handler]'s loop; the outcome is only logged. *)
Definition handle_death_notice (m : LeaseManager) (notice : AgentDeathNotice) : option LeaseManager :=
  '(m', _) ← revoke_agent_leases m (dn_fingerprint_hash notice) "agent process died";
  Some m'.
End Operations.
