(* ===== verification/LeaseLemmas.v ===== *)
(** * cdp-lease: lemmas about the manager's sections

    What each locked section does to the lease store, the traversal of the
    delegation forest, and well-formedness of the store. *)

From S2P Require Import Prelude RustStr Crypto PolicyTypes LeaseTypes AuditLog LeaseManager.

(** ** Projections of the state updates *)

Lemma leases_emit m ev f : leases (emit_audit m ev f) = leases m.
Proof. unfold emit_audit. by destruct (audit_open m). Qed.
Lemma index_emit m ev f : agent_leases (emit_audit m ev f) = agent_leases m.
Proof. unfold emit_audit. by destruct (audit_open m). Qed.
Lemma key_emit m ev f : gate_key (emit_audit m ev f) = gate_key m.
Proof. unfold emit_audit. by destruct (audit_open m). Qed.

#[export] Hint Rewrite leases_emit index_emit key_emit : cdp.

Ltac lm_simpl := autorewrite with cdp in *; simpl in *.

(** ** Status updates *)

(** The store with [f] applied to the leases named in [ids]. *)
Definition update_named (f : Lease -> Lease) (ids : list string) (ls : gmap string Lease)
    : gmap string Lease :=
  map_imap (fun id l => Some (if bool_decide (id ∈ ids) then f l else l)) ls.

Lemma lookup_update_named f ids ls x :
  update_named f ids ls !! x = (fun l => if bool_decide (x ∈ ids) then f l else l) <$> ls !! x.
Proof. unfold update_named. rewrite map_lookup_imap. by destruct (ls !! x). Qed.

Lemma leases_revoke_one reason detail m id :
  leases (revoke_one reason detail m id) = alter (set_status (Revoked reason)) id (leases m).
Proof.
  unfold revoke_one. destruct (leases m !! id) as [l|] eqn:E.
  - lm_simpl. apply map_eq. intros x. rewrite lookup_insert, lookup_alter.
    case_decide; [by subst; rewrite E|done].
  - symmetry. apply map_eq. intros x. rewrite lookup_alter. case_decide; [by subst; rewrite E|done].
Qed.

Lemma leases_expire_one m id : leases (expire_one m id) = alter (set_status Expired) id (leases m).
Proof.
  unfold expire_one. destruct (leases m !! id) as [l|] eqn:E.
  - lm_simpl. apply map_eq. intros x. rewrite lookup_insert, lookup_alter.
    case_decide; [by subst; rewrite E|done].
  - symmetry. apply map_eq. intros x. rewrite lookup_alter. case_decide; [by subst; rewrite E|done].
Qed.

Lemma set_status_twice st l : set_status st (set_status st l) = set_status st l.
Proof. done. Qed.

Lemma update_named_cons st id ids ls x :
  update_named (set_status st) (id :: ids) ls !! x =
  (if decide (id = x) then set_status st <$> ls !! x
   else update_named (set_status st) ids ls !! x).
Proof.
  rewrite !lookup_update_named. destruct (ls !! x) as [l|]; simpl; [|by case_decide].
  case_decide as Hx; subst; simpl; f_equal.
  - by rewrite bool_decide_eq_true_2 by set_solver.
  - apply (f_equal (fun b : bool => if b then _ else _)), bool_decide_ext. set_solver.
Qed.

Lemma update_named_alter st id ids ls x :
  update_named (set_status st) ids (alter (set_status st) id ls) !! x =
  (if decide (id = x) then set_status st <$> ls !! x
   else update_named (set_status st) ids ls !! x).
Proof.
  rewrite !lookup_update_named, lookup_alter. case_decide; subst; [|done].
  destruct (ls !! x); simpl; [|done]. by destruct (bool_decide _).
Qed.

Lemma alter_update_named st id ids ls x :
  alter (set_status st) id (update_named (set_status st) ids ls) !! x =
  (if decide (id = x) then set_status st <$> ls !! x
   else update_named (set_status st) ids ls !! x).
Proof.
  rewrite lookup_alter. case_decide; subst; [|done]. rewrite lookup_update_named.
  destruct (ls !! x); simpl; [|done]. by destruct (bool_decide _).
Qed.

(** A fold of one-lease updates is one update of all of them. *)
Lemma leases_fold_update (step : LeaseManager -> string -> LeaseManager) st ids m :
  (forall m id, leases (step m id) = alter (set_status st) id (leases m)) ->
  leases (fold_left step ids m) = update_named (set_status st) ids (leases m).
Proof.
  intros Hstep. revert m. induction ids as [|id ids IH]; intros m; simpl.
  - apply map_eq. intros x. rewrite lookup_update_named. by destruct (leases m !! x).
  - rewrite IH, Hstep. apply map_eq. intros x. by rewrite update_named_alter, update_named_cons.
Qed.

Lemma key_revoke_one reason detail m id : gate_key (revoke_one reason detail m id) = gate_key m.
Proof. unfold revoke_one. destruct (leases m !! id); by lm_simpl. Qed.

Lemma key_expire_one m id : gate_key (expire_one m id) = gate_key m.
Proof. unfold expire_one. destruct (leases m !! id); by lm_simpl. Qed.

Lemma key_fold (step : LeaseManager -> string -> LeaseManager) ids m :
  (forall m id, gate_key (step m id) = gate_key m) -> gate_key (fold_left step ids m) = gate_key m.
Proof.
  intros Hs. revert m. induction ids as [|id ids IH]; intros m; simpl; [done|]. by rewrite IH, Hs.
Qed.

(** Revocation sets the status of the root and of everything collected. *)
Lemma revoke_lease_spec m id reason m' r :
  revoke_lease m id reason = Some (m', r) ->
  (leases m !! id = None /\ m' = m /\ r = Err (NotFound id)) \/
  (is_Some (leases m !! id) /\ r = Ok tt /\ gate_key m' = gate_key m /\
   exists ds, collect_descendants (leases m) id = Some ds /\
     leases m' = update_named (set_status (Revoked reason)) (id :: ds) (leases m)).
Proof.
  unfold revoke_lease. destruct (leases m !! id) as [l|] eqn:E; [|naive_solver].
  intros (ds & Hds & Heq)%bind_Some. simplify_eq. right. split_and!; [done|done|..].
  - rewrite key_revoke_one. apply key_fold. intros. apply key_revoke_one.
  - exists ds. split; [done|]. rewrite leases_revoke_one.
    rewrite (leases_fold_update _ (Revoked reason)) by (intros; apply leases_revoke_one).
    apply map_eq. intros x. by rewrite alter_update_named, update_named_cons.
Qed.

(** The sweep expires exactly the active leases that are past due. *)
Lemma leases_sweep m now x :
  leases (sweep_expired m now) !! x =
  (fun l => if sweep_due now l then set_status Expired l else l) <$> leases m !! x.
Proof.
  unfold sweep_expired. rewrite (leases_fold_update _ Expired) by (intros; apply leases_expire_one).
  rewrite lookup_update_named. destruct (leases m !! x) as [l|] eqn:E; [|done]. simpl. f_equal.
  destruct (sweep_due now l) eqn:Hd.
  - rewrite bool_decide_eq_true_2; [done|]. apply list_elem_of_In, in_map_iff. exists (x, l).
    split; [done|]. apply filter_In. split; [|done]. by apply list_elem_of_In, elem_of_map_to_list.
  - rewrite bool_decide_eq_false_2; [done|].
    intros ([y ly] & Hy & [Hin Hd']%filter_In)%list_elem_of_In%in_map_iff. simpl in *. subst.
    apply list_elem_of_In, elem_of_map_to_list in Hin. congruence.
Qed.

Lemma key_sweep m now : gate_key (sweep_expired m now) = gate_key m.
Proof. unfold sweep_expired. apply key_fold. intros. apply key_expire_one. Qed.

(** ** The delegation forest *)

Definition child_of (ls : gmap string Lease) (p c : string) : Prop :=
  exists lp, ls !! p = Some lp /\ c ∈ child_lease_ids lp.

(** Proper descendants. *)
Definition descends (ls : gmap string Lease) : string -> string -> Prop := tc (child_of ls).

Record wf_store (ls : gmap string Lease) : Prop := {
  wf_id : forall id l, ls !! id = Some l -> lease_id l = id;
  wf_child : forall p lp c, ls !! p = Some lp -> c ∈ child_lease_ids lp ->
    exists lc, ls !! c = Some lc /\ parent_lease_id lc = Some p /\
               delegation_depth lc = delegation_depth lp + 1;
  wf_confined : forall p lp c lc, ls !! p = Some lp -> ls !! c = Some lc -> parent_lease_id lc = Some p ->
    is_scope_subset (granted_scope lc) (granted_scope lp) = true /\
    credential_ref lc = credential_ref lp /\ delegation_allowed lp = true;
  wf_parent : forall c lc p, ls !! c = Some lc -> parent_lease_id lc = Some p ->
    exists lp, ls !! p = Some lp /\ c ∈ child_lease_ids lp;
  wf_nodup : forall p lp, ls !! p = Some lp -> NoDup (child_lease_ids lp)
}.

Section Forest.
Context (ls : gmap string Lease) (Hwf : wf_store ls).

Lemma descends_deeper p x :
  descends ls p x -> exists lp lx, ls !! p = Some lp /\ ls !! x = Some lx /\
    delegation_depth lp < delegation_depth lx.
Proof.
  induction 1 as [p x (lp & Hp & Hc)|p y x (lp & Hp & Hc) _ (ly & lx & Hy & Hx & Hd)].
  - destruct (wf_child _ Hwf _ _ _ Hp Hc) as (lc & Hl & _ & Hd). exists lp, lc. split_and!; [done..|lia].
  - destruct (wf_child _ Hwf _ _ _ Hp Hc) as (lc & Hl & _ & Hd'). simplify_eq.
    exists lp, lx. split_and!; [done..|lia].
Qed.

Lemma descends_irrefl p : ~ descends ls p p.
Proof. intros (lp & lx & ? & ? & ?)%descends_deeper. simplify_eq. lia. Qed.

(** What the traversal of [root] maintains. *)
Record collecting (root : string) (res stack : list string) : Prop := {
  col_nodup : NoDup (res ++ stack);
  col_parent : forall x, x ∈ res ++ stack -> exists lx p, ls !! x = Some lx /\
    parent_lease_id lx = Some p /\ (p = root \/ p ∈ res);
  col_desc : forall x, x ∈ res ++ stack -> descends ls root x;
  col_closed : forall p c, p = root \/ p ∈ res -> child_of ls p c -> c ∈ res ++ stack
}.

Lemma collecting_start root l :
  ls !! root = Some l -> collecting root [] (rev (child_lease_ids l)).
Proof.
  intros Hr. assert (forall x, x ∈ rev (child_lease_ids l) <-> x ∈ child_lease_ids l) as Hrev.
  { intros x. by rewrite !list_elem_of_In, <- in_rev. }
  split; simpl.
  - rewrite <- (Permutation_rev (child_lease_ids l)). by eapply (wf_nodup ls Hwf).
  - intros x Hx%Hrev. destruct (wf_child _ Hwf _ _ _ Hr Hx) as (lc & ? & ? & _). exists lc, root. auto.
  - intros x Hx%Hrev. apply tc_once. by exists l.
  - intros p c [->|[]%elem_of_nil] (lp & ? & ?). apply Hrev. by simplify_eq.
Qed.

Lemma collecting_step root res id rest l :
  ls !! id = Some l -> collecting root res (id :: rest) ->
  collecting root (res ++ [id]) (child_lease_ids l ++ rest).
Proof.
  intros Hid [Hnd Hpar Hdesc Hcl].
  assert ((res ++ [id]) ++ child_lease_ids l ++ rest ≡ₚ (res ++ id :: rest) ++ child_lease_ids l) as Hperm.
  { solve_Permutation. }
  assert (descends ls root id) as Hri by (apply Hdesc; set_solver).
  assert (id ∉ res) as Hres by (apply NoDup_app in Hnd as (_ & ? & _); set_solver).
  split.
  - rewrite Hperm. apply NoDup_app. split_and!; [done| |by eapply wf_nodup].
    intros c Hc Hcc. destruct (Hpar c Hc) as (lc & p & Hlc & Hp & Hin).
    destruct (wf_child _ Hwf _ _ _ Hid Hcc) as (lc' & ? & ? & _). simplify_eq.
    destruct Hin as [->|]; [by apply descends_irrefl in Hri|done].
  - intros x. rewrite Hperm. intros [Hx|Hx]%elem_of_app.
    + destruct (Hpar x Hx) as (lx & p & ? & ? & [?|?]); exists lx, p; set_solver.
    + destruct (wf_child _ Hwf _ _ _ Hid Hx) as (lc & ? & ? & _). exists lc, id. set_solver.
  - intros x. rewrite Hperm. intros [Hx|Hx]%elem_of_app; [by apply Hdesc|].
    eapply tc_r; [done|]. by exists l.
  - intros p c Hp Hc. rewrite Hperm.
    destruct (decide (p = id)) as [->|Hne].
    + destruct Hc as (lp & ? & ?). simplify_eq. set_solver.
    + apply elem_of_app. left. apply (Hcl p); [set_solver|done].
Qed.

Lemma collecting_bound root res stack : collecting root res stack -> (length res <= size ls)%nat.
Proof.
  intros [Hnd Hpar _ _]. rewrite <- (size_dom ls).
  change (size (dom ls)) with (length (elements (dom ls))).
  apply submseteq_length, NoDup_submseteq.
  - by apply NoDup_app in Hnd as (? & _).
  - intros x Hx. apply elem_of_elements, elem_of_dom.
    destruct (Hpar x) as (lx & _ & ? & _); [set_solver|by eexists].
Qed.

Lemma descends_closed root (P : string -> Prop) x :
  (forall p c, p = root \/ P p -> child_of ls p c -> P c) -> descends ls root x -> P x.
Proof.
  intros Hcl Hd. assert (forall r, descends ls r x -> r = root \/ P r -> P x) as Hgen.
  { clear Hd. intros r. induction 1 as [r y Hy|r y z Hy _ IH]; eauto. }
  eauto.
Qed.

Lemma collect_loop_spec root fuel res stack :
  collecting root res stack -> (size ls < fuel + length res)%nat ->
  exists ds, collect_loop fuel ls stack res = Some ds /\ NoDup ds /\
    forall x, x ∈ ds <-> descends ls root x.
Proof.
  revert res stack. induction fuel as [|fuel IH]; intros res stack Hc Hf.
  { apply collecting_bound in Hc. lia. }
  destruct stack as [|id rest]; simpl.
  - exists res. destruct Hc as [Hnd _ Hdesc Hcl]. rewrite app_nil_r in *. split_and!; [done..|].
    intros x. split; [apply Hdesc|]. intros Hd. by apply (descends_closed root (fun y => y ∈ res)).
  - destruct (col_parent _ _ _ Hc id) as (l & _ & Hid & _); [set_solver|]. rewrite Hid.
    apply IH; [by apply collecting_step|]. rewrite length_app. simpl. lia.
Qed.

(** The traversal ends, and finds the proper descendants, each once. *)
Lemma collect_descendants_exact root l :
  ls !! root = Some l ->
  exists ds, collect_descendants ls root = Some ds /\ NoDup ds /\
    forall x, x ∈ ds <-> descends ls root x.
Proof.
  intros Hr. unfold collect_descendants. rewrite Hr.
  apply (collect_loop_spec root); [by apply collecting_start|simpl; lia].
Qed.
End Forest.

Lemma revoke_lease_ok m id reason l :
  wf_store (leases m) -> leases m !! id = Some l ->
  exists m' ds, revoke_lease m id reason = Some (m', Ok tt) /\
    collect_descendants (leases m) id = Some ds /\ NoDup ds /\
    (forall x, x ∈ ds <-> descends (leases m) id x) /\ gate_key m' = gate_key m /\
    leases m' = update_named (set_status (Revoked reason)) (id :: ds) (leases m).
Proof.
  intros Hwf Hid. destruct (collect_descendants_exact _ Hwf id l Hid) as (ds & Hds & Hnd & Hin).
  assert (exists m', revoke_lease m id reason = Some (m', Ok tt)) as [m' Hm'].
  { unfold revoke_lease. rewrite Hid, Hds. simpl. by eexists. }
  exists m', ds. destruct (revoke_lease_spec _ _ _ _ _ Hm') as [(? & _)|(_ & _ & Hk & ds' & Hds' & Hl)];
    [congruence|]. replace ds' with ds in Hl by congruence. done.
Qed.

(** ** What one section does to one lease *)

Definition is_revoked (st : LeaseStatus) : bool :=
  match st with Revoked _ => true | _ => false end.

(** The part of a lease no section touches, children included. *)
Definition static_part (l : Lease) : Lease :=
  set_status Active (set_renewal 0 0 0 (set_requests_used 0 l)).

Section LeaseStep.
Context `{Build} `{Chrono}.

Inductive lease_step : Lease -> Lease -> Prop :=
| ls_same l : lease_step l l
| ls_revoke reason l : lease_step l (set_status (Revoked reason) l)
| ls_expire l : status l = Active -> lease_step l (set_status Expired l)
| ls_renew now id ext l l' : in_u U64 ext -> renew_checked now id ext l = Ok l' -> lease_step l l'
| ls_use now id l l' : use_checked now id l = Ok l' -> lease_step l l'.

(** Every guard the renewal passed, and the record it leaves. *)
Lemma renew_checked_ok now id ext l l' :
  renew_checked now id ext l = Ok l' <->
  status l = Active /\ now <= expires_at l /\ renewable l = true /\ renewals_used l < max_renewals l /\
  exists total d exp n,
    add_u (E:=LeaseError) U64 (cumulative_ttl_seconds l) ext = Ok total /\
    total <= max_cumulative_ttl_seconds l /\ duration_seconds (E:=LeaseError) (as_i64 ext) = Ok d /\
    dt_add (E:=LeaseError) (expires_at l) d = Ok exp /\
    add_u (E:=LeaseError) U32 (renewals_used l) 1 = Ok n /\ l' = set_renewal exp total n l.
Proof.
  unfold renew_checked. rewrite !guard_ok, !negb_false_iff, bool_decide_eq_true.
  unfold is_expired. rewrite Z.gtb_ltb, Z.ltb_ge, Z.geb_leb, Z.leb_gt. rewrite rbind_ok.
  setoid_rewrite guard_ok. setoid_rewrite Z.gtb_ltb. setoid_rewrite Z.ltb_ge.
  setoid_rewrite rbind_ok. setoid_rewrite rbind_ok. setoid_rewrite rbind_ok. setoid_rewrite rbind_ok.
  split.
  - intros (? & ? & ? & ? & total & Ht & ? & d & ? & exp & ? & c & Hc & n & ? & [= <-]).
    rewrite Ht in Hc. injection Hc as ->. split_and!; [done..|]. by exists c, d, exp, n.
  - intros (? & ? & ? & ? & total & d & exp & n & Ht & ? & ? & ? & ? & ->).
    split_and!; [done..|]. exists total. split_and!; [done..|]. exists d. split; [done|].
    exists exp. split; [done|]. exists total. split; [done|]. by exists n.
Qed.

Lemma use_checked_ok now id l l' :
  use_checked now id l = Ok l' <->
  status l = Active /\ now <= expires_at l /\
  (forall k, max_requests l = Some k -> requests_used l < k) /\
  exists n, add_u (E:=LeaseError) U64 (requests_used l) 1 = Ok n /\ l' = set_requests_used n l.
Proof.
  unfold use_checked. rewrite !guard_ok, !negb_false_iff, bool_decide_eq_true.
  unfold is_expired. rewrite Z.gtb_ltb, Z.ltb_ge.
  destruct (max_requests l) as [k|].
  - rewrite guard_ok, Z.geb_leb, Z.leb_gt, rbind_ok. split.
    + intros (? & ? & ? & n & ? & [= <-]). split_and!; [done..| |by exists n]. by intros ? [= <-].
    + intros (? & ? & Hk & n & ? & ->). split_and!; [done..|by apply Hk|by exists n].
  - rewrite rbind_ok. split.
    + intros (? & ? & n & ? & [= <-]). split_and!; [done..|by exists n].
    + intros (? & ? & Hk & n & ? & ->). split_and!; [done..|by exists n].
Qed.

Lemma lease_step_static l l' : lease_step l l' -> static_part l' = static_part l.
Proof.
  intros [| | | ????? _ (? & ? & ? & ? & ? & ? & ? & ? & ? & ? & ? & ? & ? & ->)%renew_checked_ok
    |???? (_ & _ & _ & n & _ & ->)%use_checked_ok]; done.
Qed.

(** A revoked lease stays revoked and a lease that is not active does not
    become active again. *)
Lemma lease_step_status l l' :
  lease_step l l' ->
  (is_revoked (status l) = true -> is_revoked (status l') = true) /\
  (status l <> Active -> status l' <> Active).
Proof.
  intros [| | |????? _ (? & _ & _ & _ & ? & ? & ? & ? & _ & _ & _ & _ & _ & ->)%renew_checked_ok
    |???? (_ & _ & _ & n & _ & ->)%use_checked_ok]; simpl; try done.
  split; [|done]. match goal with E : status _ = Active |- _ => by rewrite E end.
Qed.
End LeaseStep.
