(* ===== verification/LeaseSteps.v ===== *)
(** * cdp-lease: interleavings of the manager's sections

    Each locked section of [LeaseManager] is one step of [lstep]; an
    operation that releases a lock between two sections is several steps, so
    [rtc lstep] contains every interleaving of concurrent callers.  The
    invariants are proved by rule induction over the runs, and the composed
    operations of [LeaseManager] are shown to be runs. *)

From S2P Require Import Prelude RustStr Crypto PolicyTypes LeaseTypes AuditLog LeaseManager LeaseLemmas.

(** What the code relies on of [chrono]: the widest duration and the widest
    distance between two instants fit in an [i64] of seconds. *)
Class ChronoLaws `{Chrono} : Prop := {
  delta_fits : MAX_DELTA_SECS < 2 ^ 61;
  span_fits : MAX_UTC - MIN_UTC < 2 ^ 61 * NANOS
}.

Section Steps.
Context `{Build} `{Chrono} `{HmacSha256}.

(** [Utc::now()] is an instant [chrono] represents. *)
Definition valid_time (t : Z) : Prop := MIN_UTC <= t <= MAX_UTC.

(** Fields of machine width in the arguments of [create_lease]. *)
Record scope_fits (s : Scope) : Prop := {
  fits_ttl : forall x, s_ttl_seconds s = Some x -> in_u U64 x;
  fits_requests : forall x, s_max_requests s = Some x -> in_u U64 x
}.

Record constraints_fit (c : PolicyConstraints) : Prop := {
  fits_max_ttl : forall x, pc_max_ttl_seconds c = Some x -> in_u U64 x;
  fits_max_requests : forall x, pc_max_requests_per_lease c = Some x -> in_u U64 x;
  fits_renewals : forall x, pc_max_renewals c = Some x -> in_u U32 x;
  fits_cumulative : forall x, pc_max_cumulative_ttl_seconds c = Some x -> in_u U64 x;
  (** [u32::MAX] itself is left out: a chain of that depth wraps the depth
      counter in a build without overflow checks. *)
  fits_depth : forall x, pc_delegation_max_depth c = Some x -> in_u (U32 - 1) x
}.

(** ** The step relation *)

(** The resolver is the one of the step: its answers may change over time. *)
Inductive lstep : LeaseManager -> LeaseManager -> Prop :=
(** The insertion of [create_lease]; a generated id is not in use. *)
| step_insert `{Resolver} m id_bytes nonce now ai cref scope c pname method l :
    valid_time now -> scope_fits scope -> constraints_fit c ->
    prepare_lease (gate_key m) id_bytes nonce now ai cref scope c pname method = Ok l ->
    leases m !! lease_id l = None ->
    lstep m (insert_lease m l)
(** The index update of [create_lease] and of [delegate]. *)
| step_index m fp id l :
    leases m !! id = Some l -> agent_fingerprint_hash l = fp ->
    lstep m (index_lease m fp id)
| step_renew m now id ext : in_u U64 ext -> lstep m (renew_lease m now id ext).1
| step_use m now id : lstep m (use_lease m now id).1
| step_revoke m id reason m' r : revoke_lease m id reason = Some (m', r) -> lstep m m'
(** The last section of [revoke_agent_leases]. *)
| step_drop m fp : lstep m (with_index m (delete fp (agent_leases m)))
| step_sweep m now : lstep m (sweep_expired m now)
(** The write-locked section of [delegate], the values computed before it
    being arbitrary but for how they were computed. *)
| step_delegate `{Resolver} m id_bytes nonce created d exp now pins parent_id parent target scope ttl child :
    valid_time created -> in_u U64 ttl ->
    pin_dns (s_hosts scope) = Ok pins ->
    duration_seconds (E:=LeaseError) (as_i64 ttl) = Ok d -> dt_add (E:=LeaseError) created d = Ok exp ->
    leases m !! parent_id = Some parent ->
    delegate_checked created exp now (lease_id_of id_bytes)
      (generate_lease_token (gate_key m) (lease_id_of id_bytes) (ai_fingerprint_hash target) nonce)
      nonce pins parent_id target scope ttl parent = Ok child ->
    leases m !! lease_id child = None ->
    lstep m (link_child m parent_id child)
| step_audit m ev f : lstep m (emit_audit m ev f).

Definition reachable (m : LeaseManager) : Prop :=
  exists key connected, rtc lstep (manager_new key connected) m.

(** ** Invariants *)

(** What holds of each stored lease. *)
Record lease_ok (key : list byte) (l : Lease) : Prop := {
  ok_token : lease_token l =
    generate_lease_token key (lease_id l) (agent_fingerprint_hash l) (channel_binding_nonce l);
  ok_pins : forall h, h ∈ s_hosts (granted_scope l) ->
    exists ips, dns_pinned_ips l !! h = Some ips /\ ips <> [];
  ok_renewals : 0 <= renewals_used l <= max_renewals l /\ max_renewals l < U32;
  ok_requests : 0 <= requests_used l;
  ok_quota : forall k, max_requests l = Some k -> requests_used l <= k < U64;
  ok_cumulative : 0 <= cumulative_ttl_seconds l < U64;
  ok_cap : cumulative_ttl_seconds l <= Z.max (ttl_seconds l) (max_cumulative_ttl_seconds l);
  ok_times : valid_time (created_at l) /\ valid_time (expires_at l);
  ok_expiry : expires_at l = created_at l + as_i64 (cumulative_ttl_seconds l) * NANOS;
  ok_depth : 0 <= delegation_depth l <= unwrap_or (delegation_max_depth l) 3 /\
             unwrap_or (delegation_max_depth l) 3 < U32 - 1
}.

Definition cascaded (ls : gmap string Lease) : Prop :=
  forall p lp c lc, ls !! p = Some lp -> ls !! c = Some lc -> parent_lease_id lc = Some p ->
    is_revoked (status lp) = true -> is_revoked (status lc) = true.

Record inv (m : LeaseManager) : Prop := {
  inv_forest : wf_store (leases m);
  inv_leases : forall id l, leases m !! id = Some l -> lease_ok (gate_key m) l;
  inv_cascade : cascaded (leases m)
}.

(** ** Pointwise steps *)

Definition pointwise (ls ls' : gmap string Lease) : Prop :=
  forall x, option_Forall2 lease_step (ls !! x) (ls' !! x).

Lemma pointwise_back ls ls' x l' :
  pointwise ls ls' -> ls' !! x = Some l' -> exists l, ls !! x = Some l /\ lease_step l l'.
Proof. intros Hp Hx. specialize (Hp x). rewrite Hx in Hp. inversion Hp; subst. by eexists. Qed.

Lemma pointwise_fwd ls ls' x l :
  pointwise ls ls' -> ls !! x = Some l -> exists l', ls' !! x = Some l' /\ lease_step l l'.
Proof. intros Hp Hx. specialize (Hp x). rewrite Hx in Hp. inversion Hp; subst. by eexists. Qed.

Lemma pointwise_refl ls : pointwise ls ls.
Proof. intros x. destruct (ls !! x); constructor. constructor. Qed.

Lemma pointwise_insert ls id l l' :
  ls !! id = Some l -> lease_step l l' -> pointwise ls (<[id := l']> ls).
Proof.
  intros Hid Hs x. destruct (decide (id = x)) as [<-|Hne].
  - rewrite Hid, lookup_insert_eq. by constructor.
  - rewrite lookup_insert_ne by done. apply pointwise_refl.
Qed.

Lemma pointwise_revoke reason ids ls :
  pointwise ls (update_named (set_status (Revoked reason)) ids ls).
Proof.
  intros x. rewrite lookup_update_named. destruct (ls !! x) as [l|]; simpl; constructor.
  destruct (bool_decide _); constructor.
Qed.

(** Every section that inserts no lease moves each lease by [lease_step]. *)
Lemma renew_lease_leases m now id ext :
  (leases (renew_lease m now id ext).1 = leases m) \/
  (exists l l', leases m !! id = Some l /\ renew_checked now id ext l = Ok l' /\
     leases (renew_lease m now id ext).1 = <[id := l']> (leases m)).
Proof.
  unfold renew_lease. destruct (leases m !! id) as [l|] eqn:E; [|by left].
  destruct (renew_checked now id ext l) as [l'|e|] eqn:Er; [|by left..].
  right. exists l, l'. simpl. by autorewrite with cdp.
Qed.

Lemma use_lease_leases m now id :
  (leases (use_lease m now id).1 = leases m) \/
  (exists l l', leases m !! id = Some l /\ use_checked now id l = Ok l' /\
     leases (use_lease m now id).1 = <[id := l']> (leases m)).
Proof.
  unfold use_lease. destruct (leases m !! id) as [l|] eqn:E; [|by left].
  destruct (use_checked now id l) as [l'|e|] eqn:Er; [|by left..].
  right. exists l, l'. simpl. by autorewrite with cdp.
Qed.

Lemma key_renew m now id ext : gate_key (renew_lease m now id ext).1 = gate_key m.
Proof. unfold renew_lease. repeat break_match; simpl; by autorewrite with cdp. Qed.

Lemma key_use m now id : gate_key (use_lease m now id).1 = gate_key m.
Proof. unfold use_lease. repeat break_match; simpl; by autorewrite with cdp. Qed.

(** *** Static fields *)

Lemma static_fields l l' :
  static_part l' = static_part l ->
  lease_id l' = lease_id l /\ parent_lease_id l' = parent_lease_id l /\
  child_lease_ids l' = child_lease_ids l /\ delegation_depth l' = delegation_depth l /\
  granted_scope l' = granted_scope l /\ credential_ref l' = credential_ref l /\
  delegation_allowed l' = delegation_allowed l.
Proof.
  intros E. split_and!;
    [apply (f_equal lease_id) in E|apply (f_equal parent_lease_id) in E|apply (f_equal child_lease_ids) in E
    |apply (f_equal delegation_depth) in E|apply (f_equal granted_scope) in E
    |apply (f_equal credential_ref) in E|apply (f_equal delegation_allowed) in E]; exact E.
Qed.

Lemma wf_pointwise ls ls' : pointwise ls ls' -> wf_store ls -> wf_store ls'.
Proof.
  intros Hp [Hid Hch Hcon Hpar Hnd]. split.
  - intros x l' Hx. destruct (pointwise_back _ _ _ _ Hp Hx) as (l & Hl & Hs%lease_step_static%static_fields).
    destruct Hs as (-> & _). eauto.
  - intros p lp' c Hx Hc. destruct (pointwise_back _ _ _ _ Hp Hx) as (lp & Hl & Hs%lease_step_static%static_fields).
    destruct Hs as (_ & _ & Ec & Ed & _). rewrite Ec in Hc. rewrite Ed.
    destruct (Hch _ _ _ Hl Hc) as (lc & Hlc & Hpc & Hdc).
    destruct (pointwise_fwd _ _ _ _ Hp Hlc) as (lc' & Hlc' & Hs%lease_step_static%static_fields).
    destruct Hs as (_ & Ep & _ & Ed' & _). exists lc'. split_and!; congruence.
  - intros p lp' c lc' Hx Hc Hpc.
    destruct (pointwise_back _ _ _ _ Hp Hx) as (lp & Hlp & Hs1%lease_step_static%static_fields).
    destruct (pointwise_back _ _ _ _ Hp Hc) as (lc & Hlc & Hs2%lease_step_static%static_fields).
    destruct Hs1 as (_ & _ & _ & _ & -> & -> & ->), Hs2 as (_ & Epc & _ & _ & -> & -> & _).
    rewrite Epc in Hpc. eauto.
  - intros c lc' p Hc Hpc.
    destruct (pointwise_back _ _ _ _ Hp Hc) as (lc & Hlc & Hs%lease_step_static%static_fields).
    destruct Hs as (_ & Ep & _). rewrite Ep in Hpc. destruct (Hpar _ _ _ Hlc Hpc) as (lp & Hlp & Hin).
    destruct (pointwise_fwd _ _ _ _ Hp Hlp) as (lp' & Hlp' & Hs'%lease_step_static%static_fields).
    destruct Hs' as (_ & _ & Ec & _). exists lp'. split; [done|congruence].
  - intros p lp' Hx. destruct (pointwise_back _ _ _ _ Hp Hx) as (lp & Hl & Hs%lease_step_static%static_fields).
    destruct Hs as (_ & _ & -> & _). eauto.
Qed.

(** *** Cascading *)

Lemma cascaded_pointwise ls ls' :
  pointwise ls ls' ->
  (forall x l l', ls !! x = Some l -> ls' !! x = Some l' -> is_revoked (status l') = is_revoked (status l)) ->
  cascaded ls -> cascaded ls'.
Proof.
  intros Hp Hr Hc p lp' c lc' Hlp' Hlc' Hpar Hrev.
  destruct (pointwise_back _ _ _ _ Hp Hlp') as (lp & Hlp & _).
  destruct (pointwise_back _ _ _ _ Hp Hlc') as (lc & Hlc & Hs%lease_step_static%static_fields).
  destruct Hs as (_ & Ep & _). rewrite (Hr _ _ _ Hlc Hlc'). rewrite (Hr _ _ _ Hlp Hlp') in Hrev.
  apply (Hc p lp c lc); congruence.
Qed.

Lemma cascaded_revoke ls id ds reason :
  wf_store ls -> (forall x, x ∈ ds <-> descends ls id x) -> cascaded ls ->
  cascaded (update_named (set_status (Revoked reason)) (id :: ds) ls).
Proof.
  intros Hwf Hds Hc p lp' c lc' Hlp' Hlc' Hpar Hrev. rewrite lookup_update_named in Hlp', Hlc'.
  destruct (ls !! p) as [lp|] eqn:Hlp; [|done]. destruct (ls !! c) as [lc|] eqn:Hlc; [|done].
  simpl in *. injection Hlc' as <-. injection Hlp' as <-.
  destruct (decide (c ∈ id :: ds)) as [Hin|Hin]; [by rewrite bool_decide_eq_true_2|].
  rewrite bool_decide_eq_false_2 in Hpar |- * by done.
  destruct (decide (p ∈ id :: ds)) as [Hp|Hp];
    [|rewrite bool_decide_eq_false_2 in Hrev by done; by apply (Hc p lp c lc)].
  destruct Hin. destruct (wf_parent _ Hwf _ _ _ Hlc Hpar) as (lp' & Hlp' & Hchild).
  assert (child_of ls p c) as Hpc by (by exists lp').
  apply elem_of_cons. right. apply Hds. apply elem_of_cons in Hp as [->|Hp%Hds].
  - by apply tc_once.
  - eapply tc_r; [exact Hp|exact Hpc].
Qed.

(** *** New leases *)

Lemma wf_insert_root ls l :
  wf_store ls -> ls !! lease_id l = None -> parent_lease_id l = None -> child_lease_ids l = [] ->
  wf_store (<[lease_id l := l]> ls).
Proof.
  intros [Hid Hch Hcon Hpar Hnd] Hfresh Hp Hc. split.
  - intros x lx [[<- <-]|[? ?]]%lookup_insert_Some; eauto.
  - intros p lp c [[<- <-]|[Hne Hlp]]%lookup_insert_Some Hin; [rewrite Hc in Hin; by apply elem_of_nil in Hin|].
    destruct (Hch _ _ _ Hlp Hin) as (lc & Hlc & ?). exists lc. split; [|done].
    rewrite lookup_insert_ne; [done|congruence].
  - intros p lp c lc Hlp [[<- <-]|[Hne Hlc]]%lookup_insert_Some Hpc; [congruence|].
    destruct (Hpar _ _ _ Hlc Hpc) as (lp' & Hlp' & _).
    rewrite lookup_insert_ne in Hlp by congruence. eauto.
  - intros c lc p [[<- <-]|[Hne Hlc]]%lookup_insert_Some Hpc; [congruence|].
    destruct (Hpar _ _ _ Hlc Hpc) as (lp & Hlp & ?). exists lp. split; [|done].
    rewrite lookup_insert_ne; [done|congruence].
  - intros p lp [[<- <-]|[Hne Hlp]]%lookup_insert_Some; [rewrite Hc; constructor|eauto].
Qed.

Lemma cascaded_insert ls l :
  wf_store ls -> ls !! lease_id l = None -> status l = Active ->
  (forall p lp, parent_lease_id l = Some p -> ls !! p = Some lp -> is_revoked (status lp) = false) ->
  parent_lease_id l <> Some (lease_id l) ->
  cascaded ls -> cascaded (<[lease_id l := l]> ls).
Proof.
  intros Hwf Hfresh Hst Hpar Hself Hc p lp c lc Hlp Hlc Hpc Hrev.
  apply lookup_insert_Some in Hlp as [[<- <-]|[Hnp Hlp]]; [by rewrite Hst in Hrev|].
  apply lookup_insert_Some in Hlc as [[<- <-]|[Hnc Hlc]]; [|by apply (Hc p lp c lc)].
  by rewrite (Hpar _ _ Hpc Hlp) in Hrev.
Qed.

Lemma link_child_leases m pid child p :
  leases m !! pid = Some p ->
  leases (link_child m pid child) =
    <[lease_id child := child]> (<[pid := push_child (lease_id child) p]> (leases m)).
Proof. intros E. unfold link_child. by rewrite E. Qed.

Section Link.
Context (ls : gmap string Lease) (pid : string) (p child : Lease).
Let linked := <[lease_id child := child]> (<[pid := push_child (lease_id child) p]> ls).
Context (Hp : ls !! pid = Some p) (Hfresh : ls !! lease_id child = None).

Lemma linked_inv x lx :
  linked !! x = Some lx ->
  (x = lease_id child /\ lx = child) \/ (x = pid /\ lx = push_child (lease_id child) p) \/
  (x <> lease_id child /\ x <> pid /\ ls !! x = Some lx).
Proof. intros [[<- <-]|[? [[<- <-]|[? ?]]%lookup_insert_Some]]%lookup_insert_Some; auto. Qed.

Lemma linked_new : linked !! lease_id child = Some child.
Proof. apply lookup_insert_eq. Qed.

Lemma linked_parent : linked !! pid = Some (push_child (lease_id child) p).
Proof. unfold linked. rewrite lookup_insert_ne by congruence. apply lookup_insert_eq. Qed.

(** Leases stored before are still there, with at least their children. *)
Lemma linked_old x lx :
  ls !! x = Some lx ->
  exists lx', linked !! x = Some lx' /\ parent_lease_id lx' = parent_lease_id lx /\
    delegation_depth lx' = delegation_depth lx /\
    (forall c, c ∈ child_lease_ids lx -> c ∈ child_lease_ids lx').
Proof.
  intros Hx. unfold linked. rewrite lookup_insert_ne by congruence.
  destruct (decide (pid = x)) as [<-|].
  - rewrite lookup_insert_eq. exists (push_child (lease_id child) p). replace lx with p by congruence.
    split_and!; [done..|]. simpl. intros c Hc. apply elem_of_app. by left.
  - rewrite lookup_insert_ne by done. by exists lx.
Qed.

(** In terms of the leases that were there, a parent is what it was. *)
Lemma linked_parent_old q lq lp :
  linked !! q = Some lq -> ls !! q = Some lp ->
  granted_scope lq = granted_scope lp /\ credential_ref lq = credential_ref lp /\
  delegation_allowed lq = delegation_allowed lp.
Proof.
  intros [[-> ->]|[[-> ->]|(_ & _ & Hq)]]%linked_inv Hlp; [congruence| |].
  - by replace lp with p by congruence.
  - by replace lp with lq by congruence.
Qed.

Lemma wf_link_child :
  wf_store ls -> parent_lease_id child = Some pid -> child_lease_ids child = [] ->
  delegation_depth child = delegation_depth p + 1 ->
  is_scope_subset (granted_scope child) (granted_scope p) = true ->
  credential_ref child = credential_ref p -> delegation_allowed p = true ->
  wf_store linked.
Proof.
  intros [Hid Hch Hcon Hpar Hnd] Hcp Hcc Hdep Hsub Hcred Hallow.
  assert (forall q lq c, ls !! q = Some lq -> c ∈ child_lease_ids lq -> exists lc,
    linked !! c = Some lc /\ parent_lease_id lc = Some q /\ delegation_depth lc = delegation_depth lq + 1) as Hch'.
  { intros q lq c Hq Hin. destruct (Hch _ _ _ Hq Hin) as (lc & Hlc & E1 & E2).
    destruct (linked_old _ _ Hlc) as (lc' & ? & ? & ? & _). exists lc'. split_and!; congruence. }
  assert (forall q lq c lc, linked !! q = Some lq -> ls !! c = Some lc -> parent_lease_id lc = Some q ->
    is_scope_subset (granted_scope lc) (granted_scope lq) = true /\
    credential_ref lc = credential_ref lq /\ delegation_allowed lq = true) as Hcon'.
  { intros q lq c lc Hq Hc Hpc. destruct (Hpar _ _ _ Hc Hpc) as (lp & Hlp & _).
    destruct (linked_parent_old _ _ _ Hq Hlp) as (-> & -> & ->). eauto. }
  assert (forall c lc q, ls !! c = Some lc -> parent_lease_id lc = Some q -> exists lq,
    linked !! q = Some lq /\ c ∈ child_lease_ids lq) as Hpar'.
  { intros c lc q Hc Hpc. destruct (Hpar _ _ _ Hc Hpc) as (lq & Hlq & ?).
    destruct (linked_old _ _ Hlq) as (lq' & ? & _ & _ & ?). eauto. }
  split.
  - intros x lx [[-> ->]|[[-> ->]|(_ & _ & Hx)]]%linked_inv; [done| |eauto]. simpl. eauto.
  - intros q lq c [[-> ->]|[[-> ->]|(_ & _ & Hx)]]%linked_inv Hin; [| |eauto].
    + rewrite Hcc in Hin. by apply elem_of_nil in Hin.
    + simpl in *. apply elem_of_app in Hin as [Hin| ->%list_elem_of_singleton]; [eauto|].
      exists child. by rewrite linked_new.
  - intros q lq c lc Hq [[-> ->]|[[-> ->]|(_ & _ & Hx)]]%linked_inv Hpc; [|exact (Hcon' q lq pid p Hq Hp Hpc)|exact (Hcon' q lq c lc Hq Hx Hpc)].
    assert (q = pid) as -> by congruence. rewrite linked_parent in Hq. by injection Hq as <-.
  - intros c lc q [[-> ->]|[[-> ->]|(_ & _ & Hx)]]%linked_inv Hpc; [|exact (Hpar' pid p q Hp Hpc)|exact (Hpar' c lc q Hx Hpc)].
    assert (q = pid) as -> by congruence. rewrite linked_parent. eexists. split; [done|].
    simpl. apply elem_of_app. right. by apply list_elem_of_singleton.
  - intros q lq [[-> ->]|[[-> ->]|(_ & _ & Hx)]]%linked_inv; [rewrite Hcc; constructor | | eauto].
    simpl. apply NoDup_app. split_and!; [eauto| |apply NoDup_singleton].
    intros c Hc ->%list_elem_of_singleton. destruct (Hch _ _ _ Hp Hc) as (? & ? & _). congruence.
Qed.
End Link.

(** ** Each lease stays in order *)

Lemma duration_ok {E : Type} x d : duration_seconds (E:=E) x = Ok d <-> d = x * NANOS /\ Z.abs x <= MAX_DELTA_SECS.
Proof.
  unfold duration_seconds. split.
  - intros Hd. branches Hd. by bool_to_prop.
  - intros [-> Hle]. by rewrite (proj2 (Z.leb_le _ _) Hle).
Qed.

Lemma dt_add_ok {E : Type} t d t' : dt_add (E:=E) t d = Ok t' <-> t' = t + d /\ valid_time t'.
Proof.
  unfold dt_add, valid_time. split.
  - intros Hd. branches Hd. by bool_to_prop.
  - intros [-> [Hlo%Z.leb_le Hhi%Z.leb_le]]. by rewrite Hlo, Hhi.
Qed.

Section Ok.
Context `{!ChronoLaws}.

Lemma expiry_renewed created exp cum ext total d exp' :
  valid_time created -> valid_time exp -> in_u U64 cum -> in_u U64 ext ->
  exp = created + as_i64 cum * NANOS ->
  add_u (E:=LeaseError) U64 cum ext = Ok total -> duration_seconds (E:=LeaseError) (as_i64 ext) = Ok d ->
  dt_add (E:=LeaseError) exp d = Ok exp' ->
  exp' = created + as_i64 total * NANOS.
Proof.
  intros Hc He Hcum Hext -> Ht [-> Hd]%duration_ok [-> _]%dt_add_ok.
  pose proof delta_fits. pose proof span_fits. unfold valid_time in *.
  assert (Z.abs (as_i64 cum) <= 2 ^ 61) by (unfold NANOS in *; lia).
  rewrite (as_i64_add (E:=LeaseError) cum ext total); unfold in_u, I64 in *; [lia|done|done|done|lia].
Qed.

Lemma lease_ok_step key l l' : lease_step l l' -> lease_ok key l -> lease_ok key l'.
Proof.
  intros Hs Hok. pose proof Hok as [Ht Hp Hr Hq Hk Hc Hcap [Hv1 Hv2] He Hd].
  destruct Hs as [|reason l|l _|now id ext l l' Hext Hren|now id l l' Huse];
    [done|by split|by split| |].
  - apply renew_checked_ok in Hren as (_ & _ & _ & Hlt & total & d & exp & n & Ha & Hle & Hdur & Hadd & Hn & ->).
    assert (in_u U64 total) as Htot
      by (eapply add_u_range; [| | |exact Ha]; unfold in_u, U64 in *; lia).
    rewrite add_u_ok in Hn by lia. injection Hn as <-.
    split; simpl; try done; try (unfold in_u in *; lia).
    + split; [done|]. by apply dt_add_ok in Hadd as [_ ?].
    + exact (expiry_renewed _ _ _ _ _ _ _ Hv1 Hv2 Hc Hext He Ha Hdur Hadd).
  - apply use_checked_ok in Huse as (_ & _ & Hlt & n & Hn & ->).
    assert (in_u U64 n) as Hnr.
    { eapply add_u_range; [| | |exact Hn]; unfold U64; lia. }
    split; simpl; try done; [unfold in_u in *; lia|].
    intros k Ek. specialize (Hlt k Ek). specialize (Hk k Ek).
    rewrite add_u_ok in Hn by lia. injection Hn as <-. lia.
Qed.

Lemma opt_or_fits (a b : option Z) (m : Z) x :
  (forall y, a = Some y -> in_u m y) -> (forall y, b = Some y -> in_u m y) ->
  opt_or a b = Some x -> in_u m x.
Proof. destruct a; simpl; auto. Qed.

Lemma unwrap_or_fits (a : option Z) (m d : Z) :
  (forall y, a = Some y -> in_u m y) -> in_u m d -> in_u m (unwrap_or a d).
Proof. destruct a; simpl; auto. Qed.

(** A prepared lease is a fresh root in order. *)
Lemma prepare_lease_ok `{Resolver} key id_bytes nonce now ai cref scope c pname method l :
  valid_time now -> scope_fits scope -> constraints_fit c ->
  prepare_lease key id_bytes nonce now ai cref scope c pname method = Ok l ->
  lease_ok key l /\ status l = Active /\ parent_lease_id l = None /\ child_lease_ids l = [] /\
  lease_id l = lease_id_of id_bytes /\ agent_fingerprint_hash l = ai_fingerprint_hash ai.
Proof.
  intros Hv [Hs1 Hs2] [Hc1 Hc2 Hc3 Hc4 Hc5]. unfold prepare_lease.
  intros (pins & Hpins & (d & Hd & (exp & Hexp & [= <-])%rbind_ok)%rbind_ok)%rbind_ok.
  apply duration_ok in Hd as [-> Hd]. apply dt_add_ok in Hexp as [-> Hexp].
  split; [|done]. apply pin_dns_from_ok in Hpins as [Hpins _].
  assert (in_u U64 (unwrap_or (opt_or (s_ttl_seconds scope) (pc_max_ttl_seconds c)) 3600)) as Httl.
  { apply unwrap_or_fits; [|unfold in_u, U64; lia]. intros y. by apply opt_or_fits. }
  assert (in_u U32 (unwrap_or (pc_max_renewals c) 3)) by (apply unwrap_or_fits; [done|unfold in_u, U32; lia]).
  assert (in_u (U32 - 1) (unwrap_or (pc_delegation_max_depth c) 3))
    by (apply unwrap_or_fits; [done|unfold in_u, U32; lia]).
  unfold in_u in *. split; simpl; try done; try lia.
  - intros h (ips & ? & ? & _)%Hpins. eauto.
  - intros k Hk. enough (in_u U64 k) by (unfold in_u in *; lia).
    revert Hk. by apply opt_or_fits.
Qed.

(** Every guard of [delegate]'s write-locked section. *)
Lemma delegate_checked_ok created exp now cid token nonce pins pid target scope ttl p child :
  delegate_checked created exp now cid token nonce pins pid target scope ttl p = Ok child ->
  status p = Active /\ now <= expires_at p /\ delegation_allowed p = true /\
  is_scope_subset scope (granted_scope p) = true /\
  0 <= remaining_ttl_seconds now p /\ ttl <= as_u64 (remaining_ttl_seconds now p) /\
  exists depth, add_u (E:=LeaseError) U32 (delegation_depth p) 1 = Ok depth /\
    depth <= unwrap_or (delegation_max_depth p) 3 /\
    child = mkLease cid (credential_ref p) "delegated" "delegation"
      (ai_fingerprint_hash target) (to_string_lossy (ai_binary_path target))
      (ai_uid target) (ai_pid target) scope token nonce pins Active
      created exp ttl ttl None 0 0 (max_renewals p)
      (max_cumulative_ttl_seconds p) true (Some pid) [] depth
      (delegation_allowed p) (delegation_max_depth p) (follow_redirects p).
Proof.
  unfold delegate_checked. rewrite !guard_ok, !negb_false_iff, bool_decide_eq_true.
  unfold is_expired. rewrite Z.gtb_ltb, Z.ltb_ge, rbind_ok.
  intros (? & ? & ? & depth & Hd & (Hle & (Hsub & (Hrem & [= <-])%guard_ok)%guard_ok)%guard_ok).
  apply orb_false_iff in Hrem as [??]. bool_to_prop. split_and!; [done..|]. by exists depth.
Qed.

Lemma delegated_ok `{Resolver} key created d exp now cid nonce pins pid target scope ttl p child :
  lease_ok key p -> valid_time created -> in_u U64 ttl -> pin_dns (s_hosts scope) = Ok pins ->
  duration_seconds (E:=LeaseError) (as_i64 ttl) = Ok d -> dt_add (E:=LeaseError) created d = Ok exp ->
  delegate_checked created exp now cid
    (generate_lease_token key cid (ai_fingerprint_hash target) nonce)
    nonce pins pid target scope ttl p = Ok child ->
  lease_ok key child /\ delegation_depth child = delegation_depth p + 1.
Proof.
  intros Hp Hv Httl [Hpins _]%pin_dns_from_ok [-> Hd]%duration_ok [-> Hexp]%dt_add_ok.
  intros (_ & _ & _ & _ & _ & _ & depth & Hdep & Hle & ->)%delegate_checked_ok.
  destruct (ok_depth _ _ Hp), (ok_renewals _ _ Hp) as [??].
  assert (depth = delegation_depth p + 1) as ->.
  { rewrite add_u_ok in Hdep by lia. by injection Hdep. }
  split; [|done]. unfold in_u in *. split; simpl; try done; try lia.
  intros h (ips & ? & ? & _)%Hpins. eauto.
Qed.
End Ok.
End Steps.
