(* ===== verification/LeaseSafety.v ===== *)
(** * cdp-lease: what every interleaving guarantees

    Rule induction over [LeaseSteps.lstep]: the invariant holds in every
    reachable state, no step revives a lease, and from these the properties
    of revocation, delegation, quotas and lifetimes. *)

From S2P Require Import Prelude RustStr Crypto PolicyTypes LeaseTypes AuditLog LeaseManager LeaseLemmas LeaseSteps.

Section Safety.
Context `{Build} `{Chrono} `{HmacSha256}.

(** ** How a step moves a stored lease *)

Lemma sweep_pointwise m now : pointwise (leases m) (leases (sweep_expired m now)).
Proof.
  intros x. rewrite leases_sweep. destruct (leases m !! x) as [l|]; simpl; constructor.
  unfold sweep_due. destruct (bool_decide (status l = Active)) eqn:Ha; simpl; [|constructor].
  bool_to_prop. destruct (_ <? _); by constructor.
Qed.

Lemma renew_pointwise m now id ext :
  in_u U64 ext -> pointwise (leases m) (leases (renew_lease m now id ext).1).
Proof.
  intros He. destruct (renew_lease_leases m now id ext) as [->|(l & l' & Hl & Hr & ->)].
  - apply pointwise_refl.
  - eapply pointwise_insert; [done|]. by eapply ls_renew.
Qed.

Lemma use_pointwise m now id : pointwise (leases m) (leases (use_lease m now id).1).
Proof.
  destruct (use_lease_leases m now id) as [->|(l & l' & Hl & Hr & ->)].
  - apply pointwise_refl.
  - eapply pointwise_insert; [done|]. by eapply ls_use.
Qed.

Lemma revoke_pointwise m id reason m' r :
  revoke_lease m id reason = Some (m', r) -> pointwise (leases m) (leases m').
Proof.
  intros [(_ & -> & _)|(_ & _ & _ & ds & _ & ->)]%revoke_lease_spec.
  - apply pointwise_refl.
  - apply pointwise_revoke.
Qed.

Lemma lstep_key m m' : lstep m m' -> gate_key m' = gate_key m.
Proof.
  destruct 1 as [| | | |m id reason m' r Hr| | | |]; try done.
  - apply key_renew.
  - apply key_use.
  - apply revoke_lease_spec in Hr as [(_ & -> & _)|(_ & _ & ? & _)]; done.
  - apply key_sweep.
  - unfold link_child. by destruct (leases m !! _).
  - apply key_emit.
Qed.

(** A stored lease stays stored; it takes a lease step or gains a child. *)
Definition moves (l l' : Lease) : Prop := lease_step l l' \/ exists c, l' = push_child c l.

Lemma lstep_moves m m' x l :
  lstep m m' -> leases m !! x = Some l -> exists l', leases m' !! x = Some l' /\ moves l l'.
Proof.
  intros Hs Hx.
  assert (pointwise (leases m) (leases m') -> exists l', leases m' !! x = Some l' /\ moves l l') as Hpw.
  { intros Hp. destruct (pointwise_fwd _ _ _ _ Hp Hx) as (l' & ? & ?). exists l'. split; [done|by left]. }
  assert (leases m' !! x = Some l -> exists l', leases m' !! x = Some l' /\ moves l l') as Hsame.
  { intros E. exists l. split; [done|]. left. constructor. }
  destruct Hs as [dns m ????????? l0 _ _ _ _ Hf| | | | | | |dns m ??????? parent_id p ??? child _ _ _ _ _ Hp _ Hf|].
  - apply Hsame. simpl. by rewrite lookup_insert_ne by congruence.
  - by apply Hsame.
  - by apply Hpw, renew_pointwise.
  - apply Hpw, use_pointwise.
  - by eapply Hpw, revoke_pointwise.
  - by apply Hsame.
  - apply Hpw, sweep_pointwise.
  - rewrite (link_child_leases _ _ _ _ Hp), lookup_insert_ne by congruence.
    destruct (decide (parent_id = x)) as [<-|Hne].
    + rewrite lookup_insert_eq. exists (push_child (lease_id child) p). split; [done|]. right.
      replace l with p by congruence. by eexists.
    + rewrite lookup_insert_ne by done. exists l. split; [done|]. left. constructor.
  - apply Hsame. by autorewrite with cdp.
Qed.

(** What no step changes, and the direction in which the rest moves. *)
Record later (l l' : Lease) : Prop := {
  later_id : lease_id l' = lease_id l;
  later_cred : credential_ref l' = credential_ref l;
  later_agent : agent_fingerprint_hash l' = agent_fingerprint_hash l;
  later_pid : agent_pid l' = agent_pid l;
  later_uid : agent_uid l' = agent_uid l;
  later_scope : granted_scope l' = granted_scope l;
  later_token : lease_token l' = lease_token l;
  later_nonce : channel_binding_nonce l' = channel_binding_nonce l;
  later_pins : dns_pinned_ips l' = dns_pinned_ips l;
  later_parent : parent_lease_id l' = parent_lease_id l;
  later_quota : max_requests l' = max_requests l;
  later_children : forall c, c ∈ child_lease_ids l -> c ∈ child_lease_ids l';
  later_revoked : is_revoked (status l) = true -> is_revoked (status l') = true;
  later_inactive : status l <> Active -> status l' <> Active
}.

Lemma later_refl l : later l l.
Proof. by split. Qed.

Lemma later_trans l1 l2 l3 : later l1 l2 -> later l2 l3 -> later l1 l3.
Proof.
  intros [] []. split; try congruence; auto.
Qed.

Lemma moves_later l l' : moves l l' -> later l l'.
Proof.
  intros [Hs|[c ->]].
  - destruct (lease_step_status _ _ Hs). pose proof (lease_step_static _ _ Hs) as E.
    split; try done;
      [apply (f_equal lease_id) in E|apply (f_equal credential_ref) in E
      |apply (f_equal agent_fingerprint_hash) in E|apply (f_equal agent_pid) in E|apply (f_equal agent_uid) in E
      |apply (f_equal granted_scope) in E
      |apply (f_equal lease_token) in E|apply (f_equal channel_binding_nonce) in E|apply (f_equal dns_pinned_ips) in E
      |apply (f_equal parent_lease_id) in E|apply (f_equal max_requests) in E
      |apply (f_equal child_lease_ids) in E; intros c; unfold static_part in E; simpl in E; by rewrite E];
      exact E.
  - split; try done. simpl. intros c' Hc. apply elem_of_app. by left.
Qed.

Lemma run_later m m' x l :
  rtc lstep m m' -> leases m !! x = Some l -> exists l', leases m' !! x = Some l' /\ later l l'.
Proof.
  intros Hrun. revert l. induction Hrun as [m|m m1 m' Hs _ IH]; intros l Hx.
  { exists l. split; [done|apply later_refl]. }
  destruct (lstep_moves _ _ _ _ Hs Hx) as (l1 & Hl1 & Hm%moves_later).
  destruct (IH _ Hl1) as (l' & ? & ?). exists l'. split; [done|]. by eapply later_trans.
Qed.

(** Descent only grows along a run. *)
Lemma run_descends m m' p x : rtc lstep m m' -> descends (leases m) p x -> descends (leases m') p x.
Proof.
  intros Hrun. assert (forall p c, child_of (leases m) p c -> child_of (leases m') p c) as Hc.
  { intros q c (lq & Hq & Hin). destruct (run_later _ _ _ _ Hrun Hq) as (lq' & ? & Hl).
    exists lq'. split; [done|]. by apply (later_children _ _ Hl). }
  induction 1; [apply tc_once; auto|eapply tc_l; eauto].
Qed.

(** ** The invariant *)

Section Invariant.
Context `{!ChronoLaws}.

Lemma inv_pointwise m m' :
  gate_key m' = gate_key m -> pointwise (leases m) (leases m') ->
  (cascaded (leases m) -> cascaded (leases m')) -> inv m -> inv m'.
Proof.
  intros Hk Hp Hcas [Hwf Hok Hc]. split; [by eapply wf_pointwise| |by apply Hcas].
  intros x l' Hx. destruct (pointwise_back _ _ _ _ Hp Hx) as (l & Hl & Hs). rewrite Hk.
  eapply lease_ok_step; [done|]. eauto.
Qed.

Lemma inv_same m m' :
  gate_key m' = gate_key m -> leases m' = leases m -> inv m -> inv m'.
Proof. intros Hk Hl. apply inv_pointwise; [done|rewrite Hl; apply pointwise_refl|by rewrite Hl]. Qed.

Lemma inv_new m : forall key connected, m = manager_new key connected -> inv m.
Proof.
  intros key connected ->. split; simpl.
  - split; intros *; rewrite lookup_empty; intros; simplify_eq.
  - intros id l E. by rewrite lookup_empty in E.
  - intros p lp c lc E. by rewrite lookup_empty in E.
Qed.

Lemma inv_insert `{Resolver} m id_bytes nonce now ai cref scope c pname method l :
  valid_time now -> scope_fits scope -> constraints_fit c ->
  prepare_lease (gate_key m) id_bytes nonce now ai cref scope c pname method = Ok l ->
  leases m !! lease_id l = None -> inv m -> inv (insert_lease m l).
Proof.
  intros Hv Hs Hc Hprep Hf [Hwf Hok Hcas].
  destruct (prepare_lease_ok _ _ _ _ _ _ _ _ _ _ _ Hv Hs Hc Hprep) as (Hl & Hst & Hpar & Hch & _).
  split; simpl.
  - by apply wf_insert_root.
  - intros x lx [[<- <-]|[_ ?]]%lookup_insert_Some; eauto.
  - apply cascaded_insert; [done..| |congruence|done]. intros p lp. congruence.
Qed.

Lemma inv_delegate `{Resolver} m id_bytes nonce created d exp now pins pid p target scope ttl child :
  valid_time created -> in_u U64 ttl -> pin_dns (s_hosts scope) = Ok pins ->
  duration_seconds (E:=LeaseError) (as_i64 ttl) = Ok d -> dt_add (E:=LeaseError) created d = Ok exp ->
  leases m !! pid = Some p ->
  delegate_checked created exp now (lease_id_of id_bytes)
    (generate_lease_token (gate_key m) (lease_id_of id_bytes) (ai_fingerprint_hash target) nonce)
    nonce pins pid target scope ttl p = Ok child ->
  leases m !! lease_id child = None -> inv m -> inv (link_child m pid child).
Proof.
  intros Hv Ht Hpins Hd He Hp Hdel Hf Hinv.
  assert (gate_key (link_child m pid child) = gate_key m) as Hk by (unfold link_child; by rewrite Hp).
  destruct (delegated_ok _ _ _ _ _ _ _ _ _ _ _ _ _ _ (inv_leases _ Hinv _ _ Hp) Hv Ht Hpins Hd He Hdel)
    as [Hok Hdepth].
  apply delegate_checked_ok in Hdel as (Hact & _ & Hallow & Hsub & _ & _ & depth & _ & _ & Hchild).
  destruct Hinv as [Hwf Hall Hcas].
  split; rewrite ?Hk, (link_child_leases _ _ _ _ Hp).
  - apply wf_link_child; try done; by rewrite Hchild.
  - intros x lx [(-> & ->)|[(-> & ->)|(_ & _ & Hx)]]%(linked_inv _ _ _ _); [done| |eauto].
    destruct (Hall _ _ Hp). by split.
  - intros q lq c lc Hq Hc Hpc Hrev.
    apply linked_inv in Hq as [(-> & ->)|[(-> & ->)|(Hne & _ & Hq)]]; [by rewrite Hchild in Hrev| |].
    + simpl in Hrev. by rewrite Hact in Hrev.
    + apply linked_inv in Hc as [(-> & ->)|[(-> & ->)|(_ & _ & Hc)]].
      * rewrite Hchild in Hpc. simpl in Hpc. simplify_eq. by rewrite Hact in Hrev.
      * exact (Hcas q lq pid p Hq Hp Hpc Hrev).
      * by apply (Hcas q lq c lc).
Qed.

Lemma inv_step m m' : lstep m m' -> inv m -> inv m'.
Proof.
  intros Hs Hinv. pose proof (lstep_key _ _ Hs) as Hk.
  destruct Hs as [| | |m now id|m id reason m' r Hr| |m now| |]; try (by eapply inv_same; [..|done]).
  - by eapply inv_insert.
  - eapply inv_pointwise; [done|by apply renew_pointwise| |done]. intros Hc.
    eapply cascaded_pointwise; [by apply renew_pointwise| |done]. intros x l l' Hl Hl'.
    destruct (renew_lease_leases m now id ext) as [E|(l0 & l1 & H0' & (? & _ & _ & _ & ? & ? & ? & ? & _ & _ & _ & _ & _ & ->)%renew_checked_ok & E)].
    + congruence.
    + rewrite E in Hl'. apply lookup_insert_Some in Hl' as [[<- <-]|[_ ?]]; [|congruence].
      by simplify_eq.
  - eapply inv_pointwise; [done|apply use_pointwise| |done]. intros Hc.
    eapply cascaded_pointwise; [apply use_pointwise| |done]. intros x l l' Hl Hl'.
    destruct (use_lease_leases m now id) as [E|(l0 & l1 & H0' & (_ & _ & _ & n & _ & ->)%use_checked_ok & E)].
    + congruence.
    + rewrite E in Hl'. apply lookup_insert_Some in Hl' as [[<- <-]|[_ ?]]; [|congruence].
      by simplify_eq.
  - eapply inv_pointwise; [done|by eapply revoke_pointwise| |done]. intros Hc.
    apply revoke_lease_spec in Hr as [(_ & -> & _)|([l Hl] & _ & _ & ds & Hds & ->)]; [done|].
    destruct (collect_descendants_exact _ (inv_forest _ Hinv) id l Hl) as (ds' & Hds' & _ & Hin).
    apply cascaded_revoke; [apply Hinv| |done]. by replace ds with ds' by congruence.
  - eapply inv_pointwise; [done|apply sweep_pointwise| |done]. intros Hc.
    eapply cascaded_pointwise; [apply sweep_pointwise| |done]. intros x l l' Hl Hl'.
    rewrite leases_sweep, Hl in Hl'. simpl in Hl'. injection Hl' as <-. unfold sweep_due.
    destruct (bool_decide _) eqn:E; simpl; [|done]. bool_to_prop. rewrite E.
    by destruct (_ <? _); simpl; rewrite ?E.
  - by eapply inv_delegate.
  - eapply inv_same; [done| |done]. by autorewrite with cdp.
Qed.

Lemma reachable_inv m : reachable m -> inv m.
Proof.
  intros (key & connected & Hrun). assert (inv (manager_new key connected)) as H0' by (by eapply inv_new).
  revert H0'. induction Hrun as [m0|m0 m1 m2 Hs _ IH]; intros Hi; [done|]. apply IH. by eapply inv_step.
Qed.
End Invariant.
End Safety.
