(* ===== verification/LeaseProps.v ===== *)
(** * cdp-lease: properties of the lease manager

    The properties of [cdp-lease] over every interleaving of its sections,
    the refinement of the composed operations into those sections, and what a
    delegated scope admits at the proxy. *)

From S2P Require Import Prelude RustStr Crypto PolicyTypes LeaseTypes ProxyScope AuditLog LeaseManager LeaseLemmas LeaseSteps LeaseSafety.

Section Props.
Context `{Build} `{Chrono} `{HmacSha256} `{Resolver}.

(** ** The composed operations are runs *)

Lemma create_lease_run m id_bytes nonce now ai cref scope c pname method :
  valid_time now -> scope_fits scope -> constraints_fit c ->
  leases m !! lease_id_of id_bytes = None ->
  rtc lstep m (create_lease m id_bytes nonce now ai cref scope c pname method).1.
Proof.
  intros Hv Hs Hc Hf. unfold create_lease.
  destruct (prepare_lease _ _ _ _ _ _ _ _ _ _) as [l|e|] eqn:E; simpl; [|done..].
  destruct (prepare_lease_ok _ _ _ _ _ _ _ _ _ _ _ Hv Hs Hc E) as (_ & _ & _ & _ & Hid & Hfp).
  eapply rtc_l; [by eapply step_insert; [..|exact E|rewrite Hid]|].
  eapply rtc_l; [|apply rtc_once, step_audit].
  eapply step_index; [|exact Hfp]. simpl. apply lookup_insert_eq.
Qed.

Lemma delegate_run m id_bytes nonce created now pid target scope ttl alive :
  valid_time created -> in_u U64 ttl -> leases m !! lease_id_of id_bytes = None ->
  rtc lstep m (delegate m id_bytes nonce created now pid target scope ttl alive).1.
Proof.
  intros Hv Ht Hf. unfold delegate. destruct alive; simpl; [|done].
  destruct (leases m !! pid) as [p|] eqn:Hp; [|done].
  destruct (is_scope_subset _ _); simpl; [|done].
  destruct (pin_dns _) as [pins|e|] eqn:Hpins; [|done..].
  match goal with |- context [match ?e with Ok _ => _ | Err _ => _ | Panic => _ end] =>
    destruct e as [child|e'|] eqn:E end; simpl; [|done..].
  apply rbind_ok in E as (d & Hd & (exp & He & Hc)%rbind_ok).
  pose proof (delegate_checked_ok _ _ _ _ _ _ _ _ _ _ _ _ _ Hc) as (_ & _ & _ & _ & _ & _ & depth & _ & _ & Hchild).
  assert (lease_id child = lease_id_of id_bytes) as Hid by (by rewrite Hchild).
  eapply rtc_l; [by eapply step_delegate; [..|rewrite Hid]|].
  eapply rtc_l; [apply step_audit|]. apply rtc_once. eapply step_index.
  - autorewrite with cdp. rewrite (link_child_leases _ _ _ _ Hp), Hid. apply lookup_insert_eq.
  - by rewrite Hchild.
Qed.

Lemma revoke_roots_run reason ids : forall m revoked m' r,
  revoke_roots m reason ids revoked = Some (m', r) -> rtc lstep m m'.
Proof.
  induction ids as [|id ids IH]; intros m revoked m' r; simpl; [by intros [= <- <-]|].
  destruct (is_root_lease _ _); [|by apply IH].
  intros (ds & _ & Hr)%bind_Some. destruct (revoke_lease m id reason) as [[m1 r1]|] eqn:E; [|done].
  apply step_revoke in E as Hs. destruct r1; simplify_eq; [|by apply rtc_once..].
  eapply rtc_l; [done|]. by eapply IH.
Qed.

Lemma revoke_agent_run m fp reason m' r :
  revoke_agent_leases m fp reason = Some (m', r) -> rtc lstep m m'.
Proof.
  unfold revoke_agent_leases. intros ([m1 r1] & Hr & Hk)%bind_Some. apply revoke_roots_run in Hr.
  destruct r1; simplify_eq; [|done..]. eapply rtc_r; [done|]. apply step_drop.
Qed.

Lemma death_run m notice m' : handle_death_notice m notice = Some m' -> rtc lstep m m'.
Proof.
  unfold handle_death_notice. intros ([m1 r1] & Hr & Hk)%bind_Some. simplify_eq.
  by eapply revoke_agent_run.
Qed.

Lemma reachable_run m m' : reachable m -> rtc lstep m m' -> reachable m'.
Proof. intros (key & c & Hr) Hrun. exists key, c. by etransitivity. Qed.

(** ** Descent *)

(** The part of [is_scope_subset] that composes along a chain: an absent TTL
    or request limit in the middle lets the next child name any value.  It is
    about the lists; what they admit is another matter, since the proxy takes
    an empty list of hosts, methods or paths for no restriction. *)
Definition lists_within (child parent : Scope) : Prop :=
  (forall h, h ∈ s_hosts child -> h ∈ s_hosts parent) /\
  (forall x, x ∈ s_methods child -> x ∈ s_methods parent) /\
  (forall x, x ∈ s_paths child -> x ∈ s_paths parent) /\
  (forall f, f ∈ s_forbidden_paths parent -> f ∈ s_forbidden_paths child).

Lemma subset_lists c p : is_scope_subset c p = true -> lists_within c p.
Proof. intros (? & ? & ? & ? & _)%is_scope_subset_spec. by split_and!. Qed.

Lemma lists_within_trans a b c : lists_within a b -> lists_within b c -> lists_within a c.
Proof. intros (? & ? & ? & ?) (? & ? & ? & ?). split_and!; auto. Qed.

Lemma descendants_confined m p lp c lc :
  inv m -> descends (leases m) p c -> leases m !! p = Some lp -> leases m !! c = Some lc ->
  lists_within (granted_scope lc) (granted_scope lp) /\
  credential_ref lc = credential_ref lp /\ delegation_allowed lp = true /\
  delegation_depth lp < delegation_depth lc.
Proof.
  intros Hinv Hd. revert lp lc. induction Hd as [p c (lp0 & Hp0 & Hin)|p y c (lp0 & Hp0 & Hin) Hyc IH]; intros lp lc Hp Hc.
  - replace lp0 with lp in Hin by congruence.
    destruct (wf_child _ (inv_forest _ Hinv) _ _ _ Hp Hin) as (lc' & Hc' & Hpar & Hdep).
    replace lc' with lc in * by congruence.
    destruct (wf_confined _ (inv_forest _ Hinv) _ _ _ _ Hp Hc Hpar) as (?%subset_lists & ? & ?).
    split_and!; [done..|lia].
  - replace lp0 with lp in Hin by congruence.
    destruct (wf_child _ (inv_forest _ Hinv) _ _ _ Hp Hin) as (ly & Hy & Hpar & Hdep).
    destruct (wf_confined _ (inv_forest _ Hinv) _ _ _ _ Hp Hy Hpar) as (Hs%subset_lists & ? & ?).
    destruct (IH _ _ Hy Hc) as (Hs' & ? & ? & ?). split_and!; [by eapply lists_within_trans|congruence|done|lia].
Qed.

Lemma descendants_revoked m p lp c lc :
  inv m -> descends (leases m) p c -> leases m !! p = Some lp -> leases m !! c = Some lc ->
  is_revoked (status lp) = true -> is_revoked (status lc) = true.
Proof.
  intros Hinv Hd. revert lp lc.
  induction Hd as [p c (lp0 & Hp0 & Hin)|p y c (lp0 & Hp0 & Hin) Hyc IH]; intros lp lc Hp Hc Hr;
    replace lp0 with lp in Hin by congruence;
    destruct (wf_child _ (inv_forest _ Hinv) _ _ _ Hp Hin) as (ly & Hy & Hpar & _).
  - replace lc with ly by congruence. exact (inv_cascade _ Hinv _ _ _ _ Hp Hy Hpar Hr).
  - apply (IH ly lc); [done..|]. exact (inv_cascade _ Hinv _ _ _ _ Hp Hy Hpar Hr).
Qed.

(** A lease that is not active admits no operation. *)
Lemma inactive_refused m x l :
  leases m !! x = Some l -> status l <> Active ->
  (forall now, use_lease m now x = (m, Err NotActive)) /\
  (forall now ext, renew_lease m now x ext = (m, Err NotActive)) /\
  (forall id_bytes nonce created now target scope ttl alive,
     let (m', r) := delegate m id_bytes nonce created now x target scope ttl alive in
     m' = m /\ is_ok r = false).
Proof.
  intros Hx Hst. assert (bool_decide (status l = Active) = false) as Hb by (by apply bool_decide_eq_false).
  split_and!.
  - intros now. unfold use_lease, use_checked. by rewrite Hx, Hb.
  - intros now ext. unfold renew_lease, renew_checked. by rewrite Hx, Hb.
  - intros. unfold delegate. destruct alive; simpl; [|done]. rewrite Hx.
    destruct (is_scope_subset _ _); simpl; [|done]. destruct (pin_dns _) as [pins|e|]; [|done..].
    destruct (duration_seconds _) as [d|e|]; simpl; [|done..].
    destruct (dt_add _ _) as [exp|e|]; simpl; [|done..].
    unfold delegate_checked. by rewrite Hb.
Qed.

(** ** Counting uses *)

(** A run in which [use_lease id] succeeds [n] times among other steps. *)
Inductive uses (id : string) : nat -> LeaseManager -> LeaseManager -> Prop :=
| uses_none m : uses id 0 m m
| uses_other m m1 m' n : lstep m m1 -> uses id n m1 m' -> uses id n m m'
| uses_one m now m1 l m' n : use_lease m now id = (m1, Ok l) -> uses id n m1 m' -> uses id (S n) m m'.

Lemma use_lease_ok m now id m1 l1 :
  use_lease m now id = (m1, Ok l1) ->
  exists l, leases m !! id = Some l /\ use_checked now id l = Ok l1 /\ leases m1 = <[id := l1]> (leases m).
Proof.
  unfold use_lease. destruct (leases m !! id) as [l|] eqn:E; [|done].
  destruct (use_checked now id l) as [l'|e|] eqn:Er; intros [= <- <-].
  exists l. split_and!; [done..|]. by autorewrite with cdp.
Qed.

Lemma moves_requests l l' k key :
  moves l l' -> lease_ok key l -> max_requests l = Some k ->
  max_requests l' = Some k /\ requests_used l <= requests_used l'.
Proof.
  intros [Hs|[c ->]] Hok Hk; [|done].
  destruct Hs as [|reason l|l _|now id ext l l' _ Hr|now id l l' Hu]; [done..| |].
  - apply renew_checked_ok in Hr as (_ & _ & _ & _ & ? & ? & ? & ? & _ & _ & _ & _ & _ & ->). done.
  - apply use_checked_ok in Hu as (_ & _ & Hlt & n & Hn & ->). split; [done|]. simpl.
    specialize (Hlt k Hk). pose proof (ok_quota _ _ Hok k Hk).
    rewrite add_u_ok in Hn by lia. injection Hn as <-. lia.
Qed.

Lemma uses_bounded `{!ChronoLaws} id n m m' :
  uses id n m m' -> forall l k, inv m -> leases m !! id = Some l -> max_requests l = Some k ->
  Z.of_nat n <= k - requests_used l.
Proof.
  induction 1 as [m|m m1 m' n Hs _ IH|m now m1 l1 m' n Hu _ IH]; intros l k Hinv Hl Hk.
  - pose proof (ok_quota _ _ (inv_leases _ Hinv _ _ Hl) k Hk). lia.
  - destruct (lstep_moves _ _ _ _ Hs Hl) as (l' & Hl' & Hm).
    destruct (moves_requests _ _ _ _ Hm (inv_leases _ Hinv _ _ Hl) Hk).
    specialize (IH l' k (inv_step _ _ Hs Hinv) Hl'). intuition lia.
  - destruct (use_lease_ok _ _ _ _ _ Hu) as (l0 & Hl0 & Hc & Hm1). replace l0 with l in Hc by congruence.
    assert (lstep m m1) as Hs by (replace m1 with (use_lease m now id).1 by (by rewrite Hu); constructor).
    assert (leases m1 !! id = Some l1) as Hl1 by (rewrite Hm1; apply lookup_insert_eq).
    apply use_checked_ok in Hc as (_ & _ & Hlt & u & Hadd & ->).
    specialize (Hlt k Hk). pose proof (ok_quota _ _ (inv_leases _ Hinv _ _ Hl) k Hk).
    rewrite add_u_ok in Hadd by lia. injection Hadd as <-.
    specialize (IH _ k (inv_step _ _ Hs Hinv) Hl1 Hk). simpl in IH. lia.
Qed.

(** ** Death of an agent *)

Lemma pointwise_child ls ls' p c : pointwise ls ls' -> child_of ls' p c -> child_of ls p c.
Proof.
  intros Hp (lp' & Hlp' & Hin). destruct (pointwise_back _ _ _ _ Hp Hlp') as (lp & Hlp & Hs%lease_step_static%static_fields).
  destruct Hs as (_ & _ & E & _). exists lp. split; [done|congruence].
Qed.

Lemma pointwise_descends ls ls' p x : pointwise ls ls' -> descends ls' p x -> descends ls p x.
Proof.
  intros Hp. induction 1; [apply tc_once|eapply tc_l]; eauto using pointwise_child.
Qed.

(** [x] is [id] or below it. *)
Definition within (ls : gmap string Lease) (id x : string) : Prop := x = id \/ descends ls id x.

Lemma is_root_lease_spec ls id :
  is_root_lease ls id = true <-> exists l, ls !! id = Some l /\ parent_lease_id l = None.
Proof.
  unfold is_root_lease. destruct (ls !! id) as [l|].
  - rewrite bool_decide_eq_true. naive_solver.
  - split; [done|]. by intros (? & ? & _).
Qed.

Lemma revoke_roots_ok `{!ChronoLaws} reason ids : forall m revoked,
  inv m ->
  exists m' rv, revoke_roots m reason ids revoked = Some (m', Ok rv) /\
    (forall id, id ∈ ids -> is_root_lease (leases m) id = true ->
       exists l', leases m' !! id = Some l' /\ is_revoked (status l') = true) /\
    (forall x, leases m' !! x = leases m !! x \/
       exists id, id ∈ ids /\ is_root_lease (leases m) id = true /\ within (leases m) id x) /\
    (forall x, x ∈ revoked \/ (exists id, id ∈ ids /\ is_root_lease (leases m) id = true /\
       within (leases m) id x) -> x ∈ rv).
Proof.
  induction ids as [|id ids IH]; intros m revoked Hinv; simpl.
  { exists m, revoked. split_and!; [done|by intros id ?%elem_of_nil|by left|].
    by intros x [?|(? & []%elem_of_nil & _)]. }
  destruct (is_root_lease (leases m) id) eqn:Hroot.
  2: { destruct (IH m revoked Hinv) as (m' & rv & Hr & Hall & Hframe & Hrv). exists m', rv.
       split_and!; [done| | |].
       - intros x [->|Hx]%elem_of_cons Hrx; [congruence|eauto].
       - intros x. destruct (Hframe x) as [?|(y & ? & ? & ?)]; [by left|]. right. exists y. set_solver.
       - intros x [?|(y & [->|Hy]%elem_of_cons & ? & ?)]; apply Hrv; [by left|congruence|right; eauto]. }
  pose proof Hroot as (l & Hl & Hpar)%is_root_lease_spec.
  destruct (revoke_lease_ok m id reason l (inv_forest _ Hinv) Hl) as (m1 & ds & Hrev & Hds & _ & Hin & _ & Hm1).
  rewrite Hds. simpl. rewrite Hrev.
  apply step_revoke in Hrev as Hs. pose proof (inv_step _ _ Hs Hinv) as Hinv1.
  pose proof (revoke_pointwise _ _ _ _ _ Hrev) as Hpw.
  destruct (IH m1 ((revoked ++ [id]) ++ ds) Hinv1) as (m' & rv & Hr & Hall & Hframe & Hrv). exists m', rv.
  assert (forall x, is_root_lease (leases m1) x = is_root_lease (leases m) x) as Hsame.
  { intros x. unfold is_root_lease. rewrite Hm1, lookup_update_named. destruct (leases m !! x); simpl; [|done].
    by destruct (bool_decide (x ∈ _)). }
  split_and!; [done| | |].
  - intros x [->|Hx]%elem_of_cons Hrx; [|apply Hall; [done|by rewrite Hsame]].
    assert (leases m1 !! id = Some (set_status (Revoked reason) l)) as Hl1.
    { rewrite Hm1, lookup_update_named, Hl. simpl. by rewrite bool_decide_eq_true_2 by set_solver. }
    destruct (run_later _ _ _ _ (revoke_roots_run _ _ _ _ _ _ Hr) Hl1) as (l' & ? & Hlat).
    exists l'. split; [done|]. by apply (later_revoked _ _ Hlat).
  - intros x. destruct (Hframe x) as [E|(y & Hy & Hry & Hw)].
    + destruct (decide (x ∈ id :: ds)) as [Hx|Hx].
      * right. exists id. split_and!; [set_solver|done|].
        apply elem_of_cons in Hx as [->|Hx%Hin]; [by left|by right].
      * left. rewrite E, Hm1, lookup_update_named, bool_decide_eq_false_2 by done.
        by destruct (leases m !! x).
    + right. exists y. split_and!; [set_solver|by rewrite <- Hsame|].
      destruct Hw as [?|?]; [by left|]. right. by eapply pointwise_descends.
  - intros x [Hx|(y & [->|Hy]%elem_of_cons & Hry & Hw)]; apply Hrv.
    + left. set_solver.
    + left. apply elem_of_app. destruct Hw as [->|Hd%Hin]; [left; set_solver|by right].
    + right. exists y. split_and!; [done|by rewrite Hsame|]. destruct Hw as [?|?]; [by left|right].
      eapply run_descends; [by apply rtc_once|done].
Qed.

Lemma revoke_agent_ok `{!ChronoLaws} m fp reason :
  inv m ->
  exists m' rv, revoke_agent_leases m fp reason = Some (m', Ok rv) /\ agent_leases m' !! fp = None /\
    (forall id, id ∈ default [] (agent_leases m !! fp) -> is_root_lease (leases m) id = true ->
       exists l', leases m' !! id = Some l' /\ is_revoked (status l') = true) /\
    (forall x, leases m' !! x = leases m !! x \/
       exists id, id ∈ default [] (agent_leases m !! fp) /\ is_root_lease (leases m) id = true /\
         within (leases m) id x) /\
    (forall x, (exists id, id ∈ default [] (agent_leases m !! fp) /\ is_root_lease (leases m) id = true /\
       within (leases m) id x) -> x ∈ rv).
Proof.
  intros Hinv. unfold revoke_agent_leases.
  destruct (revoke_roots_ok reason (default [] (agent_leases m !! fp)) m [] Hinv) as (m' & rv & -> & Hall & Hf & Hrv).
  simpl. exists (with_index m' (delete fp (agent_leases m'))), rv. split_and!; [done| |done|done|auto].
  simpl. apply lookup_delete_eq.
Qed.

(** Everything in the trees of the agent's roots ends revoked and is in the
    list that is returned. *)
Lemma revoke_agent_trees `{!ChronoLaws} m fp reason :
  reachable m ->
  exists m' rv, revoke_agent_leases m fp reason = Some (m', Ok rv) /\ agent_leases m' !! fp = None /\
    (forall id x, id ∈ default [] (agent_leases m !! fp) -> is_root_lease (leases m) id = true ->
       within (leases m) id x -> x ∈ rv /\ exists lx, leases m' !! x = Some lx /\ is_revoked (status lx) = true) /\
    (forall x, leases m' !! x = leases m !! x \/
       exists id, id ∈ default [] (agent_leases m !! fp) /\ is_root_lease (leases m) id = true /\
         within (leases m) id x).
Proof.
  intros Hr. destruct (revoke_agent_ok m fp reason (reachable_inv _ Hr)) as (m' & rv & Hrev & Hix & Hall & Hf & Hrv).
  exists m', rv. split_and!; [done..| |done]. intros id x Hid Hroot Hw. split; [eauto|].
  destruct (Hall _ Hid Hroot) as (l' & Hl' & Hst). pose proof (revoke_agent_run _ _ _ _ _ Hrev) as Hrun.
  pose proof (reachable_inv _ (reachable_run _ _ Hr Hrun)) as Hinv.
  destruct Hw as [->|Hd]; [by exists l'|]. apply (run_descends _ _ _ _ Hrun) in Hd.
  destruct (descends_deeper _ (inv_forest _ Hinv) _ _ Hd) as (? & lx & _ & Hx & _).
  exists lx. split; [done|]. by eapply (descendants_revoked m' id l' x lx).
Qed.

Lemma is_active_intro now l : status l = Active -> now <= expires_at l -> is_active now l = true.
Proof.
  intros Hst Hle%Z.ltb_ge. unfold is_active, is_expired. rewrite bool_decide_eq_true_2 by done.
  by rewrite Z.gtb_ltb, Hle.
Qed.

(** ** Properties *)

Section Theorems.
Context `{!ChronoLaws}.

(** C12. In every state an interleaving can reach, each stored lease is filed
    under its own id, carries the token of its id, agent and nonce, has a
    non-empty DNS pin for every host of its scope, has used no more renewals,
    requests and delegation depth than it was granted, and expires exactly
    its cumulative TTL after its creation. *)
Theorem leases_stay_in_order (m : LeaseManager) (id : string) (l : Lease) :
  reachable m -> leases m !! id = Some l -> lease_id l = id /\ lease_ok (gate_key m) l.
Proof.
  intros Hinv%reachable_inv Hl. split; [by apply (wf_id _ (inv_forest _ Hinv))|].
  by apply (inv_leases _ Hinv id).
Qed.

Section Confinement.
Context `{Fmt} `{Globset} `{!GlobsetLaws} `{JsonParse}.

(** A request target the proxy takes to be in scope: [in_scope] but for the
    body. *)
Definition target_in_scope (method host path : string) (s : Scope) : Prop :=
  (s_hosts s = [] \/ host ∈ s_hosts s) /\
  spares (s_forbidden_paths s) path /\ allows (s_paths s) path /\
  (s_methods s = [] \/ exists m, m ∈ s_methods s /\ lowercase m = lowercase method).

Lemma in_scope_target method host path ct body s :
  in_scope method host path ct body s <->
  target_in_scope method host path s /\ forall c, s_body_constraints s = Some c -> body_in_scope body ct c.
Proof. unfold in_scope, target_in_scope. tauto. Qed.

(** The child leaves no list empty that the parent has filled. *)
Definition restricts_alike (child parent : Scope) : Prop :=
  (s_hosts child = [] -> s_hosts parent = []) /\ (s_methods child = [] -> s_methods parent = []) /\
  (s_paths child = [] -> s_paths parent = []).

Lemma target_lists_within method host path c p :
  lists_within c p -> restricts_alike c p -> patterns_compile (s_paths p) -> patterns_compile (s_forbidden_paths p) ->
  target_in_scope method host path c -> target_in_scope method host path p.
Proof.
  intros (Hh & Hm & Hp & Hf) (Eh & Em & Ep) Hcp Hcf (Th & Ts & Ta & Tm). split_and!.
  - destruct Th as [?|?]; [left; auto|right; auto].
  - right. split; [done|]. intros q Hq. destruct Ts as [E|[_ Hs]]; [|by apply Hs, Hf].
    apply Hf in Hq. rewrite E in Hq. by apply elem_of_nil in Hq.
  - destruct Ta as [?|[_ (q & Hq & ?)]]; [left; auto|right]. split; [done|]. exists q. auto.
  - destruct Tm as [?|(q & Hq & ?)]; [left; auto|right]. exists q. auto.
Qed.

(** C13. However long a delegation chain, a lease below another one has hosts,
    methods and paths among those of the upper one, keeps all its forbidden
    paths, is for the same credential and is strictly deeper; and no lease is
    below itself.  Where it leaves no list empty that the upper one has
    filled, what the proxy takes to be in its scope, body constraints aside,
    is in the scope of the upper one, whose patterns compile; where it does,
    nothing of the kind holds ([delegation_can_widen]). *)
Theorem descendants_stay_confined (m : LeaseManager) (p c : string) :
  reachable m -> descends (leases m) p c ->
  exists lp lc, leases m !! p = Some lp /\ leases m !! c = Some lc /\ p <> c /\
    lists_within (granted_scope lc) (granted_scope lp) /\ credential_ref lc = credential_ref lp /\
    delegation_allowed lp = true /\ delegation_depth lp < delegation_depth lc /\
    (restricts_alike (granted_scope lc) (granted_scope lp) ->
     patterns_compile (s_paths (granted_scope lp)) -> patterns_compile (s_forbidden_paths (granted_scope lp)) ->
     forall method host path, target_in_scope method host path (granted_scope lc) ->
       target_in_scope method host path (granted_scope lp)).
Proof.
  intros Hinv%reachable_inv Hd.
  destruct (descends_deeper _ (inv_forest _ Hinv) _ _ Hd) as (lp & lc & Hp & Hc & _).
  destruct (descendants_confined _ _ _ _ _ Hinv Hd Hp Hc) as (Hs & ? & ? & ?).
  exists lp, lc. split_and!; try done.
  - intros ->. by apply (descends_irrefl _ (inv_forest _ Hinv) c).
  - intros Hr Hcp Hcf method host path. by apply target_lists_within.
Qed.

(** The same scope without its methods, paths and body constraints. *)
Definition widened (s : Scope) : Scope := mkScope (s_hosts s) [] [] (s_forbidden_paths s) None None None None.

(** Delegation can widen: whenever a lease may delegate its own scope, it may
    delegate the scope without the lists of methods and paths and without the
    body constraints, and that lease admits every method, path and body at
    the hosts of the first, forbidden paths apart. *)
Theorem delegation_can_widen (created exp now : Z) (child_id token : string) (cb_nonce : list byte)
    (pins : gmap string (list IpAddr)) (parent_id : string) (target : AgentInfo) (ttl : Z) (parent same : Lease) :
  delegate_checked created exp now child_id token cb_nonce pins parent_id target (granted_scope parent) ttl parent = Ok same ->
  exists child,
    delegate_checked created exp now child_id token cb_nonce pins parent_id target (widened (granted_scope parent)) ttl parent
      = Ok child /\
    forall method host path ct body,
      (s_hosts (granted_scope parent) = [] \/ host ∈ s_hosts (granted_scope parent)) ->
      spares (s_forbidden_paths (granted_scope parent)) path ->
      in_scope method host path ct body (granted_scope child).
Proof.
  intros Hd. assert (is_scope_subset (widened (granted_scope parent)) (granted_scope parent) = true) as Hsub.
  { apply is_scope_subset_spec. cbn. split_and!; try done; intros x Hx; by apply elem_of_nil in Hx. }
  unfold delegate_checked in *. destruct (negb (bool_decide _)); [done|]. destruct (is_expired _ _); [done|].
  destruct (negb (delegation_allowed _)); [done|]. cbv zeta in *. apply rbind_ok in Hd as (depth & -> & Hd).
  cbn [rbind]. destruct (depth >? _); [done|]. rewrite Hsub. cbn [negb] in *.
  destruct (negb (is_scope_subset _ _)) in Hd; [done|]. destruct (_ || _); [done|].
  eexists. split; [done|]. intros method host path ct body Hh Hs. unfold in_scope. cbn. split_and!; try done; by left.
Qed.
End Confinement.

(** C11. Revoking a stored lease succeeds, revokes it and everything below it with
    the given reason, and changes no other lease. *)
Theorem revocation_cascades (m : LeaseManager) (id reason : string) (l : Lease) :
  reachable m -> leases m !! id = Some l ->
  exists m', revoke_lease m id reason = Some (m', Ok tt) /\
    forall x lx, leases m !! x = Some lx ->
      (within (leases m) id x -> leases m' !! x = Some (set_status (Revoked reason) lx)) /\
      (~ within (leases m) id x -> leases m' !! x = Some lx).
Proof.
  intros Hinv%reachable_inv Hl.
  destruct (revoke_lease_ok m id reason l (inv_forest _ Hinv) Hl) as (m' & ds & Hr & _ & _ & Hin & _ & Hm').
  exists m'. split; [done|]. intros x lx Hx. rewrite Hm', lookup_update_named, Hx. unfold within. simpl.
  split; intros Hw.
  - rewrite bool_decide_eq_true_2; [done|]. apply elem_of_cons. by rewrite Hin.
  - rewrite bool_decide_eq_false_2; [done|]. by rewrite elem_of_cons, Hin.
Qed.

(** Revocation stays and has reached everything below. *)
Lemma revoked_stays m m' id x l :
  reachable m -> leases m !! id = Some l -> is_revoked (status l) = true ->
  rtc lstep m m' -> within (leases m') id x ->
  exists lx, leases m' !! x = Some lx /\ is_revoked (status lx) = true.
Proof.
  intros Hr Hl Hrev Hrun Hw. pose proof (reachable_inv _ (reachable_run _ _ Hr Hrun)) as Hinv.
  destruct (run_later _ _ _ _ Hrun Hl) as (l' & Hl' & Hlat). apply (later_revoked _ _ Hlat) in Hrev.
  destruct Hw as [->|Hd]; [by exists l'|].
  destruct (descends_deeper _ (inv_forest _ Hinv) _ _ Hd) as (? & lx & _ & Hx & _).
  exists lx. split; [done|]. exact (descendants_revoked _ _ _ _ _ Hinv Hd Hl' Hx Hrev).
Qed.

(** C1. Once a lease is revoked, then after any further steps of any callers it
    and every lease below it refuse use, renewal and delegation, and the
    refusals change nothing. *)
Theorem revoked_tree_is_dead (m m' : LeaseManager) (id x : string) (l : Lease) :
  reachable m -> leases m !! id = Some l -> is_revoked (status l) = true ->
  rtc lstep m m' -> within (leases m') id x ->
  (forall now, use_lease m' now x = (m', Err NotActive)) /\
  (forall now ext, renew_lease m' now x ext = (m', Err NotActive)) /\
  (forall id_bytes nonce created now target scope ttl alive,
     let (m2, r) := delegate m' id_bytes nonce created now x target scope ttl alive in
     m2 = m' /\ is_ok r = false).
Proof.
  intros Hr Hl Hrev Hrun Hw. destruct (revoked_stays _ _ _ _ _ Hr Hl Hrev Hrun Hw) as (lx & Hx & Hrx).
  apply (inactive_refused _ _ _ Hx). intros E. by rewrite E in Hrx.
Qed.

(** C19. A lease with a request limit is used at most as often as the limit
    leaves, whatever else runs in between. *)
Theorem request_quota_holds (m m' : LeaseManager) (id : string) (l : Lease) (k : Z) (n : nat) :
  reachable m -> leases m !! id = Some l -> max_requests l = Some k -> uses id n m m' ->
  Z.of_nat n <= k - requests_used l.
Proof. intros Hinv%reachable_inv Hl Hk Hu. by eapply uses_bounded. Qed.

(** C20. A lease that is active at [now] was created no longer ago than the larger
    of its initial TTL and its cumulative limit, however often and with
    whatever extensions it was renewed. *)
Theorem lease_lifetime_bounded (m : LeaseManager) (id : string) (l : Lease) (now : Z) :
  reachable m -> leases m !! id = Some l -> is_active now l = true ->
  now <= created_at l + Z.max (ttl_seconds l) (max_cumulative_ttl_seconds l) * NANOS.
Proof.
  intros Hinv%reachable_inv Hl [_ Hexp%negb_true_iff]%andb_true_iff.
  pose proof (inv_leases _ Hinv _ _ Hl) as Hok. unfold is_expired in Hexp. bool_to_prop.
  rewrite (ok_expiry _ _ Hok) in Hexp. pose proof (ok_cap _ _ Hok).
  pose proof (as_i64_le (cumulative_ttl_seconds l)). unfold NANOS in *. nia.
Qed.

(** The death of an agent: [revoke_agent_leases] ends with success and drops
    the agent's index entry; every root lease indexed for the agent is
    revoked with everything below it; and nothing outside those trees
    changes. *)
Theorem agent_death_revokes_root_trees (m : LeaseManager) (fp : list byte) (reason : string) :
  reachable m ->
  exists m' rv, revoke_agent_leases m fp reason = Some (m', Ok rv) /\ agent_leases m' !! fp = None /\
    (forall id x, id ∈ default [] (agent_leases m !! fp) -> is_root_lease (leases m) id = true ->
       within (leases m) id x -> exists lx, leases m' !! x = Some lx /\ is_revoked (status lx) = true) /\
    (forall x, leases m' !! x = leases m !! x \/
       exists id, id ∈ default [] (agent_leases m !! fp) /\ is_root_lease (leases m) id = true /\
         within (leases m) id x).
Proof.
  intros Hr. destruct (revoke_agent_trees m fp reason Hr) as (m' & rv & Hrev & Hix & Hall & Hf).
  exists m', rv. split_and!; [done..| |done]. intros id x Hid Hroot Hw. by apply (Hall id x).
Qed.

(** A successful renewal of an active, unexpired, renewable lease with
    renewals left adds the extension to the cumulative TTL (at the width of
    [u64]), never beyond the cumulative limit, uses one renewal and moves the
    expiry with it; every failing renewal leaves the manager as it was. *)
Theorem renewal_accounting (m : LeaseManager) (now ext : Z) (id : string) :
  reachable m -> in_u U64 ext ->
  match renew_lease m now id ext with
  | (m', Ok _) => exists l l', leases m !! id = Some l /\ leases m' = <[id := l']> (leases m) /\
      is_active now l = true /\ renewable l = true /\
      renewals_used l < max_renewals l /\ renewals_used l' = renewals_used l + 1 /\
      cumulative_ttl_seconds l' = (cumulative_ttl_seconds l + ext) mod U64 /\
      cumulative_ttl_seconds l' <= max_cumulative_ttl_seconds l /\
      expires_at l' = created_at l + as_i64 (cumulative_ttl_seconds l') * NANOS
  | (m', _) => m' = m
  end.
Proof.
  intros Hinv%reachable_inv Hext. unfold renew_lease.
  destruct (leases m !! id) as [l|] eqn:Hl; [|done].
  destruct (renew_checked now id ext l) as [l'|e|] eqn:Hren; [|done..].
  pose proof (inv_leases _ Hinv _ _ Hl) as Hok.
  pose proof (lease_ok_step _ _ _ (ls_renew _ _ _ _ _ Hext Hren) Hok) as Hok'.
  apply renew_checked_ok in Hren as (Hst & Hnow & Hrn & Hlt & total & d & exp & n & Ha & Hle & Hdur & Hadd & Hn & ->).
  exists l, (set_renewal exp total n l). autorewrite with cdp. split_and!; [done..| |done|done| | | |].
  - by apply is_active_intro.
  - destruct (ok_renewals _ _ Hok). simpl. rewrite add_u_ok in Hn by lia. by injection Hn.
  - simpl. unfold add_u in Ha. pose proof (ok_cumulative _ _ Hok). unfold in_u in Hext.
    branches Ha; bool_to_prop; [by rewrite Z.mod_small by lia|done].
  - done.
  - apply (ok_expiry _ _ Hok').
Qed.

(** A lease delegated at clock [now] starts with an expiry no later than its
    parent's, provided the clock did not run backwards during the call. *)
Theorem delegated_lease_starts_within_parent (m m' : LeaseManager) (id_bytes nonce : list byte)
    (created now ttl : Z) (pid : string) (target : AgentInfo) (scope : Scope) (alive : bool)
    (p child : Lease) :
  reachable m -> leases m !! pid = Some p -> in_u U64 ttl -> created <= now ->
  delegate m id_bytes nonce created now pid target scope ttl alive = (m', Ok child) ->
  expires_at child <= expires_at p /\ lists_within (granted_scope child) (granted_scope p) /\
  parent_lease_id child = Some pid /\ is_active now p = true.
Proof.
  intros Hinv%reachable_inv Hp Ht Hcl. unfold delegate. destruct alive; simpl; [|done].
  rewrite Hp. destruct (is_scope_subset _ _); simpl; [|done].
  destruct (pin_dns _) as [pins|e|]; [|done..].
  match goal with |- context [match ?e with Ok _ => _ | Err _ => _ | Panic => _ end] =>
    destruct e as [child'|e'|] eqn:E end; intros [= <- <-].
  apply rbind_ok in E as (d & [-> _]%duration_ok & (exp & [-> _]%dt_add_ok & Hc)%rbind_ok).
  apply delegate_checked_ok in Hc as (Hst & Hnow & _ & Hsub%subset_lists & Hrem & Hle & depth & _ & _ & ->).
  simpl. split_and!; [|done|done|].
  - pose proof (as_i64_le ttl). unfold remaining_ttl_seconds, num_seconds, as_u64 in *.
    rewrite Z.quot_div_nonneg in * by (unfold NANOS; lia).
    pose proof (Z.mul_div_le (expires_at p - now) NANOS ltac:(unfold NANOS; lia)).
    pose proof (Z.mod_le ((expires_at p - now) / NANOS) U64 Hrem ltac:(unfold U64; lia)).
    unfold NANOS in *. nia.
  - by apply is_active_intro.
Qed.
End Theorems.

(** The composed operations are sequences of the locked sections the step
    relation interleaves, given that a generated id is not in use and the
    arguments have their machine widths. *)
Theorem lease_operations_are_runs (m : LeaseManager) (id_bytes nonce : list byte) (created now ttl : Z)
    (ai : AgentInfo) (cref pname method pid reason : string) (scope : Scope) (c : PolicyConstraints)
    (alive : bool) :
  valid_time created -> in_u U64 ttl -> scope_fits scope -> constraints_fit c ->
  leases m !! lease_id_of id_bytes = None ->
  rtc lstep m (create_lease m id_bytes nonce created ai cref scope c pname method).1 /\
  rtc lstep m (delegate m id_bytes nonce created now pid ai scope ttl alive).1 /\
  rtc lstep m (renew_lease m now pid ttl).1 /\
  rtc lstep m (use_lease m now pid).1 /\
  rtc lstep m (sweep_expired m now) /\
  (forall m' r, revoke_lease m pid reason = Some (m', r) -> rtc lstep m m') /\
  (forall m' r fp, revoke_agent_leases m fp reason = Some (m', r) -> rtc lstep m m') /\
  (forall m' notice, handle_death_notice m notice = Some m' -> rtc lstep m m').
Proof.
  intros Hv Ht Hs Hc Hf. split_and!.
  - by apply create_lease_run.
  - by apply delegate_run.
  - by apply rtc_once, step_renew.
  - apply rtc_once, step_use.
  - apply rtc_once, step_sweep.
  - intros m' r Hr. eapply rtc_once, step_revoke. done.
  - intros m' r fp. apply revoke_agent_run.
  - intros m' notice. apply death_run.
Qed.

Lemma revoke_roots_none m reason ids revoked :
  (forall id, id ∈ ids -> is_root_lease (leases m) id = false) ->
  revoke_roots m reason ids revoked = Some (m, Ok revoked).
Proof.
  revert revoked. induction ids as [|id ids IH]; intros revoked Hn; simpl; [done|].
  rewrite Hn by set_solver. apply IH. set_solver.
Qed.

(** An agent that holds only delegated leases keeps them when it dies: no
    lease changes, nothing is reported revoked, and the agent's index entry
    is dropped all the same. *)
Theorem agent_death_keeps_delegated_leases (m : LeaseManager) (fp : list byte) (reason : string) :
  (forall id, id ∈ default [] (agent_leases m !! fp) -> is_root_lease (leases m) id = false) ->
  exists m', revoke_agent_leases m fp reason = Some (m', Ok []) /\ leases m' = leases m /\
    agent_leases m' !! fp = None.
Proof.
  intros Hn. unfold revoke_agent_leases. rewrite revoke_roots_none by done. simpl.
  eexists. split_and!; [done..|]. simpl. apply lookup_delete_eq.
Qed.
End Props.

(** ** A concrete manager *)

(** The range of [chrono] 0.4, in nanoseconds and in seconds. *)
Definition chrono_range : Chrono :=
  {| MIN_UTC := -8334601228800 * NANOS; MAX_UTC := 8210266876800 * NANOS;
     MAX_DELTA_SECS := 9223372036854775 |}.
Definition demo_hmac : HmacSha256 := {| hmac_sha256 := fun key msg => key ++ msg |}.
Definition demo_dns : Resolver :=
  {| lookup_host := fun _ => inl [V4 [Byte.x7f; Byte.x00; Byte.x00; Byte.x01]] |}.

#[local] Existing Instance chrono_range | 100.
#[local] Existing Instance demo_hmac | 100.
#[local] Existing Instance demo_dns | 100.
#[local] Existing Instance release_build | 100.

#[local] Instance chrono_range_laws : ChronoLaws (H:=chrono_range).
Proof. split; reflexivity. Qed.

Definition lead_agent : AgentInfo :=
  mkAgentInfo 1000 41 "/usr/bin/agent" [] 7 [Byte.xaa] None None.
Definition helper_agent : AgentInfo :=
  mkAgentInfo 1000 42 "/usr/bin/helper" [] 8 [Byte.xbb] None None.
Definition lead_scope : Scope :=
  mkScope ["api.github.com"] ["GET"] ["/repos/**"] [] (Some 600) (Some 2) None None.
Definition helper_scope : Scope :=
  mkScope ["api.github.com"] ["GET"] ["/repos/**"] [] None None None None.
Definition lead_constraints : PolicyConstraints :=
  mkPolicyConstraints None None None None true true None false.

Definition m_new : LeaseManager := manager_new [Byte.x01] true.
(** A root lease of the lead, then a lease delegated to the helper. *)
Definition m_lead : LeaseManager :=
  (create_lease m_new [Byte.x01] [Byte.x09] 0 lead_agent "github_api" lead_scope lead_constraints
     "gh" "auto").1.
Definition m_both : LeaseManager :=
  (delegate m_lead [Byte.x02] [Byte.x08] NANOS (2 * NANOS) "01" helper_agent helper_scope 60 true).1.

(** The lease stored under an id of the concrete managers. *)
Definition lease_in (m : LeaseManager) (id : string) : Lease :=
  match leases m !! id with
  | Some l => l
  | None => mkLease EmptyString EmptyString EmptyString EmptyString [] EmptyString 0 0 default_scope
              EmptyString [] ∅ Expired 0 0 0 0 None 0 0 0 0 false None [] 0 false None false
  end.

Lemma lead_fits : scope_fits lead_scope /\ constraints_fit lead_constraints.
Proof. split; split; simpl; intros x Hx; simplify_eq; unfold in_u, U64, U32; lia. Qed.

Lemma m_lead_reachable : reachable m_lead.
Proof.
  exists [Byte.x01], true. apply create_lease_run.
  - by split.
  - apply lead_fits.
  - apply lead_fits.
  - reflexivity.
Qed.

Lemma m_both_reachable : reachable m_both.
Proof.
  eapply reachable_run; [exact m_lead_reachable|]. apply delegate_run; [by split|by split|].
  vm_compute. reflexivity.
Qed.

Lemma leases_stay_in_order_witness :
  lease_id (lease_in m_both "02") = "02" /\ lease_ok (gate_key m_both) (lease_in m_both "02").
Proof.
  apply (leases_stay_in_order m_both "02" (lease_in m_both "02") m_both_reachable).
  vm_compute. reflexivity.
Defined.

Lemma m_both_descends : descends (leases m_both) "01" "02".
Proof.
  apply tc_once. exists (lease_in m_both "01"). split; [vm_compute; reflexivity|].
  apply list_elem_of_In. vm_compute. by left.
Qed.

(** Path patterns that name a path, or every path. *)
Definition plain_globs : Globset :=
  {| GlobT := string; GlobSetT := list string; glob_new := fun p => inl p; globset_build := fun gs => inl gs;
     globset_is_match := fun gs path => existsb (fun g => bool_decide (g = path) || bool_decide (g = "/repos/**")) gs |}.
Definition plain_globs_laws : GlobsetLaws (H:=plain_globs).
Proof.
  refine (@Build_GlobsetLaws plain_globs (fun (g : string) path => bool_decide (g = path) || bool_decide (g = "/repos/**")) _).
  intros gs set path [= <-]. reflexivity.
Defined.

#[local] Existing Instances plain_globs plain_globs_laws one_body.

Lemma descendants_stay_confined_witness :
  exists lp lc, leases m_both !! "01" = Some lp /\ leases m_both !! "02" = Some lc /\
    target_in_scope "get" "api.github.com" "/repos/a" (granted_scope lp).
Proof.
  destruct (descendants_stay_confined m_both "01" "02" m_both_reachable m_both_descends)
    as (lp & lc & Hp & Hc & _ & _ & _ & _ & _ & Hin).
  exists lp, lc. split; [exact Hp|]. split; [exact Hc|]. vm_compute in Hp, Hc. injection Hp as <-. injection Hc as <-.
  apply Hin.
  - split; [discriminate|]. split; discriminate.
  - eexists. reflexivity.
  - eexists. reflexivity.
  - split; [right; left|]. split; [left; reflexivity|]. split.
    + right. split; [eexists; reflexivity|]. exists "/repos/**". split; [left|]. exists "/repos/**". split; reflexivity.
    + right. exists "GET". split; [left|reflexivity].
Defined.

(** The lead hands on its lease without the methods and paths; the helper may
    then delete what the lead may only read. *)
Lemma delegation_can_widen_witness :
  exists child, delegate_checked 0 (60 * NANOS) NANOS "02" EmptyString [] ∅ "01" helper_agent (widened lead_scope) 60
      (lease_in m_lead "01") = Ok child /\
    in_scope "DELETE" "api.github.com" "/admin" None None (granted_scope child) /\
    ~ in_scope "DELETE" "api.github.com" "/admin" None None lead_scope.
Proof.
  destruct (delegation_can_widen 0 (60 * NANOS) NANOS "02" EmptyString [] ∅ "01" helper_agent 60 (lease_in m_lead "01")
    (match delegate_checked 0 (60 * NANOS) NANOS "02" EmptyString [] ∅ "01" helper_agent lead_scope 60 (lease_in m_lead "01") with
     | Ok l => l | _ => lease_in m_lead "01" end)) as (child & Hd & Hin).
  - vm_compute. reflexivity.
  - exists child. split; [exact Hd|]. split.
    + apply Hin; [right; left|left; reflexivity].
    + intros (_ & _ & _ & [Hm|(x & [->|Hx]%elem_of_cons & Hm)] & _); [discriminate Hm|discriminate Hm|by apply elem_of_nil in Hx].
Defined.

Lemma revocation_cascades_witness :
  exists m', revoke_lease m_both "01" "stop" = Some (m', Ok tt) /\
    leases m' !! "02" = Some (set_status (Revoked "stop") (lease_in m_both "02")).
Proof.
  destruct (revocation_cascades m_both "01" "stop" (lease_in m_both "01") m_both_reachable)
    as (m' & Hr & Hall); [vm_compute; reflexivity|].
  exists m'. split; [exact Hr|].
  apply (proj1 (Hall "02" (lease_in m_both "02") ltac:(vm_compute; reflexivity))).
  right. exact m_both_descends.
Defined.

(** The managers after the root was revoked, and after one more use attempt. *)
Definition m_dead : LeaseManager :=
  match revoke_lease m_both "01" "stop" with Some (m, _) => m | None => m_both end.

Lemma m_dead_reachable : reachable m_dead.
Proof.
  eapply reachable_run; [exact m_both_reachable|]. apply rtc_once.
  eapply (step_revoke _ "01" "stop" _ (Ok tt)). vm_compute. reflexivity.
Qed.

Lemma revoked_tree_is_dead_witness :
  use_lease (sweep_expired m_dead 5) 6 "02" = (sweep_expired m_dead 5, Err NotActive).
Proof.
  apply (revoked_tree_is_dead m_dead (sweep_expired m_dead 5) "01" "02" (lease_in m_dead "01") m_dead_reachable).
  - vm_compute. reflexivity.
  - vm_compute. reflexivity.
  - apply rtc_once, step_sweep.
  - right. eapply (run_descends m_dead); [apply rtc_once, step_sweep|].
    apply (run_descends m_both); [|exact m_both_descends]. apply rtc_once.
    eapply (step_revoke _ "01" "stop" _ (Ok tt)). vm_compute. reflexivity.
Defined.

Lemma request_quota_holds_witness :
  exists m', uses "01" 2 m_lead m' /\ Z.of_nat 2 <= 2 - requests_used (lease_in m_lead "01").
Proof.
  assert (uses "01" 2 m_lead (use_lease (use_lease m_lead 1 "01").1 2 "01").1) as Hu.
  { eapply (uses_one _ _ 1); [vm_compute; reflexivity|].
    eapply (uses_one _ _ 2); [vm_compute; reflexivity|]. apply uses_none. }
  eexists. split; [exact Hu|].
  apply (request_quota_holds m_lead (use_lease (use_lease m_lead 1 "01").1 2 "01").1 "01"
    (lease_in m_lead "01") 2 2 m_lead_reachable);
    [vm_compute; reflexivity|vm_compute; reflexivity|exact Hu].
Defined.

Lemma lease_lifetime_bounded_witness :
  600 * NANOS <= created_at (lease_in m_lead "01") +
    Z.max (ttl_seconds (lease_in m_lead "01")) (max_cumulative_ttl_seconds (lease_in m_lead "01")) * NANOS.
Proof.
  apply (lease_lifetime_bounded m_lead "01" (lease_in m_lead "01") (600 * NANOS) m_lead_reachable);
    vm_compute; reflexivity.
Defined.

Lemma agent_death_revokes_root_trees_witness :
  exists m' rv, revoke_agent_leases m_both [Byte.xaa] "agent process died" = Some (m', Ok rv) /\
    (exists lx, leases m' !! "02" = Some lx /\ is_revoked (status lx) = true).
Proof.
  destruct (agent_death_revokes_root_trees m_both [Byte.xaa] "agent process died" m_both_reachable)
    as (m' & rv & Hr & _ & Hall & _).
  exists m', rv. split; [exact Hr|]. apply (Hall "01" "02").
  - apply list_elem_of_In. vm_compute. by left.
  - vm_compute. reflexivity.
  - right. exact m_both_descends.
Defined.

Lemma renewal_accounting_witness :
  exists l l', leases m_lead !! "01" = Some l /\
    leases (renew_lease m_lead 5 "01" 60).1 = <[ "01" := l' ]> (leases m_lead) /\
    renewals_used l' = renewals_used l + 1.
Proof.
  pose proof (renewal_accounting m_lead 5 60 "01" m_lead_reachable
    ltac:(split; reflexivity || discriminate)) as Hren.
  assert (renew_lease m_lead 5 "01" 60 = ((renew_lease m_lead 5 "01" 60).1, Ok tt)) as E
    by (vm_compute; reflexivity).
  rewrite E in Hren. destruct Hren as (l & l' & Hl & Hm & _ & _ & _ & Hr & _).
  exists l, l'. exact (conj Hl (conj Hm Hr)).
Defined.

Lemma delegated_lease_starts_within_parent_witness :
  expires_at (lease_in m_both "02") <= expires_at (lease_in m_lead "01").
Proof.
  apply (delegated_lease_starts_within_parent m_lead m_both [Byte.x02] [Byte.x08] NANOS (2 * NANOS) 60 "01"
    helper_agent helper_scope true (lease_in m_lead "01") (lease_in m_both "02") m_lead_reachable).
  - vm_compute. reflexivity.
  - split; [discriminate|reflexivity].
  - discriminate.
  - vm_compute. reflexivity.
Defined.

Lemma lease_operations_are_runs_witness : rtc lstep m_new m_lead.
Proof.
  apply (lease_operations_are_runs m_new [Byte.x01] [Byte.x09] 0 0 60 lead_agent "github_api" "gh" "auto"
    "01" "stop" lead_scope lead_constraints true).
  - split; discriminate.
  - split; [discriminate|reflexivity].
  - apply lead_fits.
  - apply lead_fits.
  - reflexivity.
Defined.

(** The helper holds an active lease, dies, and the lease stays active. *)
Lemma agent_death_keeps_delegated_leases_witness :
  agent_fingerprint_hash (lease_in m_both "02") = [Byte.xbb] /\ status (lease_in m_both "02") = Active /\
  exists m', revoke_agent_leases m_both [Byte.xbb] "agent process died" = Some (m', Ok []) /\
    leases m' = leases m_both /\ agent_leases m' !! [Byte.xbb] = None.
Proof.
  split; [vm_compute; reflexivity|]. split; [vm_compute; reflexivity|].
  apply agent_death_keeps_delegated_leases. intros id Hid%list_elem_of_In. vm_compute in Hid.
  destruct Hid as [<-|[]]. vm_compute. reflexivity.
Defined.
