(* ===== verification/ProxyAuth.v ===== *)
(** * cdp-proxy: triple authentication

    [cdp-proxy/src/auth.rs]: the token, the channel binding and the process
    behind the peer socket, found through /proc.  The [http] crate's header
    map and URI are the fields of [HttpCrate], the /proc file system those of
    [ProcFs]. *)

From S2P Require Import Prelude RustStr Crypto PolicyTypes LeaseTypes AuditLog ProxyScope.

#[local] Arguments String.append !_ _ /.

(** ** Crates and operating system *)

(** [http::HeaderMap], [HeaderName], [HeaderValue] and [Uri].  Names are
    given and stored in their lowercase form. *)
Class HttpCrate : Type := {
  HeaderMap : Type;
  hm_get_all : HeaderMap -> string -> list (list byte);
  hm_remove : HeaderMap -> string -> HeaderMap;
  hm_insert : HeaderMap -> string -> list byte -> HeaderMap;
  hm_append : HeaderMap -> string -> list byte -> HeaderMap;
  header_name_from_bytes : list byte -> string + string;
  header_value_from_bytes : list byte -> list byte + string;
  header_value_from_str : string -> list byte + string;
  header_value_to_str : list byte -> option string;
  UriT : Type;
  uri_host : UriT -> option string;
  uri_port_u16 : UriT -> option Z;
  uri_scheme_str : UriT -> option string;
  uri_path : UriT -> string;
  uri_parse : string -> UriT + string
}.

(** [headers.get(name)]: the first value. *)
Definition hm_get `{HttpCrate} (h : HeaderMap) (name : string) : option (list byte) :=
  head (hm_get_all h name).

(** What the code relies on of the header map. *)
Class HeaderMapLaws `{HttpCrate} : Prop := {
  get_all_remove : forall h n n',
    hm_get_all (hm_remove h n) n' = if bool_decide (n = n') then [] else hm_get_all h n';
  get_all_insert : forall h n v n',
    hm_get_all (hm_insert h n v) n' = if bool_decide (n = n') then [v] else hm_get_all h n';
  get_all_append : forall h n v n',
    hm_get_all (hm_append h n v) n' = if bool_decide (n = n') then hm_get_all h n' ++ [v] else hm_get_all h n';
  (** A lowercase token is a header name and is its own normal form. *)
  name_from_lowercase : forall n,
    n ∈ ["x-cdp-lease-token"; "x-cdp-channel-binding"; "authorization"; "set-cookie";
         "www-authenticate"; "proxy-authorization"; "host"; "location"; "content-type"] ->
    header_name_from_bytes (as_bytes n) = inl n;
  (** Letters of a name are lowered. *)
  name_authorization : header_name_from_bytes (as_bytes "Authorization") = inl "authorization";
  (** [to_str] accepts visible ASCII only. *)
  to_str_ascii : forall v s, header_value_to_str v = Some s -> is_ascii s = true
}.

(** Files, directories and links under /proc, as read at one instant.
    [read_dir] lists the entries that could be read, by name. *)
Class ProcFs : Type := {
  read_to_string : string -> string + string;
  read_dir : string -> list string + string;
  read_link : string -> option string
}.

(** [SocketAddr] *)
Record SocketAddr : Type := mkSocketAddr { sa_ip : IpAddr; sa_port : Z }.

(** [{addr}] and [{ip}] for addresses, [{ips:?}] for a list of them and
    [{status}] for a status code. *)
Class FmtAddr : Type := {
  display_addr : SocketAddr -> string;
  display_ip : IpAddr -> string;
  debug_ips : list IpAddr -> string;
  display_status : Z -> string
}.

(** ** Addresses in /proc/net/tcp *)

Definition upper_hex_digit (n : N) : Ascii.ascii :=
  if (n <? 10)%N then Ascii.ascii_of_N (48 + n) else Ascii.ascii_of_N (55 + n).

(** [{x:0kX}]: at least [k] uppercase digits; [k] is enough for the values
    printed here. *)
Fixpoint upper_hex (k : nat) (x : N) : string :=
  match k with
  | O => EmptyString
  | S k' => upper_hex k' (x / 16)%N +:+ String (upper_hex_digit (x mod 16)%N) EmptyString
  end.

(** [u32::from_le_bytes] *)
Definition from_le_bytes (l : list byte) : N := from_be_bytes (rev l).

Definition ipv4_to_proc_hex (octets : list byte) : string := upper_hex 8 (from_le_bytes octets).

(** [octets.chunks(4)] *)
Fixpoint ipv6_words (octets : list byte) : string :=
  match octets with
  | a :: b :: c :: d :: rest => upper_hex 8 (from_le_bytes [a; b; c; d]) +:+ ipv6_words rest
  | _ => EmptyString
  end.

Definition ipv6_to_proc_hex (octets : list byte) : string := ipv6_words octets.

Definition target_local (addr : SocketAddr) : string :=
  match sa_ip addr with
  | V4 octets => ipv4_to_proc_hex octets +:+ ":" +:+ upper_hex 4 (Z.to_N (sa_port addr))
  | V6 octets => ipv6_to_proc_hex octets +:+ ":" +:+ upper_hex 4 (Z.to_N (sa_port addr))
  end.

Section Auth.
Context `{Fmt} `{FmtAddr}.

(** The loop over the lines after the header. *)
Fixpoint scan_tcp_lines (target : string) (target_addr : SocketAddr) (ls : list string)
    : result Z ProxyError :=
  match ls with
  | [] => Err (AuthFailed ("no /proc/net/tcp entry found for " +:+ display_addr target_addr))
  | line :: rest =>
      let fields := split_whitespace line in
      if (length fields <? 10)%nat then scan_tcp_lines target target_addr rest
      else if bool_decide (default EmptyString (fields !! 1%nat) = target) then
        let f9 := default EmptyString (fields !! 9%nat) in
        ok_or (parse_u U64 f9)
          (AuthFailed ("cannot parse inode " +:+ debug_str f9 +:+ " in /proc/net/tcp"))
      else scan_tcp_lines target target_addr rest
  end.

Definition parse_proc_net_tcp (content : string) (target_addr : SocketAddr) : result Z ProxyError :=
  scan_tcp_lines (target_local target_addr) target_addr (tail (lines content)).

Context `{ProcFs}.

Definition find_socket_inode (remote_addr : SocketAddr) : result Z ProxyError :=
  let proc_path := match sa_ip remote_addr with
                   | V4 _ => "/proc/net/tcp"
                   | V6 _ => "/proc/net/tcp6"
                   end in
  match read_to_string proc_path with
  | inr e => Err (AuthFailed ("cannot read " +:+ proc_path +:+ ": " +:+ e))
  | inl content => parse_proc_net_tcp content remote_addr
  end.

(** The scan of one process's descriptors. *)
Fixpoint owns_link (fd_dir target_link : string) (fds : list string) : bool :=
  match fds with
  | [] => false
  | fd :: rest =>
      match read_link (fd_dir +:+ "/" +:+ fd) with
      | Some target =>
          if bool_decide (to_string_lossy target = target_link) then true
          else owns_link fd_dir target_link rest
      | None => owns_link fd_dir target_link rest
      end
  end.

Fixpoint scan_proc (target_link : string) (entries : list string) : option Z :=
  match entries with
  | [] => None
  | name :: rest =>
      match parse_u U32 (to_string_lossy name) with
      | None => scan_proc target_link rest
      | Some pid =>
          let fd_dir := "/proc/" +:+ display_Z pid +:+ "/fd" in
          match read_dir fd_dir with
          | inr _ => scan_proc target_link rest
          | inl fds => if owns_link fd_dir target_link fds then Some pid else scan_proc target_link rest
          end
      end
  end.

Definition find_pid_for_inode (target_inode : Z) : result Z ProxyError :=
  let target_link := "socket:[" +:+ display_Z target_inode +:+ "]" in
  match read_dir "/proc" with
  | inr e => Err (AuthFailed ("cannot read /proc: " +:+ e))
  | inl entries =>
      ok_or (scan_proc target_link entries)
        (AuthFailed ("no process found owning socket inode " +:+ display_Z target_inode))
  end.

Fixpoint scan_status (status_path : string) (ls : list string) : result Z ProxyError :=
  match ls with
  | [] => Err (AuthFailed ("Uid: line not found in " +:+ status_path))
  | line :: rest =>
      match strip_prefix "Uid:" line with
      | None => scan_status status_path rest
      | Some tail_ =>
          let fields := split_whitespace tail_ in
          if (length fields <? 2)%nat then
            Err (AuthFailed ("unexpected Uid: line format in " +:+ status_path))
          else ok_or (parse_u U32 (default EmptyString (fields !! 1%nat)))
                 (AuthFailed ("cannot parse effective UID from " +:+ status_path))
      end
  end.

Definition read_uid_for_pid (pid : Z) : result Z ProxyError :=
  let status_path := "/proc/" +:+ display_Z pid +:+ "/status" in
  match read_to_string status_path with
  | inr e => Err (AuthFailed ("cannot read " +:+ status_path +:+ ": " +:+ e))
  | inl content => scan_status status_path (lines content)
  end.

Definition resolve_tcp_peer (remote_addr : SocketAddr) : result (Z * Z) ProxyError :=
  let! inode := find_socket_inode remote_addr in
  let! pid := find_pid_for_inode inode in
  let! uid := read_uid_for_pid pid in
  Ok (pid, uid).

(** ** authenticate *)

Definition HEADER_LEASE_TOKEN : string := "x-cdp-lease-token".
Definition HEADER_CHANNEL_BINDING : string := "x-cdp-channel-binding".

Context `{HttpCrate} `{HmacSha256}.

Definition extract_header (headers : HeaderMap) (name : string) : option string :=
  v ← hm_get headers name; header_value_to_str v.

Definition authenticate (remote_addr : SocketAddr) (headers : HeaderMap) (lease_id : string)
    (lease : Lease) (gate_key : list byte) : result unit ProxyError :=
  let! token_str := ok_or (extract_header headers HEADER_LEASE_TOKEN)
    (AuthFailed "missing X-CDP-Lease-Token header") in
  let! cb_hex := ok_or (extract_header headers HEADER_CHANNEL_BINDING)
    (AuthFailed "missing X-CDP-Channel-Binding header") in
  let! decoded := hex_to_bytes cb_hex in
  let! cb_bytes := ok_or decoded (AuthFailed "X-CDP-Channel-Binding is not valid hex") in
  let! token_ok := verify_lease_token gate_key lease_id (agent_fingerprint_hash lease)
    (channel_binding_nonce lease) token_str in
  if negb token_ok then Err (AuthFailed "lease token verification failed")
  else if negb (verify_binding (channel_binding_nonce lease) cb_bytes) then
    Err (AuthFailed "channel binding nonce mismatch")
  else
    let! '(peer_pid, peer_uid) := resolve_tcp_peer remote_addr in
    if negb (peer_pid =? agent_pid lease) then
      Err (AuthFailed ("peer PID " +:+ display_Z peer_pid +:+ " does not match lease PID " +:+
                       display_Z (agent_pid lease)))
    else if negb (peer_uid =? agent_uid lease) then
      Err (AuthFailed ("peer UID " +:+ display_Z peer_uid +:+ " does not match lease UID " +:+
                       display_Z (agent_uid lease)))
    else Ok tt.
End Auth.

(** ** Address encoding *)

Lemma upper_hex_digit_inj a b : (a < 16)%N -> (b < 16)%N -> upper_hex_digit a = upper_hex_digit b -> a = b.
Proof.
  intros Ha Hb. unfold upper_hex_digit. intros E. apply (f_equal Ascii.N_of_ascii) in E.
  destruct (N.ltb_spec a 10), (N.ltb_spec b 10); rewrite !Ascii.N_ascii_embedding in E by lia; lia.
Qed.

Lemma length_append_str a b : String.length (a +:+ b) = (String.length a + String.length b)%nat.
Proof. induction a as [|c a IH]; simpl; [done|]. by rewrite IH. Qed.

Lemma length_upper_hex k x : String.length (upper_hex k x) = k.
Proof.
  revert x. induction k as [|k IH]; intros x; [done|]. simpl. rewrite length_append_str, IH. simpl. lia.
Qed.

Lemma append_eq_len a b c d :
  String.length a = String.length c -> a +:+ b = c +:+ d -> a = c /\ b = d.
Proof.
  revert c. induction a as [|x a IH]; intros [|y c]; simpl; try discriminate; [done|].
  intros [= Hl] [= -> E]. by destruct (IH _ Hl E) as [-> ->].
Qed.

Lemma upper_hex_inj k x y :
  (x < 16 ^ N.of_nat k)%N -> (y < 16 ^ N.of_nat k)%N -> upper_hex k x = upper_hex k y -> x = y.
Proof.
  revert x y. induction k as [|k IH]; intros x y Hx Hy; simpl.
  { change (16 ^ N.of_nat 0)%N with 1%N in *. lia. }
  rewrite Nat2N.inj_succ, N.pow_succ_r' in Hx, Hy.
  intros [Hq Hr]%append_eq_len; [|by rewrite !length_upper_hex].
  apply IH in Hq; [|apply N.Div0.div_lt_upper_bound; lia..].
  injection Hr as Hr. apply upper_hex_digit_inj in Hr; [|apply N.mod_lt; lia..].
  rewrite (N.div_mod x 16), (N.div_mod y 16) by lia. congruence.
Qed.

Lemma from_be_bytes_lt l : (from_be_bytes l < 256 ^ N.of_nat (length l))%N.
Proof.
  induction l as [|b l IH] using rev_ind; [done|].
  rewrite from_be_bytes_snoc, length_app. simpl.
  rewrite Nat2N.inj_add, N.pow_add_r. change (256 ^ N.of_nat 1)%N with 256%N.
  pose proof (Byte.to_N_bounded b). lia.
Qed.

Lemma from_be_bytes_inj l1 l2 :
  length l1 = length l2 -> from_be_bytes l1 = from_be_bytes l2 -> l1 = l2.
Proof.
  revert l2. induction l1 as [|b1 l1 IH] using rev_ind; intros l2.
  { by destruct l2. }
  destruct l2 as [|b2 l2 _] using rev_ind; [rewrite length_app; simpl; lia|].
  rewrite !length_app, !from_be_bytes_snoc. simpl. intros Hl E.
  pose proof (Byte.to_N_bounded b1). pose proof (Byte.to_N_bounded b2).
  assert (from_be_bytes l1 = from_be_bytes l2) as E1 by lia.
  assert (Byte.to_N b1 = Byte.to_N b2) as E2 by lia.
  rewrite (IH l2) by (done || lia). f_equal. f_equal.
  apply (f_equal Byte.of_N) in E2. rewrite !Byte.of_to_N in E2. congruence.
Qed.

Lemma word_hex_inj l1 l2 :
  length l1 = 4%nat -> length l2 = 4%nat ->
  upper_hex 8 (from_le_bytes l1) = upper_hex 8 (from_le_bytes l2) -> l1 = l2.
Proof.
  intros Hl1 Hl2 E. apply upper_hex_inj in E.
  - apply from_be_bytes_inj in E; [|by rewrite !length_rev, Hl1, Hl2].
    by rewrite <- (rev_involutive l1), E, rev_involutive.
  - pose proof (from_be_bytes_lt (rev l1)). by rewrite length_rev, Hl1 in *.
  - pose proof (from_be_bytes_lt (rev l2)). by rewrite length_rev, Hl2 in *.
Qed.

(** An address the standard library can hold. *)
Definition valid_addr (a : SocketAddr) : Prop :=
  in_u U16 (sa_port a) /\
  match sa_ip a with V4 o => length o = 4%nat | V6 o => length o = 16%nat end.

Lemma ipv6_words_inj n : forall l1 l2,
  length l1 = (4 * n)%nat -> length l2 = (4 * n)%nat -> ipv6_words l1 = ipv6_words l2 -> l1 = l2.
Proof.
  induction n as [|n IH]; intros l1 l2 Hl1 Hl2.
  { destruct l1; [|done]. by destruct l2. }
  destruct l1 as [|a1 [|b1 [|c1 [|d1 l1]]]]; simpl in Hl1; try lia.
  destruct l2 as [|a2 [|b2 [|c2 [|d2 l2]]]]; simpl in Hl2; try lia.
  cbn [ipv6_words]. intros [Hw Hrest]%append_eq_len; [|by rewrite !length_upper_hex].
  apply word_hex_inj in Hw; [|done..]. apply IH in Hrest; [|lia..]. by simplify_eq.
Qed.

Lemma length_ipv6_words n : forall l, length l = (4 * n)%nat -> String.length (ipv6_words l) = (8 * n)%nat.
Proof.
  induction n as [|n IH]; intros l Hl; [by destruct l|].
  destruct l as [|a [|b [|c [|d l]]]]; simpl in Hl; try lia. cbn [ipv6_words].
  rewrite length_append_str, length_upper_hex, IH by lia. lia.
Qed.

(** The text looked for in /proc/net/tcp names one address and port only, so
    a matching line belongs to the peer's own socket address. *)
Theorem proc_address_unambiguous (a b : SocketAddr) :
  valid_addr a -> valid_addr b -> target_local a = target_local b -> a = b.
Proof.
  destruct a as [ia pa], b as [ib pb]. unfold valid_addr, target_local. cbn [sa_ip sa_port].
  intros [Hpa Hia] [Hpb Hib] E.
  assert (forall x y, in_u U16 x -> in_u U16 y -> ":" +:+ upper_hex 4 (Z.to_N x) = ":" +:+ upper_hex 4 (Z.to_N y) ->
    x = y) as Hport.
  { unfold in_u, U16. intros x y Hx Hy Ep%append_inj_l.
    apply upper_hex_inj in Ep; [lia|change (16 ^ N.of_nat 4)%N with (Z.to_N (2 ^ 16)); lia..]. }
  destruct ia as [oa|oa], ib as [ob|ob]; unfold ipv4_to_proc_hex, ipv6_to_proc_hex in E.
  - apply append_eq_len in E as [Ei Ep]; [|by rewrite !length_upper_hex].
    apply word_hex_inj in Ei; [|done..]. apply Hport in Ep; [|done..]. congruence.
  - apply (f_equal String.length) in E. rewrite !length_append_str, !length_upper_hex in E.
    rewrite (length_ipv6_words 4) in E by done. lia.
  - apply (f_equal String.length) in E. rewrite !length_append_str, !length_upper_hex in E.
    rewrite (length_ipv6_words 4) in E by done. lia.
  - apply append_eq_len in E as [Ei Ep]; [|by rewrite !(length_ipv6_words 4)].
    apply (ipv6_words_inj 4) in Ei; [|done..]. apply Hport in Ep; [|done..]. congruence.
Qed.

Lemma proc_address_unambiguous_witness :
  target_local (mkSocketAddr (V4 [Byte.x7f; Byte.x00; Byte.x00; Byte.x01]) 8080) = "0100007F:1F90" /\
  target_local (mkSocketAddr (V4 [Byte.x7f; Byte.x00; Byte.x00; Byte.x01]) 8080) <>
  target_local (mkSocketAddr (V4 [Byte.x01; Byte.x00; Byte.x00; Byte.x7f]) 8080).
Proof.
  split; [vm_compute; reflexivity|]. intros E.
  apply proc_address_unambiguous in E; [discriminate| |]; split; (reflexivity || (split; [discriminate|reflexivity])).
Defined.

(** ** Authentication *)

Section AuthSpec.
Context `{Fmt} `{FmtAddr} `{ProcFs} `{HttpCrate} `{!HeaderMapLaws} `{HmacSha256}.

Lemma extract_header_ascii hs n v : extract_header hs n = Some v -> is_ascii v = true.
Proof. unfold extract_header. intros (b & _ & Hb)%bind_Some. by eapply to_str_ascii. Qed.

Lemma scan_tcp_lines_no_panic t a ls : scan_tcp_lines t a ls <> Panic.
Proof.
  induction ls as [|x ls IH]; simpl; [done|]. destruct (_ <? _)%nat; [done|].
  destruct (bool_decide _); [apply ok_or_no_panic|done].
Qed.

Lemma scan_status_no_panic p ls : scan_status p ls <> Panic.
Proof.
  induction ls as [|x ls IH]; cbn [scan_status]; [done|]. destruct (strip_prefix _ x); [|done].
  destruct (_ <? _)%nat; [done|apply ok_or_no_panic].
Qed.

Lemma resolve_tcp_peer_no_panic remote : resolve_tcp_peer remote <> Panic.
Proof.
  unfold resolve_tcp_peer. apply rbind_no_panic.
  { unfold find_socket_inode. destruct (read_to_string _); [apply scan_tcp_lines_no_panic|done]. }
  intros inode. apply rbind_no_panic.
  { unfold find_pid_for_inode. destruct (read_dir _); [apply ok_or_no_panic|done]. }
  intros pid. apply rbind_no_panic; [|done].
  unfold read_uid_for_pid. destruct (read_to_string _); [apply scan_status_no_panic|done].
Qed.

Lemma peer_check_ok remote l e1 e2 :
  (let! '(peer_pid, peer_uid) := resolve_tcp_peer remote in
   if negb (peer_pid =? agent_pid l) then Err (e1 peer_pid)
   else if negb (peer_uid =? agent_uid l) then Err (e2 peer_uid) else Ok tt) = Ok tt <->
  resolve_tcp_peer remote = Ok (agent_pid l, agent_uid l).
Proof.
  rewrite rbind_ok. split.
  - intros ([pid uid] & -> & Hk). rewrite !guard_ok in Hk. destruct Hk as (? & ? & _). bool_to_prop. by subst.
  - intros Hr. eexists. split; [exact Hr|]. simpl. by rewrite !Z.eqb_refl.
Qed.

Lemma authenticate_no_panic remote hs id l key : authenticate remote hs id l key <> Panic.
Proof.
  unfold authenticate.
  destruct (extract_header hs HEADER_LEASE_TOKEN) as [tok|] eqn:Et; simpl; [|done].
  destruct (extract_header hs HEADER_CHANNEL_BINDING) as [cb|] eqn:Ec; simpl; [|done].
  destruct (hex_to_bytes_ascii (E:=ProxyError) cb (extract_header_ascii _ _ _ Ec)) as [dec ->]. simpl.
  apply rbind_no_panic; [apply ok_or_no_panic|]. intros cbb.
  destruct (verify_lease_token_ascii (E:=ProxyError) key id (agent_fingerprint_hash l)
    (channel_binding_nonce l) tok (extract_header_ascii _ _ _ Et)) as [b ->]. simpl.
  destruct b; simpl; [|done]. destruct (verify_binding _ _); simpl; [|done].
  apply rbind_no_panic; [apply resolve_tcp_peer_no_panic|]. intros [pid uid].
  destruct (pid =? _); simpl; [|done]. by destruct (uid =? _).
Qed.

Lemma authenticate_ok remote hs id l key :
  length (channel_binding_nonce l) = 32%nat ->
  authenticate remote hs id l key = Ok tt <->
  exists tok cb,
    extract_header hs HEADER_LEASE_TOKEN = Some tok /\ extract_header hs HEADER_CHANNEL_BINDING = Some cb /\
    hex_to_bytes (E:=ProxyError) tok = Ok (Some (compute_hmac_bytes key LEASE_DOMAIN
      [as_bytes id; agent_fingerprint_hash l; channel_binding_nonce l])) /\
    hex_to_bytes (E:=ProxyError) cb = Ok (Some (channel_binding_nonce l)) /\
    resolve_tcp_peer remote = Ok (agent_pid l, agent_uid l).
Proof.
  intros Hlen. unfold authenticate. split.
  - intros (tok & Htok%ok_or_ok & (cb & Hcb%ok_or_ok & (dec & Hdec & (cbb & ->%ok_or_ok & (ok & Hok & Hk)%rbind_ok)%rbind_ok)%rbind_ok)%rbind_ok)%rbind_ok.
    rewrite !guard_ok, peer_check_ok, !negb_false_iff in Hk. destruct Hk as (-> & Hb & Hp).
    apply (verify_binding_spec _ _ Hlen) in Hb as <-. apply verify_lease_token_true in Hok.
    exists tok, cb. by split_and!.
  - intros (tok & cb & -> & -> & Htok & Hcb & Hp). simpl. rewrite Hcb. simpl.
    apply verify_lease_token_true in Htok as ->. simpl.
    rewrite (proj2 (verify_binding_spec _ _ Hlen)) by done. simpl. by apply peer_check_ok.
Qed.

(** C15. Three factors, all of them needed and together enough: the token header
    decodes to the HMAC of the lease's own id, fingerprint and nonce, the
    binding header decodes to the lease's nonce, and the peer socket is owned
    by the lease's process and user.  No request makes the check panic. *)
Theorem authentication_needs_all_factors (remote : SocketAddr) (hs : HeaderMap) (id : string)
    (l : Lease) (key : list byte) :
  length (channel_binding_nonce l) = 32%nat ->
  authenticate remote hs id l key <> Panic /\
  (authenticate remote hs id l key = Ok tt <->
   exists tok cb,
     extract_header hs HEADER_LEASE_TOKEN = Some tok /\ extract_header hs HEADER_CHANNEL_BINDING = Some cb /\
     hex_to_bytes (E:=ProxyError) tok = Ok (Some (compute_hmac_bytes key LEASE_DOMAIN
       [as_bytes id; agent_fingerprint_hash l; channel_binding_nonce l])) /\
     hex_to_bytes (E:=ProxyError) cb = Ok (Some (channel_binding_nonce l)) /\
     resolve_tcp_peer remote = Ok (agent_pid l, agent_uid l)).
Proof.
  intros Hlen. split.
  - apply authenticate_no_panic.
  - by apply authenticate_ok.
Qed.
End AuthSpec.

(** ** A concrete header map *)

Definition pairs_without (n : string) (h : list (string * list byte)) : list (string * list byte) :=
  List.filter (fun kv => negb (bool_decide (kv.1 = n))) h.

(** Headers as pairs in order; URIs as (scheme, host, port, path). *)
Definition list_http : HttpCrate :=
  {| HeaderMap := list (string * list byte);
     hm_get_all := fun h n => map snd (List.filter (fun kv => bool_decide (kv.1 = n)) h);
     hm_remove := fun h n => pairs_without n h;
     hm_insert := fun h n v => pairs_without n h ++ [(n, v)];
     hm_append := fun h n v => h ++ [(n, v)];
     header_name_from_bytes := fun b => inl (lowercase (of_bytes b));
     header_value_from_bytes := fun b => inl b;
     header_value_from_str := fun s => if is_ascii s then inl (as_bytes s) else inr "invalid header value";
     header_value_to_str := fun b => if is_ascii (of_bytes b) then Some (of_bytes b) else None;
     UriT := option string * option string * option Z * string;
     uri_host := fun u => u.1.1.2;
     uri_port_u16 := fun u => u.1.2;
     uri_scheme_str := fun u => u.1.1.1;
     uri_path := fun u => u.2;
     uri_parse := fun s => inl (Some "http", Some s, None, "/") |}.

Lemma filter_without n n' h :
  List.filter (fun kv : string * list byte => bool_decide (kv.1 = n')) (pairs_without n h) =
  if bool_decide (n = n') then [] else List.filter (fun kv => bool_decide (kv.1 = n')) h.
Proof.
  unfold pairs_without. induction h as [|[k v] h IH]; simpl; [by destruct (bool_decide (n = n'))|].
  destruct (bool_decide (k = n)) eqn:E1; bool_to_prop; simpl; rewrite IH.
  - subst. by destruct (bool_decide (n = n')) eqn:E2.
  - destruct (bool_decide (k = n')) eqn:E3; bool_to_prop; simpl; [|done].
    by rewrite bool_decide_eq_false_2 by congruence.
Qed.

Lemma list_http_laws : HeaderMapLaws (H:=list_http).
Proof.
  split; simpl.
  - intros h n n'. rewrite filter_without. by destruct (bool_decide _).
  - intros h n v n'. rewrite List.filter_app, filter_without. simpl.
    by destruct (bool_decide (n = n')); simpl; rewrite ?app_nil_r.
  - intros h n v n'. rewrite List.filter_app, map_app. simpl.
    by destruct (bool_decide (n = n')); simpl; rewrite ?app_nil_r.
  - intros n Hn. repeat (apply elem_of_cons in Hn as [->|Hn]; [reflexivity|]). by apply elem_of_nil in Hn.
  - reflexivity.
  - intros v s. destruct (is_ascii _) eqn:E; [|done]. by intros [= <-].
Qed.

(** A host where process 41 of user 1000 owns the socket 127.0.0.1:8080. *)
Definition plain_addr : FmtAddr :=
  {| display_addr := fun _ => "addr"; display_ip := fun _ => "ip"; debug_ips := fun _ => "[ip]";
     display_status := display_Z |}.

Definition nl : string := String newline EmptyString.

Definition demo_proc : ProcFs :=
  {| read_to_string := fun p =>
       if bool_decide (p = "/proc/net/tcp") then
         inl ("sl local_address rem_address" +:+ nl +:+
              "0: 0100007F:1F90 0100007F:4A38 01 0:0 00:0 0 1000 0 777 1" +:+ nl)
       else if bool_decide (p = "/proc/41/status") then inl ("Name: agent" +:+ nl +:+ "Uid: 1000 1000 1000 1000" +:+ nl)
       else inr "not found";
     read_dir := fun p =>
       if bool_decide (p = "/proc") then inl ["self"; "41"]
       else if bool_decide (p = "/proc/41/fd") then inl ["3"] else inr "not found";
     read_link := fun p => if bool_decide (p = "/proc/41/fd/3") then Some "socket:[777]" else None |}.

Definition demo_mac : HmacSha256 := {| hmac_sha256 := fun key msg => key ++ msg |}.
Definition demo_nonce : list byte := replicate 32 Byte.x5a.
Definition demo_peer : SocketAddr := mkSocketAddr (V4 [Byte.x7f; Byte.x00; Byte.x00; Byte.x01]) 8080.

Definition github_ip : IpAddr := V4 [Byte.x8c; Byte.x52; Byte.x79; Byte.x05].

Definition proxied_lease : Lease :=
  mkLease "11" "github_api" "gh" "auto" [Byte.xaa] "/usr/bin/agent" 1000 41
    (mkScope ["api.github.com"; "gist.github.com"] ["GET"] [] [] None None None None)
    (generate_lease_token (H:=demo_mac) [Byte.x01] "11" [Byte.xaa] demo_nonce) demo_nonce
    (<["api.github.com" := [github_ip]]> (<["gist.github.com" := [github_ip]]> ∅))
    Active 0 (600 * NANOS) 600 600 None 0 0 3 14400 true None [] 0 false None true.

Definition auth_headers : list (string * list byte) :=
  [("host", as_bytes "api.github.com:80"); ("x-cdp-lease-token", as_bytes (lease_token proxied_lease));
   ("x-cdp-channel-binding", as_bytes (bytes_to_hex demo_nonce))].

Lemma authentication_needs_all_factors_witness :
  authenticate (H:=plain_fmt) (H0:=plain_addr) (H1:=demo_proc) (H2:=list_http) (H3:=demo_mac)
    demo_peer auth_headers "11" proxied_lease [Byte.x01] = Ok tt.
Proof.
  apply (authentication_needs_all_factors (H:=plain_fmt) (H0:=plain_addr) (H1:=demo_proc) (H2:=list_http)
    (H3:=list_http_laws) (H4:=demo_mac) demo_peer auth_headers "11" proxied_lease [Byte.x01]); [reflexivity|].
  exists (lease_token proxied_lease), (bytes_to_hex demo_nonce). split_and!; vm_compute; reflexivity.
Defined.
