(* ===== verification/PolicyWatcher.v ===== *)
(** * cdp-policy: hot reload

    [cdp-policy/src/watcher.rs] and [start_watcher] of [lib.rs].  The watcher
    is a state machine beside a disk that others change at any moment: each
    round opens a fresh inotify instance, reads one batch of events, waits,
    reloads the directory and sends the result; another task takes what was
    sent and installs it. *)

From S2P Require Import Prelude RustStr PolicyTypes PolicyParser PolicyEvaluator PolicyEngine ProxyAuth.

(** ** Who changed a file *)

Definition KNOWN_EDITORS : list string :=
  ["vim"; "nvim"; "nano"; "code"; "kate"; "gedit"; "emacs"; "helix"; "subl"; "micro"; "vi"].

Definition is_known_editor (binary_path : string) : bool :=
  match path_file_name binary_path ≫= to_str with
  | Some name => contains KNOWN_EDITORS name
  | None => false
  end.

Section Identify.
Context `{ProcFs}.

Fixpoint holds_file (fd_dir target : string) (fds : list string) : bool :=
  match fds with
  | [] => false
  | fd :: rest =>
      match read_link (path_join fd_dir fd) with
      | Some link_target => if bool_decide (link_target = target) then true else holds_file fd_dir target rest
      | None => holds_file fd_dir target rest
      end
  end.

Fixpoint scan_holders (target : string) (entries : list string) : option (Z * string) :=
  match entries with
  | [] => None
  | name :: rest =>
      match to_str name ≫= parse_u U32 with
      | None => scan_holders target rest
      | Some pid =>
          let fd_dir := path_join (path_join "/proc" name) "fd" in
          match read_dir fd_dir with
          | inr _ => scan_holders target rest
          | inl fds =>
              if holds_file fd_dir target fds then
                let exe_path := "/proc/" +:+ display_Z pid +:+ "/exe" in
                Some (pid, unwrap_or (read_link exe_path) exe_path)
              else scan_holders target rest
          end
      end
  end.

(** [canonical] is what [std::fs::canonicalize] says of the path. *)
Definition identify_modifier (canonical : option string) (file_path : string) : option (Z * string) :=
  let target := unwrap_or canonical file_path in
  match read_dir "/proc" with
  | inr _ => None
  | inl entries => scan_holders target entries
  end.

(** What is logged of an event. *)
Inductive Notice : Type :=
| ByEditor (pid : Z) (binary file : string)
| SecurityAlert (pid : Z) (binary file : string)
| Unidentified (file : string).

Definition notices (canonicalize : string -> option string) (policy_dir : string) (events : list (option string))
    : list Notice :=
  omap (fun ev =>
    match ev with
    | None => None
    | Some name =>
        let path := path_join policy_dir name in
        Some (match identify_modifier (canonicalize path) path with
              | Some (pid, binary) => if is_known_editor binary then ByEditor pid binary path
                                      else SecurityAlert pid binary path
              | None => Unidentified path
              end)
    end) events.
End Identify.

(** ** The two tasks *)

(** Where the watcher is in a round: not watching, blocked on a watch with
    the events queued so far, between a batch and its reload, waiting to hand
    over what it loaded, or done. *)
Inductive Phase : Type :=
| Unarmed
| Armed (queue : list (option string))
| Settling (events : list (option string))
| Sending (entries : list PolicyEntry)
| Stopped.

Record Watching : Type := mkWatching {
  w_disk : PolicyFs;
  w_phase : Phase;
  w_channel : list (list PolicyEntry);
  w_engine : PolicyEngine
}.

(** The channel's capacity. *)
Definition RELOAD_CAPACITY : nat := 4.

Section Watch.
Context `{Fmt}.

Definition set_phase (w : Watching) (p : Phase) : Watching := mkWatching (w_disk w) p (w_channel w) (w_engine w).

(** Someone changes the directory; only an open watch records it. *)
Definition disk_change (fs : PolicyFs) (name : option string) (w : Watching) : Watching :=
  mkWatching fs (match w_phase w with Armed q => Armed (q ++ [name]) | p => p end) (w_channel w) (w_engine w).

(** The end of a round: the directory is loaded as it is now, and what it held
    is sent; the send waits for room in the channel. *)
Definition reload_round (w : Watching) : Watching :=
  match load_policies_from_dir (H0:=w_disk w) (policy_dir (w_engine w)) with
  | Ok entries => set_phase w (Sending entries)
  | _ => set_phase w Unarmed
  end.

Definition send_entries (entries : list PolicyEntry) (w : Watching) : Watching :=
  mkWatching (w_disk w) Unarmed (w_channel w ++ [entries]) (w_engine w).

(** Steps of the two tasks themselves. *)
Inductive wtask : Watching -> Watching -> Prop :=
(** [read_inotify_events] opens its own watch, or fails. *)
| w_arm w : w_phase w = Unarmed -> wtask w (set_phase w (Armed []))
| w_arm_fails w : w_phase w = Unarmed -> wtask w (set_phase w Stopped)
(** The blocking read returns once something is queued, and drops the watch. *)
| w_read w q : w_phase w = Armed q -> q <> [] -> wtask w (set_phase w (Settling q))
| w_read_fails w q : w_phase w = Armed q -> wtask w (set_phase w Stopped)
| w_reload w q : w_phase w = Settling q -> wtask w (reload_round w)
(** [send] returns when there is room, or fails when the receiver is gone. *)
| w_send w entries : w_phase w = Sending entries -> (length (w_channel w) < RELOAD_CAPACITY)%nat ->
    wtask w (send_entries entries w)
| w_send_fails w entries : w_phase w = Sending entries -> wtask w (set_phase w Stopped)
(** The loop body of [start_watcher]. *)
| w_apply w ps rest : w_channel w = ps :: rest ->
    wtask w (mkWatching (w_disk w) (w_phase w) rest (engine_reload (w_engine w) ps)).

Inductive wstep : Watching -> Watching -> Prop :=
| w_task w w' : wtask w w' -> wstep w w'
| w_change w fs name : wstep w (disk_change fs name w).

Definition watcher_start (fs : PolicyFs) (eng : PolicyEngine) : Watching := mkWatching fs Unarmed [] eng.
End Watch.

(** ** Lemmas *)

Section WatchLemmas.
Context `{Fmt}.

Lemma load_valid (fs : PolicyFs) dir es : load_policies_from_dir (H0:=fs) dir = Ok es -> Forall valid_entry es.
Proof.
  unfold load_policies_from_dir. destruct (negb _); [done|]. destruct (negb _); [done|].
  destruct (PolicyParser.read_dir dir); [|done]. intros (pss & _ & Hv & ->)%load_files_ok. done.
Qed.

(** Only validated sets are installed or on their way. *)
Record watch_ok (eng : PolicyEngine) (w : Watching) : Prop := {
  wo_channel : Forall (Forall valid_entry) (w_channel w);
  wo_sending : forall entries, w_phase w = Sending entries -> Forall valid_entry entries;
  wo_engine : Forall valid_entry (loaded (evaluator (w_engine w)));
  wo_dir : policy_dir (w_engine w) = policy_dir eng;
  wo_config : approval_config (w_engine w) = approval_config eng
}.

Lemma watch_ok_step eng w w' : wstep w w' -> watch_ok eng w -> watch_ok eng w'.
Proof.
  intros Hs [Hc Hp He Hd Ha]. destruct Hs as [w w' Ht|w fs name].
  2: { split; try done. intros entries E. cbn in E. apply Hp. by destruct (w_phase w). }
  destruct Ht as [w _|w _|w q _ _|w q _|w q _|w es Hph _|w es _|w ps rest Hch]; try (by split).
  - unfold reload_round. destruct (load_policies_from_dir _) as [es|e|] eqn:El; [|by split..].
    split; try done. intros ? [= <-]. by eapply load_valid.
  - split; try done. apply Forall_app. split; [done|]. constructor; [by apply Hp|constructor].
  - rewrite Hch in Hc. apply Forall_cons in Hc as [Hps Hrest]. by split.
Qed.

(** The second task empties the channel. *)
Lemma drain_channel : forall w, exists w', rtc wtask w w' /\ w_disk w' = w_disk w /\ w_phase w' = w_phase w /\
  w_channel w' = [] /\ policy_dir (w_engine w') = policy_dir (w_engine w) /\
  loaded (evaluator (w_engine w')) = default (loaded (evaluator (w_engine w))) (last (w_channel w)).
Proof.
  intros w. remember (w_channel w) as ch eqn:Hch. revert w Hch.
  induction ch as [|ps rest IH]; intros w Hch.
  { exists w. by rewrite <- Hch. }
  destruct (IH (mkWatching (w_disk w) (w_phase w) rest (engine_reload (w_engine w) ps)) eq_refl)
    as (w' & Hr & Hd & Hp & Hc & Hdir & Hl).
  exists w'. split; [by eapply rtc_l; [apply (w_apply w ps rest); by rewrite <- Hch|]|]. split_and!; try done.
  rewrite Hl. destruct rest as [|a rest]; [done|]. cbn [w_engine engine_reload evaluator evaluator_reload loaded w_channel].
  rewrite last_cons_cons. destruct (last (a :: rest)) eqn:E; [done|]. by apply last_None in E.
Qed.

(** ** Properties *)

(** Whatever is written to the policy directory and in whatever order the two
    tasks run, the engine only ever holds policies that passed validation; its
    directory and approval settings never change. *)
Theorem hot_reload_keeps_policies_valid (fs : PolicyFs) (eng : PolicyEngine) (w : Watching) :
  Forall valid_entry (loaded (evaluator eng)) -> rtc wstep (watcher_start fs eng) w ->
  Forall valid_entry (loaded (evaluator (w_engine w))) /\ policy_dir (w_engine w) = policy_dir eng /\
  approval_config (w_engine w) = approval_config eng.
Proof.
  intros He Hr. assert (watch_ok eng (watcher_start fs eng)) as Hok by (by split; [constructor|..]).
  revert Hok. induction Hr as [w|w w1 w2 Hs _ IH].
  - by intros [].
  - intros Hok. by apply IH, (watch_ok_step _ w).
Qed.

(** C37. A change that was noticed takes effect: once an event is queued, or the
    round it woke is under way, the tasks alone lead to a state that watches
    again with the engine on the policies of the disk; when those do not
    load, the engine keeps the last set that did. *)
Theorem noticed_change_is_loaded (w : Watching) (q : list (option string)) :
  w_phase w = Armed q /\ q <> [] \/ w_phase w = Settling q ->
  exists w', rtc wtask w w' /\ w_disk w' = w_disk w /\ w_phase w' = Armed [] /\ w_channel w' = [] /\
    loaded (evaluator (w_engine w')) =
      match load_policies_from_dir (H0:=w_disk w) (policy_dir (w_engine w)) with
      | Ok ps => ps
      | _ => default (loaded (evaluator (w_engine w))) (last (w_channel w))
      end.
Proof.
  intros Hph.
  assert (exists w0, rtc wtask w w0 /\ w_disk w0 = w_disk w /\ w_phase w0 = Settling q /\ w_channel w0 = w_channel w /\
    w_engine w0 = w_engine w) as (w0 & Hr0 & Hd0 & Hp0 & Hc0 & He0).
  { destruct Hph as [[Hp Hq]|Hp]; [|by exists w].
    exists (set_phase w (Settling q)). split; [by apply rtc_once, w_read|done]. }
  destruct (drain_channel w0) as (w1 & Hr1 & Hd1 & Hp1 & Hc1 & Hdir1 & Hl1).
  assert (wtask w1 (reload_round w1)) as Hrel by (eapply w_reload; by rewrite Hp1, Hp0).
  rewrite <- Hd0, <- He0, <- Hc0. rewrite <- Hd1, <- Hdir1, <- Hl1. unfold reload_round in Hrel.
  assert (rtc wtask w w1) as Hr by (by etrans).
  destruct (load_policies_from_dir (H0:=w_disk w1) (policy_dir (w_engine w1))) as [ps|e|].
  - set (w2 := set_phase w1 (Sending ps)) in Hrel. set (w3 := send_entries ps w2).
    exists (mkWatching (w_disk w1) (Armed []) [] (engine_reload (w_engine w1) ps)). split; [|by split_and!].
    etrans; [exact Hr|]. eapply rtc_l; [exact Hrel|].
    eapply rtc_l; [apply (w_send w2 ps); [done|cbn; rewrite Hc1; unfold RELOAD_CAPACITY; simpl; lia]|].
    eapply rtc_l; [by apply (w_arm w3)|]. apply rtc_once. apply (w_apply (set_phase w3 (Armed [])) ps []). cbn. by rewrite Hc1.
  - exists (set_phase (set_phase w1 Unarmed) (Armed [])). split; [|by split_and!].
    etrans; [exact Hr|]. eapply rtc_l; [exact Hrel|]. by apply rtc_once, w_arm.
  - exists (set_phase (set_phase w1 Unarmed) (Armed [])). split; [|by split_and!].
    etrans; [exact Hr|]. eapply rtc_l; [exact Hrel|]. by apply rtc_once, w_arm.
Qed.

(** A change that falls between the reload of one round and the new watch of
    the next is not noticed: the watcher waits on an empty queue, and without
    a further change the tasks never move the engine to what is on disk. *)
Theorem change_between_rounds_is_missed (w : Watching) (fs : PolicyFs) (name : option string) :
  w_phase w = Unarmed -> w_channel w = [] ->
  let w' := set_phase (disk_change fs name w) (Armed []) in
  rtc wstep w w' /\ w_disk w' = fs /\
  forall w'', rtc wtask w' w'' -> w_engine w'' = w_engine w.
Proof.
  intros Hp Hc w'. split; [|split; [done|]].
  - eapply rtc_l; [apply (w_change w fs name)|]. apply rtc_once, w_task, w_arm. simpl. by rewrite Hp.
  - assert (forall x y, wtask x y -> w_channel x = [] /\ w_phase x ∈ [Armed []; Stopped] /\ w_engine x = w_engine w ->
      w_channel y = [] /\ w_phase y ∈ [Armed []; Stopped] /\ w_engine y = w_engine w) as Hstep.
    { intros x y Ht (Hxc & Hxp & Hxe). apply elem_of_cons in Hxp as Hxp'.
      destruct Ht as [x Hx|x Hx|x q Hx Hq|x q Hx|x q Hx|x es Hx _|x es Hx|x ps rest Hx]; rewrite ?Hx in Hxp;
        try (by exfalso; clear -Hxp Hq; set_solver); try (by exfalso; clear -Hxp; set_solver).
      - split_and!; [done|set_solver|done].
      - by rewrite Hxc in Hx. }
    intros w'' Hr. assert (w_channel w' = [] /\ w_phase w' ∈ [Armed []; Stopped] /\ w_engine w' = w_engine w) as Hi.
    { split_and!; [done|simpl; set_solver|done]. }
    clearbody w'. induction Hr as [x|x y z Ht _ IH]; [by destruct Hi as (_ & _ & ?)|]. by apply IH, (Hstep x).
Qed.

(** The process found for a file has it open. *)
Lemma identify_modifier_holds `{ProcFs} canonical path pid binary :
  identify_modifier canonical path = Some (pid, binary) ->
  exists name fds fd, to_str name ≫= parse_u U32 = Some pid /\
    read_dir (path_join (path_join "/proc" name) "fd") = inl fds /\ fd ∈ fds /\
    read_link (path_join (path_join (path_join "/proc" name) "fd") fd) = Some (unwrap_or canonical path).
Proof.
  unfold identify_modifier. set (target := unwrap_or canonical path).
  assert (forall dir fds, holds_file dir target fds = true ->
    exists fd, fd ∈ fds /\ read_link (path_join dir fd) = Some target) as Hfile.
  { intros dir fds. induction fds as [|fd fds IH]; simpl; [done|].
    destruct (read_link (path_join dir fd)) as [t|] eqn:E.
    - case_bool_decide; [intros _; subst; exists fd; split; [by left|done]|].
      intros (fd' & ? & ?)%IH. exists fd'. split; [by right|done].
    - intros (fd' & ? & ?)%IH. exists fd'. split; [by right|done]. }
  destruct (read_dir "/proc") as [entries|]; [|done].
  induction entries as [|name entries IH]; [done|]. cbn [scan_holders].
  destruct (to_str name ≫= parse_u U32) as [p|] eqn:Ep; [|done]. cbv zeta.
  destruct (read_dir (path_join (path_join "/proc" name) "fd")) as [fds|] eqn:Er; [|done].
  destruct (holds_file _ target fds) eqn:Eh; [|done]. intros [= -> _].
  apply Hfile in Eh as (fd & ? & ?). by exists name, fds, fd.
Qed.
End WatchLemmas.

(** ** A directory to watch *)

#[local] Existing Instance plain_fmt.

Definition empty_engine : PolicyEngine :=
  mkPolicyEngine (mkPolicyEvaluator []) "/etc/cdp" (mkApprovalConfig EmptyString 30 true true 200).
Definition woken : Watching := mkWatching demo_fs (Settling [Some "a.toml"]) [] empty_engine.

Lemma noticed_change_is_loaded_witness :
  exists w', rtc wtask woken w' /\ loaded (evaluator (w_engine w')) = [demo_entry].
Proof.
  destruct (noticed_change_is_loaded woken [Some "a.toml"]) as (w' & Hr & _ & _ & _ & Hl); [right; reflexivity|].
  exists w'. split; [exact Hr|]. rewrite Hl. vm_compute. reflexivity.
Defined.

Lemma hot_reload_keeps_policies_valid_witness :
  policy_dir (w_engine (watcher_start demo_fs empty_engine)) = "/etc/cdp".
Proof.
  apply (hot_reload_keeps_policies_valid demo_fs empty_engine (watcher_start demo_fs empty_engine)).
  - constructor.
  - constructor.
Defined.

Lemma change_between_rounds_is_missed_witness :
  rtc wstep (watcher_start demo_fs empty_engine)
    (set_phase (disk_change demo_fs None (watcher_start demo_fs empty_engine)) (Armed [])).
Proof.
  apply (change_between_rounds_is_missed (watcher_start demo_fs empty_engine) demo_fs None); reflexivity.
Defined.
