(* ===== verification/ProxyHttp.v ===== *)
(** * cdp-proxy: the request pipeline

    [cdp-proxy/src/http.rs] with [dns.rs], [redirect.rs] and [sanitizer.rs].
    A request runs against the lease manager, the resolver, the credential
    provider and the upstream hosts; the connections it opens and the audit
    events it sends are collected, so that the theorems can speak of them. *)

From S2P Require Import Prelude RustStr Crypto PolicyTypes LeaseTypes AuditLog LeaseManager.
From S2P Require Import ProxyScope ProxyAuth.

#[local] Arguments String.append !_ _ /.

(** ** Error texts *)

Definition display_crypto_error (e : CryptoError) : string :=
  match e with
  | Encryption m => "encryption failed: " +:+ m
  | Decryption => "decryption failed: authentication or data error"
  | KeyDerivation m => "key derivation failed: " +:+ m
  | HmacVerification => "HMAC verification failed"
  | SystemCall m => "system call failed: " +:+ m
  | InvalidTokenFormat => "invalid token format"
  end.

Definition display_lease_error (e : LeaseError) : string :=
  match e with
  | NotFound id => "lease not found: " +:+ id
  | Expired_ id => "lease expired: " +:+ id
  | Revoked_ id => "lease revoked: " +:+ id
  | MaxRenewalsExceeded n => "max renewals exceeded (limit: " +:+ display_Z n +:+ ")"
  | MaxCumulativeTtlExceeded n => "max cumulative TTL exceeded (limit: " +:+ display_Z n +:+ "s)"
  | MaxRequestsExceeded n => "max requests exceeded (limit: " +:+ display_Z n +:+ ")"
  | DelegationDepthExceeded n => "delegation depth exceeded (max: " +:+ display_Z n +:+ ")"
  | DelegationNotAllowed => "delegation not allowed by policy"
  | ScopeNotSubset => "child scope is not a subset of parent scope"
  | TtlExceedsParent => "child TTL exceeds parent remaining TTL"
  | TargetAgentNotAlive => "target agent is not registered or not alive"
  | DnsResolution host reason => "DNS resolution failed for host " +:+ host +:+ ": " +:+ reason
  | AgentNotAlive => "agent not alive"
  | NotRenewable => "renewal not allowed by policy"
  | NotActive => "lease is not active"
  | LeaseCrypto e => "crypto error: " +:+ display_crypto_error e
  end.

Definition display_proxy_error `{FmtAddr} (e : ProxyError) : string :=
  match e with
  | AuthFailed m => "authentication failed: " +:+ m
  | ScopeViolation m => "scope violation: " +:+ m
  | DnsPinMismatch host resolved pinned =>
      "DNS pin mismatch: host " +:+ host +:+ " resolved to " +:+ display_ip resolved +:+
      " but pinned IPs are " +:+ debug_ips pinned
  | RedirectBlocked m => "redirect blocked: " +:+ m
  | CredentialInjection m => "credential injection error: " +:+ m
  | PortExhausted m => "port exhausted: " +:+ m
  | ListenerError m => "listener error: " +:+ m
  | UpstreamError m => "upstream error: " +:+ m
  | BodyTooLarge size limit =>
      "body too large: size " +:+ display_Z size +:+ " exceeds limit " +:+ display_Z limit
  | ForbiddenField f => "forbidden field in request body: " +:+ f
  | ContentTypeNotAllowed m => "content type not allowed: " +:+ m
  | LeaseFailure e => "lease error: " +:+ display_lease_error e
  | CryptoFailure e => "crypto error: " +:+ display_crypto_error e
  | IoError m => "I/O error: " +:+ m
  | HyperError m => "hyper error: " +:+ m
  end.

(** ** DNS pins *)

Definition verify_pinned_ip (lease : Lease) (host : string) (resolved_ip : IpAddr) : result unit ProxyError :=
  match dns_pinned_ips lease !! host with
  | Some pinned_ips =>
      if contains pinned_ips resolved_ip then Ok tt else Err (DnsPinMismatch host resolved_ip pinned_ips)
  | None => Err (DnsPinMismatch host resolved_ip [])
  end.

(** [for ip in &ips { verify_pinned_ip(..)?; }] *)
Fixpoint verify_all_pins (lease : Lease) (host : string) (ips : list IpAddr) : result unit ProxyError :=
  match ips with
  | [] => Ok tt
  | ip :: rest => let! _ := verify_pinned_ip lease host ip in verify_all_pins lease host rest
  end.

Definition resolve_and_verify (dns : Resolver) (lease : Lease) (host : string)
    : result (list IpAddr) ProxyError :=
  match lookup_host (Resolver:=dns) (host +:+ ":0") with
  | inr e => Err (UpstreamError ("DNS resolution failed for " +:+ host +:+ ": " +:+ e))
  | inl ips =>
      if bool_decide (ips = []) then
        Err (UpstreamError ("DNS resolution for " +:+ host +:+ " returned no addresses"))
      else let! _ := verify_all_pins lease host ips in Ok ips
  end.

Section Http.
Context `{Fmt} `{FmtAddr} `{HttpCrate}.

(** ** Redirects *)

Inductive RedirectAction : Type :=
| PassThrough
| Follow (location : UriT) (host : string)
| Block (reason : string).

(** [status.is_redirection()] *)
Definition is_redirection (status : Z) : bool := (300 <=? status) && (status <? 400).

Definition evaluate_redirect (status : Z) (headers : HeaderMap) (follow : bool)
    (allowed_hosts : list string) : result RedirectAction ProxyError :=
  if negb (is_redirection status) then Ok PassThrough
  else if negb follow then Ok PassThrough
  else
    let! location_header := ok_or (hm_get headers "location")
      (RedirectBlocked ("3xx response (status " +:+ display_status status +:+ ") has no Location header")) in
    let! location_str := ok_or (header_value_to_str location_header)
      (RedirectBlocked "Location header contains non-ASCII characters") in
    let! uri := match uri_parse location_str with
                | inl u => Ok u
                | inr e => Err (RedirectBlocked ("Location header is not a valid URI: " +:+ e))
                end in
    let! host := ok_or (uri_host uri)
      (RedirectBlocked ("Location URI has no host component: " +:+ location_str)) in
    if bool_decide (allowed_hosts = []) || existsb (fun h => bool_decide (h = host)) allowed_hosts then
      Ok (Follow uri host)
    else Ok (Block ("redirect target " +:+ debug_str host +:+ " is not in the allowed hosts list")).

(** ** Headers *)

Definition SENSITIVE_RESPONSE_HEADERS : list string :=
  ["authorization"; "set-cookie"; "www-authenticate"; "proxy-authorization"].

(** [for name in names { if let Ok(n) = HeaderName::from_bytes(..) { headers.remove(n); } }] *)
Definition remove_named (names : list string) (headers : HeaderMap) : HeaderMap :=
  fold_left (fun h name => match header_name_from_bytes (as_bytes name) with
                           | inl n => hm_remove h n
                           | inr _ => h
                           end) names headers.

Definition strip_credential_headers (headers : HeaderMap) : HeaderMap :=
  remove_named SENSITIVE_RESPONSE_HEADERS headers.

Definition strip_proxy_internal_headers (headers : HeaderMap) : HeaderMap :=
  remove_named [HEADER_LEASE_TOKEN; HEADER_CHANNEL_BINDING] headers.

Record CredentialHeader : Type := mkCredentialHeader { ch_name : string; ch_value : list byte }.

Fixpoint inject_headers (builder : HeaderMap) (headers : list CredentialHeader)
    : result HeaderMap ProxyError :=
  match headers with
  | [] => Ok builder
  | h :: rest =>
      match header_name_from_bytes (as_bytes (ch_name h)) with
      | inr e => Err (CredentialInjection ("invalid header name " +:+ debug_str (ch_name h) +:+ ": " +:+ e))
      | inl name =>
          match header_value_from_bytes (ch_value h) with
          | inr e => Err (CredentialInjection ("invalid header value for " +:+ debug_str (ch_name h) +:+ ": " +:+ e))
          | inl value => inject_headers (hm_append builder name value) rest
          end
      end
  end.

Definition colon : Ascii.ascii := Ascii.ascii_of_N 58.

Definition extract_host (headers : HeaderMap) (uri : UriT) : option string :=
  match (v ← hm_get headers "host"; header_value_to_str v) with
  | Some host_str => Some (default host_str (head (split colon host_str)))
  | None => uri_host uri
  end.

Definition port_for_uri (uri : UriT) : Z :=
  match uri_port_u16 uri with
  | Some port => port
  | None => if bool_decide (uri_scheme_str uri = Some "https") then 443 else 80
  end.

(** ** Requests, responses and the world around a request *)

Record Parts : Type := mkParts { p_method : string; p_uri : UriT; p_headers : HeaderMap }.

Record Outbound : Type := mkOutbound {
  o_method : string; o_uri : UriT; o_headers : HeaderMap; o_body : list byte
}.

(** Reading a body may fail: [inr] carries hyper's error. *)
Record Response : Type := mkResponse {
  r_status : Z; r_headers : HeaderMap; r_body : list byte + string
}.

(** The resolver and the upstream hosts, at the [k]-th lookup and the [k]-th
    connection of a request: nothing says that they answer twice alike. *)
Class Network : Type := {
  dns_at : nat -> Resolver;
  tcp_connect : nat -> IpAddr -> Z -> option string;
  exchange : nat -> IpAddr -> Z -> Outbound -> Response + string
}.

Class CredentialProvider : Type := {
  fetch_credential : string -> string -> result (list CredentialHeader) ProxyError
}.

(** What a request did: the connections it opened with the request sent on
    each, and the audit events it sent. *)
Record Effects : Type := mkEffects {
  fx_sent : list (IpAddr * Z * Outbound);
  fx_audit : list (AuditEventType * AuditFields)
}.

Definition emit_blocked (audit_open : bool) (lease_id detail : string) (fx : Effects) : Effects :=
  if audit_open then
    mkEffects (fx_sent fx)
      (fx_audit fx ++ [(ProxyBlocked, mkAuditFields (Some lease_id) None None None None None None (Some detail))])
  else fx.

Definition record_sent (ip : IpAddr) (port : Z) (req : Outbound) (fx : Effects) : Effects :=
  mkEffects (fx_sent fx ++ [(ip, port, req)]) (fx_audit fx).

Definition sanitize_response (r : Response) : Response :=
  mkResponse (r_status r) (strip_credential_headers (r_headers r)) (r_body r).

(** ** Forwarding with redirects *)

Definition MAX_REDIRECT_HOPS : nat := 5.

Context `{Network} `{CredentialProvider}.

(** The outbound request of one turn of the loop. *)
Definition build_outbound (parts : Parts) (body : list byte) (uri : UriT) (host : string)
    (creds : list CredentialHeader) : result Outbound ProxyError :=
  let headers := strip_proxy_internal_headers (p_headers parts) in
  match header_value_from_str host with
  | inr e => Err (UpstreamError ("invalid host header: " +:+ e))
  | inl hv =>
      let! headers := inject_headers (hm_insert headers "host" hv) creds in
      Ok (mkOutbound (p_method parts) uri headers body)
  end.

(** Connecting to the first pinned address and exchanging the request; [k]
    counts the connections of this request. *)
Definition send_to_pin (k : nat) (ips : list IpAddr) (port : Z) (req : Outbound) (fx : Effects)
    : result Response ProxyError * Effects :=
  match ips with
  | [] => (Err (UpstreamError "no pinned IPs available"), fx)
  | ip :: _ =>
      match tcp_connect k ip port with
      | Some e => (Err (UpstreamError ("TCP connect to " +:+ display_ip ip +:+ ":" +:+ display_Z port +:+
                                       ": " +:+ e)), fx)
      | None =>
          let fx := record_sent ip port req fx in
          match exchange k ip port req with
          | inr e => (Err (HyperError e), fx)
          | inl resp => (Ok resp, fx)
          end
      end
  end.

(** One turn of the [loop]: the request, the response and the decision on a
    redirect.  [Again] continues the loop at a new target. *)
Inductive Turn : Type :=
| Done (r : result Response ProxyError)
| Again (location : UriT) (new_host : string).

Definition one_turn (k : nat) (parts : Parts) (body : list byte) (creds : list CredentialHeader)
    (lease : Lease) (lid : string) (audit_open : bool) (uri : UriT) (host : string)
    (ips : list IpAddr) (fx : Effects) : Turn * Effects :=
  match build_outbound parts body uri host creds with
  | Err e => (Done (Err e), fx)
  | Panic => (Done Panic, fx)
  | Ok req =>
      let '(sent, fx) := send_to_pin k ips (port_for_uri uri) req fx in
      match sent with
      | Err e => (Done (Err e), fx)
      | Panic => (Done Panic, fx)
      | Ok resp =>
          match evaluate_redirect (r_status resp) (r_headers resp) (follow_redirects lease)
                  (s_hosts (granted_scope lease)) with
          | Err e => (Done (Err e), fx)
          | Panic => (Done Panic, fx)
          | Ok (Follow location new_host) => (Again location new_host, fx)
          | Ok (Block reason) =>
              (Done (Err (RedirectBlocked reason)),
               emit_blocked audit_open lid ("redirect blocked: " +:+ reason) fx)
          | Ok PassThrough =>
              match r_body resp with
              | inr e => (Done (Err (HyperError e)), fx)
              | inl _ => (Done (Ok (sanitize_response resp)), fx)
              end
          end
      end
  end.

(** The [loop]; [left] is [MAX_REDIRECT_HOPS - hops] and [k] is [hops]. *)
Fixpoint forward (left k : nat) (parts : Parts) (body : list byte) (creds : list CredentialHeader)
    (lease : Lease) (lid : string) (audit_open : bool) (uri : UriT) (host : string)
    (ips : list IpAddr) (fx : Effects) : result Response ProxyError * Effects :=
  let '(turn, fx) := one_turn k parts body creds lease lid audit_open uri host ips fx in
  match turn with
  | Done r => (r, fx)
  | Again location new_host =>
      match left with
      | O => (Err (RedirectBlocked ("too many redirects (max " +:+
                     display_Z (Z.of_nat MAX_REDIRECT_HOPS) +:+ ")")), fx)
      | S left' =>
          match resolve_and_verify (dns_at (S k)) lease new_host with
          | Err e =>
              (Err e, emit_blocked audit_open lid
                        ("dns_rebinding_detected on redirect to " +:+ new_host +:+ ": " +:+
                         display_proxy_error e) fx)
          | Panic => (Panic, fx)
          | Ok new_pinned =>
              forward left' (S k) parts body creds lease lid audit_open location new_host
                new_pinned fx
          end
      end
  end.

Definition execute_with_redirects (parts : Parts) (body : list byte) (host : string)
    (creds : list CredentialHeader) (ips : list IpAddr) (lease : Lease) (lid : string)
    (audit_open : bool) (fx : Effects) : result Response ProxyError * Effects :=
  forward MAX_REDIRECT_HOPS 0 parts body creds lease lid audit_open (p_uri parts) host ips fx.

(** ** The handler *)

Context `{ProcFs} `{HmacSha256} `{Globset} `{JsonParse} `{Build}.

Definition GLOBAL_MAX_BODY_BYTES : Z := 4 * 1024 * 1024.

Definition collect_body (body : list byte + string) (max_bytes : Z) : result (list byte) ProxyError :=
  match body with
  | inr e => Err (HyperError e)
  | inl bytes =>
      let size := Z.of_nat (length bytes) in
      if size >? max_bytes then Err (BodyTooLarge size max_bytes) else Ok bytes
  end.

(** [m_read] is the manager when the lease is read for authentication,
    [m_use] the manager when the use is recorded: other callers may have run
    in between. *)
Definition handle_request_inner (m_read m_use : LeaseManager) (now : Z) (parts : Parts)
    (body : list byte + string) (remote : SocketAddr) (lid : string) (gkey : list byte)
    (audit_open : bool) : LeaseManager * result Response ProxyError * Effects :=
  let fx := mkEffects [] [] in
  match collect_body body GLOBAL_MAX_BODY_BYTES with
  | Err e => (m_use, Err e, fx)
  | Panic => (m_use, Panic, fx)
  | Ok body_bytes =>
  match map_err LeaseFailure (get_lease m_read lid) with
  | Err e => (m_use, Err e, fx)
  | Panic => (m_use, Panic, fx)
  | Ok read =>
  match authenticate remote (p_headers parts) lid read gkey with
  | Err e => (m_use, Err e, emit_blocked audit_open lid ("auth failed: " +:+ display_proxy_error e) fx)
  | Panic => (m_use, Panic, fx)
  | Ok _ =>
  let '(m, used) := use_lease m_use now lid in
  match used with
  | Err e => (m, Err (LeaseFailure e), fx)
  | Panic => (m, Panic, fx)
  | Ok lease =>
  match extract_host (p_headers parts) (p_uri parts) with
  | None => (m, Err (ScopeViolation "missing Host header"), fx)
  | Some host =>
  let content_type := v ← hm_get (p_headers parts) "content-type"; header_value_to_str v in
  match validate_request (p_method parts) host (uri_path (p_uri parts)) content_type
          (if bool_decide (body_bytes = []) then None else Some body_bytes) (granted_scope lease) with
  | Err e => (m, Err e, emit_blocked audit_open lid ("scope violation: " +:+ display_proxy_error e) fx)
  | Panic => (m, Panic, fx)
  | Ok _ =>
  match resolve_and_verify (dns_at 0) lease host with
  | Err e => (m, Err e, emit_blocked audit_open lid ("dns_rebinding_detected: " +:+ display_proxy_error e) fx)
  | Panic => (m, Panic, fx)
  | Ok pinned_ips =>
  match fetch_credential (credential_ref lease) lid with
  | Err e => (m, Err e, fx)
  | Panic => (m, Panic, fx)
  | Ok creds =>
      let '(r, fx) := execute_with_redirects parts body_bytes host creds pinned_ips lease lid audit_open fx in
      (m, r, fx)
  end end end end end end end end.

(** ** Error responses *)

Definition proxy_error_to_response (err : ProxyError) : Z * string :=
  match err with
  | AuthFailed _ => (403, "403 Forbidden: authentication failed")
  | ScopeViolation _ => (403, "403 Forbidden: scope violation")
  | DnsPinMismatch _ _ _ => (403, "403 Forbidden: dns_rebinding_detected")
  | RedirectBlocked _ => (403, "403 Forbidden: redirect blocked")
  | BodyTooLarge _ _ => (413, "413 Payload Too Large")
  | ForbiddenField _ => (403, "403 Forbidden: scope violation")
  | ContentTypeNotAllowed _ => (403, "403 Forbidden: scope violation")
  | LeaseFailure (NotFound _) | LeaseFailure (Expired_ _) | LeaseFailure (Revoked_ _) =>
      (403, "403 Forbidden: lease not valid")
  | _ => (502, "502 Bad Gateway")
  end.

(** [handle_request]: an error becomes a response with its status, a plain
    text content type and a fixed body. *)
Definition handle_request (empty : HeaderMap) (m_read m_use : LeaseManager) (now : Z) (parts : Parts)
    (body : list byte + string) (remote : SocketAddr) (lid : string) (gkey : list byte)
    (audit_open : bool) : LeaseManager * result Response ProxyError * Effects :=
  let '(m, r, fx) := handle_request_inner m_read m_use now parts body remote lid gkey audit_open in
  match r with
  | Err e =>
      let '(status, text) := proxy_error_to_response e in
      (m, Ok (mkResponse status (hm_append empty "content-type" (as_bytes "text/plain; charset=utf-8"))
                (inl (as_bytes text))), fx)
  | _ => (m, r, fx)
  end.
End Http.

(** ** What the pipeline guarantees *)

Section HttpSpec.
Context `{Fmt} `{FmtAddr} `{HttpCrate} `{!HeaderMapLaws}.

Lemma remove_named_get names h n :
  (forall x, x ∈ names -> header_name_from_bytes (as_bytes x) = inl x) ->
  hm_get_all (remove_named names h) n = if contains names n then [] else hm_get_all h n.
Proof.
  revert h. induction names as [|x names IH]; intros h Hn; simpl; [done|].
  unfold remove_named in *. simpl. rewrite Hn by set_solver. rewrite IH by set_solver.
  rewrite get_all_remove. unfold contains.
  destruct (decide (n ∈ names)) as [Hin|Hin].
  { rewrite !bool_decide_eq_true_2 by set_solver. done. }
  rewrite (bool_decide_eq_false_2 (n ∈ names)) by done.
  destruct (decide (x = n)) as [->|Hne].
  - rewrite !bool_decide_eq_true_2 by set_solver. done.
  - rewrite !bool_decide_eq_false_2 by set_solver. done.
Qed.

Lemma strip_internal_get h n :
  hm_get_all (strip_proxy_internal_headers h) n =
  if contains [HEADER_LEASE_TOKEN; HEADER_CHANNEL_BINDING] n then [] else hm_get_all h n.
Proof.
  apply remove_named_get. intros x Hx. apply name_from_lowercase. unfold HEADER_LEASE_TOKEN, HEADER_CHANNEL_BINDING in Hx.
  set_solver.
Qed.

Lemma strip_credential_get h n :
  n ∈ SENSITIVE_RESPONSE_HEADERS -> hm_get_all (strip_credential_headers h) n = [].
Proof.
  intros Hn. unfold strip_credential_headers. rewrite remove_named_get.
  - by rewrite (proj2 (contains_spec _ _) Hn).
  - intros x Hx. apply name_from_lowercase. unfold SENSITIVE_RESPONSE_HEADERS in Hx. set_solver.
Qed.

(** The values a credential adds under a header name. *)
Definition cred_values (creds : list CredentialHeader) (n : string) : list (list byte) :=
  flat_map (fun h => match header_name_from_bytes (as_bytes (ch_name h)), header_value_from_bytes (ch_value h) with
                     | inl name, inl value => if bool_decide (name = n) then [value] else []
                     | _, _ => []
                     end) creds.

Lemma inject_headers_get creds b b' n :
  inject_headers b creds = Ok b' -> hm_get_all b' n = hm_get_all b n ++ cred_values creds n.
Proof.
  revert b. induction creds as [|c creds IH]; intros b; simpl.
  { intros [= ->]. by rewrite app_nil_r. }
  destruct (header_name_from_bytes _) as [name|e]; [|done].
  destruct (header_value_from_bytes _) as [value|e]; [|done].
  intros Hi. rewrite (IH _ Hi), get_all_append, app_assoc. f_equal.
  by destruct (bool_decide (name = n)); rewrite ?app_nil_r.
Qed.

(** Every header of the credential is a header. *)
Definition injectable (creds : list CredentialHeader) : Prop :=
  Forall (fun c => exists n v, header_name_from_bytes (as_bytes (ch_name c)) = inl n /\
                               header_value_from_bytes (ch_value c) = inl v) creds.

Lemma inject_headers_valid creds b b' : inject_headers b creds = Ok b' -> injectable creds.
Proof.
  revert b. induction creds as [|c creds IH]; intros b; simpl; [constructor|].
  destruct (header_name_from_bytes _) as [name|e] eqn:En; [|done].
  destruct (header_value_from_bytes _) as [value|e] eqn:Ev; [|done].
  intros Hi. constructor; [by exists name, value|by eapply IH].
Qed.

(** The agent's proof of identity stays here, the Host header names the host
    that was checked, and every other header is the agent's followed by the
    credential's. *)
Lemma build_outbound_headers parts body uri host creds req n :
  build_outbound parts body uri host creds = Ok req ->
  exists hv, header_value_from_str host = inl hv /\
  hm_get_all (o_headers req) n =
    (if bool_decide (n = "host") then [hv]
     else if contains [HEADER_LEASE_TOKEN; HEADER_CHANNEL_BINDING] n then []
     else hm_get_all (p_headers parts) n) ++ cred_values creds n.
Proof.
  unfold build_outbound. destruct (header_value_from_str host) as [hv|e]; [|done].
  intros (hs & Hi & [= <-])%rbind_ok. exists hv. split; [done|]. simpl.
  rewrite (inject_headers_get _ _ _ _ Hi), get_all_insert, strip_internal_get.
  destruct (decide (n = "host")) as [->|Hne].
  - by rewrite !bool_decide_eq_true_2.
  - by rewrite !bool_decide_eq_false_2 by congruence.
Qed.

Lemma build_outbound_target parts body uri host creds req :
  build_outbound parts body uri host creds = Ok req ->
  o_method req = p_method parts /\ o_uri req = uri /\ o_body req = body.
Proof.
  unfold build_outbound. destruct (header_value_from_str host); [|done]. by intros (hs & _ & [= <-])%rbind_ok.
Qed.

(** *** Pins *)

Lemma verify_all_pins_ok l host ips :
  verify_all_pins l host ips = Ok tt -> forall ip, ip ∈ ips ->
  exists pins, dns_pinned_ips l !! host = Some pins /\ ip ∈ pins.
Proof.
  induction ips as [|x ips IH]; simpl; [by intros _ ip ?%elem_of_nil|].
  intros ([] & Hv & Hrest)%rbind_ok ip [->|Hip]%elem_of_cons; [|auto].
  unfold verify_pinned_ip in Hv. destruct (dns_pinned_ips l !! host) as [pins|]; [|done].
  destruct (contains pins x) eqn:Hc; [|done]. exists pins. split; [done|]. by apply contains_spec.
Qed.

Lemma resolve_and_verify_ok dns l host ips :
  resolve_and_verify dns l host = Ok ips -> ips <> [] /\ forall ip, ip ∈ ips ->
  exists pins, dns_pinned_ips l !! host = Some pins /\ ip ∈ pins.
Proof.
  unfold resolve_and_verify. destruct (lookup_host _) as [ips'|e]; [|done].
  destruct (bool_decide (ips' = [])) eqn:E; [done|]. intros ([] & Hv & [= <-])%rbind_ok.
  bool_to_prop. split; [done|]. by apply verify_all_pins_ok.
Qed.

Lemma evaluate_redirect_follow st hs follow hosts loc host :
  evaluate_redirect st hs follow hosts = Ok (Follow loc host) ->
  follow = true /\ is_redirection st = true /\ uri_host loc = Some host /\ (hosts = [] \/ host ∈ hosts).
Proof.
  unfold evaluate_redirect. destruct (is_redirection st); simpl; [|done]. destruct follow; simpl; [|done].
  intros (lh & _ & (ls & _ & (uri & _ & (h & Hh%ok_or_ok & Hk)%rbind_ok)%rbind_ok)%rbind_ok)%rbind_ok.
  destruct (_ || _) eqn:E; [|done]. injection Hk as -> ->. split_and!; [done..|].
  apply orb_true_iff in E as [E|E]; [left; by bool_to_prop|right; by apply named_spec].
Qed.

Context `{!Network} `{CredentialProvider}.

(** A connection within what the lease grants. *)
Definition confined (l : Lease) (parts : Parts) (creds : list CredentialHeader)
    (c : IpAddr * Z * Outbound) : Prop :=
  let '(ip, port, req) := c in
  exists host hv pins,
    (s_hosts (granted_scope l) = [] \/ host ∈ s_hosts (granted_scope l)) /\
    dns_pinned_ips l !! host = Some pins /\ ip ∈ pins /\
    header_value_from_str host = inl hv /\
    hm_get (o_headers req) "host" = Some hv /\ o_method req = p_method parts /\
    port = port_for_uri (o_uri req) /\
    (forall n, n ∈ [HEADER_LEASE_TOKEN; HEADER_CHANNEL_BINDING] ->
       hm_get_all (o_headers req) n = cred_values creds n) /\
    (forall n, n <> "host" -> n ∉ [HEADER_LEASE_TOKEN; HEADER_CHANNEL_BINDING] ->
       hm_get_all (o_headers req) n = hm_get_all (p_headers parts) n ++ cred_values creds n) /\
    injectable creds.

Lemma built_confined l parts body uri host creds req ip pins :
  build_outbound parts body uri host creds = Ok req ->
  s_hosts (granted_scope l) = [] \/ host ∈ s_hosts (granted_scope l) ->
  dns_pinned_ips l !! host = Some pins -> ip ∈ pins ->
  confined l parts creds (ip, port_for_uri uri, req).
Proof.
  intros Hb Hh Hp Hip. destruct (build_outbound_headers _ _ _ _ _ _ "host" Hb) as (hv & Hhv & Hg).
  exists host, hv, pins.
  destruct (build_outbound_target _ _ _ _ _ _ Hb) as (Hm & Hu & _).
  split_and!; try done.
  - unfold hm_get. by rewrite Hg.
  - by rewrite Hu.
  - intros n Hn. destruct (build_outbound_headers _ _ _ _ _ _ n Hb) as (hv' & _ & ->).
    rewrite bool_decide_eq_false_2, (proj2 (contains_spec _ _) Hn); [done|].
    intros ->. unfold HEADER_LEASE_TOKEN, HEADER_CHANNEL_BINDING in Hn. set_solver.
  - intros n Hne Hn. destruct (build_outbound_headers _ _ _ _ _ _ n Hb) as (hv' & _ & ->).
    by rewrite bool_decide_eq_false_2, (proj2 (contains_false _ _) Hn).
  - unfold build_outbound in Hb. rewrite Hhv in Hb. apply rbind_ok in Hb as (? & Hi & _).
    by eapply inject_headers_valid.
Qed.

Lemma send_to_pin_sent k ips port req fx r fx' :
  send_to_pin k ips port req fx = (r, fx') ->
  fx' = fx \/ exists ip, ip ∈ ips /\ fx' = record_sent ip port req fx.
Proof.
  unfold send_to_pin. destruct ips as [|ip ips]; [intros [= <- <-]; by left|].
  destruct (tcp_connect k ip port); [intros [= <- <-]; by left|].
  destruct (exchange k ip port req); intros [= <- <-]; right; exists ip; (split; [by left|done]).
Qed.

Lemma emit_blocked_sent b lid d fx : fx_sent (emit_blocked b lid d fx) = fx_sent fx.
Proof. by destruct b. Qed.

Definition sanitized (r : Response) : Prop :=
  forall n, n ∈ SENSITIVE_RESPONSE_HEADERS -> hm_get_all (r_headers r) n = [].

Lemma sanitize_response_ok r : sanitized (sanitize_response r).
Proof. intros n Hn. by apply strip_credential_get. Qed.

(** At most [n] connections were added, all within the lease and with the
    body that was collected. *)
Definition adds (l : Lease) (parts : Parts) (body : list byte) (creds : list CredentialHeader) (n : nat)
    (fx fx' : Effects) : Prop :=
  exists new, fx_sent fx' = fx_sent fx ++ new /\ (length new <= n)%nat /\ 
    Forall (fun c => confined l parts creds c /\ o_body c.2 = body) new.

Lemma adds_none l parts body creds n fx fx' : fx_sent fx' = fx_sent fx -> adds l parts body creds n fx fx'.
Proof. intros E. exists []. rewrite app_nil_r. split_and!; [done|simpl; lia|constructor]. Qed.

Lemma adds_trans l parts body creds a b fx fx1 fx2 :
  adds l parts body creds a fx fx1 -> adds l parts body creds b fx1 fx2 -> adds l parts body creds (a + b) fx fx2.
Proof.
  intros (n1 & E1 & L1 & F1) (n2 & E2 & L2 & F2). exists (n1 ++ n2).
  rewrite E2, E1, app_assoc, length_app. split_and!; [done|lia|by apply Forall_app].
Qed.

Lemma adds_sent l parts body creds k uri host ips req fx r fx' :
  build_outbound parts body uri host creds = Ok req ->
  (s_hosts (granted_scope l) = [] \/ host ∈ s_hosts (granted_scope l)) ->
  (forall ip, ip ∈ ips -> exists pins, dns_pinned_ips l !! host = Some pins /\ ip ∈ pins) ->
  send_to_pin k ips (port_for_uri uri) req fx = (r, fx') -> adds l parts body creds 1 fx fx'.
Proof.
  intros Hb Hh Hpins [->|(ip & Hip & ->)]%send_to_pin_sent; [by apply adds_none|].
  destruct (Hpins _ Hip) as (pins & ? & ?). exists [(ip, port_for_uri uri, req)].
  split_and!; [done|done|]. constructor; [split; [by eapply built_confined|]|constructor].
  by destruct (build_outbound_target _ _ _ _ _ _ Hb) as (_ & _ & ?).
Qed.

Lemma one_turn_ok parts body creds l lid ao k uri host ips fx t fx' :
  (s_hosts (granted_scope l) = [] \/ host ∈ s_hosts (granted_scope l)) ->
  (forall ip, ip ∈ ips -> exists pins, dns_pinned_ips l !! host = Some pins /\ ip ∈ pins) ->
  one_turn k parts body creds l lid ao uri host ips fx = (t, fx') ->
  adds l parts body creds 1 fx fx' /\
  match t with
  | Done r => forall resp, r = Ok resp -> sanitized resp
  | Again _ new_host => s_hosts (granted_scope l) = [] \/ new_host ∈ s_hosts (granted_scope l)
  end.
Proof.
  intros Hh Hpins. unfold one_turn.
  destruct (build_outbound parts body uri host creds) as [req|e|] eqn:Hb;
    [|intros [= <- <-]; split; [by apply adds_none|done]..].
  destruct (send_to_pin k ips (port_for_uri uri) req fx) as [sent fx1] eqn:Hs.
  pose proof (adds_sent _ _ _ _ _ _ _ _ _ _ _ _ Hb Hh Hpins Hs) as Hadd.
  destruct sent as [resp|e|]; [|intros [= <- <-]; done..].
  destruct (evaluate_redirect _ _ _ _) as [[|loc nh|reason]|e|] eqn:He; [| | |intros [= <- <-]; done..].
  - destruct (r_body resp); intros [= <- <-]; (split; [done|]); [|done].
    intros ? [= <-]. apply sanitize_response_ok.
  - intros [= <- <-]. split; [done|]. by apply evaluate_redirect_follow in He as (_ & _ & _ & ?).
  - intros [= <- <-]. split; [|done]. destruct Hadd as (new & E & ?). exists new.
    by rewrite emit_blocked_sent.
Qed.

(** Every turn of the loop connects within the lease, at most [left + 1] turns
    connect, and a response that comes back is sanitised. *)
Lemma forward_confined parts body creds l lid ao : forall left k uri host ips fx r fx',
  (s_hosts (granted_scope l) = [] \/ host ∈ s_hosts (granted_scope l)) ->
  (forall ip, ip ∈ ips -> exists pins, dns_pinned_ips l !! host = Some pins /\ ip ∈ pins) ->
  forward left k parts body creds l lid ao uri host ips fx = (r, fx') ->
  adds l parts body creds (S left) fx fx' /\ (forall resp, r = Ok resp -> sanitized resp).
Proof.
  intros left. induction left as [|left IH]; intros k uri host ips fx r fx' Hh Hpins; cbn [forward];
    destruct (one_turn k parts body creds l lid ao uri host ips fx) as [t fx1] eqn:Ht;
    destruct (one_turn_ok _ _ _ _ _ _ _ _ _ _ _ _ _ Hh Hpins Ht) as [Hadd Hr];
    (destruct t as [r0|loc nh]; [intros [= <- <-]; split; [|done]; by apply (adds_trans _ _ _ _ 1 _ _ _ _ Hadd), adds_none|]).
  { intros [= <- <-]. done. }
  destruct (resolve_and_verify (dns_at (S k)) l nh) as [ips'|e|] eqn:Hv.
  - intros Hf. apply resolve_and_verify_ok in Hv as [_ Hv].
    destruct (IH _ _ _ _ _ _ _ Hr Hv Hf) as [Hadd' Hs]. split; [|done]. by apply (adds_trans _ _ _ _ 1 _ _ _ _ Hadd).
  - intros [= <- <-]. split; [|done]. apply (adds_trans _ _ _ _ 1 _ _ _ _ Hadd), adds_none, emit_blocked_sent.
  - intros [= <- <-]. split; [|done]. by apply (adds_trans _ _ _ _ 1 _ _ _ _ Hadd), adds_none.
Qed.

(** Connections are only added, and the first is for the target of the turn. *)
Definition opens_with (uri : UriT) (fx fx' : Effects) : Prop :=
  fx_sent fx' = fx_sent fx \/ exists c rest, fx_sent fx' = fx_sent fx ++ c :: rest /\ o_uri c.2 = uri.

Lemma one_turn_first k parts body creds l lid ao uri host ips fx t fx' :
  one_turn k parts body creds l lid ao uri host ips fx = (t, fx') ->
  opens_with uri fx fx' /\ (fx_sent fx' = fx_sent fx -> exists r, t = Done r).
Proof.
  unfold one_turn. destruct (build_outbound parts body uri host creds) as [req|e|] eqn:Hb;
    [|intros [= <- <-]; split; [by left|by eexists]..].
  destruct (send_to_pin k ips (port_for_uri uri) req fx) as [sent fx1] eqn:Hs.
  assert (opens_with uri fx fx1 /\ (fx_sent fx1 = fx_sent fx -> forall resp, sent <> Ok resp)) as [Ho Hn].
  { unfold send_to_pin in Hs. destruct ips as [|ip ips]; [injection Hs as <- <-; split; [by left|done]|].
    destruct (tcp_connect _ _ _); [injection Hs as <- <-; split; [by left|done]|].
    assert (fx1 = record_sent ip (port_for_uri uri) req fx) as -> by (destruct (exchange _ _ _ _); by injection Hs as _ <-).
    destruct (build_outbound_target _ _ _ _ _ _ Hb) as (_ & Hu & _). split.
    - right. by exists (ip, port_for_uri uri, req), [].
    - intros E%(f_equal length). cbn in E. rewrite length_app in E. cbn in E. lia. }
  destruct sent as [resp|e|]; [|intros [= <- <-]; split; [done|by eexists]..].
  repeat case_match; intros [= <- <-]; (split; [|intros E; try by eexists]); unfold opens_with in *;
    rewrite ?emit_blocked_sent in *; try done; by destruct (Hn E resp).
Qed.

Lemma forward_first left k parts body creds l lid ao uri host ips fx r fx' :
  forward left k parts body creds l lid ao uri host ips fx = (r, fx') -> opens_with uri fx fx'.
Proof.
  revert k uri host ips fx r fx'. induction left as [|left IH]; intros k uri host ips fx r fx'; cbn [forward];
    destruct (one_turn k parts body creds l lid ao uri host ips fx) as [t fx1] eqn:Ht;
    destruct (one_turn_first _ _ _ _ _ _ _ _ _ _ _ _ _ Ht) as [Ho Hd];
    (destruct t as [r0|loc nh]; [by intros [= <- <-]|]); [by intros [= <- <-]|].
  destruct Ho as [E|(c & rest & E & Hu)]; [by destruct (Hd E)|].
  assert (opens_with uri fx fx1) as Ho by (right; by exists c, rest).
  destruct (resolve_and_verify (dns_at (S k)) l nh) as [ips'|e|];
    [|intros [= <- <-]; unfold opens_with; by rewrite emit_blocked_sent|by intros [= <- <-]].
  intros [E'|(c' & rest' & E' & _)]%IH; unfold opens_with; rewrite E', E; right; [by exists c, rest|].
  exists c, (rest ++ c' :: rest'). by rewrite <- app_assoc.
Qed.

Context `{ProcFs} `{HmacSha256} `{Globset} `{JsonParse} `{Build}.

(** *** Outcomes of the handler *)

(** A request that was let through to the upstream hosts: [bytes] is its body
    as collected, which is what the scope check saw. *)
Definition let_through (m_read m_use m : LeaseManager) (now : Z) (parts : Parts) (body : list byte + string)
    (bytes : list byte) (remote : SocketAddr) (lid : string) (gkey : list byte) (lease : Lease)
    (creds : list CredentialHeader) : Prop :=
  exists read host,
    collect_body body GLOBAL_MAX_BODY_BYTES = Ok bytes /\
    get_lease m_read lid = Ok read /\
    authenticate remote (p_headers parts) lid read gkey = Ok tt /\
    use_lease m_use now lid = (m, Ok lease) /\
    extract_host (p_headers parts) (p_uri parts) = Some host /\
    validate_request (p_method parts) host (uri_path (p_uri parts))
      (v ← hm_get (p_headers parts) "content-type"; header_value_to_str v)
      (if bool_decide (bytes = []) then None else Some bytes) (granted_scope lease) = Ok tt /\
    fetch_credential (credential_ref lease) lid = Ok creds.

Lemma validated_host method host path ct body s :
  validate_request method host path ct body s = Ok tt -> s_hosts s = [] \/ host ∈ s_hosts s.
Proof. unfold validate_request. intros ([] & Hh & _)%rbind_ok. by apply validate_host_spec. Qed.

Lemma handle_request_inner_outcome m_read m_use now parts body remote lid gkey ao m r fx :
  handle_request_inner m_read m_use now parts body remote lid gkey ao = (m, r, fx) ->
  (fx_sent fx = [] /\ forall resp, r <> Ok resp) \/
  exists bytes lease creds, let_through m_read m_use m now parts body bytes remote lid gkey lease creds /\
    adds lease parts bytes creds 6 (mkEffects [] []) fx /\ opens_with (p_uri parts) (mkEffects [] []) fx /\
    (forall resp, r = Ok resp -> sanitized resp).
Proof.
  unfold handle_request_inner.
  destruct (collect_body body GLOBAL_MAX_BODY_BYTES) as [bytes|e|] eqn:Ebody; [|intros [= <- <- <-]; by left..].
  destruct (get_lease m_read lid) as [read|e|] eqn:Eg; cbn [map_err]; [|intros [= <- <- <-]; by left..].
  destruct (authenticate remote (p_headers parts) lid read gkey) as [[]|e|] eqn:Ea;
    [|intros [= <- <- <-]; left; rewrite ?emit_blocked_sent; done..].
  destruct (use_lease m_use now lid) as [m1 [lease|e|]] eqn:Eu; [|intros [= <- <- <-]; by left..].
  destruct (extract_host (p_headers parts) (p_uri parts)) as [host|] eqn:Eh; [|intros [= <- <- <-]; by left].
  match goal with |- context [validate_request ?a ?b ?c ?d ?e ?f] =>
    destruct (validate_request a b c d e f) as [[]|err|] eqn:Ev end;
    [|intros [= <- <- <-]; left; rewrite ?emit_blocked_sent; done..].
  destruct (resolve_and_verify (dns_at 0) lease host) as [ips|e|] eqn:Er;
    [|intros [= <- <- <-]; left; rewrite ?emit_blocked_sent; done..].
  destruct (fetch_credential (credential_ref lease) lid) as [creds|e|] eqn:Ec; [|intros [= <- <- <-]; by left..].
  destruct (execute_with_redirects parts bytes host creds ips lease lid ao (mkEffects [] [])) as [r1 fx1] eqn:Ex.
  intros [= <- <- <-]. right. exists bytes, lease, creds. apply resolve_and_verify_ok in Er as [_ Er].
  pose proof (forward_first _ _ _ _ _ _ _ _ _ _ _ _ _ _ Ex) as Hfirst.
  destruct (forward_confined _ _ _ _ _ _ _ _ _ _ _ _ _ _ (validated_host _ _ _ _ _ _ Ev) Er Ex) as [Hadd Hs].
  split; [|done]. exists read, host. split_and!; done.
Qed.

(** *** Properties *)

(** C2. Whatever the resolver and the upstream hosts answer, a request opens at
    most six connections, and none unless it was authenticated against the
    stored lease, a use of the lease was recorded and the scope check passed
    for its method, host, path, content type and whole body.  The first
    connection is for the URI that was checked and all carry the body that
    was checked.  Each goes to an address pinned at lease creation for a host of
    the scope, the first Host value names that host, the agent's own CDP
    headers are not forwarded, and every other header carries the agent's
    values followed by the credential's. *)
Theorem proxied_traffic_is_confined (m_read m_use m : LeaseManager) (now : Z) (parts : Parts)
    (body : list byte + string) (remote : SocketAddr) (lid : string) (gkey : list byte) (ao : bool)
    (r : result Response ProxyError) (fx : Effects) :
  handle_request_inner m_read m_use now parts body remote lid gkey ao = (m, r, fx) ->
  fx_sent fx = [] \/
  exists bytes lease creds first more,
    let_through m_read m_use m now parts body bytes remote lid gkey lease creds /\
    fx_sent fx = first :: more /\ o_uri first.2 = p_uri parts /\ (length (fx_sent fx) <= 6)%nat /\
    Forall (fun c => confined lease parts creds c /\ o_body c.2 = bytes) (fx_sent fx).
Proof.
  intros [[Hs _]|(bytes & lease & creds & Hl & (new & Hn & Hlen & Hc) & [E|(c & rest & E & Hu)] & _)]%handle_request_inner_outcome;
    [by left|by left|].
  right. exists bytes, lease, creds, c, rest. cbn in Hn, E. rewrite Hn in *. by split_and!.
Qed.

(** The agent always gets a response, and no response it gets, neither the
    upstream's nor an error of the proxy, carries an authorization,
    set-cookie, www-authenticate or proxy-authorization header. *)
Theorem agent_sees_no_credential_headers (empty : HeaderMap) (m_read m_use : LeaseManager) (now : Z)
    (parts : Parts) (body : list byte + string) (remote : SocketAddr) (lid : string)
    (gkey : list byte) (ao : bool) :
  (forall n, hm_get_all empty n = []) ->
  let '(_, r, _) := handle_request empty m_read m_use now parts body remote lid gkey ao in
  (forall e, r <> Err e) /\ (forall resp, r = Ok resp -> sanitized resp).
Proof.
  intros Hempty. unfold handle_request.
  destruct (handle_request_inner _ _ _ _ _ _ _ _ _) as [[m r] fx] eqn:Hh.
  apply handle_request_inner_outcome in Hh. destruct r as [resp|e|].
  - split; [done|]. intros ? [= <-]. destruct Hh as [[_ Hn]|(? & ? & ? & _ & _ & _ & Hs)]; [by destruct (Hn resp)|auto].
  - destruct (proxy_error_to_response e) as [st text]. split; [done|]. intros ? [= <-] n Hn. simpl.
    rewrite get_all_append, Hempty, bool_decide_eq_false_2; [done|].
    intros <-. unfold SENSITIVE_RESPONSE_HEADERS in Hn. set_solver.
  - done.
Qed.

(** An authenticated request on a lease that was revoked or swept as expired
    is answered with 502, not with the 403 the error mapping has for expired
    and revoked leases, because [use_lease] reports [NotActive] for both. *)
Theorem inactive_lease_answers_bad_gateway (empty : HeaderMap) (m_read m_use : LeaseManager) (now : Z)
    (parts : Parts) (bytes : list byte) (remote : SocketAddr) (lid : string) (gkey : list byte)
    (ao : bool) (read l : Lease) :
  Z.of_nat (length bytes) <= GLOBAL_MAX_BODY_BYTES ->
  leases m_read !! lid = Some read -> authenticate remote (p_headers parts) lid read gkey = Ok tt ->
  leases m_use !! lid = Some l -> status l <> Active ->
  exists resp, handle_request empty m_read m_use now parts (inl bytes) remote lid gkey ao =
    (m_use, Ok resp, mkEffects [] []) /\ r_status resp = 502.
Proof.
  intros Hlen Hread Hauth Hl Hst. unfold handle_request, handle_request_inner, collect_body, get_lease.
  rewrite Z.gtb_ltb, (proj2 (Z.ltb_ge _ _) Hlen), Hread. simpl. rewrite Hauth.
  unfold use_lease, use_checked. rewrite Hl, bool_decide_eq_false_2 by done. simpl. by eexists.
Qed.
End HttpSpec.

(** ** A concrete request *)

#[local] Existing Instances plain_fmt plain_addr list_http list_http_laws demo_proc demo_mac literal_globs
  one_body release_build.

(** The first exchange redirects to the other host of the scope, the second
    answers with a cookie. *)
#[local] Instance demo_net : Network :=
  {| dns_at := fun _ => {| lookup_host := fun _ => inl [github_ip] |};
     tcp_connect := fun _ _ _ => None;
     exchange := fun k _ _ _ => inl
       match k with
       | O => mkResponse 302 [("location", as_bytes "gist.github.com")] (inl [])
       | _ => mkResponse 200 [("set-cookie", as_bytes "s=1"); ("etag", as_bytes "x")] (inl (as_bytes "hi"))
       end |}.

#[local] Instance demo_creds : CredentialProvider :=
  {| fetch_credential := fun _ _ => Ok [mkCredentialHeader "Authorization" (as_bytes "Bearer t")] |}.

Definition demo_parts : Parts := mkParts "GET" (Some "http", None, None, "/user") auth_headers.

Definition no_headers : @HeaderMap list_http := [].

Definition demo_manager (l : Lease) : LeaseManager :=
  mkLeaseManager (<["11" := l]> ∅) ∅ [Byte.x01] true [].

Definition demo_handled : LeaseManager * result Response ProxyError * Effects :=
  handle_request_inner (demo_manager proxied_lease) (demo_manager proxied_lease) 5 demo_parts (inl [])
    demo_peer "11" [Byte.x01] true.

Lemma proxied_traffic_is_confined_witness :
  length (fx_sent demo_handled.2) = 2%nat /\ (length (fx_sent demo_handled.2) <= 6)%nat.
Proof.
  split; [vm_compute; reflexivity|].
  destruct (proxied_traffic_is_confined (demo_manager proxied_lease) (demo_manager proxied_lease)
    demo_handled.1.1 5 demo_parts (inl []) demo_peer "11" [Byte.x01] true
    demo_handled.1.2 demo_handled.2) as [Hs|(bytes & lease & creds & first & more & _ & _ & _ & Hlen & _)].
  - vm_compute. reflexivity.
  - rewrite Hs. simpl. lia.
  - exact Hlen.
Defined.

Lemma agent_sees_no_credential_headers_witness :
  exists resp, (handle_request no_headers (demo_manager proxied_lease) (demo_manager proxied_lease) 5 demo_parts (inl [])
    demo_peer "11" [Byte.x01] true).1.2 = Ok resp /\ hm_get_all (r_headers resp) "set-cookie" = [].
Proof.
  pose proof (agent_sees_no_credential_headers no_headers (demo_manager proxied_lease) (demo_manager proxied_lease) 5
    demo_parts (inl []) demo_peer "11" [Byte.x01] true (fun n => eq_refl)) as Hs.
  assert (Hok : is_ok (handle_request no_headers (demo_manager proxied_lease) (demo_manager proxied_lease) 5 demo_parts
    (inl []) demo_peer "11" [Byte.x01] true).1.2 = true) by (vm_compute; reflexivity).
  destruct (handle_request _ _ _ _ _ _ _ _ _ _) as [[m r] fx]. simpl in Hok |- *.
  destruct r as [resp| |]; [|discriminate Hok..].
  exists resp. split; [reflexivity|]. apply (proj2 Hs resp eq_refl). right. left.
Defined.

Definition revoked_lease : Lease := set_status (Revoked "stop") proxied_lease.

Lemma inactive_lease_answers_bad_gateway_witness :
  exists resp, handle_request no_headers (demo_manager revoked_lease) (demo_manager revoked_lease) 5 demo_parts (inl [])
    demo_peer "11" [Byte.x01] true = (demo_manager revoked_lease, Ok resp, mkEffects [] []) /\ r_status resp = 502.
Proof.
  apply (inactive_lease_answers_bad_gateway no_headers (demo_manager revoked_lease) (demo_manager revoked_lease) 5
    demo_parts [] demo_peer "11" [Byte.x01] true revoked_lease revoked_lease).
  - discriminate.
  - reflexivity.
  - vm_compute. reflexivity.
  - reflexivity.
  - discriminate.
Defined.
