(* ===== verification/ProxyManager.v ===== *)
(** * cdp-proxy: the listener pool

    [cdp-proxy/src/manager.rs]: ports handed to leases.  The mutex makes each
    operation one step; a listener task that ends by itself leaves its entry
    in the map, so the map is the whole state.  [stopped] collects the bind
    addresses of the handles whose sender was dropped. *)

From S2P Require Import Prelude RustStr LeaseTypes ProxyScope ProxyAuth.

Record ProxyManager : Type := mkProxyManager {
  config : ProxyConfig;
  listeners : gmap string (Z * SocketAddr);
  stopped : list SocketAddr
}.

Definition proxy_manager_new (c : ProxyConfig) : ProxyManager := mkProxyManager c ∅ [].

Definition listener_addr (c : ProxyConfig) (port : Z) : SocketAddr := mkSocketAddr (bind_address c) port.

Definition port_in_use (ls : gmap string (Z * SocketAddr)) (port : Z) : bool :=
  existsb (fun kv => kv.2.1 =? port) (map_to_list ls).

(** The first of the [n] ports from [port] on that is free. *)
Fixpoint first_free (n : nat) (port : Z) (ls : gmap string (Z * SocketAddr)) : option Z :=
  match n with
  | O => None
  | S n' => if port_in_use ls port then first_free n' (port + 1) ls else Some port
  end.

(** [(start..=end).find(..)] *)
Definition find_free_port (pm : ProxyManager) : option Z :=
  first_free (Z.to_nat (port_range_end (config pm) - port_range_start (config pm) + 1))
    (port_range_start (config pm)) (listeners pm).

(** [listeners.insert(..)] drops the handle it replaces. *)
Definition insert_listener (pm : ProxyManager) (lease_id : string) (port : Z) : ProxyManager :=
  mkProxyManager (config pm)
    (<[lease_id := (port, listener_addr (config pm) port)]> (listeners pm))
    (match listeners pm !! lease_id with Some (_, a) => stopped pm ++ [a] | None => stopped pm end).

Definition exhausted (c : ProxyConfig) : ProxyError :=
  PortExhausted ("all ports in range " +:+ display_Z (port_range_start c) +:+ "-" +:+
                 display_Z (port_range_end c) +:+ " are in use").

(** [start_proxy] and [allocate_port] differ in the task that is spawned. *)
Definition start_proxy (pm : ProxyManager) (lease_id : string) : ProxyManager * result Z ProxyError :=
  match find_free_port pm with
  | None => (pm, Err (exhausted (config pm)))
  | Some port => (insert_listener pm lease_id port, Ok port)
  end.

Definition allocate_port (pm : ProxyManager) (lease_id : string) : ProxyManager * result Z ProxyError :=
  match find_free_port pm with
  | None => (pm, Err (exhausted (config pm)))
  | Some port => (insert_listener pm lease_id port, Ok port)
  end.

Definition port_for_lease (pm : ProxyManager) (lease_id : string) : option Z :=
  fst <$> listeners pm !! lease_id.

Definition bind_addr_for_lease (pm : ProxyManager) (lease_id : string) : option SocketAddr :=
  snd <$> listeners pm !! lease_id.

Definition release_lease (pm : ProxyManager) (lease_id : string) : ProxyManager * bool :=
  match listeners pm !! lease_id with
  | Some (_, a) => (mkProxyManager (config pm) (delete lease_id (listeners pm)) (stopped pm ++ [a]), true)
  | None => (pm, false)
  end.

Definition stop_all (pm : ProxyManager) : ProxyManager :=
  mkProxyManager (config pm) ∅ (stopped pm ++ map (fun kv => kv.2.2) (map_to_list (listeners pm))).

Definition active_count (pm : ProxyManager) : nat := size (listeners pm).

(** ** Steps and invariant *)

Inductive pm_step : ProxyManager -> ProxyManager -> Prop :=
| pm_start pm id : pm_step pm (start_proxy pm id).1
| pm_allocate pm id : pm_step pm (allocate_port pm id).1
| pm_release pm id : pm_step pm (release_lease pm id).1
| pm_stop pm : pm_step pm (stop_all pm).

(** Ports are in range, bound where the handle says, and held once. *)
Record ports_ok (pm : ProxyManager) : Prop := {
  po_range : forall id p a, listeners pm !! id = Some (p, a) ->
    port_range_start (config pm) <= p <= port_range_end (config pm) /\ a = listener_addr (config pm) p;
  po_unique : forall id1 id2 p a1 a2, listeners pm !! id1 = Some (p, a1) ->
    listeners pm !! id2 = Some (p, a2) -> id1 = id2
}.

Lemma port_in_use_spec ls port : port_in_use ls port = true <-> exists id a, ls !! id = Some (port, a).
Proof.
  unfold port_in_use. rewrite existsb_spec. split.
  - intros ([id [p a]] & Hin%elem_of_map_to_list & Hp%Z.eqb_eq). simpl in *. subst. eauto.
  - intros (id & a & Hl). exists (id, (port, a)). split; [by apply elem_of_map_to_list|apply Z.eqb_refl].
Qed.

Lemma first_free_spec n port ls :
  match first_free n port ls with
  | Some p => port <= p < port + Z.of_nat n /\ port_in_use ls p = false /\
              forall q, port <= q < p -> port_in_use ls q = true
  | None => forall q, port <= q < port + Z.of_nat n -> port_in_use ls q = true
  end.
Proof.
  revert port. induction n as [|n IH]; intros port; simpl; [lia|].
  destruct (port_in_use ls port) eqn:E.
  - specialize (IH (port + 1)). destruct (first_free n (port + 1) ls) as [p|].
    + destruct IH as (? & ? & Hq). split_and!; [lia..|done|]. intros q Hle.
      destruct (decide (q = port)) as [->|]; [done|]. apply Hq. lia.
    + intros q Hq. destruct (decide (q = port)) as [->|]; [done|]. apply IH. lia.
  - split_and!; [lia..|done|]. lia.
Qed.

Lemma find_free_port_spec pm :
  match find_free_port pm with
  | Some p => port_range_start (config pm) <= p <= port_range_end (config pm) /\
              port_in_use (listeners pm) p = false /\
              forall q, port_range_start (config pm) <= q < p -> port_in_use (listeners pm) q = true
  | None => forall q, port_range_start (config pm) <= q <= port_range_end (config pm) ->
              port_in_use (listeners pm) q = true
  end.
Proof.
  unfold find_free_port.
  pose proof (first_free_spec (Z.to_nat (port_range_end (config pm) - port_range_start (config pm) + 1))
    (port_range_start (config pm)) (listeners pm)) as Hs.
  destruct (first_free _ _ _) as [p|].
  - destruct Hs as (? & ? & ?). split_and!; [lia..|done|done].
  - intros q Hq. apply Hs. lia.
Qed.

Lemma insert_listener_ok pm id p :
  ports_ok pm -> port_range_start (config pm) <= p <= port_range_end (config pm) ->
  port_in_use (listeners pm) p = false -> ports_ok (insert_listener pm id p).
Proof.
  intros [Hr Hu] Hp Hfree.
  assert (forall x a, listeners pm !! x <> Some (p, a)) as Hno.
  { intros x a E. assert (port_in_use (listeners pm) p = true) by (apply port_in_use_spec; eauto). congruence. }
  split; simpl.
  - intros x q a [[<- [= <- <-]]|[_ Hx]]%lookup_insert_Some; [done|eauto].
  - intros x y q a b [[<- [= <- <-]]|[_ Hx]]%lookup_insert_Some [[<- [= <-]]|[_ Hy]]%lookup_insert_Some;
      [done|by destruct (Hno y b)|by subst; destruct (Hno x a)|eauto].
Qed.

Lemma ports_ok_step pm pm' : pm_step pm pm' -> ports_ok pm -> ports_ok pm'.
Proof.
  intros Hs Hok. destruct Hs as [pm id|pm id|pm id|pm].
  1,2: unfold start_proxy, allocate_port; pose proof (find_free_port_spec pm) as Hf;
    destruct (find_free_port pm) as [p|]; simpl; [|done];
    destruct Hf as (? & ? & _); by apply insert_listener_ok.
  - unfold release_lease. destruct (listeners pm !! id) as [[p a]|]; simpl; [|done].
    destruct Hok as [Hr Hu]. split; simpl.
    + intros x q b [_ Hx]%lookup_delete_Some. eauto.
    + intros x y q b c [_ Hx]%lookup_delete_Some [_ Hy]%lookup_delete_Some. eauto.
  - split; simpl; intros *; rewrite lookup_empty; discriminate.
Qed.

Lemma config_step pm pm' : pm_step pm pm' -> config pm' = config pm.
Proof.
  destruct 1; unfold start_proxy, allocate_port, release_lease; repeat break_match; done.
Qed.

Lemma ports_ok_run c pm : rtc pm_step (proxy_manager_new c) pm -> ports_ok pm.
Proof.
  assert (ports_ok (proxy_manager_new c)) as H0.
  { split; simpl; intros *; rewrite lookup_empty; discriminate. }
  revert H0. generalize (proxy_manager_new c) as pm0. induction 2 as [|x y z Hs _ IH]; [done|].
  apply IH. by eapply ports_ok_step.
Qed.

(** ** Property *)

(** In every state of the pool two leases never share a port and every port
    is in the configured range; starting a proxy hands out the lowest free
    port of the range, and fails only when every port of it is taken. *)
Theorem listener_ports_are_exclusive (c : ProxyConfig) (pm : ProxyManager) (id : string) :
  rtc pm_step (proxy_manager_new c) pm ->
  ports_ok pm /\
  match start_proxy pm id with
  | (pm', Ok p) => port_for_lease pm' id = Some p /\
      port_range_start (config pm) <= p <= port_range_end (config pm) /\
      (forall x a, listeners pm !! x <> Some (p, a)) /\
      (forall q, port_range_start (config pm) <= q < p -> exists x a, listeners pm !! x = Some (q, a))
  | (pm', _) => pm' = pm /\ forall q, port_range_start (config pm) <= q <= port_range_end (config pm) ->
      exists x a, listeners pm !! x = Some (q, a)
  end.
Proof.
  intros Hr%ports_ok_run. split; [done|]. unfold start_proxy.
  pose proof (find_free_port_spec pm) as Hf. destruct (find_free_port pm) as [p|].
  - destruct Hf as (Hp & Hfree & Hlow). split_and!; [|lia..| |].
    + unfold port_for_lease. simpl. by rewrite lookup_insert_eq.
    + intros x a E. assert (port_in_use (listeners pm) p = true) by (apply port_in_use_spec; eauto). congruence.
    + intros q Hq. apply port_in_use_spec. auto.
  - split; [done|]. intros q Hq. apply port_in_use_spec. auto.
Qed.

Definition two_ports : ProxyConfig := mkProxyConfig (V4 [Byte.x7f; Byte.x00; Byte.x00; Byte.x01]) 19000 19001.

Lemma listener_ports_are_exclusive_witness :
  ports_ok (start_proxy (proxy_manager_new two_ports) "a").1.
Proof.
  apply (listener_ports_are_exclusive two_ports (start_proxy (proxy_manager_new two_ports) "a").1 "b").
  apply rtc_once, pm_start.
Defined.
