(* ===== verification/ProxyServer.v ===== *)
(** * cdp-proxy: the listener tasks

    [ProxyServer::run] of [cdp-proxy/src/http.rs] and its spawning in
    [manager.rs]: one task per started proxy, which binds its address, accepts
    connections until its handle is dropped, and leaves each connection to a
    task of its own.  The tasks, the pool and the lease manager are the state
    of a step relation; the operations of other callers on the leases are the
    steps of [LeaseSteps]. *)

From S2P Require Import Prelude RustStr Crypto PolicyTypes AuditLog LeaseTypes LeaseManager LeaseLemmas LeaseSteps.
From S2P Require Import LeaseSafety LeaseProps ProxyScope ProxyAuth ProxyHttp ProxyManager.

(** ** State *)

(** [run] before and after [TcpListener::bind], and when it has returned. *)
Inductive RunPhase : Type := Binding | Accepting | Returned (bound : bool).

(** The fields of a server that differ between servers, and its phase. *)
Record ServerTask : Type := mkServerTask {
  sv_lease_id : string; sv_bind_addr : SocketAddr; sv_phase : RunPhase
}.

Definition with_phase (t : ServerTask) (ph : RunPhase) : ServerTask :=
  mkServerTask (sv_lease_id t) (sv_bind_addr t) ph.

(** [sp_handles] says which task's shutdown sender the entry of a lease holds;
    [sp_conns] are the open connections with the lease they are served for;
    [sp_sent] is what went upstream. *)
Record Serving `{HttpCrate} : Type := mkServing {
  sp_leases : LeaseManager;
  sp_pool : ProxyManager;
  sp_tasks : list ServerTask;
  sp_handles : gmap string nat;
  sp_conns : list (string * SocketAddr);
  sp_sent : list (string * (IpAddr * Z * Outbound))
}.

Arguments mkServing {_}.

Section Serve.
Context `{Fmt} `{FmtAddr} `{HttpCrate} `{!Network} `{CredentialProvider}.
Context `{ProcFs} `{HmacSha256} `{Globset} `{JsonParse} `{Build} `{Chrono} `{Resolver}.

Definition set_task (n : nat) (ph : RunPhase) (s : Serving) : Serving :=
  mkServing (sp_leases s) (sp_pool s) (alter (fun t => with_phase t ph) n (sp_tasks s)) (sp_handles s)
    (sp_conns s) (sp_sent s).

(** [start_proxy] with the task it spawns; a replaced handle is dropped. *)
Definition spawn_server (lid : string) (s : Serving) : Serving * result Z ProxyError :=
  match start_proxy (sp_pool s) lid with
  | (pool, Ok port) =>
      (mkServing (sp_leases s) pool (sp_tasks s ++ [mkServerTask lid (listener_addr (config (sp_pool s)) port) Binding])
         (<[lid := length (sp_tasks s)]> (sp_handles s)) (sp_conns s) (sp_sent s), Ok port)
  | (pool, r) => (mkServing (sp_leases s) pool (sp_tasks s) (sp_handles s) (sp_conns s) (sp_sent s), r)
  end.

(** [release_lease] drops the handle of the lease's entry, [stop_all] all. *)
Definition release_server (lid : string) (s : Serving) : Serving :=
  mkServing (sp_leases s) (release_lease (sp_pool s) lid).1 (sp_tasks s) (delete lid (sp_handles s))
    (sp_conns s) (sp_sent s).

Definition stop_servers (s : Serving) : Serving :=
  mkServing (sp_leases s) (stop_all (sp_pool s)) (sp_tasks s) ∅ (sp_conns s) (sp_sent s).

(** Whether the task's shutdown sender still exists. *)
Definition sender_alive (n : nat) (t : ServerTask) (s : Serving) : bool :=
  bool_decide (sp_handles s !! sv_lease_id t = Some n).

(** The service of a connection, for one request: [m_read] is the store when
    the lease was read, the current one is used from [use_lease] on. *)
Definition serve (empty : HeaderMap) (m_read : LeaseManager) (now : Z) (parts : Parts) (body : list byte + string)
    (remote : SocketAddr) (lid : string) (gkey : list byte) (audit : bool) (s : Serving)
    : Serving * result Response ProxyError :=
  let '(m, r, fx) := handle_request empty m_read (sp_leases s) now parts body remote lid gkey audit in
  (mkServing m (sp_pool s) (sp_tasks s) (sp_handles s) (sp_conns s)
     (sp_sent s ++ map (fun c => (lid, c)) (fx_sent fx)), r).

End Serve.

Section ServeSteps.
Context `{Fmt} `{FmtAddr} `{HttpCrate} `{HmacSha256} `{Globset} `{JsonParse} `{Build} `{Chrono}.

Inductive sstep : Serving -> Serving -> Prop :=
| s_start lid s : sstep s (spawn_server lid s).1
| s_release lid s : sstep s (release_server lid s)
| s_stop s : sstep s (stop_servers s)
(** [TcpListener::bind(self.bind_addr).await?] *)
| s_bind n t s : sp_tasks s !! n = Some t -> sv_phase t = Binding -> sstep s (set_task n Accepting s)
| s_bind_fails n t s : sp_tasks s !! n = Some t -> sv_phase t = Binding -> sstep s (set_task n (Returned false) s)
(** The accept branch; a sender dropped meanwhile is noticed in a later turn. *)
| s_accept n t remote s : sp_tasks s !! n = Some t -> sv_phase t = Accepting ->
    sstep s (mkServing (sp_leases s) (sp_pool s) (sp_tasks s) (sp_handles s)
               (sp_conns s ++ [(sv_lease_id t, remote)]) (sp_sent s))
(** The shutdown branch. *)
| s_shutdown n t s : sp_tasks s !! n = Some t -> sv_phase t = Accepting -> sender_alive n t s = false ->
    sstep s (set_task n (Returned true) s)
(** A request on an open connection; the lease was read some time before.
    Network, processes and vault are as they are at that request. *)
| s_request `{!Network} `{CredentialProvider} `{ProcFs} empty m_read now parts body remote lid gkey audit s :
    (lid, remote) ∈ sp_conns s -> rtc lstep m_read (sp_leases s) ->
    sstep s (serve empty m_read now parts body remote lid gkey audit s).1
(** The other callers of the lease manager. *)
| s_lease m s : lstep (sp_leases s) m ->
    sstep s (mkServing m (sp_pool s) (sp_tasks s) (sp_handles s) (sp_conns s) (sp_sent s)).

Definition serving_start (m : LeaseManager) (pool : ProxyManager) : Serving := mkServing m pool [] ∅ [] [].
End ServeSteps.

(** ** Lemmas *)

Section RequestLemmas.
Context `{Fmt} `{FmtAddr} `{HttpCrate} `{!HeaderMapLaws} `{!Network} `{CredentialProvider}.
Context `{ProcFs} `{HmacSha256} `{Globset} `{JsonParse} `{Build} `{Chrono}.

(** Of the lease manager a request changes what [use_lease] changes. *)
Lemma handle_request_leases empty m_read m_use now parts body remote lid gkey audit m r fx :
  handle_request empty m_read m_use now parts body remote lid gkey audit = (m, r, fx) ->
  m = m_use \/ m = (use_lease m_use now lid).1.
Proof.
  unfold handle_request. destruct (handle_request_inner _ _ _ _ _ _ _ _ _) as [[m1 r1] fx1] eqn:Hi.
  intros Hh. assert (m = m1) as -> by (destruct r1; [|destruct (proxy_error_to_response _)|]; congruence).
  clear Hh. unfold handle_request_inner in Hi. destruct (use_lease m_use now lid) as [mu u] eqn:Eu. simpl.
  repeat match type of Hi with
  | context [match ?x with _ => _ end] => lazymatch x with context [match _ with _ => _ end] => fail | _ => destruct x end
  end; by (left; congruence) || (right; congruence).
Qed.

(** What was sent was sent under an active lease. *)
Lemma handle_request_sent empty m_read m_use now parts body remote lid gkey audit m r fx :
  handle_request empty m_read m_use now parts body remote lid gkey audit = (m, r, fx) ->
  fx_sent fx = [] \/ exists lease, use_lease m_use now lid = (m, Ok lease).
Proof.
  unfold handle_request. destruct (handle_request_inner _ _ _ _ _ _ _ _ _) as [[m1 r1] fx1] eqn:Hi.
  intros Hh. assert (m = m1 /\ fx = fx1) as [-> ->]
    by (destruct r1; [|destruct (proxy_error_to_response _)|]; by simplify_eq).
  apply handle_request_inner_outcome in Hi as [[Hs _]|(bytes & lease & creds & (? & ? & _ & _ & _ & Hu & _) & _)]; [by left|].
  right. by exists lease.
Qed.

End RequestLemmas.

Section ServeLemmas.
Context `{Fmt} `{FmtAddr} `{HttpCrate} `{!HeaderMapLaws}.
Context `{HmacSha256} `{Globset} `{JsonParse} `{Build} `{Chrono}.

Lemma sstep_leases s s' : sstep s s' -> rtc lstep (sp_leases s) (sp_leases s').
Proof.
  destruct 1 as [lid s| | | | | | |net cp pf empty m_read now parts body remote lid gkey audit s _ _|m s Hl]; try reflexivity.
  - unfold spawn_server. destruct (start_proxy _ _) as [pool []]; reflexivity.
  - unfold serve. destruct (handle_request _ _ _ _ _ _ _ _ _ _) as [[m r] fx] eqn:Eh. simpl.
    apply handle_request_leases in Eh as [-> | ->]; [done|]. apply rtc_once, step_use.
  - by apply rtc_once.
Qed.

Lemma run_leases s s' : rtc sstep s s' -> rtc lstep (sp_leases s) (sp_leases s').
Proof. induction 1 as [|s1 s2 s3 Hs _ IH]; [done|]. etrans; [by apply sstep_leases|exact IH]. Qed.

(** Connections sent under leases that are active in [m]. *)
Definition sent_active (m : LeaseManager) (new : list (string * (IpAddr * Z * Outbound))) : Prop :=
  forall x c, (x, c) ∈ new -> exists l, leases m !! x = Some l /\ status l = Active.

Lemma sent_nothing m (t : list (string * (IpAddr * Z * Outbound))) : exists new, t = t ++ new /\ sent_active m new.
Proof. exists []. rewrite app_nil_r. split; [done|]. intros x c. set_solver. Qed.

Lemma sstep_sent s s' : sstep s s' -> exists new, sp_sent s' = sp_sent s ++ new /\ sent_active (sp_leases s) new.
Proof.
  destruct 1 as [lid s| | | | | | |net cp pf empty m_read now parts body remote lid gkey audit s _ _|]; try apply sent_nothing.
  - unfold spawn_server. destruct (start_proxy _ _) as [pool []]; apply sent_nothing.
  - unfold serve. destruct (handle_request _ _ _ _ _ _ _ _ _ _) as [[m r] fx] eqn:Eh. simpl.
    apply handle_request_sent in Eh as [-> |[lease Hu]]; [rewrite app_nil_r; apply sent_nothing|].
    eexists. split; [done|]. intros x c ([] & [= -> ->] & _)%list_elem_of_fmap.
    apply use_lease_ok in Hu as (l & Hl & Hc & _). exists l. by apply use_checked_ok in Hc as [Hst _].
Qed.

Context `{!ChronoLaws}.

Lemma revoked_tree_is_silent (s s' : Serving) (id : string) (l : Lease) :
  reachable (sp_leases s) -> leases (sp_leases s) !! id = Some l -> is_revoked (status l) = true ->
  rtc sstep s s' ->
  exists new, sp_sent s' = sp_sent s ++ new /\
    forall x c, within (leases (sp_leases s)) id x -> (x, c) ∉ new.
Proof.
  intros Hr Hl Hrev. revert s'. apply rtc_ind_r.
  { exists []. rewrite app_nil_r. split; [done|]. set_solver. }
  intros s1 s2 Hrun Hs (new & Hnew & Hno).
  destruct (sstep_sent _ _ Hs) as (more & Hmore & Hact). exists (new ++ more).
  split; [by rewrite Hmore, Hnew, app_assoc|]. intros x c Hw [Hin|Hin]%elem_of_app; [by eapply Hno|].
  apply run_leases in Hrun. destruct (Hact _ _ Hin) as (lx & Hx & Hst).
  destruct (revoked_stays _ (sp_leases s1) id x l Hr Hl Hrev Hrun) as (lx' & Hx' & Hrx).
  { destruct Hw as [->|Hd]; [by left|]. right. by eapply run_descends. }
  rewrite Hx in Hx'. injection Hx' as <-. by rewrite Hst in Hrx.
Qed.

(** ** Properties *)

(** C7. Revocation silences the proxy: whatever listeners, connections and other
    callers do after a lease was revoked, no request whose use of the lease
    comes after that sends anything upstream under the lease or under one
    that was delegated from it, also on connections that were open before. *)
Theorem revocation_silences_proxy (s s' : Serving) (id : string) (l : Lease) :
  reachable (sp_leases s) -> leases (sp_leases s) !! id = Some l -> is_revoked (status l) = true ->
  rtc sstep s s' ->
  exists new, sp_sent s' = sp_sent s ++ new /\
    forall x c, within (leases (sp_leases s)) id x -> (x, c) ∉ new.
Proof. apply revoked_tree_is_silent. Qed.

(** The port of a lease may be nobody's: [start_proxy] answers before the
    task has bound the port, and when that fails the entry stays while its
    task is gone, so that the agent is sent to a port on which no proxy, but
    possibly another process, listens. *)
Theorem failed_bind_keeps_port (s s1 : Serving) (lid : string) (port : Z) :
  spawn_server lid s = (s1, Ok port) ->
  exists s2, sstep s1 s2 /\ port_for_lease (sp_pool s2) lid = Some port /\
    forall n t, sp_handles s2 !! lid = Some n -> sp_tasks s2 !! n = Some t -> sv_phase t = Returned false.
Proof.
  unfold spawn_server, start_proxy. destruct (find_free_port _) as [p|]; [|done]. intros [= <- ->].
  set (t := mkServerTask lid (listener_addr (config (sp_pool s)) port) Binding).
  exists (set_task (length (sp_tasks s)) (Returned false)
    (mkServing (sp_leases s) (insert_listener (sp_pool s) lid port) (sp_tasks s ++ [t])
       (<[lid := length (sp_tasks s)]> (sp_handles s)) (sp_conns s) (sp_sent s))).
  split_and!.
  - apply (s_bind_fails _ t); [|done]. by apply list_lookup_middle.
  - unfold port_for_lease. simpl. by rewrite lookup_insert_eq.
  - simpl. intros n t'. rewrite lookup_insert_eq. intros [= <-]. rewrite list_lookup_alter.
    rewrite (list_lookup_middle (sp_tasks s) [] t) by done. rewrite decide_True by done. by intros [= <-].
Qed.
End ServeLemmas.

(** ** Witness *)

#[local] Existing Instances plain_fmt plain_addr list_http list_http_laws demo_proc literal_globs one_body.
#[local] Existing Instances chrono_range chrono_range_laws demo_hmac demo_dns release_build | 100.
#[local] Instance quiet_net : Network :=
  {| dns_at := fun _ => demo_dns; tcp_connect := fun _ _ _ => None;
     exchange := fun _ _ _ _ => inl (mkResponse 200 [] (inl [])) |}.
#[local] Instance one_secret : CredentialProvider := {| fetch_credential := fun _ _ => Ok [] |}.

(** Both leases have an open connection when the first is revoked. *)
Definition open_serving : Serving :=
  mkServing m_dead (proxy_manager_new two_ports) [] ∅ [("01", demo_peer); ("02", demo_peer)] [].

Definition asked_serving : Serving :=
  (serve no_headers m_dead 5 demo_parts (inl []) demo_peer "02" [Byte.x01] true open_serving).1.

Lemma revocation_silences_proxy_witness :
  exists new, sp_sent asked_serving = sp_sent open_serving ++ new /\ forall c, ("02", c) ∉ new.
Proof.
  destruct (revocation_silences_proxy open_serving asked_serving "01" (lease_in m_dead "01") m_dead_reachable)
    as (new & Hnew & Hno).
  - vm_compute. reflexivity.
  - vm_compute. reflexivity.
  - apply rtc_once. apply s_request; [right; left|reflexivity].
  - exists new. split; [exact Hnew|]. intros c. apply Hno. right.
    eapply (run_descends m_both); [|exact m_both_descends]. apply rtc_once.
    eapply (step_revoke _ "01" "stop" _ (Ok tt)). vm_compute. reflexivity.
Defined.
