(* ===== verification/UnixHost.v ===== *)
(** * Files, sockets and the environment of a Unix host

    What the gate's start-up and shut-down use of [std::env], [std::fs] and
    [UnixListener::bind]: a tree of files, directories and sockets with their
    permission bits, all owned by the user the gate runs as.  A path is its
    text; symbolic links are not in the tree.  Permission is checked on the
    object itself and on the directory an entry is added to or removed from;
    a privileged process passes every check. *)

From S2P Require Import Prelude StateM RustStr.

(** ** State *)

Inductive Node : Type :=
| File (mode : Z) (data : list byte)
| Directory (mode : Z)
| Socket (mode : Z).

Definition node_mode (n : Node) : Z := match n with File m _ | Directory m | Socket m => m end.
Definition set_mode (m : Z) (n : Node) : Node :=
  match n with File _ d => File m d | Directory _ => Directory m | Socket _ => Socket m end.

(** [h_self_exe] is what reading the link [/proc/self/exe] gives, [h_now] the
    clock in nanoseconds. *)
Record Host : Type := mkHost {
  h_env : gmap string string;
  h_fs : gmap string Node;
  h_privileged : bool;
  h_umask : Z;
  h_pid : Z;
  h_self_exe : string + string;
  h_now : Z
}.

Definition with_fs (h : Host) (fs : gmap string Node) : Host :=
  mkHost (h_env h) fs (h_privileged h) (h_umask h) (h_pid h) (h_self_exe h) (h_now h).

Definition put (p : string) (n : Node) (h : Host) : Host := with_fs h (<[p := n]> (h_fs h)).

(** [std::io::Error], by the kinds that occur. *)
Inductive IoErr : Type := ENOENT | EACCES | EEXIST | ENOTDIR | EISDIR | ENXIO | EADDRINUSE | EILSEQ | ETREE.

Definition display_io (e : IoErr) : string :=
  match e with
  | ENOENT => "No such file or directory (os error 2)"
  | EACCES => "Permission denied (os error 13)"
  | EEXIST => "File exists (os error 17)"
  | ENOTDIR => "Not a directory (os error 20)"
  | EISDIR => "Is a directory (os error 21)"
  | ENXIO => "No such device or address (os error 6)"
  | EADDRINUSE => "Address already in use (os error 98)"
  | EILSEQ => "stream did not contain valid UTF-8"
  | ETREE => "failed to create whole tree"
  end.

(** ** Permissions *)

Definition OWNER_READ : Z := 256.   (* 0o400 *)
Definition OWNER_WRITE : Z := 128.  (* 0o200 *)
Definition OWNER_EXEC : Z := 64.    (* 0o100 *)

Definition may (h : Host) (mode bit : Z) : bool := h_privileged h || negb (Z.land mode bit =? 0).

(** The directory that holds the entry of a path. *)
Definition dir_of (p : string) : string :=
  match path_parent p with
  | Some EmptyString => "."
  | Some d => d
  | None => p
  end.

(** Whether an entry may be added to or removed from the path's directory. *)
Definition check_dir (h : Host) (p : string) : result unit IoErr :=
  match h_fs h !! dir_of p with
  | None => Err ENOENT
  | Some (Directory m) => if may h m OWNER_WRITE && may h m OWNER_EXEC then Ok tt else Err EACCES
  | Some _ => Err ENOTDIR
  end.

Definition created_mode (h : Host) (mode : Z) : Z := Z.land mode (Z.lnot (h_umask h)).

(** ** Calls *)

Definition fs_exists (p : string) (h : Host) : bool := bool_decide (is_Some (h_fs h !! p)).

Definition is_dir (p : string) (h : Host) : bool :=
  match h_fs h !! p with Some (Directory _) => true | _ => false end.

(** Open with [create] and [truncate] and write; [mode] is for a new file. *)
Definition open_write (p : string) (mode : Z) (data : list byte) : M Host IoErr unit := fun h =>
  match h_fs h !! p with
  | Some (Directory _) => (h, Err EISDIR)
  | Some (Socket _) => (h, Err ENXIO)
  | Some (File m _) => if may h m OWNER_WRITE then (put p (File m data) h, Ok tt) else (h, Err EACCES)
  | None =>
      match check_dir h p with
      | Ok _ => (put p (File (created_mode h mode) data) h, Ok tt)
      | Err e => (h, Err e)
      | Panic => (h, Panic)
      end
  end.

(** [std::fs::write] *)
Definition fs_write (p : string) (data : list byte) : M Host IoErr unit := open_write p 438 (* 0o666 *) data.

Definition fs_read (p : string) : M Host IoErr (list byte) := fun h =>
  match h_fs h !! p with
  | None => (h, Err ENOENT)
  | Some (Directory _) => (h, Err EISDIR)
  | Some (Socket _) => (h, Err ENXIO)
  | Some (File m d) => (h, if may h m OWNER_READ then Ok d else Err EACCES)
  end.

(** [std::fs::read_to_string] refuses what lossy decoding would change. *)
Definition fs_read_to_string (p : string) : M Host IoErr string :=
  d ← fs_read p;
  if bool_decide (utf8_lossy d = d) then mret (of_bytes d) else fail EILSEQ.

(** [std::fs::set_permissions] *)
Definition fs_chmod (p : string) (mode : Z) : M Host IoErr unit := fun h =>
  match h_fs h !! p with
  | None => (h, Err ENOENT)
  | Some n => (put p (set_mode mode n) h, Ok tt)
  end.

(** [std::fs::remove_file] *)
Definition fs_remove_file (p : string) : M Host IoErr unit := fun h =>
  match h_fs h !! p with
  | None => (h, Err ENOENT)
  | Some (Directory _) => (h, Err EISDIR)
  | Some _ =>
      match check_dir h p with
      | Ok _ => (with_fs h (delete p (h_fs h)), Ok tt)
      | Err e => (h, Err e)
      | Panic => (h, Panic)
      end
  end.

Definition mkdir (p : string) : M Host IoErr unit := fun h =>
  match h_fs h !! p with
  | Some _ => (h, Err EEXIST)
  | None =>
      match check_dir h p with
      | Ok _ => (put p (Directory (created_mode h 511)) h, Ok tt)
      | Err e => (h, Err e)
      | Panic => (h, Panic)
      end
  end.

(** [mkdir], satisfied with a directory that is there. *)
Definition mkdir_or_there (p : string) : M Host IoErr unit := fun h =>
  match mkdir p h with
  | (h', Err e) => if is_dir p h' then (h', Ok tt) else (h', Err e)
  | r => r
  end.

(** [std::fs::create_dir_all]: the recursion goes up to the parent, which is
    a shorter text. *)
Fixpoint create_tree (fuel : nat) (p : string) : M Host IoErr unit :=
  match fuel with
  | O => fail ETREE
  | S fuel' =>
      if bool_decide (p = EmptyString) then mret tt
      else fun h =>
        match mkdir_or_there p h with
        | (h', Err ENOENT) =>
            match path_parent p with
            | Some d => (_ ← create_tree fuel' d; mkdir_or_there p) h'
            | None => (h', Err ETREE)
            end
        | r => r
        end
  end.

Definition fs_create_dir_all (p : string) : M Host IoErr unit := create_tree (S (String.length p)) p.

(** [UnixListener::bind] makes the socket's entry. *)
Definition fs_bind (p : string) : M Host IoErr unit := fun h =>
  match h_fs h !! p with
  | Some _ => (h, Err EADDRINUSE)
  | None =>
      match check_dir h p with
      | Ok _ => (put p (Socket (created_mode h 511)) h, Ok tt)
      | Err e => (h, Err e)
      | Panic => (h, Panic)
      end
  end.

(** ** Lemmas *)

(** What the calls never change. *)
Definition same_world (h h' : Host) : Prop :=
  h_env h' = h_env h /\ h_privileged h' = h_privileged h /\ h_umask h' = h_umask h /\
  h_pid h' = h_pid h /\ h_self_exe h' = h_self_exe h /\ h_now h' = h_now h.

#[export] Instance same_world_preorder : PreOrder same_world.
Proof. split; [by intros h|]. intros a b c (?&?&?&?&?&?) (?&?&?&?&?&?). repeat split; congruence. Qed.

Lemma same_world_put p n h : same_world h (put p n h).
Proof. done. Qed.

(** A call that leaves the world and the files of other paths alone. *)
Definition touches (P : string -> Prop) {A : Type} (m : M Host IoErr A) : Prop :=
  forall h, same_world h (m h).1 /\ forall q, ~ P q -> h_fs (m h).1 !! q = h_fs h !! q.

Ltac host_case :=
  repeat match goal with
  | |- context [match ?x with _ => _ end] => destruct x
  | |- context [if ?x then _ else _] => destruct x
  end; simpl; (split; [done|]); intros q Hq; unfold put, with_fs; simpl;
  try rewrite lookup_insert_ne by congruence; try rewrite lookup_delete_ne by congruence; done.

Lemma fs_write_touches p d : touches (eq p) (fs_write p d).
Proof. intros h. unfold fs_write, open_write. host_case. Qed.

Lemma fs_chmod_touches p m : touches (eq p) (fs_chmod p m).
Proof. intros h. unfold fs_chmod. host_case. Qed.

Lemma fs_remove_touches p : touches (eq p) (fs_remove_file p).
Proof. intros h. unfold fs_remove_file. host_case. Qed.

Lemma fs_bind_touches p : touches (eq p) (fs_bind p).
Proof. intros h. unfold fs_bind. host_case. Qed.

(** Making directories adds directories where there was nothing, and that is
    all it does. *)
Definition grows (h h' : Host) : Prop :=
  same_world h h' /\
  forall q, h_fs h' !! q = h_fs h !! q \/
            (h_fs h !! q = None /\ h_fs h' !! q = Some (Directory (created_mode h 511))).

#[export] Instance grows_preorder : PreOrder grows.
Proof.
  split; [by intros h; split; [reflexivity|left]|].
  intros a b c [W1 G1] [W2 G2]. split; [by etrans|]. intros q.
  assert (created_mode b 511 = created_mode a 511) as Hm
    by (unfold created_mode; destruct W1 as (_&_&->&_); done).
  destruct (G1 q) as [E1|[N1 D1]], (G2 q) as [E2|[N2 D2]].
  - left. congruence.
  - right. rewrite <- E1, <- Hm. done.
  - right. split; [done|]. congruence.
  - rewrite D1 in N2. discriminate.
Qed.

Lemma mkdir_grows p h : grows h (mkdir p h).1.
Proof.
  unfold mkdir. destruct (h_fs h !! p) eqn:E; [done|].
  destruct (check_dir h p); [|done..]. split; [done|]. intros q. simpl.
  destruct (decide (p = q)) as [<-|Hne].
  - right. by rewrite lookup_insert_eq.
  - left. by rewrite lookup_insert_ne.
Qed.

Lemma mkdir_or_there_fst p h : (mkdir_or_there p h).1 = (mkdir p h).1.
Proof. unfold mkdir_or_there. destruct (mkdir p h) as [h' [[]|e|]]; [done| |done]. by destruct (is_dir p h'). Qed.

Lemma create_tree_grows fuel p h : grows h (create_tree fuel p h).1.
Proof.
  revert p h. induction fuel as [|fuel IH]; intros p h; simpl; [done|].
  destruct (bool_decide _); [done|].
  pose proof (mkdir_grows p h) as Hg. rewrite <- mkdir_or_there_fst in Hg.
  destruct (mkdir_or_there p h) as [h' [[]|e|]]; [done| |done]. destruct e; try done.
  destruct (path_parent p) as [d|]; [|done]. simpl in Hg. rewrite bind_eq.
  specialize (IH d h'). destruct (create_tree fuel d h') as [h2 [[]|e|]]; simpl in IH; [|by etrans..].
  pose proof (mkdir_grows p h2) as Hg2. rewrite <- mkdir_or_there_fst in Hg2. etrans; [exact Hg|by etrans].
Qed.

Lemma create_dir_all_grows p h : grows h (fs_create_dir_all p h).1.
Proof. apply create_tree_grows. Qed.

Lemma grows_keeps h h' q n : grows h h' -> h_fs h !! q = Some n -> h_fs h' !! q = Some n.
Proof. intros [_ G] Hq. destruct (G q) as [->|[E _]]; congruence. Qed.

(** ** A parent is shorter *)

Definition weight (l : list string) : nat := sum_list_with (fun s => S (String.length s)) l.

Lemma length_append a b : String.length (a +:+ b) = (String.length a + String.length b)%nat.
Proof. induction a as [|c a IH]; [done|]. change (S (String.length (a +:+ b)) = S (String.length a) + String.length b)%nat. lia. Qed.

Lemma split_from_weight sep cur s :
  weight (split_from sep cur s) = S (String.length cur + String.length s).
Proof.
  revert cur. induction s as [|c s IH]; intros cur; simpl; [lia|].
  destruct (bool_decide _); unfold weight in *; simpl; rewrite IH; simpl; [lia|].
  rewrite length_append. simpl. lia.
Qed.

Lemma weight_rev l : weight (rev l) = weight l.
Proof.
  unfold weight. induction l as [|x l IH]; simpl; [done|]. rewrite sum_list_with_app, IH. simpl. lia.
Qed.

Lemma join_length l : l <> [] -> S (String.length (join "/" l)) = weight l.
Proof.
  induction l as [|x [|y l] IH]; intros Hne; [done|simpl; lia|].
  change (join "/" (x :: y :: l)) with (x +:+ "/" +:+ join "/" (y :: l)).
  rewrite !length_append. unfold weight in *. cbn [sum_list_with] in *. specialize (IH ltac:(done)).
  change (String.length "/") with 1%nat. lia.
Qed.

Lemma trim_pieces_weight l : (weight (trim_pieces l) <= weight l)%nat.
Proof.
  unfold weight. induction l as [|x [|y l] IH]; [done..|].
  cbn [trim_pieces]. destruct (_ || _); [|done]. etrans; [apply IH|]. cbn [sum_list_with]. lia.
Qed.

(** What is left after trimming: one piece, or a last piece that is a
    component. *)
Lemma trim_pieces_head l x y r : trim_pieces l = x :: y :: r -> x <> EmptyString.
Proof.
  induction l as [|a [|b l] IH]; [done..|]. cbn [trim_pieces].
  destruct (bool_decide (a = EmptyString) || bool_decide (a = ".")) eqn:E; [apply IH|].
  apply orb_false_iff in E as [E%bool_decide_eq_false _]. intros [= <- _ _]. done.
Qed.

Lemma trim_pieces_nonempty l : l <> [] -> trim_pieces l <> [].
Proof. induction l as [|a [|b l] IH]; [done..|]. intros _. cbn [trim_pieces]. destruct (_ || _); [by apply IH|done]. Qed.

Lemma of_pieces_length l : l <> [] -> (String.length (of_pieces l) <= weight l)%nat.
Proof.
  intros Hne. pose proof (join_length (rev l)) as Hj. rewrite weight_rev in Hj.
  assert (rev l <> []) as Hr by (destruct l; [done|]; simpl; by destruct (rev l)).
  specialize (Hj Hr). unfold of_pieces. destruct l as [|[|c s] [|y r]]; [done|simpl; lia|lia..].
Qed.

(** [path.parent()] is a proper prefix by length, so the recursion of
    [create_dir_all] ends within its fuel. *)
Lemma path_parent_shorter p d : path_parent p = Some d -> (String.length d < String.length p)%nat.
Proof.
  assert (weight (pieces_rev p) = S (String.length p)) as Hw
    by (unfold pieces_rev; rewrite weight_rev; apply (split_from_weight path_sep EmptyString p)).
  pose proof (trim_pieces_weight (pieces_rev p)) as Ht. unfold path_parent.
  destruct (trim_pieces (pieces_rev p)) as [|x [|y r]] eqn:E; [done| |].
  - destruct x as [|c s]; [done|]. intros [= <-]. unfold weight in *. simpl in *. lia.
  - assert (x <> EmptyString) as Hx by (by eapply trim_pieces_head). destruct x as [|c x]; [done|].
    intros Hd. assert (d = of_pieces (trim_pieces (y :: r))) as -> by congruence.
    pose proof (trim_pieces_weight (y :: r)) as Ht2.
    pose proof (of_pieces_length (trim_pieces (y :: r)) (trim_pieces_nonempty (y :: r) ltac:(done))) as Hl.
    change (weight (String c x :: y :: r)) with (S (S (String.length x)) + weight (y :: r))%nat in Ht. lia.
Qed.

Lemma path_parent_ne p d : path_parent p = Some d -> d <> p.
Proof. intros Hp ->. apply path_parent_shorter in Hp. lia. Qed.

(** ** Paths and UTF-8 *)

(** Well-formed text decodes to itself, also in front of other text. *)
Lemma utf8_lossy_app a b : utf8_lossy a = a -> utf8_lossy (a ++ b) = a ++ utf8_lossy b.
Proof.
  remember (length a) as n eqn:Hn. revert a Hn. induction (lt_wf n) as [n _ IH]. intros a ->.
  destruct a as [|x l1]; [done|]. cbn [utf8_lossy app].
  destruct (byte_in 0 127 x) eqn:E0.
  { intros [= H1]. by rewrite (IH (length l1)) by (simpl; lia || done). }
  destruct (byte_in 194 223 x) eqn:E1.
  { destruct l1 as [|y l2]; [intros H; by apply (f_equal length) in H|]. cbn [app].
    destruct (byte_in 128 191 y) eqn:E2.
    - intros [= H1]. by rewrite (IH (length l2)) by (simpl; lia || done).
    - intros [= <- H1 _]. discriminate. }
  destruct (byte_in 224 239 x) eqn:E2.
  { destruct l1 as [|y l2]; [intros H; by apply (f_equal length) in H|]. cbn [app].
    destruct (second_ok x y) eqn:E3.
    - destruct l2 as [|z l3]; [intros H; by apply (f_equal length) in H|]. cbn [app].
      destruct (byte_in 128 191 z) eqn:E4.
      + intros [= H1]. by rewrite (IH (length l3)) by (simpl; lia || done).
      + intros [= <- <- <- H1]. discriminate.
    - intros [= <- <- H1]. discriminate. }
  destruct (byte_in 240 244 x) eqn:E3.
  { destruct l1 as [|y l2]; [intros H; by apply (f_equal length) in H|]. cbn [app].
    destruct (second_ok x y) eqn:E4.
    - destruct l2 as [|z l3]; [intros H; by apply (f_equal length) in H|]. cbn [app].
      destruct (byte_in 128 191 z) eqn:E5.
      + destruct l3 as [|w l4]; [intros [= <- ?]; discriminate|]. cbn [app].
        destruct (byte_in 128 191 w) eqn:E6.
        * intros [= H1]. by rewrite (IH (length l4)) by (simpl; lia || done).
        * intros [= <- H1]. discriminate.
      + intros [= <- H1]. discriminate.
    - intros [= <- H1]. discriminate. }
  intros [= <- H1]. discriminate.
Qed.

Lemma as_bytes_app a b : as_bytes (a +:+ b) = as_bytes a ++ as_bytes b.
Proof.
  unfold as_bytes, String.list_byte_of_string. rewrite <- map_app. f_equal.
  induction a as [|c a IH]; [done|]. by apply (f_equal (cons c)).
Qed.

Lemma of_as_bytes_id s : of_bytes (as_bytes s) = s.
Proof. apply String.string_of_list_byte_of_string. Qed.

Lemma as_of_bytes l : as_bytes (of_bytes l) = l.
Proof. apply String.list_byte_of_string_of_list_byte. Qed.

Lemma to_string_lossy_id s : to_string_lossy s = s <-> utf8_lossy (as_bytes s) = as_bytes s.
Proof.
  unfold to_string_lossy. split; intros Hs.
  - rewrite <- (as_of_bytes (utf8_lossy (as_bytes s))). by rewrite Hs.
  - rewrite Hs. apply of_as_bytes_id.
Qed.

Lemma to_string_lossy_app a b :
  to_string_lossy a = a -> to_string_lossy b = b -> to_string_lossy (a +:+ b) = a +:+ b.
Proof.
  rewrite !to_string_lossy_id, as_bytes_app. intros Ha Hb. by rewrite utf8_lossy_app, Hb.
Qed.

(** The last piece takes what is appended without a slash. *)
Lemma split_from_plain sep cur t : ~ In sep (String.list_ascii_of_string t) -> split_from sep cur t = [cur +:+ t].
Proof.
  revert cur. induction t as [|c t IH]; intros cur Ht; simpl; [by rewrite append_nil_r|].
  rewrite bool_decide_eq_false_2 by (intros ->; apply Ht; by left).
  rewrite IH by (intros Hin; apply Ht; by right). by rewrite append_assoc.
Qed.

Lemma split_from_last sep cur s t : ~ In sep (String.list_ascii_of_string t) ->
  exists l x, split_from sep cur (s +:+ t) = l ++ [x +:+ t].
Proof.
  intros Ht. revert cur. induction s as [|c s IH]; intros cur.
  - exists [], cur. by apply split_from_plain.
  - change (String c s +:+ t) with (String c (s +:+ t)). cbn [split_from]. destruct (bool_decide _).
    + destruct (IH EmptyString) as (l & x & ->). by exists (cur :: l), x.
    + apply IH.
Qed.

Lemma ends_with_sep_app s t : ~ In path_sep (String.list_ascii_of_string t) -> t <> EmptyString ->
  ends_with_sep (s +:+ t) = false.
Proof.
  intros Hn Ht. destruct (split_from_last path_sep EmptyString s t Hn) as (l & x & E).
  unfold ends_with_sep, pieces_rev, split. rewrite E, rev_app_distr. simpl.
  destruct (x +:+ t) as [|c u] eqn:Ex; [|done]. destruct x; [by destruct t|done].
Qed.

(** Joining below a name that does not end in a slash. *)
Lemma path_join_name s t rest : ~ In path_sep (String.list_ascii_of_string t) -> t <> EmptyString ->
  (exists c r, rest = String c r /\ c <> path_sep) ->
  path_join (s +:+ t) rest = s +:+ t +:+ "/" +:+ rest.
Proof.
  intros Hn Ht (c & r & -> & Hc). unfold path_join. rewrite bool_decide_eq_false_2 by done.
  rewrite ends_with_sep_app by done. rewrite bool_decide_eq_false_2 by (destruct s; [by destruct t|done]).
  simpl. by rewrite append_assoc.
Qed.
