(* ===== verification/GateAgent.v ===== *)
(** * cdp-gate: errors and agent verification

    [cdp-gate/src/error.rs], the agent types of [types.rs] and
    [agent_verify.rs].  The operating system is the fields of [AgentOs];
    an open pidfd is the number the system returned. *)

From S2P Require Import Prelude RustStr Crypto PolicyTypes LeaseTypes AuditLog ProxyScope ProxyHttp ProxyAuth.

#[local] Arguments String.append !_ _ /.

(** ** Errors *)

Inductive GateError : Type :=
| GateConfigError (m : string)
| GateListener (m : string)
| AgentVerification (m : string)
| GateFingerprint (m : string)
| GateJsonRpc (code : Z) (message : string)
| Replay (m : string)
| SessionInvalid (m : string)
| GateIo (m : string)
| Syscall (m : string)
| GateCrypto (e : CryptoError)
| GatePolicy (e : PolicyError)
| GateLease (e : LeaseError)
| GateProxy (e : ProxyError)
| GateVault (m : string)
| CredentialDenied (reason : string).

Definition display_policy_error (e : PolicyError) : string :=
  match e with
  | Parse file reason => "policy parse error in " +:+ file +:+ ": " +:+ reason
  | Validation name reason => "policy validation error in " +:+ name +:+ ": " +:+ reason
  | DirectoryNotFound dir => "policy directory not found: " +:+ dir
  | ApprovalTimeout secs => "approval timeout after " +:+ display_Z secs +:+ " seconds"
  | ApprovalCommand m => "approval command failed: " +:+ m
  | Watcher m => "watcher error: " +:+ m
  | PolicyIo m => "io error: " +:+ m
  | GlobPattern m => "glob pattern error: " +:+ m
  end.

Definition display_gate_error `{FmtAddr} (e : GateError) : string :=
  match e with
  | GateConfigError m => "config error: " +:+ m
  | GateListener m => "listener error: " +:+ m
  | AgentVerification m => "agent verification failed: " +:+ m
  | GateFingerprint m => "fingerprint file error: " +:+ m
  | GateJsonRpc code message => "JSON-RPC error (" +:+ display_Z code +:+ "): " +:+ message
  | Replay m => "replay detected: " +:+ m
  | SessionInvalid m => "session invalid: " +:+ m
  | GateIo m => "io error: " +:+ m
  | Syscall m => "system call failed: " +:+ m
  | GateCrypto e => "crypto error: " +:+ display_crypto_error e
  | GatePolicy e => "policy error: " +:+ display_policy_error e
  | GateLease e => "lease error: " +:+ display_lease_error e
  | GateProxy e => "proxy error: " +:+ display_proxy_error e
  | GateVault m => "vault error: " +:+ m
  | CredentialDenied r => "credential request denied: " +:+ r
  end.

Definition PARSE_ERROR : Z := -32700.
Definition INVALID_REQUEST : Z := -32600.
Definition METHOD_NOT_FOUND : Z := -32601.
Definition REPLAY_DETECTED : Z := -32010.
Definition REGISTRATION_REQUIRED : Z := -32011.
Definition SESSION_INVALID : Z := -32013.
Definition AGENT_VERIFICATION_FAILED : Z := -32020.
Definition CREDENTIAL_DENIED : Z := -32030.
Definition LEASE_ERROR : Z := -32031.
Definition PROXY_ERROR : Z := -32032.

(** ** Agents *)

Record AgentFingerprint : Type := mkAgentFingerprint {
  fp_uid : Z;
  fp_pid : Z;
  fp_binary_path : string;
  fp_binary_hash : list byte;
  fp_start_time : Z;
  fp_hash : list byte;
  fp_pidfd : Z
}.

Record PeerInfo : Type := mkPeerInfo { peer_pid : Z; peer_uid : Z; peer_gid : Z }.

Record DeathNotification : Type := mkDeathNotification {
  death_pid : Z;
  death_fingerprint : list byte
}.

(** System calls and files; [inr] is the error's text. *)
Class AgentOs : Type := {
  sys_pidfd_open : Z -> Z + string;
  fd_try_clone : Z -> Z + string;
  os_read_link : string -> string + string;
  os_read : string -> list byte + string;
  os_read_to_string : string -> string + string
}.

(** [x.to_le_bytes()] *)
Definition le_bytes (k : nat) (x : N) : list byte := rev (be_bytes k x).

Definition close_paren : Ascii.ascii := Ascii.ascii_of_N 41.

(** [s.rfind(')')], as the text after it. *)
Fixpoint after_last (c : Ascii.ascii) (s : string) : option string :=
  match s with
  | EmptyString => None
  | String c' s' =>
      match after_last c s' with
      | Some r => Some r
      | None => if bool_decide (c' = c) then Some s' else None
      end
  end.

(** The error text of [str::parse::<u64>]. *)
Class FmtParse : Type := { parse_u64_error : string -> string }.

Section Verify.
Context `{AgentOs} `{Sha256} `{FmtParse}.

Definition pidfd_open (pid : Z) : result Z GateError :=
  match sys_pidfd_open pid with
  | inl fd => Ok fd
  | inr e => Err (Syscall ("pidfd_open(" +:+ display_Z pid +:+ ") failed: " +:+ e))
  end.

Definition hash_binary (path : string) : result (list byte) GateError :=
  match os_read path with
  | inl data => Ok (sha256 data)
  | inr e => Err (AgentVerification ("failed to read binary " +:+ to_string_lossy path +:+ ": " +:+ e))
  end.

Definition read_binary_path (pid : Z) : result string GateError :=
  let file := "/proc/" +:+ display_Z pid +:+ "/exe" in
  match os_read_link file with
  | inl p => Ok p
  | inr e => Err (AgentVerification ("failed to read " +:+ file +:+ ": " +:+ e))
  end.

Definition STARTTIME_INDEX : nat := 19.

Definition read_start_time (pid : Z) : result Z GateError :=
  let file := "/proc/" +:+ display_Z pid +:+ "/stat" in
  match os_read_to_string file with
  | inr e => Err (AgentVerification ("failed to read " +:+ file +:+ ": " +:+ e))
  | inl stat =>
      let! remainder := ok_or (after_last close_paren stat)
        (AgentVerification (file +:+ ": no closing parenthesis")) in
      let fields := split_whitespace remainder in
      let! field := ok_or (fields !! STARTTIME_INDEX)
        (AgentVerification (file +:+ ": not enough fields after comm (got " +:+
           display_Z (Z.of_nat (length fields)) +:+ ", need " +:+
           display_Z (Z.of_nat (STARTTIME_INDEX + 1)) +:+ ")")) in
      ok_or (parse_u U64 field)
        (AgentVerification (file +:+ ": field 22 is not u64: " +:+ parse_u64_error field +:+
                            " (raw: " +:+ field +:+ ")"))
  end.

(** The bytes fed to the hash, and the fingerprint. *)
Definition fingerprint_input (uid pid : Z) (binary_hash : list byte) (start_time : Z) : list byte :=
  le_bytes 4 (Z.to_N uid) ++ le_bytes 4 (Z.to_N pid) ++ binary_hash ++ le_bytes 8 (Z.to_N start_time).

Definition compute_fingerprint (uid pid : Z) (binary_hash : list byte) (start_time : Z) : list byte :=
  sha256 (fingerprint_input uid pid binary_hash start_time).

Definition verify_agent (pid uid : Z) : result AgentFingerprint GateError :=
  let! pidfd := pidfd_open pid in
  let! binary_path := read_binary_path pid in
  let! binary_hash := hash_binary binary_path in
  let! start_time := read_start_time pid in
  let fingerprint_hash := compute_fingerprint uid pid binary_hash start_time in
  Ok (mkAgentFingerprint uid pid binary_path binary_hash start_time fingerprint_hash pidfd).
End Verify.

(** ** Lemmas *)

Lemma le_bytes_inj k x y :
  (x < 256 ^ N.of_nat k)%N -> (y < 256 ^ N.of_nat k)%N -> le_bytes k x = le_bytes k y -> x = y.
Proof.
  intros Hx Hy E. apply (be_bytes_inj k); [done..|].
  apply (f_equal (@rev byte)) in E. unfold le_bytes in E. by rewrite !rev_involutive in E.
Qed.

Lemma length_le_bytes k x : length (le_bytes k x) = k.
Proof. unfold le_bytes. by rewrite length_rev, length_be_bytes. Qed.

(** Text without the character has none after it. *)
Fixpoint lacks (c : Ascii.ascii) (s : string) : Prop :=
  match s with
  | EmptyString => True
  | String c' s' => c' <> c /\ lacks c s'
  end.

Lemma after_last_lacks c s : lacks c s -> after_last c s = None.
Proof.
  induction s as [|c' s IH]; simpl; [done|]. intros [Hne Hl]. rewrite IH by done.
  by rewrite bool_decide_eq_false_2.
Qed.

Lemma after_last_app c p s : lacks c s -> after_last c (p +:+ String c s) = Some s.
Proof.
  intros Hl. induction p as [|x p IH]; simpl.
  - by rewrite after_last_lacks, bool_decide_eq_true_2.
  - by rewrite IH.
Qed.

(** ** Properties *)

(** Distinct identities feed distinct bytes to the fingerprint hash: user,
    process, binary hash and start time are all recoverable from it. *)
Theorem fingerprint_input_unambiguous (u1 p1 t1 u2 p2 t2 : Z) (h1 h2 : list byte) :
  in_u U32 u1 -> in_u U32 u2 -> in_u U32 p1 -> in_u U32 p2 -> in_u U64 t1 -> in_u U64 t2 ->
  length h1 = length h2 ->
  fingerprint_input u1 p1 h1 t1 = fingerprint_input u2 p2 h2 t2 ->
  u1 = u2 /\ p1 = p2 /\ h1 = h2 /\ t1 = t2.
Proof.
  unfold in_u, U32, U64, fingerprint_input. intros Hu1 Hu2 Hp1 Hp2 Ht1 Ht2 Hl E.
  change (2 ^ 32) with 4294967296 in *. change (2 ^ 64) with 18446744073709551616 in *.
  apply app_inj_1 in E as [Eu E]; [|by rewrite !length_le_bytes].
  apply app_inj_1 in E as [Ep E]; [|by rewrite !length_le_bytes].
  apply app_inj_1 in E as [Eh Et]; [|done].
  apply le_bytes_inj in Eu; [|change (256 ^ N.of_nat 4)%N with 4294967296%N; lia..].
  apply le_bytes_inj in Ep; [|change (256 ^ N.of_nat 4)%N with 4294967296%N; lia..].
  apply le_bytes_inj in Et; [|change (256 ^ N.of_nat 8)%N with 18446744073709551616%N; lia..].
  split_and!; [lia|lia|done|lia].
Qed.

Lemma fingerprint_input_unambiguous_witness :
  fingerprint_input 1000 41 (replicate 32 Byte.x00) 7 <> fingerprint_input 1000 42 (replicate 32 Byte.x00) 7.
Proof.
  intros E. apply (fingerprint_input_unambiguous 1000 41 7 1000 42 7) in E;
    [destruct E as (_ & E & _); discriminate|split; [discriminate|reflexivity]..|reflexivity].
Defined.

(** The start time is field 22 of the stat line whatever the command name in
    the parentheses before it is, closing parentheses and spaces included. *)
Theorem start_time_ignores_command_name `{AgentOs} `{FmtParse} (pid t : Z) (prefix rest field : string) :
  os_read_to_string ("/proc/" +:+ display_Z pid +:+ "/stat") = inl (prefix +:+ String close_paren rest) ->
  lacks close_paren rest -> split_whitespace rest !! 19%nat = Some field -> parse_u U64 field = Some t ->
  read_start_time pid = Ok t.
Proof.
  intros Hr Hl Hf Ht. unfold read_start_time. rewrite Hr. cbv zeta. rewrite after_last_app by done.
  cbn [ok_or rbind]. unfold STARTTIME_INDEX. rewrite Hf. cbn [ok_or rbind]. by rewrite Ht.
Qed.

Definition stat_os : AgentOs :=
  {| sys_pidfd_open := fun _ => inl 3; fd_try_clone := fun fd => inl (fd + 1);
     os_read_link := fun _ => inl "/usr/bin/agent"; os_read := fun _ => inl [];
     os_read_to_string := fun _ => inl "41 (x) S 0 0) S 1 41 41 0 -1 4194560 0 0 0 0 0 0 0 0 20 0 1 0 777 0" |}.
Definition plain_parse : FmtParse := {| parse_u64_error := fun _ => "invalid digit found in string" |}.

Lemma start_time_ignores_command_name_witness :
  read_start_time (H:=stat_os) (H1:=plain_parse) 41 = Ok 777.
Proof.
  apply (start_time_ignores_command_name (H:=stat_os) (H0:=plain_parse) 41 777 "41 (x) S 0 0"
    " S 1 41 41 0 -1 4194560 0 0 0 0 0 0 0 0 20 0 1 0 777 0" "777").
  - reflexivity.
  - repeat (split; [discriminate|]). exact I.
  - vm_compute. reflexivity.
  - vm_compute. reflexivity.
Defined.
