(* ===== verification/GateConfig.v ===== *)
(** * cdp-gate: configuration

    [cdp-gate/src/config.rs]: the sections of [gate.toml], their defaults and
    the expansion of [~].  serde's reading of TOML is a class. *)

From S2P Require Import Prelude StateM RustStr UnixHost GateAgent.

#[local] Arguments String.append !_ _ /.

(** ** Sections *)

Record TlsSection : Type := mkTlsSection {
  tls_enabled : bool; tls_bind_address : string; cert_path : string; key_path : string; client_ca_path : string
}.

Record GateSection : Type := mkGateSection {
  gs_socket_path : string; log_level : string; audit_log_path : string; fingerprint_path : string;
  gs_tls : TlsSection
}.

Record BitwardenSection : Type := mkBitwardenSection { cli_path : string; session_timeout_minutes : Z }.

Record FileSection : Type := mkFileSection { file_path : string }.

Record VaultSection : Type := mkVaultSection {
  backend : string; subprocess_sandbox : bool; bitwarden : BitwardenSection; vs_file : FileSection
}.

Record ApprovalSection : Type := mkApprovalSection {
  default_method : string; as_gui_command : string; as_timeout_seconds : Z; cooldown_seconds : Z;
  as_show_binary_hash : bool; as_label_reason_untrusted : bool; as_max_reason_length : Z
}.

Record DnsSection : Type := mkDnsSection { pin_at_lease_creation : bool; allow_dynamic_dns : bool }.

Record SecurityProxySection : Type := mkSecurityProxySection {
  follow_redirects : bool; strip_set_cookie : bool; strip_auth_echo : bool
}.

Record SecuritySection : Type := mkSecuritySection {
  max_delegation_depth : Z; default_lease_ttl_seconds : Z; max_lease_ttl_seconds : Z;
  max_renewals_per_lease : Z; max_cumulative_ttl_seconds : Z; remote_max_ttl_seconds : Z;
  remote_single_use : bool; encrypted_memory : bool; per_credential_keys : bool; disable_core_dumps : bool;
  require_binary_hash_for_auto : bool; policy_signing : bool; policy_signing_key : string;
  nonce_window_seconds : Z; nonce_max_entries : Z; dns : DnsSection; sec_proxy : SecurityProxySection
}.

Record ProxySection : Type := mkProxySection { ps_bind_address : string; port_range : string }.

Record BrowserSection : Type := mkBrowserSection {
  sandbox_method : string; default_mode : string; mitm_ca_validity_hours : Z;
  mitm_ca_name_constrained : bool; kill_after_snapshot : bool
}.

Record GateConfig : Type := mkGateConfig {
  gate : GateSection; vault : VaultSection; approval : ApprovalSection; security : SecuritySection;
  proxy : ProxySection; browser : BrowserSection
}.

(** ** Defaults *)

(** [std::env::var]: a value that is not UTF-8 is an error. *)
Definition env_get (k : string) (h : Host) : option string :=
  v ← h_env h !! k; if bool_decide (to_string_lossy v = v) then Some v else None.

Definition default_socket_path (h : Host) : string :=
  match env_get "XDG_RUNTIME_DIR" h with
  | Some xdg => xdg +:+ "/cdp/gate.sock"
  | None => "/run/cdp/gate.sock"
  end.

Definition default_tls : TlsSection :=
  mkTlsSection false "127.0.0.1" "~/.config/cdp/gate.crt" "~/.config/cdp/gate.key" "~/.config/cdp/client-ca.crt".

Definition default_gate (h : Host) : GateSection :=
  mkGateSection (default_socket_path h) "info" "~/.local/share/cdp/audit.jsonl" "~/.config/cdp/gate.fingerprint"
    default_tls.

Definition default_file : FileSection := mkFileSection "~/.config/cdp/dev-vault.json.enc".

Definition default_bitwarden : BitwardenSection := mkBitwardenSection "/usr/bin/bw" 60.

Definition default_vault : VaultSection := mkVaultSection "bitwarden" true default_bitwarden default_file.

Definition default_approval : ApprovalSection := mkApprovalSection "gui" "kdialog" 30 5 true true 200.

Definition default_dns : DnsSection := mkDnsSection true false.

Definition default_security_proxy : SecurityProxySection := mkSecurityProxySection false true true.

Definition default_security : SecuritySection :=
  mkSecuritySection 3 3600 86400 3 14400 300 true true true true true false EmptyString 300 100000
    default_dns default_security_proxy.

Definition default_proxy : ProxySection := mkProxySection "127.0.0.1" "19000-19999".

Definition default_browser : BrowserSection := mkBrowserSection "bubblewrap" "proxy_only" 24 true true.

Definition default_config (h : Host) : GateConfig :=
  mkGateConfig (default_gate h) default_vault default_approval default_security default_proxy default_browser.

(** ** Loading *)

Definition expand_tilde (h : Host) (path : string) : string :=
  match strip_prefix "~/" path with
  | Some rest => match env_get "HOME" h with Some home => path_join home rest | None => path end
  | None =>
      if bool_decide (path = "~") then
        match env_get "HOME" h with Some home => home | None => path end
      else path
  end.

(** [expand_tilde(&field).to_string_lossy().into_owned()] *)
Definition expand_field (h : Host) (path : string) : string := to_string_lossy (expand_tilde h path).

Definition expand_paths (h : Host) (c : GateConfig) : GateConfig :=
  let g := gate c in
  let t := gs_tls g in
  let v := vault c in
  mkGateConfig
    (mkGateSection (expand_field h (gs_socket_path g)) (log_level g) (expand_field h (audit_log_path g))
       (expand_field h (fingerprint_path g))
       (mkTlsSection (tls_enabled t) (tls_bind_address t) (expand_field h (cert_path t))
          (expand_field h (key_path t)) (expand_field h (client_ca_path t))))
    (mkVaultSection (backend v) (subprocess_sandbox v) (bitwarden v)
       (mkFileSection (expand_field h (file_path (vs_file v)))))
    (approval c) (security c) (proxy c) (browser c).

(** [toml::from_str::<GateConfig>]: fields left out take their defaults, one
    of which is read from the environment. *)
Class ConfigToml : Type := { config_from_str : Host -> string -> GateConfig + string }.

Section Loading.
Context `{ConfigToml}.

Definition parse_config (contents : string) : M Host GateError GateConfig := fun h =>
  (h, match config_from_str h contents with
      | inl c => Ok c
      | inr e => Err (GateConfigError ("failed to parse config: " +:+ e))
      end).

Definition read_config (path : string) : M Host GateError string :=
  map_errM (fun e => GateConfigError ("failed to read " +:+ to_string_lossy path +:+ ": " +:+ display_io e))
    (fs_read_to_string path).

Definition load_config : M Host GateError GateConfig := fun h =>
  let config_path := expand_tilde h "~/.config/cdp/gate.toml" in
  (config ← (if fs_exists config_path h then
               contents ← read_config config_path;
               parse_config contents
             else mret (default_config h));
   mret (expand_paths h config)) h.

Definition load_config_from (path : string) : M Host GateError GateConfig := fun h =>
  (contents ← read_config path;
   config ← parse_config contents;
   mret (expand_paths h config)) h.
End Loading.

(** ** Lemmas *)

Lemma fs_read_same p h : (fs_read p h).1 = h.
Proof. unfold fs_read. by destruct (h_fs h !! p) as [[]|]. Qed.

Lemma fs_read_to_string_same p h : (fs_read_to_string p h).1 = h.
Proof.
  unfold fs_read_to_string. rewrite bind_eq. pose proof (fs_read_same p h) as Hs.
  destruct (fs_read p h) as [h' [d|e|]]; simpl in *; subst; [|done..]. by destruct (bool_decide _).
Qed.

Lemma read_config_same p h : (read_config p h).1 = h.
Proof.
  unfold read_config, map_errM. pose proof (fs_read_to_string_same p h) as Hs.
  destruct (fs_read_to_string p h). exact Hs.
Qed.

(** Loading reads; it changes nothing on the host. *)
Lemma load_config_same `{ConfigToml} h : (load_config h).1 = h.
Proof.
  unfold load_config. rewrite bind_eq. destruct (fs_exists _ h); [|done].
  rewrite bind_eq. pose proof (read_config_same (expand_tilde h "~/.config/cdp/gate.toml") h) as Hs.
  destruct (read_config _ h) as [h' [t|e|]]; simpl in Hs; subst; [|done..].
  unfold parse_config. by destruct (config_from_str h t).
Qed.

(** What is relative to the home directory starts there; the rest, unless it
    is [~] itself, is left as written. *)
Lemma expand_tilde_home h home rest : env_get "HOME" h = Some home ->
  expand_tilde h ("~/" +:+ rest) = path_join home rest.
Proof. intros Hh. unfold expand_tilde. cbn [strip_prefix String.append]. by rewrite Hh. Qed.

Lemma expand_tilde_other h p : strip_prefix "~/" p = None -> p <> "~" -> expand_tilde h p = p.
Proof. intros Hp Hn. unfold expand_tilde. rewrite Hp. by rewrite bool_decide_eq_false_2. Qed.

Lemma expand_tilde_absolute h p : (exists t, p = String path_sep t) -> expand_tilde h p = p.
Proof. intros [t ->]. apply expand_tilde_other; done. Qed.
