(* ===== verification/GateRouter.v ===== *)
(** * cdp-gate: the JSON-RPC router

    [cdp-gate/src/router.rs] and the message types of [types.rs].  The router
    composes the policy engine, the lease manager and the proxy pool.  Its
    handlers are state-passing functions; the clock, the random draws and the
    peer are arguments.  [serde]'s generated codecs, the [uuid] and [lru]
    crates and [chrono]'s RFC 3339 parser are classes. *)

From S2P Require Import Prelude RustStr Crypto PolicyTypes PolicyParser PolicyEvaluator PolicyEngine AuditLog.
From S2P Require Import LeaseTypes LeaseManager LeaseLemmas LeaseSteps LeaseSafety LeaseProps.
From S2P Require Import ProxyScope ProxyAuth ProxyManager GateAgent.

#[local] Arguments String.append !_ _ /.

(** ** Messages *)

Record JsonRpcRequest : Type := mkJsonRpcRequest {
  rq_jsonrpc : string; rq_method : string; rq_params : Json; rq_id : Json
}.

(** [result] and [error]: exactly one is set by the two constructors. *)
Record JsonRpcResponse : Type := mkJsonRpcResponse {
  rp_result : option Json; rp_error : option (Z * string); rp_id : Json
}.

Definition success (id value : Json) : JsonRpcResponse := mkJsonRpcResponse (Some value) None id.
Definition error (id : Json) (code : Z) (message : string) : JsonRpcResponse :=
  mkJsonRpcResponse None (Some (code, message)) id.

Record RegisterParams : Type := mkRegisterParams {
  rg_agent_id : string; rg_agent_version : string; rg_capabilities : list string;
  rg_attestation : option Json; rg_nonce : string; rg_timestamp : string
}.

Record RegisterResult : Type := mkRegisterResult {
  rr_status : string; rr_agent_fingerprint : string; rr_session_token : string;
  rr_capabilities_granted : list string
}.

Record RequestedScope : Type := mkRequestedScope {
  rs_hosts : list string; rs_methods : list string; rs_paths : list string;
  rs_ttl_seconds : option Z; rs_max_requests : option Z
}.

Record RequestCredentialParams : Type := mkRequestCredentialParams {
  rc_session_token : string; rc_credential_ref : string; rc_scope : RequestedScope;
  rc_reason : string; rc_nonce : string; rc_timestamp : string
}.

Record RequestCredentialResult : Type := mkRequestCredentialResult {
  cr_status : string; cr_lease_id : string; cr_proxy_port : Z; cr_lease_token : string;
  cr_channel_binding_nonce : string; cr_ttl_seconds : Z; cr_granted_scope : RequestedScope
}.

Record AgentRegistration : Type := mkAgentRegistration {
  ar_fingerprint : AgentFingerprint; ar_agent_id : string; ar_agent_version : string;
  ar_capabilities_granted : list string; ar_connection_id : list byte; ar_registered_at : Z
}.

(** ** Crates *)

Class RpcCodec : Type := {
  parse_request : list byte -> JsonRpcRequest + string;
  parse_register : Json -> RegisterParams + string;
  parse_credential : Json -> RequestCredentialParams + string;
  register_to_value : RegisterResult -> Json;
  credential_to_value : RequestCredentialResult -> Json
}.

(** [Uuid::parse_str] with its version, and [parse_from_rfc3339] in UTC. *)
Class TextParse : Type := {
  uuid_version : string -> option Z;
  parse_rfc3339 : string -> option Z
}.

(** [lru::LruCache<String, ()>] *)
Class LruCache : Type := {
  Lru : Type;
  lru_new : nat -> Lru;
  lru_contains : Lru -> string -> bool;
  lru_put : Lru -> string -> Lru
}.

(** [HashMap::values()]: some order of the entries. *)
Class MapOrder : Type := {
  values_order : gmap string AgentRegistration -> list AgentRegistration
}.

(** ** State *)

Section Router.
Context `{Fmt} `{Gui} `{FmtAddr} `{AgentOs} `{Sha256} `{FmtParse} `{HmacSha256}.
Context `{Build} `{Chrono} `{Resolver}.
Context `{RpcCodec} `{TextParse} `{LruCache} `{MapOrder}.

(** [monitors] are the liveness tasks started so far, by what they will send
    when the process exits. *)
Record Router : Type := mkRouter {
  rt_gate_key : list byte;
  rt_registry : gmap string AgentRegistration;
  rt_nonces : Lru;
  rt_monitors : list DeathNotification;
  rt_leases : LeaseManager;
  rt_proxies : ProxyManager;
  rt_engine : PolicyEngine
}.

Definition MIN_NONCE_CACHE_ENTRIES : nat := 10000.

Definition router_new (key : list byte) (nonce_max_entries : nat) (lm : LeaseManager)
    (pm : ProxyManager) (eng : PolicyEngine) : Router :=
  mkRouter key ∅ (lru_new (Nat.max nonce_max_entries MIN_NONCE_CACHE_ENTRIES)) [] lm pm eng.

Definition with_nonces (rt : Router) (c : Lru) : Router :=
  mkRouter (rt_gate_key rt) (rt_registry rt) c (rt_monitors rt) (rt_leases rt) (rt_proxies rt) (rt_engine rt).
Definition with_registry (rt : Router) (r : gmap string AgentRegistration) : Router :=
  mkRouter (rt_gate_key rt) r (rt_nonces rt) (rt_monitors rt) (rt_leases rt) (rt_proxies rt) (rt_engine rt).
Definition with_monitor (rt : Router) (d : DeathNotification) : Router :=
  mkRouter (rt_gate_key rt) (rt_registry rt) (rt_nonces rt) (rt_monitors rt ++ [d]) (rt_leases rt)
    (rt_proxies rt) (rt_engine rt).
Definition with_managers (rt : Router) (lm : LeaseManager) (pm : ProxyManager) : Router :=
  mkRouter (rt_gate_key rt) (rt_registry rt) (rt_nonces rt) (rt_monitors rt) lm pm (rt_engine rt).

(** ** Replay protection *)

Definition validate_replay (now : Z) (cache : Lru) (nonce timestamp : string)
    : Lru * result unit GateError :=
  match uuid_version nonce with
  | None => (cache, Err (Replay "nonce is not a valid UUID"))
  | Some v =>
      if negb (v =? 4) then (cache, Err (Replay "nonce UUID version must be 4"))
      else
        match parse_rfc3339 timestamp with
        | None => (cache, Err (Replay "timestamp is not valid RFC 3339"))
        | Some ts =>
            let age := now - ts in
            if Z.abs (num_seconds age) >? 30 then
              (cache, Err (Replay ("timestamp is " +:+ display_Z (num_seconds age) +:+ " seconds old (max 30)")))
            else if lru_contains cache nonce then
              (cache, Err (Replay ("duplicate nonce: " +:+ nonce)))
            else (lru_put cache nonce, Ok tt)
        end
  end.

(** ** Registration *)

Definition handle_register (rt : Router) (now : Z) (params : RegisterParams) (peer : PeerInfo)
    (connection_id : list byte) : Router * result Json GateError :=
  let '(cache, fresh) := validate_replay now (rt_nonces rt) (rg_nonce params) (rg_timestamp params) in
  let rt := with_nonces rt cache in
  match fresh with
  | Err e => (rt, Err e)
  | Panic => (rt, Panic)
  | Ok _ =>
  match verify_agent (peer_pid peer) (peer_uid peer) with
  | Err e => (rt, Err e)
  | Panic => (rt, Panic)
  | Ok fingerprint =>
  let session_token := "cdp_sess_" +:+
    generate_session_token (rt_gate_key rt) (fp_hash fingerprint) connection_id in
  match fd_try_clone (fp_pidfd fingerprint) with
  | inr e => (rt, Err (Syscall ("failed to clone pidfd: " +:+ e)))
  | inl _ =>
      let rt := with_monitor rt (mkDeathNotification (peer_pid peer) (fp_hash fingerprint)) in
      let fp_hex := bytes_to_hex (fp_hash fingerprint) in
      let registration := mkAgentRegistration fingerprint (rg_agent_id params) (rg_agent_version params)
        (rg_capabilities params) connection_id now in
      let rt := with_registry rt (<[fp_hex := registration]> (rt_registry rt)) in
      (rt, Ok (register_to_value
                 (mkRegisterResult "registered" fp_hex session_token (rg_capabilities params))))
  end end end.

(** ** Sessions *)

Definition is_peer (peer : PeerInfo) (connection_id : list byte) (r : AgentRegistration) : bool :=
  (fp_pid (ar_fingerprint r) =? peer_pid peer) && bool_decide (ar_connection_id r = connection_id).

Definition find_registration (rt : Router) (peer : PeerInfo) (connection_id : list byte)
    : option AgentRegistration :=
  List.find (is_peer peer connection_id) (values_order (rt_registry rt)).

(** [params.get("session_token").and_then(|v| v.as_str())] *)
Definition get_str (params : Json) (key : string) : option string :=
  match params with
  | JObject fields =>
      match List.find (fun kv => bool_decide (kv.1 = key)) fields with
      | Some (_, JString s) => Some s
      | _ => None
      end
  | _ => None
  end.

Definition validate_session (rt : Router) (params : Json) (peer : PeerInfo) (connection_id : list byte)
    : result unit GateError :=
  let! token := ok_or (get_str params "session_token") (SessionInvalid "missing session_token") in
  let! raw_token := ok_or (strip_prefix "cdp_sess_" token) (SessionInvalid "invalid session_token prefix") in
  let! reg := ok_or (find_registration rt peer connection_id)
    (SessionInvalid "no registration found for this peer") in
  let! valid := verify_session_token (rt_gate_key rt) (fp_hash (ar_fingerprint reg)) connection_id raw_token in
  if negb valid then Err (SessionInvalid "session token HMAC invalid") else Ok tt.

(** ** Credential requests *)

Definition agent_info_of (r : AgentRegistration) : AgentInfo :=
  let f := ar_fingerprint r in
  mkAgentInfo (fp_uid f) (fp_pid f) (fp_binary_path f) (fp_binary_hash f) (fp_start_time f)
    (fp_hash f) (Some (ar_agent_id r)) (Some (ar_agent_version r)).

Definition requested_scope_of (s : RequestedScope) : Scope :=
  mkScope (rs_hosts s) (rs_methods s) (rs_paths s) [] (rs_ttl_seconds s) (rs_max_requests s) None None.

(** The randomness of one [create_lease] call and the clock it reads. *)
Record Draw : Type := mkDraw { d_id : list byte; d_nonce : list byte; d_now : Z }.

Definition handle_request_credential (rt : Router) (now : Z) (draw : Draw) (params : RequestCredentialParams)
    (peer : PeerInfo) (connection_id : list byte) : Router * result Json GateError :=
  let '(cache, fresh) := validate_replay now (rt_nonces rt) (rc_nonce params) (rc_timestamp params) in
  let rt := with_nonces rt cache in
  match fresh with
  | Err e => (rt, Err e)
  | Panic => (rt, Panic)
  | Ok _ =>
  match find_registration rt peer connection_id with
  | None => (rt, Err (SessionInvalid "no registration found for this peer"))
  | Some reg =>
  let agent := agent_info_of reg in
  match evaluate_with_approval (rt_engine rt) agent (rc_credential_ref params)
          (requested_scope_of (rc_scope params)) (rc_reason params) with
  | Err e => (rt, Err (GatePolicy e))
  | Panic => (rt, Panic)
  | Ok (Denied reason) => (rt, Err (CredentialDenied reason))
  | Ok (RequiresApproval _ _ _) => (rt, Err (CredentialDenied "approval required but not resolved"))
  | Ok (AutoApprove granted pname constraints) =>
  let '(lm, created) := create_lease (rt_leases rt) (d_id draw) (d_nonce draw) (d_now draw) agent
    (rc_credential_ref params) granted constraints pname "auto" in
  let rt := with_managers rt lm (rt_proxies rt) in
  match created with
  | Err e => (rt, Err (GateLease e))
  | Panic => (rt, Panic)
  | Ok lease =>
  let '(pm, started) := start_proxy (rt_proxies rt) (lease_id lease) in
  let rt := with_managers rt (rt_leases rt) pm in
  match started with
  | Err e => (rt, Err (GateProxy e))
  | Panic => (rt, Panic)
  | Ok port =>
      (rt, Ok (credential_to_value
         (mkRequestCredentialResult "granted" (lease_id lease) port (lease_token lease)
            (bytes_to_hex (channel_binding_nonce lease)) (ttl_seconds lease)
            (mkRequestedScope (s_hosts granted) (s_methods granted) (s_paths granted)
               (s_ttl_seconds granted) (s_max_requests granted)))))
  end end end end end.

(** ** Dispatch *)

Definition gate_error_to_response (id : Json) (e : GateError) : JsonRpcResponse :=
  match e with
  | Replay _ => error id REPLAY_DETECTED (display_gate_error e)
  | SessionInvalid _ => error id SESSION_INVALID (display_gate_error e)
  | AgentVerification _ => error id AGENT_VERIFICATION_FAILED (display_gate_error e)
  | CredentialDenied _ => error id CREDENTIAL_DENIED (display_gate_error e)
  | GateLease _ => error id LEASE_ERROR (display_gate_error e)
  | GateProxy _ => error id PROXY_ERROR (display_gate_error e)
  | GateJsonRpc code message => error id code message
  | _ => error id (-32603) (display_gate_error e)
  end.

(** The outcome of a handler as a response; a panic unwinds. *)
Definition respond (id : Json) (r : result Json GateError) : result JsonRpcResponse unit :=
  match r with
  | Ok value => Ok (success id value)
  | Err e => Ok (gate_error_to_response id e)
  | Panic => Panic
  end.

Definition handle_request (rt : Router) (now : Z) (draw : Draw) (raw_json : list byte) (peer : PeerInfo)
    (connection_id : list byte) : Router * result JsonRpcResponse unit :=
  match parse_request raw_json with
  | inr e => (rt, Ok (error JNull PARSE_ERROR ("parse error: " +:+ e)))
  | inl req =>
      let id := rq_id req in
      if negb (bool_decide (rq_jsonrpc req = "2.0")) then
        (rt, Ok (error id INVALID_REQUEST ("jsonrpc must be " +:+ dquote +:+ "2.0" +:+ dquote)))
      else if bool_decide (rq_method req = "cdp.register") then
        match parse_register (rq_params req) with
        | inr e => (rt, Ok (error id INVALID_REQUEST ("invalid params: " +:+ e)))
        | inl params =>
            let '(rt, r) := handle_register rt now params peer connection_id in
            (rt, respond id r)
        end
      else if bool_decide (rq_method req = "cdp.requestCredential") then
        match parse_credential (rq_params req) with
        | inr e => (rt, Ok (error id INVALID_REQUEST ("invalid params: " +:+ e)))
        | inl params =>
            match validate_session rt (rq_params req) peer connection_id with
            | Err e => (rt, Ok (gate_error_to_response id e))
            | Panic => (rt, Panic)
            | Ok _ =>
                let '(rt, r) := handle_request_credential rt now draw params peer connection_id in
                (rt, respond id r)
            end
        end
      else
        match validate_session rt (rq_params req) peer connection_id with
        | Err e => (rt, Ok (gate_error_to_response id e))
        | Panic => (rt, Panic)
        | Ok _ => (rt, Ok (error id METHOD_NOT_FOUND ("method not found: " +:+ rq_method req)))
        end
  end.

(** ** Death and disconnection *)

Fixpoint release_all (pm : ProxyManager) (ids : list string) : ProxyManager :=
  match ids with
  | [] => pm
  | id :: rest => release_all (release_lease pm id).1 rest
  end.

(** [None] when a traversal of the lease forest does not end. *)
Definition handle_death (rt : Router) (n : DeathNotification) : option Router :=
  let key := bytes_to_hex (death_fingerprint n) in
  match rt_registry rt !! key with
  | None => Some rt
  | Some _ =>
      let rt := with_registry rt (delete key (rt_registry rt)) in
      '(lm, r) ← revoke_agent_leases (rt_leases rt) (death_fingerprint n) "agent process exited";
      match r with
      | Ok revoked => Some (with_managers rt lm (release_all (rt_proxies rt) revoked))
      | _ => Some (with_managers rt lm (rt_proxies rt))
      end
  end.

(** The end of [handle_connection]: the registrations of the connection go. *)
Definition disconnect (rt : Router) (connection_id : list byte) : Router :=
  with_registry rt (filter (fun kv => ar_connection_id kv.2 <> connection_id) (rt_registry rt)).

(** What [read_line] returns and whether the reply could be written; the
    clock and the draws of the request come with the line. *)
Inductive ReadEvent : Type :=
| Eof
| Line (line : string) (now : Z) (draw : Draw) (written : bool)
| ReadError.

(** The loop of [handle_connection]: the responses written, and whether the
    task ended by itself (a panic unwinds it). *)
Fixpoint connection_loop (rt : Router) (peer : PeerInfo) (connection_id : list byte)
    (events : list ReadEvent) (out : list JsonRpcResponse) : Router * list JsonRpcResponse * bool :=
  match events with
  | [] | Eof :: _ | ReadError :: _ => (rt, out, true)
  | Line line now draw written :: rest =>
      match handle_request rt now draw (as_bytes (trim_end line)) peer connection_id with
      | (rt, Ok resp) =>
          if written then connection_loop rt peer connection_id rest (out ++ [resp])
          else (rt, out, true)
      | (rt, _) => (rt, out, false)
      end
  end.

(** The purge runs when the loop ended by itself. *)
Definition handle_connection (rt : Router) (peer : PeerInfo) (connection_id : list byte)
    (events : list ReadEvent) : Router * list JsonRpcResponse :=
  let '(rt, out, ended) := connection_loop rt peer connection_id events [] in
  (if ended then disconnect rt connection_id else rt, out).
End Router.

(** ** Replay protection *)

(** What the code relies on of the cache: the keys, most recent first, are
    the last [capacity] distinct ones that were put. *)
Class LruLaws `{LruCache} : Type := {
  lru_keys : Lru -> list string;
  lru_capacity : Lru -> nat;
  keys_new : forall n, lru_keys (lru_new n) = [];
  capacity_new : forall n, lru_capacity (lru_new n) = n;
  contains_keys : forall c k, lru_contains c k = true <-> k ∈ lru_keys c;
  keys_put : forall c k, lru_contains c k = false -> lru_keys (lru_put c k) = take (lru_capacity c) (k :: lru_keys c);
  capacity_put : forall c k, lru_capacity (lru_put c k) = lru_capacity c
}.

Section ReplaySpec.
Context `{TextParse} `{LruCache} `{!LruLaws}.

(** Requests with their clock, in the order the cache sees them. *)
Fixpoint replay_run (c : Lru) (l : list (Z * string * string)) : Lru * nat :=
  match l with
  | [] => (c, O)
  | (now, nonce, ts) :: rest =>
      let '(c, r) := validate_replay now c nonce ts in
      let '(c, n) := replay_run c rest in
      (c, (if is_ok r then S n else n))
  end.

Lemma validate_replay_ok now c nonce ts c' :
  validate_replay now c nonce ts = (c', Ok tt) <->
  uuid_version nonce = Some 4 /\ (exists t, parse_rfc3339 ts = Some t /\ Z.abs (num_seconds (now - t)) <= 30) /\
  lru_contains c nonce = false /\ c' = lru_put c nonce.
Proof.
  unfold validate_replay. destruct (uuid_version nonce) as [v|]; [|naive_solver].
  destruct (Z.eqb_spec v 4) as [->|Hv]; simpl; [|naive_solver].
  destruct (parse_rfc3339 ts) as [t|]; [|naive_solver]. rewrite Z.gtb_ltb.
  destruct (Z.ltb_spec 30 (Z.abs (num_seconds (now - t)))) as [Hlt|Hle].
  { split; [done|]. intros (_ & (t' & [= <-] & ?) & _). lia. }
  destruct (lru_contains c nonce); [naive_solver|]. split.
  - intros [= <-]. split_and!; [done|by exists t|done|done].
  - by intros (_ & _ & _ & ->).
Qed.

Lemma validate_replay_cases now c nonce ts :
  (exists e, validate_replay now c nonce ts = (c, Err (Replay e))) \/
  validate_replay now c nonce ts = (lru_put c nonce, Ok tt) /\ lru_contains c nonce = false.
Proof.
  unfold validate_replay. repeat break_match; (try by left; eexists); by right.
Qed.

(** A key stays while fewer puts follow than the capacity leaves room for. *)
Lemma replay_run_keeps l : forall c c' n i nonce,
  replay_run c l = (c', n) -> lru_keys c !! i = Some nonce -> (i + n < lru_capacity c)%nat ->
  nonce ∈ lru_keys c'.
Proof.
  induction l as [|[[now x] ts] l IH]; intros c c' n i nonce; simpl.
  { intros [= <- <-] Hi _. by eapply list_elem_of_lookup_2. }
  destruct (validate_replay_cases now c x ts) as [[e ->]|[-> Hc]];
    destruct (replay_run _ l) as [c1 n1] eqn:Hr; intros [= <- <-] Hi Hlt; simpl in *.
  - by eapply IH.
  - eapply (IH _ _ _ (S i)); [exact Hr| |rewrite capacity_put; lia].
    rewrite keys_put by done. rewrite lookup_take_lt by lia. done.
Qed.

(** C36. A nonce that was accepted once is refused as a replay while fewer further
    requests are accepted than the cache has room for, whatever their order,
    their timestamps and the clock; and acceptance means the timestamp is
    within 31 seconds of the clock. *)
Theorem replayed_nonce_is_rejected (now now' : Z) (c c1 c2 : Lru) (nonce ts ts' : string)
    (l : list (Z * string * string)) (n : nat) :
  validate_replay now c nonce ts = (c1, Ok tt) ->
  replay_run c1 l = (c2, n) -> (n < lru_capacity c)%nat ->
  (exists e, validate_replay now' c2 nonce ts' = (c2, Err (Replay e))) /\
  (exists t, parse_rfc3339 ts = Some t /\ Z.abs (now - t) < 31 * NANOS).
Proof.
  intros (_ & (t & Ht & Hage) & Hc & ->)%validate_replay_ok Hrun Hn. split.
  - destruct (validate_replay_cases now' c2 nonce ts') as [?|[_ Hno]]; [done|].
    assert (nonce ∈ lru_keys c2) as Hin.
    { eapply (replay_run_keeps l _ _ _ 0); [exact Hrun| |rewrite capacity_put; lia].
      rewrite keys_put, lookup_take_lt by (done || lia). done. }
    apply contains_keys in Hin. congruence.
  - exists t. split; [done|]. unfold num_seconds, NANOS in *.
    pose proof (Z.quot_rem' (now - t) (10 ^ 9)) as Hq. pose proof (Z.rem_bound_abs (now - t) (10 ^ 9)). lia.
Qed.
End ReplaySpec.

(** ** Sessions, grants and teardown *)

Section RouterSpec.
Context `{Fmt} `{Gui} `{FmtAddr} `{AgentOs} `{Sha256} `{FmtParse} `{HmacSha256}.
Context `{Build} `{Chrono} `{Resolver}.
Context `{RpcCodec} `{TextParse} `{LruCache} `{MapOrder}.

Lemma find_registration_ok rt peer cid reg :
  find_registration rt peer cid = Some reg ->
  fp_pid (ar_fingerprint reg) = peer_pid peer /\ ar_connection_id reg = cid.
Proof.
  intros [_ Hp]%List.find_some. unfold is_peer in Hp. by bool_to_prop.
Qed.

(** The request carries the HMAC of the registration and the connection. *)
Definition holds_session (rt : Router) (params : Json) (cid : list byte) (reg : AgentRegistration) : Prop :=
  exists tok raw, get_str params "session_token" = Some tok /\ strip_prefix "cdp_sess_" tok = Some raw /\
    hex_to_bytes (E:=GateError) raw =
      Ok (Some (compute_hmac_bytes (rt_gate_key rt) SESSION_DOMAIN [fp_hash (ar_fingerprint reg); cid])).

Lemma validate_session_ok rt params peer cid :
  validate_session rt params peer cid = Ok tt <->
  exists reg, find_registration rt peer cid = Some reg /\ holds_session rt params cid reg.
Proof.
  unfold validate_session. split.
  - intros (tok & Ht%ok_or_ok & (raw & Hr%ok_or_ok & (reg & Hg%ok_or_ok & (v & Hv & Hk)%rbind_ok)%rbind_ok)%rbind_ok)%rbind_ok.
    rewrite guard_ok, negb_false_iff in Hk. destruct Hk as [-> _].
    apply verify_session_token_true in Hv. exists reg. split; [done|]. by exists tok, raw.
  - intros (reg & Hg & tok & raw & Ht & Hr & Hv%verify_session_token_true).
    rewrite Ht. cbn [ok_or rbind]. rewrite Hr. cbn [ok_or rbind]. rewrite Hg. cbn [ok_or rbind].
    rewrite Hv. done.
Qed.

Lemma prepare_lease_id key ib nonce now ai cref scope c pname method l :
  prepare_lease key ib nonce now ai cref scope c pname method = Ok l -> lease_id l = lease_id_of ib.
Proof. by intros (pins & _ & (d & _ & (exp & _ & [= <-])%rbind_ok)%rbind_ok)%rbind_ok. Qed.

Lemma prepare_lease_fields key ib nonce now ai cref scope c pname method l :
  prepare_lease key ib nonce now ai cref scope c pname method = Ok l ->
  granted_scope l = scope /\ agent_fingerprint_hash l = ai_fingerprint_hash ai /\ credential_ref l = cref /\
  agent_pid l = ai_pid ai /\ status l = Active /\ channel_binding_nonce l = nonce.
Proof. by intros (pins & _ & (d & _ & (exp & _ & [= <-])%rbind_ok)%rbind_ok)%rbind_ok. Qed.

Lemma create_lease_fields m ib nonce now ai cref scope c pname method m' l :
  create_lease m ib nonce now ai cref scope c pname method = (m', Ok l) ->
  granted_scope l = scope /\ agent_fingerprint_hash l = ai_fingerprint_hash ai /\ credential_ref l = cref /\
  agent_pid l = ai_pid ai /\ status l = Active /\ leases m' !! lease_id l = Some l.
Proof.
  unfold create_lease. destruct (prepare_lease _ _ _ _ _ _ _ _ _ _) as [l0|e|] eqn:E; [|done..].
  intros [= <- <-]. destruct (prepare_lease_fields _ _ _ _ _ _ _ _ _ _ _ E) as (? & ? & ? & ? & ? & _). simpl.
  autorewrite with cdp. simpl. by rewrite lookup_insert_eq.
Qed.

Lemma create_lease_nonce m ib nonce now ai cref scope c pname method m' l :
  create_lease m ib nonce now ai cref scope c pname method = (m', Ok l) -> channel_binding_nonce l = nonce.
Proof.
  unfold create_lease. destruct (prepare_lease _ _ _ _ _ _ _ _ _ _) as [l0|e|] eqn:E; [|done..].
  intros [= <- <-]. by destruct (prepare_lease_fields _ _ _ _ _ _ _ _ _ _ _ E) as (_ & _ & _ & _ & _ & ?).
Qed.

(** What a request for a credential that succeeded has gone through. *)
Lemma request_granted (rt rt' : Router) (now : Z) (draw : Draw) (raw : list byte)
    (peer : PeerInfo) (cid : list byte) (req : JsonRpcRequest) (resp : JsonRpcResponse) (value : Json) :
  parse_request raw = inl req -> rq_method req = "cdp.requestCredential" ->
  handle_request rt now draw raw peer cid = (rt', Ok resp) -> rp_result resp = Some value ->
  exists params reg granted pname constraints lease port,
    parse_credential (rq_params req) = inl params /\
    find_registration rt peer cid = Some reg /\
    holds_session rt (rq_params req) cid reg /\
    fp_pid (ar_fingerprint reg) = peer_pid peer /\ ar_connection_id reg = cid /\
    validate_replay now (rt_nonces rt) (rc_nonce params) (rc_timestamp params) = (rt_nonces rt', Ok tt) /\
    evaluate_with_approval (rt_engine rt) (agent_info_of reg) (rc_credential_ref params)
      (requested_scope_of (rc_scope params)) (rc_reason params) = Ok (AutoApprove granted pname constraints) /\
    leases (rt_leases rt') !! lease_id lease = Some lease /\ status lease = Active /\
    granted_scope lease = granted /\ credential_ref lease = rc_credential_ref params /\
    agent_fingerprint_hash lease = fp_hash (ar_fingerprint reg) /\ agent_pid lease = peer_pid peer /\
    channel_binding_nonce lease = d_nonce draw /\
    port_for_lease (rt_proxies rt') (lease_id lease) = Some port /\
    value = credential_to_value
      (mkRequestCredentialResult "granted" (lease_id lease) port (lease_token lease)
         (bytes_to_hex (channel_binding_nonce lease)) (ttl_seconds lease)
         (mkRequestedScope (s_hosts granted) (s_methods granted) (s_paths granted)
            (s_ttl_seconds granted) (s_max_requests granted))).
Proof.
  intros Hp Hm. unfold handle_request. rewrite Hp, Hm. cbv zeta.
  destruct (negb _); [intros [= <- <-]; done|]. rewrite bool_decide_eq_false_2 by done.
  rewrite bool_decide_eq_true_2 by done.
  destruct (parse_credential (rq_params req)) as [params|e] eqn:Hc; [|intros [= <- <-]; done].
  destruct (validate_session rt (rq_params req) peer cid) as [[]|e|] eqn:Hs; [|intros [= <- <-]; by destruct e|done].
  unfold handle_request_credential.
  destruct (validate_replay now (rt_nonces rt) (rc_nonce params) (rc_timestamp params)) as [cache [[]|e|]] eqn:Hv;
    [|intros [= <- <-]; by destruct e|done].
  change (find_registration (with_nonces rt cache) peer cid) with (find_registration rt peer cid).
  destruct (find_registration rt peer cid) as [reg|] eqn:Hf; [|intros [= <- <-]; done].
  destruct (find_registration_ok _ _ _ _ Hf) as [Hpid Hcid].
  apply validate_session_ok in Hs as (reg' & Hf' & Hs). rewrite Hf in Hf'. injection Hf' as <-.
  cbn [rt_engine with_nonces].
  destruct (evaluate_with_approval (rt_engine rt) (agent_info_of reg) (rc_credential_ref params)
    (requested_scope_of (rc_scope params)) (rc_reason params)) as [[g pn c|g pn c|reason]|e|] eqn:He;
    [|intros [= <- <-]; done..|done].
  cbn [rt_leases with_nonces].
  destruct (create_lease (rt_leases rt) (d_id draw) (d_nonce draw) (d_now draw) (agent_info_of reg)
    (rc_credential_ref params) g c pn "auto") as [lm [lease|e|]] eqn:Hl; [|intros [= <- <-]; done|done].
  destruct (create_lease_fields _ _ _ _ _ _ _ _ _ _ _ _ Hl) as (Hg & Hfp & Hcr & Hap & Hst & Hin).
  cbn [rt_proxies with_managers].
  destruct (start_proxy (rt_proxies (with_nonces rt cache)) (lease_id lease)) as [pm [port|e|]] eqn:Hsp;
    [|intros [= <- <-]; done|done].
  intros [= <- <-] [= <-]. exists params, reg, g, pn, c, lease, port.
  split_and!; try done.
  - by rewrite Hap, <- Hpid.
  - by eapply create_lease_nonce.
  - unfold start_proxy in Hsp. cbn [rt_proxies with_managers].
    destruct (find_free_port _) as [port'|]; [|done]. injection Hsp as <- <-.
    unfold port_for_lease. simpl. by rewrite lookup_insert_eq.
Qed.

(** A grant that fails for lack of a proxy port leaves its lease behind: it
    is stored and active although the agent got an error. *)
Theorem port_exhaustion_leaves_lease (rt : Router) (now : Z) (draw : Draw) (params : RequestCredentialParams)
    (peer : PeerInfo) (cid : list byte) (cache : Lru) (reg : AgentRegistration) (granted : Scope)
    (pname : string) (constraints : PolicyConstraints) (lm : LeaseManager) (lease : Lease) :
  validate_replay now (rt_nonces rt) (rc_nonce params) (rc_timestamp params) = (cache, Ok tt) ->
  find_registration rt peer cid = Some reg ->
  evaluate_with_approval (rt_engine rt) (agent_info_of reg) (rc_credential_ref params)
    (requested_scope_of (rc_scope params)) (rc_reason params) = Ok (AutoApprove granted pname constraints) ->
  create_lease (rt_leases rt) (d_id draw) (d_nonce draw) (d_now draw) (agent_info_of reg)
    (rc_credential_ref params) granted constraints pname "auto" = (lm, Ok lease) ->
  find_free_port (rt_proxies rt) = None ->
  let '(rt', r) := handle_request_credential rt now draw params peer cid in
  r = Err (GateProxy (exhausted (config (rt_proxies rt)))) /\
  leases (rt_leases rt') !! lease_id lease = Some lease /\ status lease = Active.
Proof.
  intros Hv Hf He Hl Hfree. destruct (create_lease_fields _ _ _ _ _ _ _ _ _ _ _ _ Hl) as (_ & _ & _ & _ & Hst & Hin).
  unfold handle_request_credential. rewrite Hv.
  change (find_registration (with_nonces rt cache) peer cid) with (find_registration rt peer cid).
  rewrite Hf. cbn [rt_engine rt_leases rt_proxies with_nonces]. rewrite He, Hl. cbn [rt_leases rt_proxies with_managers].
  unfold start_proxy. cbn [rt_proxies with_nonces]. rewrite Hfree. done.
Qed.

(** Once the agent's connection has been closed, the notice of its death
    finds no registration: no lease is revoked and no listener stopped. *)
Theorem death_after_disconnect_revokes_nothing (rt : Router) (n : DeathNotification) (cid : list byte)
    (reg : AgentRegistration) :
  rt_registry rt !! bytes_to_hex (death_fingerprint n) = Some reg -> ar_connection_id reg = cid ->
  handle_death (disconnect rt cid) n = Some (disconnect rt cid) /\
  rt_leases (disconnect rt cid) = rt_leases rt /\ rt_proxies (disconnect rt cid) = rt_proxies rt.
Proof.
  intros Hreg Hcid. split; [|done]. unfold handle_death, disconnect. cbn [rt_registry with_registry].
  assert (filter (fun kv => ar_connection_id kv.2 <> cid) (rt_registry rt) !! bytes_to_hex (death_fingerprint n) = None) as ->;
    [|done].
  apply map_lookup_filter_None. right. intros reg' Hreg'. simpl. replace reg' with reg by congruence. by intros [].
Qed.

Lemma release_all_port pm ids x :
  port_for_lease (release_all pm ids) x = if contains ids x then None else port_for_lease pm x.
Proof.
  revert pm. induction ids as [|id ids IH]; intros pm; simpl; [done|]. rewrite IH. unfold contains.
  destruct (decide (x ∈ ids)) as [Hx|Hx].
  { rewrite !bool_decide_eq_true_2 by set_solver. done. }
  rewrite (bool_decide_eq_false_2 (x ∈ ids)) by done.
  unfold port_for_lease, release_lease. destruct (decide (x = id)) as [->|Hne].
  - rewrite bool_decide_eq_true_2 by set_solver.
    destruct (listeners pm !! id) as [[p a]|] eqn:E; simpl; [by rewrite lookup_delete_eq|by rewrite E].
  - rewrite bool_decide_eq_false_2 by set_solver.
    destruct (listeners pm !! id) as [[p a]|] eqn:E; simpl; [by rewrite lookup_delete_ne|done].
Qed.

(** The death of an agent that is still registered removes it, revokes every
    root lease indexed for it with everything below, and stops the listeners
    of all of them. *)
Theorem registered_agent_death_tears_down `{!ChronoLaws} (rt : Router) (n : DeathNotification)
    (reg : AgentRegistration) :
  reachable (rt_leases rt) -> rt_registry rt !! bytes_to_hex (death_fingerprint n) = Some reg ->
  exists rt', handle_death rt n = Some rt' /\
    rt_registry rt' !! bytes_to_hex (death_fingerprint n) = None /\
    forall id x, id ∈ default [] (agent_leases (rt_leases rt) !! death_fingerprint n) ->
      is_root_lease (leases (rt_leases rt)) id = true -> within (leases (rt_leases rt)) id x ->
      port_for_lease (rt_proxies rt') x = None /\
      exists lx, leases (rt_leases rt') !! x = Some lx /\ is_revoked (status lx) = true.
Proof.
  intros Hr Hreg. unfold handle_death. rewrite Hreg. cbn [rt_leases with_registry].
  destruct (revoke_agent_trees _ (death_fingerprint n) "agent process exited" Hr) as (m' & rv & -> & _ & Hall & _).
  simpl. eexists. split; [done|]. simpl. split; [apply lookup_delete_eq|].
  intros id x Hid Hroot Hw. destruct (Hall id x Hid Hroot Hw) as [Hrv Hst]. split; [|done].
  rewrite release_all_port. by rewrite (proj2 (contains_spec _ _) Hrv).
Qed.

(** A session token that a registered agent sends with a two-byte character
    at an odd offset makes the handler panic: the decoder slices inside the
    character. *)
Theorem session_token_slicing_panics (rt : Router) (peer : PeerInfo) (cid : list byte)
    (reg : AgentRegistration) :
  find_registration rt peer cid = Some reg ->
  validate_session rt (JObject [("session_token", JString ("cdp_sess_a" +:+ enc [195; 169]%N +:+ "b"))])
    peer cid = Panic.
Proof. intros Hf. unfold validate_session. cbn -[find_registration]. by rewrite Hf. Qed.
End RouterSpec.

(** ** A concrete gate *)

#[local] Existing Instances plain_fmt timed_gui plain_addr stat_os id_sha plain_parse demo_mac release_build
  chrono_range demo_dns.

#[local] Instance gate_chrono_laws : ChronoLaws (H:=chrono_range).
Proof. split; reflexivity. Qed.

Definition demo_params : RequestCredentialParams :=
  mkRequestCredentialParams "cdp_sess_x" "github_api"
    (mkRequestedScope ["api.github.com"] ["GET"] ["/repos/a/b"] None None) "deploy" "nonce-1" "t0".

(** Agent 41 with the binary of [demo_entry], connected as connection 9. *)
Definition demo_reg : AgentRegistration :=
  mkAgentRegistration
    (mkAgentFingerprint 1000 41 "/usr/bin/agent" (replicate 32 Byte.xab) 777 [Byte.xaa] 3)
    "ci-bot" "1.0" [] [Byte.x09] 0.

Definition demo_token : string := "cdp_sess_" +:+ generate_session_token [Byte.x01] [Byte.xaa] [Byte.x09].

#[local] Instance demo_codec : RpcCodec :=
  {| parse_request := fun _ => inl (mkJsonRpcRequest "2.0" "cdp.requestCredential"
       (JObject [("session_token", JString demo_token)]) JNull);
     parse_register := fun _ => inr "no"; parse_credential := fun _ => inl demo_params;
     register_to_value := fun _ => JNull; credential_to_value := fun r => JString (cr_lease_id r) |}.

#[local] Instance demo_text : TextParse :=
  {| uuid_version := fun _ => Some 4; parse_rfc3339 := fun _ => Some 0 |}.

#[local] Instance list_lru : LruCache :=
  {| Lru := nat * list string; lru_new := fun n => (n, []);
     lru_contains := fun c k => contains c.2 k;
     lru_put := fun c k => (c.1, take c.1 (k :: List.filter (fun x => negb (bool_decide (x = k))) c.2)) |}.

Lemma filter_absent (k : string) l : k ∉ l -> List.filter (fun x => negb (bool_decide (x = k))) l = l.
Proof.
  induction l as [|x l IH]; simpl; [done|]. intros Hn. rewrite bool_decide_eq_false_2 by set_solver. simpl.
  rewrite IH by set_solver. done.
Qed.

#[local] Instance list_lru_laws : LruLaws.
Proof.
  refine (Build_LruLaws list_lru (fun c : nat * list string => c.2) (fun c : nat * list string => c.1) _ _ _ _ _).
  - done.
  - done.
  - intros [n l] k. apply contains_spec.
  - intros [n l] k Hk%contains_false. simpl in *. by rewrite filter_absent.
  - done.
Defined.

#[local] Instance list_order : MapOrder := {| values_order := fun m => map snd (map_to_list m) |}.

Definition gate_engine : PolicyEngine :=
  mkPolicyEngine (mkPolicyEvaluator [demo_entry]) "/etc/cdp" (mkApprovalConfig EmptyString 30 true true 200).

Definition gate_at (c : ProxyConfig) (lm : LeaseManager) : Router :=
  mkRouter [Byte.x01] (<["aa" := demo_reg]> ∅) (lru_new 16) [] lm (proxy_manager_new c) gate_engine.

Definition demo_gate : Router := gate_at two_ports m_new.
Definition demo_draw : Draw := mkDraw [Byte.x01] demo_nonce 0.
Definition demo_peer_info : PeerInfo := mkPeerInfo 41 1000 1000.

Lemma replayed_nonce_is_rejected_witness :
  exists e, validate_replay 0 (lru_put (lru_new 16) "n1") "n1" "t" =
    (lru_put (lru_new 16) "n1", Err (Replay e)).
Proof.
  apply (replayed_nonce_is_rejected 0 0 (lru_new 16) (lru_put (lru_new 16) "n1")
    (lru_put (lru_new 16) "n1") "n1" "t" "t" [] 0).
  - apply validate_replay_ok. split_and!; [done|by exists 0|done|done].
  - done.
  - change (lru_capacity (lru_new 16)) with 16%nat. lia.
Defined.

Definition no_ports : ProxyConfig := mkProxyConfig (V4 [Byte.x7f; Byte.x00; Byte.x00; Byte.x01]) 19001 19000.

Definition demo_created : LeaseManager * result Lease LeaseError :=
  create_lease m_new [Byte.x01] demo_nonce 0 (agent_info_of demo_reg) "github_api"
    (mkScope ["api.github.com"] ["GET"] ["/repos/a/b"] [] (Some 3600) None None None) demo_limits "github" "auto".

Lemma port_exhaustion_leaves_lease_witness :
  let '(rt', r) := handle_request_credential (gate_at no_ports m_new) 0 demo_draw demo_params
    demo_peer_info [Byte.x09] in
  r = Err (GateProxy (exhausted no_ports)) /\
  leases (rt_leases rt') !! "01" = Some (lease_in demo_created.1 "01") /\
  status (lease_in demo_created.1 "01") = Active.
Proof.
  apply (port_exhaustion_leaves_lease (gate_at no_ports m_new) 0 demo_draw demo_params demo_peer_info [Byte.x09]
    (lru_put (lru_new 16) "nonce-1") demo_reg
    (mkScope ["api.github.com"] ["GET"] ["/repos/a/b"] [] (Some 3600) None None None) "github" demo_limits
    demo_created.1 (lease_in demo_created.1 "01")); vm_compute; reflexivity.
Defined.

Lemma death_after_disconnect_revokes_nothing_witness :
  handle_death (disconnect (gate_at two_ports m_lead) [Byte.x09]) (mkDeathNotification 41 [Byte.xaa]) =
    Some (disconnect (gate_at two_ports m_lead) [Byte.x09]) /\
  status (lease_in (rt_leases (disconnect (gate_at two_ports m_lead) [Byte.x09])) "01") = Active.
Proof.
  split; [|vm_compute; reflexivity].
  apply (death_after_disconnect_revokes_nothing (gate_at two_ports m_lead) (mkDeathNotification 41 [Byte.xaa])
    [Byte.x09] demo_reg); reflexivity.
Defined.

Lemma registered_agent_death_tears_down_witness :
  exists rt', handle_death (gate_at two_ports m_both) (mkDeathNotification 41 [Byte.xaa]) = Some rt' /\
    rt_registry rt' !! "aa" = None /\
    exists lx, leases (rt_leases rt') !! "02" = Some lx /\ is_revoked (status lx) = true.
Proof.
  destruct (registered_agent_death_tears_down (gate_at two_ports m_both) (mkDeathNotification 41 [Byte.xaa]) demo_reg)
    as (rt' & Hd & Hn & Hall).
  - exact m_both_reachable.
  - reflexivity.
  - exists rt'. split; [exact Hd|]. split; [exact Hn|]. apply (Hall "01" "02").
    + apply list_elem_of_In. vm_compute. by left.
    + vm_compute. reflexivity.
    + right. exact m_both_descends.
Defined.

Lemma session_token_slicing_panics_witness :
  validate_session demo_gate (JObject [("session_token", JString ("cdp_sess_a" +:+ enc [195; 169]%N +:+ "b"))])
    demo_peer_info [Byte.x09] = Panic.
Proof. apply (session_token_slicing_panics demo_gate demo_peer_info [Byte.x09] demo_reg). vm_compute. reflexivity. Defined.
