(* ===== verification/GateStages.v ===== *)
(** * cdp-gate: a request between its awaits

    The handlers of [cdp-gate/src/router.rs] give up control between their
    sections: every lock is taken for one section only, and the user may take
    minutes to answer a prompt.  [Stage] says where the task of a request
    stands, with the values it carries on; [advance] is its next section.
    [DeathStage] and [advance_death] are the same for [handle_death] with
    [revoke_agent_leases].  Run without interruption, the sections are
    [GateRouter.handle_request] and [GateRouter.handle_death]. *)

From S2P Require Import Prelude RustStr Crypto PolicyTypes PolicyParser PolicyEvaluator PolicyEngine AuditLog.
From S2P Require Import LeaseTypes LeaseManager LeaseLemmas LeaseSteps LeaseSafety LeaseProps.
From S2P Require Import ProxyScope ProxyAuth ProxyManager GateAgent GateRouter.

(** ** Requests *)

(** Each constructor is named for the section that comes next. *)
Inductive Stage : Type :=
| StRegister (id : Json) (params : RegisterParams)
| StVerify (id : Json) (params : RegisterParams)
| StEnroll (id : Json) (registration : AgentRegistration) (result : RegisterResult)
| StSession (req : JsonRpcRequest) (params : option RequestCredentialParams)
| StFresh (id : Json) (params : RequestCredentialParams)
| StLookup (id : Json) (params : RequestCredentialParams)
| StEvaluate (id : Json) (params : RequestCredentialParams) (agent : AgentInfo)
| StPrompt (id : Json) (params : RequestCredentialParams) (agent : AgentInfo) (granted : Scope) (pname : string)
    (constraints : PolicyConstraints)
| StPrepare (id : Json) (params : RequestCredentialParams) (agent : AgentInfo) (granted : Scope) (pname : string)
    (constraints : PolicyConstraints)
| StInsert (id : Json) (agent : AgentInfo) (granted : Scope) (lease : Lease)
| StIndex (id : Json) (agent : AgentInfo) (granted : Scope) (lease : Lease)
| StAnnounce (id : Json) (agent : AgentInfo) (granted : Scope) (lease : Lease)
| StListen (id : Json) (granted : Scope) (lease : Lease)
| StReply (resp : JsonRpcResponse)
| StPanicked.

(** ** Deaths *)

Inductive DeathStage : Type :=
| DeIndex (fp : list byte)
| DeRoot (fp : list byte) (ids revoked : list string)
| DeCollect (fp : list byte) (id : string) (rest revoked : list string)
| DeRevoke (fp : list byte) (id : string) (rest revoked : list string)
| DeDrop (fp : list byte) (revoked : list string)
| DeRelease (ids : list string).

Section Stages.
Context `{Fmt} `{Gui} `{FmtAddr} `{AgentOs} `{Sha256} `{FmtParse} `{HmacSha256}.
Context `{Build} `{Chrono} `{Resolver}.
Context `{RpcCodec} `{TextParse} `{LruCache} `{MapOrder}.

(** [handle_request] up to its first await. *)
Definition receive (raw_json : list byte) : Stage :=
  match parse_request raw_json with
  | inr e => StReply (error JNull PARSE_ERROR ("parse error: " +:+ e))
  | inl req =>
      let id := rq_id req in
      if negb (bool_decide (rq_jsonrpc req = "2.0")) then
        StReply (error id INVALID_REQUEST ("jsonrpc must be " +:+ dquote +:+ "2.0" +:+ dquote))
      else if bool_decide (rq_method req = "cdp.register") then
        match parse_register (rq_params req) with
        | inr e => StReply (error id INVALID_REQUEST ("invalid params: " +:+ e))
        | inl params => StRegister id params
        end
      else if bool_decide (rq_method req = "cdp.requestCredential") then
        match parse_credential (rq_params req) with
        | inr e => StReply (error id INVALID_REQUEST ("invalid params: " +:+ e))
        | inl params => StSession req (Some params)
        end
      else StSession req None
  end.

Definition failed (id : Json) (e : GateError) : Stage := StReply (gate_error_to_response id e).

(** [handle_register] *)
Definition register_section (rt : Router) (now : Z) (peer : PeerInfo) (connection_id : list byte) (st : Stage)
    : Router * Stage :=
  match st with
  | StRegister id params =>
      let '(cache, fresh) := validate_replay now (rt_nonces rt) (rg_nonce params) (rg_timestamp params) in
      (with_nonces rt cache,
       match fresh with Ok _ => StVerify id params | Err e => failed id e | Panic => StPanicked end)
  | StVerify id params =>
      match verify_agent (peer_pid peer) (peer_uid peer) with
      | Err e => (rt, failed id e)
      | Panic => (rt, StPanicked)
      | Ok fingerprint =>
      let session_token := "cdp_sess_" +:+
        generate_session_token (rt_gate_key rt) (fp_hash fingerprint) connection_id in
      match fd_try_clone (fp_pidfd fingerprint) with
      | inr e => (rt, failed id (Syscall ("failed to clone pidfd: " +:+ e)))
      | inl _ =>
          (with_monitor rt (mkDeathNotification (peer_pid peer) (fp_hash fingerprint)),
           StEnroll id
             (mkAgentRegistration fingerprint (rg_agent_id params) (rg_agent_version params)
                (rg_capabilities params) connection_id now)
             (mkRegisterResult "registered" (bytes_to_hex (fp_hash fingerprint)) session_token
                (rg_capabilities params)))
      end end
  | StEnroll id registration result =>
      (with_registry rt (<[rr_agent_fingerprint result := registration]> (rt_registry rt)),
       StReply (success id (register_to_value result)))
  | _ => (rt, st)
  end.

(** [validate_session], then [handle_request_credential] up to the approval. *)
Definition credential_section (rt : Router) (now : Z) (peer : PeerInfo) (connection_id : list byte) (st : Stage)
    : Router * Stage :=
  match st with
  | StSession req params =>
      (rt, match validate_session rt (rq_params req) peer connection_id with
           | Err e => failed (rq_id req) e
           | Panic => StPanicked
           | Ok _ =>
               match params with
               | Some params => StFresh (rq_id req) params
               | None => StReply (error (rq_id req) METHOD_NOT_FOUND ("method not found: " +:+ rq_method req))
               end
           end)
  | StFresh id params =>
      let '(cache, fresh) := validate_replay now (rt_nonces rt) (rc_nonce params) (rc_timestamp params) in
      (with_nonces rt cache,
       match fresh with Ok _ => StLookup id params | Err e => failed id e | Panic => StPanicked end)
  | StLookup id params =>
      (rt, match find_registration rt peer connection_id with
           | None => failed id (SessionInvalid "no registration found for this peer")
           | Some reg => StEvaluate id params (agent_info_of reg)
           end)
  | StEvaluate id params agent =>
      (rt, match engine_evaluate (rt_engine rt) agent (rc_credential_ref params)
                   (requested_scope_of (rc_scope params)) with
           | Err e => failed id (GatePolicy e)
           | Panic => StPanicked
           | Ok (Denied reason) => failed id (CredentialDenied reason)
           | Ok (RequiresApproval granted pname constraints) => StPrompt id params agent granted pname constraints
           | Ok (AutoApprove granted pname constraints) => StPrepare id params agent granted pname constraints
           end)
  | StPrompt id params agent granted pname constraints =>
      (rt, match prompt_user agent (rc_credential_ref params) granted (rc_reason params)
                   (approval_config (rt_engine rt)) with
           | Err e => failed id (GatePolicy e)
           | Panic => StPanicked
           | Ok (AllowOnce | AllowTimed _) => StPrepare id params agent granted pname constraints
           | Ok Deny => failed id (CredentialDenied "user denied the request")
           end)
  | _ => (rt, st)
  end.

(** [create_lease] and [start_proxy]. *)
Definition grant_section (rt : Router) (draw : Draw) (st : Stage) : Router * Stage :=
  match st with
  | StPrepare id params agent granted pname constraints =>
      (rt, match prepare_lease (gate_key (rt_leases rt)) (d_id draw) (d_nonce draw) (d_now draw) agent
                   (rc_credential_ref params) granted constraints pname "auto" with
           | Err e => failed id (GateLease e)
           | Panic => StPanicked
           | Ok lease => StInsert id agent granted lease
           end)
  | StInsert id agent granted lease =>
      (with_managers rt (insert_lease (rt_leases rt) lease) (rt_proxies rt), StIndex id agent granted lease)
  | StIndex id agent granted lease =>
      (with_managers rt (index_lease (rt_leases rt) (ai_fingerprint_hash agent) (lease_id lease)) (rt_proxies rt),
       StAnnounce id agent granted lease)
  | StAnnounce id agent granted lease =>
      (with_managers rt
         (emit_audit (rt_leases rt) LeaseGranted
            (mkAuditFields (Some (lease_id lease)) (Some (hex_encode (ai_fingerprint_hash agent)))
               (Some (to_string_lossy (ai_binary_path agent))) (Some (credential_ref lease)) None
               (Some (policy_name lease)) (Some (approval_method lease)) None))
         (rt_proxies rt), StListen id granted lease)
  | StListen id granted lease =>
      let '(pm, started) := start_proxy (rt_proxies rt) (lease_id lease) in
      (with_managers rt (rt_leases rt) pm,
       match started with
       | Err e => failed id (GateProxy e)
       | Panic => StPanicked
       | Ok port =>
           StReply (success id (credential_to_value
             (mkRequestCredentialResult "granted" (lease_id lease) port (lease_token lease)
                (bytes_to_hex (channel_binding_nonce lease)) (ttl_seconds lease)
                (mkRequestedScope (s_hosts granted) (s_methods granted) (s_paths granted)
                   (s_ttl_seconds granted) (s_max_requests granted)))))
       end)
  | _ => (rt, st)
  end.

Definition advance (rt : Router) (now : Z) (draw : Draw) (peer : PeerInfo) (connection_id : list byte) (st : Stage)
    : Router * Stage :=
  match st with
  | StRegister _ _ | StVerify _ _ | StEnroll _ _ _ => register_section rt now peer connection_id st
  | StSession _ _ | StFresh _ _ | StLookup _ _ | StEvaluate _ _ _ | StPrompt _ _ _ _ _ _ =>
      credential_section rt now peer connection_id st
  | StPrepare _ _ _ _ _ _ | StInsert _ _ _ _ | StIndex _ _ _ _ | StAnnounce _ _ _ _ | StListen _ _ _ =>
      grant_section rt draw st
  | StReply _ | StPanicked => (rt, st)
  end.

(** The first section of [handle_death]. *)
Definition begin_death (rt : Router) (n : DeathNotification) : Router * option DeathStage :=
  let key := bytes_to_hex (death_fingerprint n) in
  match rt_registry rt !! key with
  | None => (rt, None)
  | Some _ => (with_registry rt (delete key (rt_registry rt)), Some (DeIndex (death_fingerprint n)))
  end.

(** Then those of [revoke_agent_leases] and the [release_lease] calls; an
    error of a revocation ends the task's turn.  [None] when a traversal of
    the lease forest does not end. *)
Definition advance_death (rt : Router) (st : DeathStage) : option (Router * option DeathStage) :=
  let m := rt_leases rt in
  match st with
  | DeIndex fp => Some (rt, Some (DeRoot fp (default [] (agent_leases m !! fp)) []))
  | DeRoot fp [] revoked => Some (rt, Some (DeDrop fp revoked))
  | DeRoot fp (id :: rest) revoked =>
      Some (rt, Some (if is_root_lease (leases m) id then DeCollect fp id rest revoked else DeRoot fp rest revoked))
  | DeCollect fp id rest revoked =>
      descendants ← collect_descendants (leases m) id;
      Some (rt, Some (DeRevoke fp id rest ((revoked ++ [id]) ++ descendants)))
  | DeRevoke fp id rest revoked =>
      '(m', r) ← revoke_lease m id "agent process exited";
      Some (with_managers rt m' (rt_proxies rt),
            match r with Ok _ => Some (DeRoot fp rest revoked) | _ => None end)
  | DeDrop fp revoked =>
      Some (with_managers rt (with_index m (delete fp (agent_leases m))) (rt_proxies rt), Some (DeRelease revoked))
  | DeRelease [] => Some (rt, None)
  | DeRelease (id :: rest) =>
      Some (with_managers rt m (release_lease (rt_proxies rt) id).1, Some (DeRelease rest))
  end.

(** ** Without interruption *)

Fixpoint run_stages (n : nat) (now : Z) (draw : Draw) (peer : PeerInfo) (connection_id : list byte) (rt : Router)
    (st : Stage) : Router * Stage :=
  match n with
  | O => (rt, st)
  | S n' => let '(rt, st) := advance rt now draw peer connection_id st in run_stages n' now draw peer connection_id rt st
  end.

(** The stage a handler's outcome is. *)
Definition outcome (r : result JsonRpcResponse unit) : Stage :=
  match r with Ok resp => StReply resp | _ => StPanicked end.

Lemma run_stages_reply n now draw peer cid rt resp :
  run_stages n now draw peer cid rt (StReply resp) = (rt, StReply resp).
Proof. induction n; [done|exact IHn]. Qed.

Lemma run_stages_panicked n now draw peer cid rt : run_stages n now draw peer cid rt StPanicked = (rt, StPanicked).
Proof. induction n; [done|exact IHn]. Qed.

Lemma run_stages_failed n now draw peer cid rt id e :
  run_stages n now draw peer cid rt (failed id e) = (rt, StReply (gate_error_to_response id e)).
Proof. apply run_stages_reply. Qed.

Lemma run_stages_S n now draw peer cid rt st :
  run_stages (S n) now draw peer cid rt st =
  run_stages n now draw peer cid (advance rt now draw peer cid st).1 (advance rt now draw peer cid st).2.
Proof. cbn. by destruct (advance _ _ _ _ _ _). Qed.

Lemma run_register n now draw peer cid rt id params :
  run_stages (3 + n) now draw peer cid rt (StRegister id params) =
  (let '(rt', r) := handle_register rt now params peer cid in (rt', outcome (respond id r))).
Proof.
  cbn [Nat.add]. rewrite run_stages_S. cbn [advance register_section]. unfold handle_register.
  destruct (validate_replay _ _ _ _) as [cache [[]|e|]]; cbn [fst snd];
    [|by rewrite run_stages_failed|by rewrite run_stages_panicked].
  rewrite run_stages_S. cbn [advance register_section]. destruct (verify_agent _ _) as [f|e|]; cbn [fst snd];
    [|by rewrite run_stages_failed|by rewrite run_stages_panicked].
  destruct (fd_try_clone _) as [fd|e]; cbn [fst snd]; [|by rewrite run_stages_failed].
  rewrite run_stages_S. cbn [advance register_section fst snd]. by rewrite run_stages_reply.
Qed.

Lemma run_grant n now draw peer cid rt id params agent granted pname constraints :
  run_stages (5 + n) now draw peer cid rt (StPrepare id params agent granted pname constraints) =
  (let '(lm, created) := create_lease (rt_leases rt) (d_id draw) (d_nonce draw) (d_now draw) agent
      (rc_credential_ref params) granted constraints pname "auto" in
   let rt := with_managers rt lm (rt_proxies rt) in
   match created with
   | Err e => (rt, failed id (GateLease e))
   | Panic => (rt, StPanicked)
   | Ok lease => grant_section rt draw (StListen id granted lease)
   end).
Proof.
  cbn [Nat.add]. rewrite run_stages_S. cbn [advance grant_section fst snd]. unfold create_lease.
  assert (with_managers rt (rt_leases rt) (rt_proxies rt) = rt) as E by (by destruct rt).
  destruct (prepare_lease _ _ _ _ _ _ _ _ _ _) as [l|e|] eqn:Hp; cbv zeta;
    [|by rewrite run_stages_failed, E|by rewrite run_stages_panicked, E].
  do 4 (rewrite run_stages_S; cbn [advance grant_section fst snd]). unfold prepare_lease in Hp.
  apply rbind_ok in Hp as (pins & _ & (d & _ & (exp & _ & [= <-])%rbind_ok)%rbind_ok).
  cbn [rt_leases rt_proxies with_managers lease_id credential_ref policy_name approval_method].
  destruct (start_proxy _ _) as [pm [port|e|]]; cbn [fst snd];
    [apply run_stages_reply|apply run_stages_failed|apply run_stages_panicked].
Qed.

Lemma run_credential n now draw peer cid rt id params :
  run_stages (9 + n) now draw peer cid rt (StFresh id params) =
  (let '(rt', r) := handle_request_credential rt now draw params peer cid in (rt', outcome (respond id r))).
Proof.
  change (9 + n)%nat with (S (S (S (5 + S n)))). rewrite run_stages_S. cbn [advance credential_section].
  unfold handle_request_credential.
  destruct (validate_replay _ _ _ _) as [cache [[]|e|]]; cbn [fst snd];
    [|by rewrite run_stages_failed|by rewrite run_stages_panicked].
  rewrite run_stages_S. cbn [advance credential_section fst snd].
  destruct (find_registration _ _ _) as [reg|]; [|by rewrite run_stages_failed].
  rewrite run_stages_S. cbn [advance credential_section fst snd]. unfold evaluate_with_approval.
  destruct (engine_evaluate _ _ _ _) as [[g pn c|g pn c|reason]|e|]; cbn [rbind];
    [|..|by rewrite run_stages_failed|by rewrite run_stages_failed|by rewrite run_stages_panicked].
  - rewrite run_grant. destruct (create_lease _ _ _ _ _ _ _ _ _ _) as [lm [lease|e|]]; [|done..].
    cbn [grant_section rt_leases rt_proxies with_managers]. by destruct (start_proxy _ _) as [pm [port|e|]].
  - change (5 + S n)%nat with (S (5 + n)). rewrite run_stages_S. cbn [advance credential_section fst snd].
    destruct (prompt_user _ _ _ _ _) as [[|d|]|e|]; cbn [rbind];
      [| |by rewrite run_stages_failed|by rewrite run_stages_failed|by rewrite run_stages_panicked];
      (rewrite run_grant; destruct (create_lease _ _ _ _ _ _ _ _ _ _) as [lm [lease|e|]]; [|done..];
       cbn [grant_section rt_leases rt_proxies with_managers]; by destruct (start_proxy _ _) as [pm [port|e|]]).
Qed.

(** Nothing else running, the sections of a request are [handle_request]. *)
Theorem sections_are_handle_request (rt : Router) (now : Z) (draw : Draw) (raw : list byte) (peer : PeerInfo)
    (cid : list byte) :
  run_stages 10 now draw peer cid rt (receive raw) =
  (let '(rt', r) := handle_request rt now draw raw peer cid in (rt', outcome r)).
Proof.
  unfold receive, handle_request. destruct (parse_request raw) as [req|e]; [|apply run_stages_reply]. cbv zeta.
  destruct (negb _); [apply run_stages_reply|]. destruct (bool_decide (rq_method req = "cdp.register")).
  { destruct (parse_register _) as [params|e]; [|apply run_stages_reply].
    rewrite (run_register 7). by destruct (handle_register _ _ _ _ _). }
  destruct (bool_decide _).
  - destruct (parse_credential _) as [params|e]; [|apply run_stages_reply].
    rewrite run_stages_S. cbn [advance credential_section fst snd].
    destruct (validate_session _ _ _ _) as [[]|e|]; [|apply run_stages_failed|apply run_stages_panicked].
    rewrite (run_credential 0). by destruct (handle_request_credential _ _ _ _ _ _).
  - rewrite run_stages_S. cbn [advance credential_section fst snd].
    destruct (validate_session _ _ _ _) as [[]|e|];
      [apply run_stages_reply|apply run_stages_failed|apply run_stages_panicked].
Qed.

(** The sections of a death, as a relation on the router and the stage. *)
Definition death_section (s s' : Router * option DeathStage) : Prop :=
  exists st, s.2 = Some st /\ advance_death s.1 st = Some s'.

Lemma death_step rt st rt' st' : advance_death rt st = Some (rt', st') -> death_section (rt, Some st) (rt', st').
Proof. by exists st. Qed.

Lemma death_releases ids : forall rt,
  rtc death_section (rt, Some (DeRelease ids)) (with_managers rt (rt_leases rt) (release_all (rt_proxies rt) ids), None).
Proof.
  induction ids as [|id ids IH]; intros rt.
  - apply rtc_once, death_step. cbn. by destruct rt.
  - eapply rtc_l; [by apply death_step|]. exact (IH (with_managers rt (rt_leases rt) (release_lease (rt_proxies rt) id).1)).
Qed.

Lemma death_roots fp ids : forall rt revoked m r,
  revoke_roots (rt_leases rt) "agent process exited" ids revoked = Some (m, r) ->
  rtc death_section (rt, Some (DeRoot fp ids revoked))
    (with_managers rt m (rt_proxies rt), match r with Ok revoked' => Some (DeDrop fp revoked') | _ => None end).
Proof.
  induction ids as [|id ids IH]; intros rt revoked m r; cbn [revoke_roots].
  { intros [= <- <-]. apply rtc_once, death_step. cbn. by destruct rt. }
  destruct (is_root_lease (leases (rt_leases rt)) id) eqn:Er.
  2: { intros Hr. eapply rtc_l; [apply death_step; cbn [advance_death]; by rewrite Er|]. by apply IH. }
  intros (ds & Hds & Hr)%bind_Some. eapply rtc_l; [apply death_step; cbn [advance_death]; by rewrite Er|].
  eapply rtc_l; [apply death_step; cbn [advance_death]; by rewrite Hds|].
  destruct (revoke_lease (rt_leases rt) id "agent process exited") as [[m1 r1]|] eqn:Hrev; [|done].
  eapply rtc_l; [apply death_step; cbn [advance_death]; by rewrite Hrev|]. destruct r1; simplify_eq/=; [|done..].
  exact (IH (with_managers rt m1 (rt_proxies rt)) _ _ _ Hr).
Qed.

(** Nothing else running, the sections of a death are [handle_death]. *)
Theorem sections_are_handle_death (rt rt' : Router) (n : DeathNotification) :
  handle_death rt n = Some rt' -> rtc death_section (begin_death rt n) (rt', None).
Proof.
  unfold handle_death, begin_death. destruct (rt_registry rt !! _) as [reg|]; [|by intros [= <-]].
  intros ([m r] & Hrev & Hk)%bind_Some. unfold revoke_agent_leases in Hrev.
  apply bind_Some in Hrev as ([m1 r1] & Hroots & Hrev).
  eapply rtc_l; [by apply death_step|]. etrans; [by apply death_roots|].
  destruct r1 as [revoked|e|]; simplify_eq/=; [|done..].
  eapply rtc_l; [by apply death_step|]. cbn [rt_leases rt_proxies with_managers].
  exact (death_releases revoked (with_managers (with_registry rt _)
    (with_index m1 (delete (death_fingerprint n) (agent_leases m1))) (rt_proxies rt))).
Qed.
End Stages.
