(* ===== verification/GateSystem.v ===== *)
(** * The gate as a whole

    The router with its lease manager, proxy pool and policy engine, the
    requests in progress and the death being handled, under everything that
    happens to them: sections of requests of any agents, deaths,
    disconnections, the steps the lease manager takes for the proxies and the
    sweep, and policy reloads, in any order. *)

From S2P Require Import Prelude RustStr Crypto PolicyTypes PolicyParser PolicyEvaluator PolicyEngine AuditLog.
From S2P Require Import LeaseTypes LeaseManager LeaseLemmas LeaseSteps LeaseSafety LeaseProps.
From S2P Require Import ProxyScope ProxyAuth ProxyManager GateAgent GateRouter GateStages.

(** ** Widths *)

(** serde reads the limits of a request into [u64]. *)
Class RpcTyped `{RpcCodec} : Prop := {
  credential_typed : forall v p, parse_credential v = inl p -> scope_fits (requested_scope_of (rc_scope p))
}.

(** The limits of a policy, at the width of their fields. *)
Definition entry_fits (e : PolicyEntry) : Prop := constraints_fit (build_constraints (pe_allow e) (pe_delegation e)).

Lemma min_option_fits (a b : option Z) (m : Z) x :
  (forall y, a = Some y -> in_u m y) -> (forall y, b = Some y -> in_u m y) -> min_option a b = Some x -> in_u m x.
Proof.
  intros Ha Hb. unfold min_option, in_u in *. destruct a as [y|], b as [z|]; intros [= <-].
  - specialize (Ha y eq_refl). specialize (Hb z eq_refl). lia.
  - by apply Ha.
  - by apply Hb.
Qed.

Lemma build_decision_fits e req g n c : entry_fits e -> scope_fits req ->
  build_decision e req = AutoApprove g n c \/ build_decision e req = RequiresApproval g n c ->
  scope_fits g /\ constraints_fit c.
Proof.
  intros Hc [Ht Hr] Hd. unfold build_decision in Hd. destruct (intersect_scope _ _) as [g'|] eqn:Hi; [|naive_solver].
  assert (g' = g /\ build_constraints (pe_allow e) (pe_delegation e) = c) as [-> <-]
    by (case_bool_decide; naive_solver).
  split; [|done]. unfold intersect_scope in Hi. apply bind_Some in Hi as (hs & _ & (ms & _ & [= <-])%bind_Some).
  destruct Hc as [H1 H2 _ _ _]. split; cbn [s_ttl_seconds s_max_requests]; intros x Hx;
    [by apply (min_option_fits _ _ _ _ Ht H1)|by apply (min_option_fits _ _ _ _ Hr H2)].
Qed.

Lemma evaluate_fits `{Fmt} {E : Type} ev agent cref req d : Forall entry_fits (loaded ev) -> scope_fits req ->
  evaluate (E:=E) ev agent cref req = Ok d ->
  forall g n c, d = AutoApprove g n c \/ d = RequiresApproval g n c -> scope_fits g /\ constraints_fit c.
Proof.
  intros Hf Hs [(t & e & [(before & after & Hps & _) _] & ->)|[-> _]]%evaluate_cases g n c Hd; [|naive_solver].
  eapply build_decision_fits; [|done|exact Hd]. rewrite Hps in Hf. by apply Forall_app in Hf as [_ [He _]%Forall_cons].
Qed.

(** [HashMap::values] visits the values of the map. *)
Class MapOrderLaws `{MapOrder} : Prop := {
  values_of_map : forall m reg, reg ∈ values_order m -> exists k, m !! k = Some reg
}.

Section System.
Context `{Fmt} `{FmtAddr} `{Sha256} `{FmtParse} `{HmacSha256}.
Context `{Build} `{Chrono} `{!ChronoLaws}.
Context `{!RpcCodec} `{!RpcTyped} `{TextParse} `{LruCache}.

(** ** State and steps *)

Definition with_engine (rt : Router) (eng : PolicyEngine) : Router :=
  mkRouter (rt_gate_key rt) (rt_registry rt) (rt_nonces rt) (rt_monitors rt) (rt_leases rt) (rt_proxies rt) eng.

(** A request in progress: the line it came in, who sent it, and its stage. *)
Record Pending : Type := mkPending {
  pd_raw : list byte; pd_peer : PeerInfo; pd_connection_id : list byte; pd_stage : Stage
}.

Definition at_stage (p : Pending) (st : Stage) : Pending := mkPending (pd_raw p) (pd_peer p) (pd_connection_id p) st.

(** The requests are keyed by the task that handles them; one task handles
    the deaths. *)
Record System : Type := mkSystem {
  sy_router : Router; sy_requests : gmap nat Pending; sy_death : option DeathStage
}.

Definition system_new (rt : Router) : System := mkSystem rt ∅ None.
Definition with_sy_router (s : System) (rt : Router) : System := mkSystem rt (sy_requests s) (sy_death s).

Definition finished (st : Stage) : bool := match st with StReply _ | StPanicked => true | _ => false end.

(** The clock a lease is made with is in range, and the id drawn for it is
    not in use. *)
Definition draw_fits (rt : Router) (draw : Draw) (st : Stage) : Prop :=
  match st with
  | StPrepare _ _ _ _ _ _ => valid_time (d_now draw)
  | StInsert _ _ _ lease => leases (rt_leases rt) !! lease_id lease = None
  | _ => True
  end.

(** The user, the processes, the resolver and the order in which the registry
    is visited are those of the step. *)
Inductive gstep : System -> System -> Prop :=
| g_receive s i raw peer cid : sy_requests s !! i = None ->
    gstep s (mkSystem (sy_router s) (<[i := mkPending raw peer cid (receive raw)]> (sy_requests s)) (sy_death s))
| g_section `{Gui} `{AgentOs} `{Resolver} `{MapOrder} `{!MapOrderLaws} s i p now draw rt st :
    sy_requests s !! i = Some p -> draw_fits (sy_router s) draw (pd_stage p) ->
    advance (sy_router s) now draw (pd_peer p) (pd_connection_id p) (pd_stage p) = (rt, st) ->
    gstep s (mkSystem rt (<[i := at_stage p st]> (sy_requests s)) (sy_death s))
| g_done s i p : sy_requests s !! i = Some p -> finished (pd_stage p) = true ->
    gstep s (mkSystem (sy_router s) (delete i (sy_requests s)) (sy_death s))
| g_death s n rt de : sy_death s = None -> begin_death (sy_router s) n = (rt, de) ->
    gstep s (mkSystem rt (sy_requests s) de)
| g_death_section s st rt de : sy_death s = Some st -> advance_death (sy_router s) st = Some (rt, de) ->
    gstep s (mkSystem rt (sy_requests s) de)
| g_disconnect s cid : gstep s (with_sy_router s (disconnect (sy_router s) cid))
(** Uses by the proxies, renewals, delegations, revocations, the sweep. *)
| g_lease s m : lstep (rt_leases (sy_router s)) m ->
    gstep s (with_sy_router s (with_managers (sy_router s) m (rt_proxies (sy_router s))))
| g_stop s :
    gstep s (with_sy_router s (with_managers (sy_router s) (rt_leases (sy_router s)) (stop_all (rt_proxies (sy_router s)))))
| g_reload s ps : Forall entry_fits ps ->
    gstep s (with_sy_router s (with_engine (sy_router s) (engine_reload (rt_engine (sy_router s)) ps))).

(** ** The invariant *)

Record gate_ok (rt : Router) : Prop := {
  (** The lease manager is in a state of its own step relation, and makes
      tokens with the router's key. *)
  go_leases : reachable (rt_leases rt);
  go_key : gate_key (rt_leases rt) = rt_gate_key rt;
  (** Ports are in range and exclusive, and each serves a lease that exists. *)
  go_ports : ports_ok (rt_proxies rt);
  go_known : forall id p a, listeners (rt_proxies rt) !! id = Some (p, a) -> is_Some (leases (rt_leases rt) !! id);
  (** An agent is registered under its own fingerprint and has a monitor. *)
  go_registry : forall k reg, rt_registry rt !! k = Some reg ->
    k = bytes_to_hex (fp_hash (ar_fingerprint reg)) /\
    mkDeathNotification (fp_pid (ar_fingerprint reg)) (fp_hash (ar_fingerprint reg)) ∈ rt_monitors rt;
  go_policies : Forall entry_fits (loaded (evaluator (rt_engine rt)))
}.

(** What a request carries from section to section. *)
Definition stage_ok (rt : Router) (st : Stage) : Prop :=
  match st with
  | StEnroll _ reg result =>
      rr_agent_fingerprint result = bytes_to_hex (fp_hash (ar_fingerprint reg)) /\
      mkDeathNotification (fp_pid (ar_fingerprint reg)) (fp_hash (ar_fingerprint reg)) ∈ rt_monitors rt
  | StSession _ (Some params) | StFresh _ params | StLookup _ params | StEvaluate _ params _ =>
      scope_fits (requested_scope_of (rc_scope params))
  | StPrompt _ _ _ granted _ constraints | StPrepare _ _ _ granted _ constraints =>
      scope_fits granted /\ constraints_fit constraints
  | StInsert _ agent _ lease =>
      agent_fingerprint_hash lease = ai_fingerprint_hash agent /\
      exists (_ : Resolver) ib nonce now ai cref scope c pname method,
        valid_time now /\ scope_fits scope /\ constraints_fit c /\
        prepare_lease (rt_gate_key rt) ib nonce now ai cref scope c pname method = Ok lease
  | StIndex _ agent _ lease => exists l, leases (rt_leases rt) !! lease_id lease = Some l /\
      agent_fingerprint_hash l = ai_fingerprint_hash agent
  | StAnnounce _ _ _ lease | StListen _ _ lease => is_Some (leases (rt_leases rt) !! lease_id lease)
  | _ => True
  end.

Record system_ok (s : System) : Prop := {
  so_gate : gate_ok (sy_router s);
  so_requests : forall i p, sy_requests s !! i = Some p -> stage_ok (sy_router s) (pd_stage p)
}.

(** ** Preservation *)

Lemma verify_agent_pid `{AgentOs} pid uid f : verify_agent pid uid = Ok f -> fp_pid f = pid.
Proof.
  unfold verify_agent. intros (fd & _ & (p & _ & (hash & _ & (st & _ & [= <-])%rbind_ok)%rbind_ok)%rbind_ok)%rbind_ok. done.
Qed.

(** How the router changes under a request in progress. *)
Record grows (rt rt' : Router) : Prop := {
  gr_monitors : rt_monitors rt `prefix_of` rt_monitors rt';
  gr_key : rt_gate_key rt' = rt_gate_key rt;
  gr_leases : rtc lstep (rt_leases rt) (rt_leases rt')
}.

#[local] Instance grows_refl : Reflexive grows.
Proof. by split. Qed.

(** Leases are never removed. *)
Lemma run_known m m' id : rtc lstep m m' -> is_Some (leases m !! id) -> is_Some (leases m' !! id).
Proof. intros Hr [l Hl]. destruct (run_later _ _ _ _ Hr Hl) as (l' & -> & _). eauto. Qed.

Lemma run_key m m' : rtc lstep m m' -> gate_key m' = gate_key m.
Proof. induction 1 as [|x y z Hs _ IH]; [done|]. by rewrite IH, (lstep_key _ _ Hs). Qed.

Lemma stage_ok_grows rt rt' st : grows rt rt' -> stage_ok rt st -> stage_ok rt' st.
Proof.
  intros [Hm Hk Hl]. destruct st as [| | |? [|]| | | | | | | | | | |]; simpl; try done.
  - destruct Hm as [new ->]. intros [? ?]. split; [done|]. apply elem_of_app. by left.
  - by rewrite Hk.
  - intros (l & Hl1 & Hfp). destruct (run_later _ _ _ _ Hl Hl1) as (l' & Hl' & Hlat). exists l'. split; [done|].
    by rewrite (later_agent _ _ Hlat).
  - by apply run_known.
  - by apply run_known.
Qed.

Lemma gate_ok_nonces rt c : gate_ok rt -> gate_ok (with_nonces rt c).
Proof. intros []. by split. Qed.

Lemma gate_ok_registry rt r : gate_ok rt -> (forall k reg, r !! k = Some reg -> rt_registry rt !! k = Some reg) ->
  gate_ok (with_registry rt r).
Proof. intros [Hl Hk Hp Hn Hr Hpol] Hsub. split; try done. intros k reg Hreg. by apply Hr, Hsub. Qed.

(** Any run of the lease manager, with a step of the pool that leaves only
    listeners of leases that exist. *)
Lemma gate_ok_managers rt m pm : gate_ok rt -> rtc lstep (rt_leases rt) m -> rtc pm_step (rt_proxies rt) pm ->
  (forall id, is_Some (listeners pm !! id) -> is_Some (listeners (rt_proxies rt) !! id) \/ is_Some (leases m !! id)) ->
  gate_ok (with_managers rt m pm).
Proof.
  intros [Hl Hk Hp Hn Hr Hpol] Hm Hpm Hsub. split; simpl; try done.
  - by eapply reachable_run.
  - by rewrite (run_key _ _ Hm).
  - clear -Hp Hpm. induction Hpm as [|x y z Hs _ IH]; [done|]. apply IH. by eapply ports_ok_step.
  - intros id p a Hid. destruct (Hsub id) as [[[q b] Hq]|Hin]; [by eexists| |done].
    eapply run_known; [done|]. by eapply Hn.
Qed.

Lemma gate_ok_lease rt m : gate_ok rt -> lstep (rt_leases rt) m -> gate_ok (with_managers rt m (rt_proxies rt)).
Proof. intros Hok Hs. apply gate_ok_managers; [done|by apply rtc_once|done|by left]. Qed.

Lemma grows_lease rt m pm : lstep (rt_leases rt) m -> grows rt (with_managers rt m pm).
Proof. intros Hs. split; [done|done|by apply rtc_once]. Qed.

Lemma release_sub pm id x : is_Some (listeners (release_lease pm id).1 !! x) -> is_Some (listeners pm !! x).
Proof.
  unfold release_lease. destruct (listeners pm !! id) as [[p a]|]; simpl; [|done].
  intros [y [_ Hy]%lookup_delete_Some]. eauto.
Qed.

(** The sections. *)
Lemma register_section_ok `{AgentOs} rt now peer cid st rt' st' : gate_ok rt -> stage_ok rt st ->
  register_section rt now peer cid st = (rt', st') -> gate_ok rt' /\ (rt' = rt /\ st' = st \/ stage_ok rt' st') /\ grows rt rt'.
Proof.
  intros Hok Hst. destruct st as [id params|id params|id reg result| | | | | | | | | | | |]; cbn [register_section];
    try (intros [= <- <-]; by split_and!; [|left|]).
  - destruct (validate_replay _ _ _ _) as [cache [[]|e|]]; intros [= <- <-];
      (split_and!; [by apply gate_ok_nonces|by right|by split]).
  - destruct (verify_agent (peer_pid peer) (peer_uid peer)) as [f|e|] eqn:Hv; [|intros [= <- <-]; by split_and!; [|right|]..].
    destruct (fd_try_clone _); intros [= <- <-]; [|by split_and!; [|right|]]. apply verify_agent_pid in Hv.
    destruct Hok as [Hl Hk Hp Hn Hr Hpol]. split_and!.
    + split; try done. simpl. intros k reg Hreg. destruct (Hr _ _ Hreg) as [-> Hin]. split; [done|set_solver].
    + right. split; [done|]. simpl. rewrite Hv. set_solver.
    + split; simpl; [by eexists|done|done].
  - intros [= <- <-]. destruct Hst as [Hhex Hmon]. split_and!; [|by right|by split].
    destruct Hok as [Hl Hk Hp Hn Hr Hpol]. split; try done. simpl.
    intros k reg' [[<- <-]|[_ Hreg]]%lookup_insert_Some; [by split|by apply Hr].
Qed.

Lemma credential_section_ok `{Gui} `{MapOrder} rt now peer cid st rt' st' : gate_ok rt -> stage_ok rt st ->
  credential_section rt now peer cid st = (rt', st') -> gate_ok rt' /\ (rt' = rt /\ st' = st \/ stage_ok rt' st') /\ grows rt rt'.
Proof.
  intros Hok Hst. destruct st as [| | |req [params|]|id params|id params|id params agent|id params agent g pn c| | | | | | |];
    cbn [credential_section]; try (intros [= <- <-]; by split_and!; [|left|]).
  - intros [= <- <-]. split_and!; [done| |done]. right. by destruct (validate_session _ _ _ _).
  - intros [= <- <-]. split_and!; [done| |done]. right. by destruct (validate_session _ _ _ _).
  - destruct (validate_replay _ _ _ _) as [cache [[]|e|]]; intros [= <- <-];
      (split_and!; [by apply gate_ok_nonces|by right|by split]).
  - intros [= <- <-]. split_and!; [done| |done]. right. by destruct (find_registration _ _ _).
  - intros [= <- <-]. split_and!; [done| |done]. right.
    destruct (engine_evaluate _ _ _ _) as [[g pn c|g pn c|reason]|e|] eqn:He; try done;
      (eapply (evaluate_fits _ _ _ _ _ (go_policies _ Hok) Hst He); naive_solver).
  - intros [= <- <-]. split_and!; [done| |done]. right. by destruct (prompt_user _ _ _ _ _) as [[]| |].
Qed.

Lemma grant_section_ok `{Resolver} rt draw st rt' st' : gate_ok rt -> stage_ok rt st -> draw_fits rt draw st ->
  grant_section rt draw st = (rt', st') -> gate_ok rt' /\ (rt' = rt /\ st' = st \/ stage_ok rt' st') /\ grows rt rt'.
Proof.
  intros Hok Hst Hd. destruct st as [| | | | | | | |id params agent g pn c|id agent g l|id agent g l|id agent g l|id g l| |];
    cbn [grant_section]; try (intros [= <- <-]; by split_and!; [|left|]).
  - intros [= <- <-]. split_and!; [done| |done]. right. destruct Hst as [Hg Hc].
    destruct (prepare_lease _ _ _ _ _ _ _ _ _ _) as [l|e|] eqn:Hp; [|done..]. rewrite (go_key _ Hok) in Hp.
    destruct (prepare_lease_ok _ _ _ _ _ _ _ _ _ _ _ Hd Hg Hc Hp) as (_ & _ & _ & _ & _ & Hfp). split; [done|].
    by do 10 eexists.
  - intros [= <- <-]. destruct Hst as (Hfp & dns & ib & nonce & now & ai & cref & scope & c & pname & method & Hv & Hs & Hc & Hp).
    rewrite <- (go_key _ Hok) in Hp. pose proof (step_insert _ _ _ _ _ _ _ _ _ _ _ Hv Hs Hc Hp Hd) as Hst.
    split_and!; [by apply gate_ok_lease| |by apply grows_lease]. right. exists l. split; [|done]. simpl. apply lookup_insert_eq.
  - intros [= <- <-]. destruct Hst as (l' & Hl & Hfp). pose proof (step_index _ _ _ _ Hl Hfp) as Hs.
    split_and!; [by apply gate_ok_lease|right; by eexists|by apply grows_lease].
  - intros [= <- <-]. match goal with |- context [emit_audit ?m ?ev ?f] => pose proof (step_audit m ev f) as Hs end.
    split_and!; [by apply gate_ok_lease| |by apply grows_lease]. right. cbn. by autorewrite with cdp.
  - destruct (start_proxy _ (lease_id l)) as [pm started] eqn:Es. intros [= <- <-].
    split_and!; [|right; by destruct started|by split].
    apply gate_ok_managers; [done|done|apply rtc_once|].
    + pose proof (pm_start (rt_proxies rt) (lease_id l)) as Hps. by rewrite Es in Hps.
    + intros id' Hid. unfold start_proxy in Es. destruct (find_free_port _) as [port|]; simplify_eq; [|by left].
      unfold insert_listener in Hid. cbn [listeners] in Hid.
      destruct Hid as [x [[<- _]|[_ Hx]]%lookup_insert_Some]; [by right|left; by eexists].
Qed.

Lemma advance_ok `{Gui} `{AgentOs} `{Resolver} `{MapOrder} rt now draw peer cid st rt' st' :
  gate_ok rt -> stage_ok rt st -> draw_fits rt draw st -> advance rt now draw peer cid st = (rt', st') ->
  gate_ok rt' /\ stage_ok rt' st' /\ grows rt rt'.
Proof.
  intros Hok Hst Hd Ha.
  assert (gate_ok rt' /\ (rt' = rt /\ st' = st \/ stage_ok rt' st') /\ grows rt rt') as (Hg & Hor & Hgr).
  { destruct st; cbn [advance] in Ha.
    1-3: exact (register_section_ok _ _ _ _ _ _ _ Hok Hst Ha).
    1-5: exact (credential_section_ok _ _ _ _ _ _ _ Hok Hst Ha).
    1-5: exact (grant_section_ok _ _ _ _ _ Hok Hst Hd Ha).
    all: injection Ha as <- <-; by split_and!; [|left|]. }
  split_and!; [done| |done]. by destruct Hor as [[-> ->]|].
Qed.

Lemma receive_ok rt raw : stage_ok rt (receive raw).
Proof.
  unfold receive. destruct (parse_request raw) as [req|e]; [|done]. cbv zeta. destruct (negb _); [done|].
  destruct (bool_decide (rq_method req = "cdp.register")); [by destruct (parse_register _)|].
  destruct (bool_decide _); [|done]. destruct (parse_credential (rq_params req)) as [params|e] eqn:Hp; [|done].
  exact (credential_typed _ _ Hp).
Qed.

Lemma death_section_ok rt st rt' de : gate_ok rt -> advance_death rt st = Some (rt', de) -> gate_ok rt' /\ grows rt rt'.
Proof.
  intros Hok. destruct st as [fp|fp [|id rest] revoked|fp id rest revoked|fp id rest revoked|fp revoked|[|id rest]];
    cbn [advance_death]; try (intros [= <- _]; done).
  - by intros (ds & _ & [= <- _])%bind_Some.
  - intros ([m r] & Hr & [= <- _])%bind_Some. apply step_revoke in Hr.
    split; [by apply gate_ok_lease|by apply grows_lease].
  - intros [= <- _]. pose proof (step_drop (rt_leases rt) fp) as Hs. split; [by apply gate_ok_lease|by apply grows_lease].
  - intros [= <- _]. split; [|by split]. apply gate_ok_managers; [done|done|apply rtc_once, pm_release|].
    intros x Hx. left. by eapply release_sub.
Qed.

Lemma begin_death_ok rt n rt' de : gate_ok rt -> begin_death rt n = (rt', de) -> gate_ok rt' /\ grows rt rt'.
Proof.
  intros Hok. unfold begin_death. destruct (rt_registry rt !! _); intros [= <- _]; [|done].
  split; [|by split]. apply gate_ok_registry; [done|]. by intros k r [_ Hr]%lookup_delete_Some.
Qed.

(** Every step is at most one section on the router. *)
Lemma gstep_router s s' : gstep s s' -> gate_ok (sy_router s) ->
  (forall i p, sy_requests s !! i = Some p -> stage_ok (sy_router s) (pd_stage p)) ->
  gate_ok (sy_router s') /\ grows (sy_router s) (sy_router s').
Proof.
  intros Hs Hok Hreq.
  destruct Hs as [s i raw peer cid _|gui os dns ord _ s i p now draw rt st Hi Hd Ha|s i p _ _|s n rt de _ Hb|s st rt de _ Ha|
    s cid|s m Hl|s|s ps Hps]; cbn; try done.
  - by destruct (advance_ok _ _ _ _ _ _ _ _ Hok (Hreq _ _ Hi) Hd Ha) as (? & _ & ?).
  - by eapply begin_death_ok.
  - by eapply death_section_ok.
  - split; [|by split]. apply gate_ok_registry; [done|]. by intros k reg [Hr _]%map_lookup_filter_Some.
  - split; [by apply gate_ok_lease|by apply grows_lease].
  - split; [|by split]. apply gate_ok_managers; [done|done|apply rtc_once, pm_stop|]. intros x [y Hy]. simpl in Hy.
    by rewrite lookup_empty in Hy.
  - split; [|by split]. destruct Hok. by split.
Qed.

Lemma system_ok_step s s' : gstep s s' -> system_ok s -> system_ok s'.
Proof.
  intros Hs [Hok Hreq]. destruct (gstep_router _ _ Hs Hok Hreq) as [Hok' Hgr]. split; [done|].
  assert (forall i p, sy_requests s !! i = Some p -> stage_ok (sy_router s') (pd_stage p)) as Hold
    by (intros i p Hi; eapply stage_ok_grows; [exact Hgr|by eapply Hreq]).
  destruct Hs as [s i raw peer cid _|gui os dns ord _ s i p now draw rt st Hi Hd Ha|s i p _ _|s n rt de _ Hb|s st rt de _ Ha|
    s cid|s m Hl|s|s ps Hps]; cbn in *; try done.
  - intros j q [[<- <-]|[_ Hj]]%lookup_insert_Some; [apply receive_ok|by eapply Hold].
  - intros j q [[<- <-]|[_ Hj]]%lookup_insert_Some; [|by eapply Hold].
    by destruct (advance_ok _ _ _ _ _ _ _ _ Hok (Hreq _ _ Hi) Hd Ha) as (_ & ? & _).
  - intros j q [_ Hj]%lookup_delete_Some. by eapply Hold.
Qed.

Lemma system_ok_run s s' : rtc gstep s s' -> system_ok s -> system_ok s'.
Proof. induction 1 as [|x y z Hs _ IH]; [done|]. intros Hx. by apply IH, (system_ok_step x). Qed.

Lemma gate_ok_new key n connected c eng : Forall entry_fits (loaded (evaluator eng)) ->
  gate_ok (router_new key n (manager_new key connected) (proxy_manager_new c) eng).
Proof.
  intros He. split; simpl; try done.
  - by exists key, connected.
Qed.

Lemma system_ok_new rt : gate_ok rt -> system_ok (system_new rt).
Proof. intros Hok. split; [done|]. intros i p. cbn. by rewrite lookup_empty. Qed.

(** *** Requests that nothing interrupts *)

(** The id drawn is free until the lease is inserted. *)
Definition still_fresh (rt : Router) (draw : Draw) (st : Stage) : Prop :=
  match st with
  | StInsert _ _ _ lease => leases (rt_leases rt) !! lease_id lease = None
  | StIndex _ _ _ _ | StAnnounce _ _ _ _ | StListen _ _ _ => True
  | _ => leases (rt_leases rt) !! lease_id_of (d_id draw) = None
  end.

Lemma advance_fresh `{Gui} `{AgentOs} `{Resolver} `{MapOrder} rt now draw peer cid st rt' st' :
  still_fresh rt draw st -> advance rt now draw peer cid st = (rt', st') -> finished st' = true \/ still_fresh rt' draw st'.
Proof.
  intros Hf Ha. destruct st; cbn [advance register_section credential_section grant_section] in Ha.
  all: repeat match type of Ha with
    | context [validate_replay ?a ?b ?c ?d] => destruct (validate_replay a b c d) as [cache [[]|e|]]
    | context [verify_agent ?a ?b] => destruct (verify_agent a b) as [f|e|]
    | context [fd_try_clone ?a] => destruct (fd_try_clone a)
    | context [start_proxy ?a ?b] => destruct (start_proxy a b) as [pm [port|e|]]
    end; simplify_eq/=; try (by left); try (by right).
  all: repeat match goal with |- context [match ?x with _ => _ end] =>
    lazymatch x with context [match _ with _ => _ end] => fail | _ => destruct x eqn:? end end; simplify_eq/=;
    try (by left); try (by right).
  right. by erewrite prepare_lease_id.
Qed.

Lemma run_stages_ok `{Gui} `{AgentOs} `{Resolver} `{MapOrder} n now draw peer cid : forall rt st rt' st',
  gate_ok rt -> valid_time (d_now draw) -> stage_ok rt st -> finished st = true \/ still_fresh rt draw st ->
  run_stages n now draw peer cid rt st = (rt', st') -> gate_ok rt'.
Proof.
  induction n as [|n IH]; intros rt st rt' st' Hok Hv Hst Hf; [by intros [= <- _]|]. cbn [run_stages].
  destruct (advance rt now draw peer cid st) as [rt1 st1] eqn:Ha.
  destruct Hf as [Hf|Hf]; [destruct st; try done; injection Ha as <- <-; eapply IH; try done; by left|].
  assert (draw_fits rt draw st) as Hd by (by destruct st).
  destruct (advance_ok _ _ _ _ _ _ _ _ Hok Hst Hd Ha) as (Hok1 & Hst1 & _).
  apply IH; [done..|by eapply advance_fresh].
Qed.

(** [handle_request] by itself. *)
Lemma request_ok `{Gui} `{AgentOs} `{Resolver} `{MapOrder} rt now draw raw peer cid :
  gate_ok rt -> valid_time (d_now draw) -> leases (rt_leases rt) !! lease_id_of (d_id draw) = None ->
  gate_ok (handle_request rt now draw raw peer cid).1.
Proof.
  intros Hok Hv Hf. pose proof (sections_are_handle_request rt now draw raw peer cid) as Hrun.
  destruct (handle_request rt now draw raw peer cid) as [rt' r].
  eapply run_stages_ok; [done..|apply receive_ok| |exact Hrun].
  unfold receive. repeat case_match; cbn; by (left + right).
Qed.

(** The sections of one request, taken without a break, are steps. *)
Lemma stages_are_gsteps `{Gui} `{AgentOs} `{Resolver} `{MapOrder} `{!MapOrderLaws} i n now draw : forall s p rt st,
  sy_requests s !! i = Some p -> valid_time (d_now draw) ->
  finished (pd_stage p) = true \/ still_fresh (sy_router s) draw (pd_stage p) ->
  run_stages n now draw (pd_peer p) (pd_connection_id p) (sy_router s) (pd_stage p) = (rt, st) ->
  rtc gstep s (mkSystem rt (<[i := at_stage p st]> (sy_requests s)) (sy_death s)).
Proof.
  induction n as [|n IH]; intros s p rt st Hp Hv Hf; cbn [run_stages].
  { intros [= <- <-]. assert (at_stage p (pd_stage p) = p) as -> by (by destruct p). rewrite insert_id by done. by destruct s. }
  destruct (advance _ _ _ _ _ _) as [rt1 st1] eqn:Ha. intros Hrun.
  assert (draw_fits (sy_router s) draw (pd_stage p)) as Hd by (destruct Hf as [Hf|Hf]; by destruct (pd_stage p)).
  eapply rtc_l; [exact (g_section s i p now draw rt1 st1 Hp Hd Ha)|].
  assert (finished st1 = true \/ still_fresh rt1 draw st1) as Hf1.
  { destruct Hf as [Hf|Hf]; [left|by eapply advance_fresh]. destruct (pd_stage p); try done; by injection Ha as _ <-. }
  pose proof (IH (mkSystem rt1 (<[i := at_stage p st1]> (sy_requests s)) (sy_death s)) (at_stage p st1) rt st) as Hnext.
  cbn in Hnext. rewrite insert_insert_eq in Hnext. apply Hnext; [apply lookup_insert_eq|done|done|exact Hrun].
Qed.

(** ** Properties *)

(** C10. The gate's state is well-typed whatever happens to it: from start-up on,
    however the sections of its requests, the handling of deaths,
    disconnections, lease and proxy operations and reloads interleave, the
    lease manager stays in a state of its own specification under the router's
    key, every listener holds a port of the range that no other has and serves
    a lease that exists, every registered agent is keyed by its fingerprint
    and has a monitor, and every request in progress carries values that are
    good for its next section. *)
Theorem gate_state_is_well_formed (key : list byte) (n : nat) (connected : bool) (c : ProxyConfig)
    (eng : PolicyEngine) (s : System) :
  Forall entry_fits (loaded (evaluator eng)) ->
  rtc gstep (system_new (router_new key n (manager_new key connected) (proxy_manager_new c) eng)) s ->
  system_ok s.
Proof. intros He Hrun. by eapply system_ok_run, system_ok_new, gate_ok_new. Qed.

(** *** Granting *)

(** With fewer listeners than ports, some port of the range is free. *)
Lemma free_port_exists pm :
  Z.of_nat (active_count pm) < port_range_end (config pm) - port_range_start (config pm) + 1 ->
  is_Some (find_free_port pm).
Proof.
  intros Hn. pose proof (find_free_port_spec pm) as Hf. destruct (find_free_port pm) as [p|]; [by eexists|]. exfalso.
  set (n := port_range_end (config pm) - port_range_start (config pm) + 1) in *.
  assert (seqZ (port_range_start (config pm)) n ⊆+ map (fun kv => kv.2.1) (map_to_list (listeners pm))) as Hsub.
  { apply NoDup_submseteq; [apply NoDup_seqZ|]. intros q Hq%elem_of_seqZ.
    assert (port_in_use (listeners pm) q = true) as (id & a & Hid)%port_in_use_spec by (apply Hf; lia).
    apply list_elem_of_fmap. exists (id, (q, a)). split; [done|]. by apply elem_of_map_to_list. }
  apply submseteq_length in Hsub. rewrite length_seqZ, length_map in Hsub. unfold active_count in Hn.
  rewrite length_map_to_list in Hsub. lia.
Qed.

Lemma create_lease_defined `{Resolver} m ib nonce now ai cref g c pname method pins :
  let ttl := as_i64 (unwrap_or (opt_or (s_ttl_seconds g) (pc_max_ttl_seconds c)) 3600) in
  pin_dns (s_hosts g) = Ok pins -> Z.abs ttl <= MAX_DELTA_SECS -> valid_time (now + ttl * NANOS) ->
  exists m' l, create_lease m ib nonce now ai cref g c pname method = (m', Ok l) /\
    expires_at l = now + ttl * NANOS /\
    lease_token l = generate_lease_token (gate_key m) (lease_id l) (ai_fingerprint_hash ai) nonce /\
    channel_binding_nonce l = nonce.
Proof.
  intros ttl Hp Ht Hv. unfold create_lease, prepare_lease. rewrite Hp. cbn [rbind].
  rewrite (proj2 (duration_ok ttl (ttl * NANOS)) (conj eq_refl Ht)). cbn [rbind].
  rewrite (proj2 (dt_add_ok now (ttl * NANOS) (now + ttl * NANOS)) (conj eq_refl Hv)). cbn [rbind].
  by do 2 eexists.
Qed.

(** C17. What an approved agent waits for happens: a request of the registered
    process on its own connection, with its session token and a fresh nonce
    and timestamp, that policy or user approve, whose hosts resolve and while
    a port of the range is free, is answered with a lease, active until the
    granted time is over, with its token, binding nonce and a listening
    port. *)
Theorem approved_request_is_granted `{Gui} `{AgentOs} `{Resolver} `{MapOrder} (rt : Router) (now t : Z) (draw : Draw) (raw : list byte) (peer : PeerInfo)
    (cid : list byte) (req : JsonRpcRequest) (params : RequestCredentialParams) (reg : AgentRegistration)
    (g : Scope) (pname : string) (c : PolicyConstraints) (pins : gmap string (list IpAddr)) :
  let ttl := as_i64 (unwrap_or (opt_or (s_ttl_seconds g) (pc_max_ttl_seconds c)) 3600) in
  parse_request raw = inl req -> rq_jsonrpc req = "2.0" -> rq_method req = "cdp.requestCredential" ->
  parse_credential (rq_params req) = inl params ->
  find_registration rt peer cid = Some reg -> holds_session rt (rq_params req) cid reg ->
  uuid_version (rc_nonce params) = Some 4 -> parse_rfc3339 (rc_timestamp params) = Some t ->
  Z.abs (num_seconds (now - t)) <= 30 -> lru_contains (rt_nonces rt) (rc_nonce params) = false ->
  evaluate_with_approval (rt_engine rt) (agent_info_of reg) (rc_credential_ref params)
    (requested_scope_of (rc_scope params)) (rc_reason params) = Ok (AutoApprove g pname c) ->
  pin_dns (s_hosts g) = Ok pins -> 0 <= ttl <= MAX_DELTA_SECS -> valid_time (d_now draw + ttl * NANOS) ->
  Z.of_nat (active_count (rt_proxies rt)) <
    port_range_end (config (rt_proxies rt)) - port_range_start (config (rt_proxies rt)) + 1 ->
  exists rt' lease port,
    handle_request rt now draw raw peer cid =
      (rt', Ok (success (rq_id req) (credential_to_value
         (mkRequestCredentialResult "granted" (lease_id lease) port (lease_token lease)
            (bytes_to_hex (d_nonce draw)) (ttl_seconds lease)
            (mkRequestedScope (s_hosts g) (s_methods g) (s_paths g) (s_ttl_seconds g) (s_max_requests g)))))) /\
    leases (rt_leases rt') !! lease_id lease = Some lease /\
    (forall later, d_now draw <= later <= d_now draw + ttl * NANOS -> is_active later lease = true) /\
    lease_token lease = generate_lease_token (gate_key (rt_leases rt)) (lease_id lease) (fp_hash (ar_fingerprint reg))
      (d_nonce draw) /\
    port_for_lease (rt_proxies rt') (lease_id lease) = Some port /\
    port_range_start (config (rt_proxies rt)) <= port <= port_range_end (config (rt_proxies rt)).
Proof.
  intros ttl Hreq Hv2 Hm Hpar Hf Hs Hu Ht Hage Hnew He Hp Httl Hval Hport.
  unfold handle_request. rewrite Hreq, Hv2, Hm, Hpar. cbv zeta. rewrite bool_decide_eq_true_2 by done. cbn [negb].
  rewrite bool_decide_eq_false_2, bool_decide_eq_true_2 by done.
  rewrite (proj2 (validate_session_ok _ _ _ _)) by eauto. unfold handle_request_credential.
  rewrite (proj2 (validate_replay_ok now (rt_nonces rt) (rc_nonce params) (rc_timestamp params)
    (lru_put (rt_nonces rt) (rc_nonce params)))) by eauto 10.
  change (find_registration (with_nonces rt _) peer cid) with (find_registration rt peer cid). rewrite Hf.
  cbn [rt_engine rt_leases with_nonces]. rewrite He.
  destruct (create_lease_defined (rt_leases rt) (d_id draw) (d_nonce draw) (d_now draw) (agent_info_of reg)
    (rc_credential_ref params) g c pname "auto" pins Hp) as (lm & lease & Hl & Hexp & Htok & Hcb); [lia|done|].
  rewrite Hl. destruct (create_lease_fields _ _ _ _ _ _ _ _ _ _ _ _ Hl) as (_ & _ & _ & _ & Hst & Hin).
  destruct (free_port_exists _ Hport) as [port Hfree]. pose proof (find_free_port_spec (rt_proxies rt)) as Hspec.
  rewrite Hfree in Hspec. destruct Hspec as (Hrange & _).
  cbn [rt_proxies with_managers with_nonces]. unfold start_proxy. rewrite Hfree. cbn [respond].
  eexists _, lease, port. rewrite Hcb. split_and!; try done; try lia.
  - intros later Hlater. apply is_active_intro; [done|]. rewrite Hexp. fold ttl. lia.
  - unfold port_for_lease. simpl. by rewrite lookup_insert_eq.
Qed.

(** *** Refusing *)

(** C18. A refused request leaves no trace but its nonce: unless it failed for
    lack of a proxy port, an error answer means that registrations, monitors,
    leases, listeners and policies are what they were, and the cache has at
    most remembered the nonce. *)
Theorem refused_request_changes_nothing `{Gui} `{AgentOs} `{Resolver} `{MapOrder} (rt rt' : Router) (now : Z) (draw : Draw) (raw : list byte)
    (peer : PeerInfo) (cid : list byte) (resp : JsonRpcResponse) (code : Z) (message : string) :
  handle_request rt now draw raw peer cid = (rt', Ok resp) -> rp_error resp = Some (code, message) ->
  code <> PROXY_ERROR ->
  rt' = with_nonces rt (rt_nonces rt') /\
  (rt_nonces rt' = rt_nonces rt \/ exists nonce, rt_nonces rt' = lru_put (rt_nonces rt) nonce).
Proof.
  assert (forall id r, rp_error (success id r) = None) as Hsucc by done.
  assert (forall c n ts, (validate_replay now c n ts).1 = c \/ exists nonce, (validate_replay now c n ts).1 = lru_put c nonce) as Hc.
  { intros c n ts. destruct (validate_replay_cases now c n ts) as [[e ->]|[-> _]]; [by left|right; by exists n]. }
  assert (rt = with_nonces rt (rt_nonces rt)) as Heta by (by destruct rt).
  intros Hreq Herr Hcode. unfold handle_request in Hreq.
  destruct (parse_request raw) as [req|e]; [|injection Hreq as <- <-; by split; [|left]].
  destruct (negb _); [injection Hreq as <- <-; by split; [|left]|].
  destruct (bool_decide (rq_method req = "cdp.register")).
  { destruct (parse_register _) as [params|e]; [|injection Hreq as <- <-; by split; [|left]].
    unfold handle_register in Hreq. specialize (Hc (rt_nonces rt) (rg_nonce params) (rg_timestamp params)).
    destruct (validate_replay _ _ _ _) as [cache [[]|e|]]; [|injection Hreq as <- <-; by split|done].
    destruct (verify_agent _ _) as [f|e|]; [|injection Hreq as <- <-; by split|done].
    destruct (fd_try_clone _); injection Hreq as <- <-; [done|by split]. }
  destruct (bool_decide _).
  - destruct (parse_credential _) as [params|e]; [|injection Hreq as <- <-; by split; [|left]].
    destruct (validate_session _ _ _ _) as [[]|e|]; [|injection Hreq as <- <-; by split; [|left]|done].
    unfold handle_request_credential in Hreq. specialize (Hc (rt_nonces rt) (rc_nonce params) (rc_timestamp params)).
    destruct (validate_replay _ _ _ _) as [cache [[]|e|]]; [|injection Hreq as <- <-; by split|done].
    destruct (find_registration _ _ _) as [reg|]; [|injection Hreq as <- <-; by split].
    destruct (evaluate_with_approval _ _ _ _ _) as [[g pn c|g pn c|reason]|e|];
      [|injection Hreq as <- <-; by split..|done].
    unfold create_lease in Hreq. destruct (prepare_lease _ _ _ _ _ _ _ _ _ _) as [l|e|];
      [|injection Hreq as <- <-; by split|done].
    destruct (start_proxy _ _) as [pm started] eqn:Es. unfold start_proxy in Es.
    destruct (find_free_port _); injection Es as <- <-; injection Hreq as <- <-; [done|].
    by injection Herr as <-.
  - destruct (validate_session _ _ _ _) as [[]|e|]; [|..|done]; injection Hreq as <- <-; by split; [|left].
Qed.
End System.

(** ** A gate to evaluate *)

#[local] Existing Instances plain_fmt timed_gui plain_addr stat_os id_sha plain_parse demo_mac release_build
  chrono_range demo_dns.

#[local] Instance system_chrono_laws : ChronoLaws (H:=chrono_range).
Proof. split; reflexivity. Qed.

#[local] Instance system_codec : RpcCodec :=
  {| parse_request := fun raw =>
       if bool_decide (raw = []) then inl (mkJsonRpcRequest "2.0" "cdp.requestCredential"
         (JObject [("session_token", JString demo_token)]) JNull)
       else inr "EOF";
     parse_register := fun _ => inr "no"; parse_credential := fun _ => inl demo_params;
     register_to_value := fun _ => JNull; credential_to_value := fun r => JString (cr_lease_id r) |}.
#[local] Instance system_typed : RpcTyped.
Proof. split. intros v p [= <-]. by split. Qed.

#[local] Instance system_text : TextParse :=
  {| uuid_version := fun _ => Some 4; parse_rfc3339 := fun _ => Some 0 |}.
#[local] Instance set_lru : LruCache :=
  {| Lru := list string; lru_new := fun _ => []; lru_contains := fun c k => contains c k; lru_put := fun c k => k :: c |}.
#[local] Instance system_order : MapOrder := {| values_order := fun m => map snd (map_to_list m) |}.

Definition system_start : Router :=
  router_new [Byte.x01] 16 (manager_new [Byte.x01] true) (proxy_manager_new two_ports) gate_engine.
(** With one agent registered. *)
Definition system_gate : Router :=
  with_registry (with_monitor system_start (mkDeathNotification 41 [Byte.xaa])) {["aa" := demo_reg]}.
Definition system_request : Router * result JsonRpcResponse unit :=
  handle_request system_gate 0 demo_draw [] demo_peer_info [Byte.x09].

Lemma system_gate_ok : gate_ok system_gate.
Proof.
  destruct (gate_ok_new [Byte.x01] 16 true two_ports gate_engine) as [Hl Hk Hp Hn Hr Hpol].
  { constructor; [|constructor]. split; intros x [= <-]; by vm_compute. }
  split; try done. intros k reg Hreg. cbn [rt_registry system_gate with_registry] in Hreg.
  apply lookup_singleton_Some in Hreg as [<- <-]. split; [done|]. apply list_elem_of_here.
Qed.

#[local] Instance system_order_laws : MapOrderLaws.
Proof. split. intros m reg ([k r] & -> & Hin)%list_elem_of_fmap. exists k. by apply elem_of_map_to_list. Qed.

(** The first request takes one section. *)
Definition system_turn (s : System) : System :=
  match sy_requests s !! 0%nat with
  | Some p =>
      let '(rt, st) := advance (sy_router s) 0 demo_draw (pd_peer p) (pd_connection_id p) (pd_stage p) in
      mkSystem rt (<[0%nat := at_stage p st]> (sy_requests s)) (sy_death s)
  | None => s
  end.

Lemma system_turn_step s :
  match sy_requests s !! 0%nat with Some p => draw_fits (sy_router s) demo_draw (pd_stage p) | None => False end ->
  gstep s (system_turn s).
Proof.
  unfold system_turn. destruct (sy_requests s !! 0%nat) as [p|] eqn:Hp; [|done]. intros Hd.
  destruct (advance _ _ _ _ _ _) as [rt st] eqn:Ha. by apply (g_section s 0 p 0 demo_draw).
Qed.

(** A request as it is received. *)
Definition system_received (rt : Router) : System :=
  mkSystem rt (<[0%nat := mkPending [] demo_peer_info [Byte.x09] (receive [])]> ∅) None.

Lemma system_receives rt : gstep (system_new rt) (system_received rt).
Proof. by apply (g_receive (system_new rt) 0). Qed.

Lemma gate_state_is_well_formed_witness : system_ok (system_turn (system_received system_start)).
Proof.
  apply (gate_state_is_well_formed [Byte.x01] 16 true two_ports gate_engine).
  - constructor; [|constructor]. split; intros x [= <-]; by vm_compute.
  - eapply rtc_l; [apply system_receives|]. apply rtc_once, system_turn_step. exact I.
Defined.

Lemma approved_request_is_granted_witness :
  exists rt' lease port, system_request = (rt', Ok (success JNull (JString (lease_id lease)))) /\
    leases (rt_leases rt') !! lease_id lease = Some lease /\ is_active (3600 * NANOS) lease = true /\
    port_for_lease (rt_proxies rt') (lease_id lease) = Some port.
Proof.
  destruct (approved_request_is_granted system_gate 0 0 demo_draw [] demo_peer_info [Byte.x09]
    (mkJsonRpcRequest "2.0" "cdp.requestCredential" (JObject [("session_token", JString demo_token)]) JNull)
    demo_params demo_reg (mkScope ["api.github.com"] ["GET"] ["/repos/a/b"] [] (Some 3600) None None None) "github"
    demo_limits (match pin_dns ["api.github.com"] with Ok p => p | _ => ∅ end))
    as (rt' & lease & port & Hr & Hl & Ha & _ & Hp & _).
  1-5: vm_compute; reflexivity.
  - exists demo_token. eexists. split; [reflexivity|]. split; [reflexivity|]. vm_compute. reflexivity.
  - reflexivity.
  - reflexivity.
  - by vm_compute.
  - reflexivity.
  - vm_compute. reflexivity.
  - vm_compute. reflexivity.
  - by vm_compute.
  - by vm_compute.
  - by vm_compute.
  - exists rt', lease, port. split; [exact Hr|]. split; [exact Hl|]. split; [|exact Hp]. apply Ha. vm_compute. split; discriminate.
Defined.

Lemma refused_request_changes_nothing_witness :
  (handle_request system_gate 0 demo_draw [Byte.x00] demo_peer_info [Byte.x09]).1 = system_gate.
Proof.
  destruct (refused_request_changes_nothing system_gate
    (handle_request system_gate 0 demo_draw [Byte.x00] demo_peer_info [Byte.x09]).1 0 demo_draw [Byte.x00] demo_peer_info
    [Byte.x09] (error JNull PARSE_ERROR "parse error: EOF") PARSE_ERROR "parse error: EOF") as [H1 _].
  - reflexivity.
  - reflexivity.
  - discriminate.
  - exact H1.
Defined.
