(* ===== verification/GateVetting.v ===== *)
(** * What a granted credential has gone through

    The checks of [handle_request_credential] are made at different moments,
    and anything may happen to the gate in between.  This file follows a
    request through [GateSystem.gstep].  A trace of a run records for each
    section the router it found and the world it ran in (clock, draws, map
    order, resolver, the user's answers); when a request ends with a
    credential, the sections it went through are known, and each check has
    succeeded in the section that made it. *)

From S2P Require Import Prelude RustStr Crypto PolicyTypes PolicyParser PolicyEvaluator PolicyEngine AuditLog.
From S2P Require Import LeaseTypes LeaseManager LeaseLemmas LeaseSteps LeaseSafety LeaseProps.
From S2P Require Import ProxyScope ProxyAuth ProxyManager GateAgent GateRouter GateStages GateSystem.

Section Vetting.
Context `{Fmt} `{FmtAddr} `{Sha256} `{FmtParse} `{HmacSha256}.
Context `{Build} `{Chrono} `{!ChronoLaws}.
Context `{!RpcCodec} `{!RpcTyped} `{TextParse} `{LruCache}.

(** ** Traces *)

(** What a section found when it ran: the router, and the world of that moment. *)
Class Moment : Type := mkMoment {
  mo_gui :: Gui; mo_os :: AgentOs; mo_dns :: Resolver; mo_order :: MapOrder; mo_laws :: MapOrderLaws;
  mo_now : Z; mo_draw : Draw; mo_router : Router
}.

Inductive Event : Type :=
| EvReceive (i : nat)
| EvSection (i : nat) (m : Moment)
| EvDone (i : nat)
| EvOther.

(** The section of a request at its stage, in a moment. *)
Definition advance_at (m : Moment) (p : Pending) : Router * Stage :=
  advance mo_router mo_now mo_draw (pd_peer p) (pd_connection_id p) (pd_stage p).

(** The steps of a run with their events. *)
Inductive gtrace (s0 : System) : list Event -> System -> Prop :=
| tr_start : gtrace s0 [] s0
| tr_receive ls s i raw peer cid : gtrace s0 ls s -> sy_requests s !! i = None ->
    gtrace s0 (ls ++ [EvReceive i])
      (mkSystem (sy_router s) (<[i := mkPending raw peer cid (receive raw)]> (sy_requests s)) (sy_death s))
| tr_section ls s i p m rt st : gtrace s0 ls s -> sy_requests s !! i = Some p -> finished (pd_stage p) = false ->
    mo_router (Moment:=m) = sy_router s -> draw_fits (sy_router s) (mo_draw (Moment:=m)) (pd_stage p) ->
    advance_at m p = (rt, st) ->
    gtrace s0 (ls ++ [EvSection i m]) (mkSystem rt (<[i := at_stage p st]> (sy_requests s)) (sy_death s))
| tr_done ls s i p : gtrace s0 ls s -> sy_requests s !! i = Some p -> finished (pd_stage p) = true ->
    gtrace s0 (ls ++ [EvDone i]) (mkSystem (sy_router s) (delete i (sy_requests s)) (sy_death s))
| tr_other ls s s' : gtrace s0 ls s -> gstep s s' -> sy_requests s' = sy_requests s -> gtrace s0 (ls ++ [EvOther]) s'.

Lemma trace_step s0 ls s s' : gtrace s0 ls s -> gstep s s' -> exists e, gtrace s0 (ls ++ [e]) s'.
Proof.
  intros Ht Hs. pose proof Hs as Hcopy.
  destruct Hs as [s i raw peer cid Hi|gui os dns ord laws s i p now draw rt st Hi Hd Ha|s i p Hi Hf|s n rt de _ Hb|s st rt de _ Ha|
    s cid|s m Hl|s|s ps Hps]; try (exists EvOther; by eapply tr_other).
  - exists (EvReceive i). by apply tr_receive.
  - destruct (finished (pd_stage p)) eqn:Hf.
    + exists EvOther. eapply tr_other; [done..|]. cbn. assert (st = pd_stage p) as -> by (destruct (pd_stage p); try done; by injection Ha as _ <-).
      assert (at_stage p (pd_stage p) = p) as -> by (by destruct p). by apply insert_id.
    + exists (EvSection i (mkMoment gui os dns ord laws now draw (sy_router s))). by eapply tr_section.
  - exists (EvDone i). by eapply tr_done.
Qed.

(** The traces are those of the runs. *)
Lemma run_iff_trace s0 s : rtc gstep s0 s <-> exists ls, gtrace s0 ls s.
Proof.
  split.
  - revert s. apply (rtc_ind_r (fun s => exists ls, gtrace s0 ls s)); [exists []; constructor|].
    intros s s' _ Hs [ls Ht]. destruct (trace_step _ _ _ _ Ht Hs) as [e He]. by exists (ls ++ [e]).
  - intros [ls Ht]. induction Ht as [|ls s i raw peer cid _ IH Hi|ls s i p m rt st _ IH Hi Hf Hrt Hd Ha|ls s i p _ IH Hi Hf|ls s s' _ IH Hs _];
      [done|eapply rtc_r; [exact IH|]..]; [by apply g_receive| |by eapply g_done|done].
    unfold advance_at in Ha. rewrite Hrt in Ha. by eapply g_section.
Qed.

(** The sections a request has gone through since it came in. *)
Definition note (i : nat) (h : list Moment) (e : Event) : list Moment :=
  match e with
  | EvReceive j => if bool_decide (j = i) then [] else h
  | EvSection j m => if bool_decide (j = i) then h ++ [m] else h
  | EvDone _ | EvOther => h
  end.

Definition history (i : nat) (ls : list Event) : list Moment := fold_left (note i) ls [].

Lemma history_snoc i ls e : history i (ls ++ [e]) = note i (history i ls) e.
Proof. unfold history. by rewrite fold_left_app. Qed.

(** ** The checks *)

(** A registration of the peer on this connection. *)
Definition enrolled (peer : PeerInfo) (cid : list byte) (rt : Router) (reg : AgentRegistration) : Prop :=
  exists k, rt_registry rt !! k = Some reg /\ fp_pid (ar_fingerprint reg) = peer_pid peer /\
    ar_connection_id reg = cid.

Definition session_valid (params : Json) (peer : PeerInfo) (cid : list byte) (m : Moment) : Prop :=
  exists reg, enrolled peer cid mo_router reg /\ holds_session mo_router params cid reg.

Definition nonce_fresh (params : RequestCredentialParams) (m : Moment) : Prop :=
  exists cache, validate_replay mo_now (rt_nonces mo_router) (rc_nonce params) (rc_timestamp params) = (cache, Ok tt).

Definition identified (agent : AgentInfo) (peer : PeerInfo) (cid : list byte) (m : Moment) : Prop :=
  exists reg, enrolled peer cid mo_router reg /\ agent = agent_info_of reg.

Definition policy_decides (agent : AgentInfo) (params : RequestCredentialParams) (d : PolicyDecision) (m : Moment) : Prop :=
  engine_evaluate (rt_engine mo_router) agent (rc_credential_ref params) (requested_scope_of (rc_scope params)) = Ok d.

(** The answer the prompt got in this moment was not Deny. *)
Definition user_allows (agent : AgentInfo) (params : RequestCredentialParams) (granted : Scope) (m : Moment) : Prop :=
  exists r, prompt_user agent (rc_credential_ref params) granted (rc_reason params)
    (approval_config (rt_engine mo_router)) = Ok r /\ r <> Deny.

(** The lease is made with the gate's key, on the answers of the resolver and
    the draws of this moment. *)
Definition lease_made (agent : AgentInfo) (params : RequestCredentialParams) (granted : Scope) (pname : string)
    (constraints : PolicyConstraints) (lease : Lease) (m : Moment) : Prop :=
  prepare_lease (gate_key (rt_leases mo_router)) (d_id mo_draw) (d_nonce mo_draw) (d_now mo_draw) agent
    (rc_credential_ref params) granted constraints pname "auto" = Ok lease.

Definition listener_started (lease : Lease) (port : Z) (m : Moment) : Prop :=
  exists pm, start_proxy (rt_proxies mo_router) (lease_id lease) = (pm, Ok port).

(** The lease is in the store, as it was made or as it has become since. *)
Definition stored (lease : Lease) (s : System) : Prop :=
  exists l, leases (rt_leases (sy_router s)) !! lease_id lease = Some l /\ later lease l.

(** ** The order of the checks *)

(** A history that ends with a section in which [Q] held, after one for [P]. *)
Definition followed_by (P : list Moment -> Prop) (Q : Moment -> Prop) (h : list Moment) : Prop :=
  exists h' m, h = h' ++ [m] /\ P h' /\ Q m.

Lemma followed_here (P : list Moment -> Prop) (Q : Moment -> Prop) h m : P h -> Q m -> followed_by P Q (h ++ [m]).
Proof. intros HP HQ. by exists h, m. Qed.

Definition with_session (req : JsonRpcRequest) (peer : PeerInfo) (cid : list byte) : list Moment -> Prop :=
  followed_by (eq []) (session_valid (rq_params req) peer cid).

Definition with_nonce (req : JsonRpcRequest) (params : RequestCredentialParams) (peer : PeerInfo) (cid : list byte)
    : list Moment -> Prop := followed_by (with_session req peer cid) (nonce_fresh params).

Definition with_agent (req : JsonRpcRequest) (params : RequestCredentialParams) (peer : PeerInfo) (cid : list byte)
    (agent : AgentInfo) : list Moment -> Prop := followed_by (with_nonce req params peer cid) (identified agent peer cid).

(** The policy wants to ask; it grants by itself, or the user allows. *)
Definition with_question (req : JsonRpcRequest) (params : RequestCredentialParams) (peer : PeerInfo) (cid : list byte)
    (agent : AgentInfo) (granted : Scope) (pname : string) (constraints : PolicyConstraints) : list Moment -> Prop :=
  followed_by (with_agent req params peer cid agent) (policy_decides agent params (RequiresApproval granted pname constraints)).

Definition with_approval (req : JsonRpcRequest) (params : RequestCredentialParams) (peer : PeerInfo) (cid : list byte)
    (agent : AgentInfo) (granted : Scope) (pname : string) (constraints : PolicyConstraints) (h : list Moment) : Prop :=
  followed_by (with_agent req params peer cid agent) (policy_decides agent params (AutoApprove granted pname constraints)) h \/
  followed_by (with_question req params peer cid agent granted pname constraints) (user_allows agent params granted) h.

Definition with_lease (req : JsonRpcRequest) (params : RequestCredentialParams) (peer : PeerInfo) (cid : list byte)
    (agent : AgentInfo) (granted : Scope) (pname : string) (constraints : PolicyConstraints) (lease : Lease)
    : list Moment -> Prop :=
  followed_by (with_approval req params peer cid agent granted pname constraints)
    (lease_made agent params granted pname constraints lease).

(** [n] more sections. *)
Definition and_more (n : nat) (P : list Moment -> Prop) (h : list Moment) : Prop :=
  exists h' more, h = h' ++ more /\ length more = n /\ P h'.

Lemma and_one_more n P h m : and_more n P h -> and_more (S n) P (h ++ [m]).
Proof.
  intros (h' & more & -> & Hn & HP). exists h', (more ++ [m]). rewrite length_app, app_assoc. split_and!; [done| |done].
  cbn. lia.
Qed.

Definition credential_request (raw : list byte) (req : JsonRpcRequest) (params : RequestCredentialParams) : Prop :=
  parse_request raw = inl req /\ rq_method req = "cdp.requestCredential" /\ parse_credential (rq_params req) = inl params.

Definition granted_value (granted : Scope) (lease : Lease) (port : Z) : Json :=
  credential_to_value
    (mkRequestCredentialResult "granted" (lease_id lease) port (lease_token lease)
       (bytes_to_hex (channel_binding_nonce lease)) (ttl_seconds lease)
       (mkRequestedScope (s_hosts granted) (s_methods granted) (s_paths granted)
          (s_ttl_seconds granted) (s_max_requests granted))).

(** What a request at its stage has behind it. *)
Definition vetted (s : System) (h : list Moment) (p : Pending) : Prop :=
  let peer := pd_peer p in
  let cid := pd_connection_id p in
  match pd_stage p with
  | StRegister _ _ | StVerify _ _ | StEnroll _ _ _ =>
      exists req, parse_request (pd_raw p) = inl req /\ rq_method req = "cdp.register"
  | StSession req (Some params) => credential_request (pd_raw p) req params /\ [] = h
  | StSession _ None | StPanicked => True
  | StFresh _ params => exists req, credential_request (pd_raw p) req params /\ with_session req peer cid h
  | StLookup _ params => exists req, credential_request (pd_raw p) req params /\ with_nonce req params peer cid h
  | StEvaluate _ params agent =>
      exists req, credential_request (pd_raw p) req params /\ with_agent req params peer cid agent h
  | StPrompt _ params agent granted pname c =>
      exists req, credential_request (pd_raw p) req params /\ with_question req params peer cid agent granted pname c h
  | StPrepare _ params agent granted pname c =>
      exists req, credential_request (pd_raw p) req params /\ with_approval req params peer cid agent granted pname c h
  | StInsert _ agent granted lease =>
      exists req params pname c, credential_request (pd_raw p) req params /\
        and_more 0 (with_lease req params peer cid agent granted pname c lease) h
  | StIndex _ agent granted lease =>
      exists req params pname c, credential_request (pd_raw p) req params /\
        and_more 1 (with_lease req params peer cid agent granted pname c lease) h /\ stored lease s
  | StAnnounce _ agent granted lease =>
      exists req params pname c, credential_request (pd_raw p) req params /\
        and_more 2 (with_lease req params peer cid agent granted pname c lease) h /\ stored lease s
  | StListen _ granted lease =>
      exists req params agent pname c, credential_request (pd_raw p) req params /\
        and_more 3 (with_lease req params peer cid agent granted pname c lease) h /\ stored lease s
  | StReply resp => forall req value,
      parse_request (pd_raw p) = inl req -> rq_method req = "cdp.requestCredential" -> rp_result resp = Some value ->
      exists params agent granted pname c lease port, credential_request (pd_raw p) req params /\
        followed_by (and_more 3 (with_lease req params peer cid agent granted pname c lease)) (listener_started lease port) h /\
        stored lease s /\ value = granted_value granted lease port
  end.

(** ** The run *)

Lemma stored_later lease s s' : system_ok s -> stored lease s -> gstep s s' -> stored lease s'.
Proof.
  intros [Hok Hreq] (l & Hl & Hlat) Hs. destruct (gstep_router _ _ Hs Hok Hreq) as [_ [_ _ Hrun]].
  destruct (run_later _ _ _ _ Hrun Hl) as (l' & Hl' & Hlat'). exists l'. split; [done|]. by eapply later_trans.
Qed.

Lemma vetted_later s s' h p : system_ok s -> gstep s s' -> vetted s h p -> vetted s' h p.
Proof.
  intros Hok Hs. unfold vetted. destruct (pd_stage p) as [| | |? []| | | | | | | | | | |]; try done.
  1-2: intros (req & params & pn & c & Hc & Ha & Hst); exists req, params, pn, c;
    split_and!; [done|done|by eapply stored_later].
  - intros (req & params & agent & pn & c & Hc & Ha & Hst). exists req, params, agent, pn, c.
    split_and!; [done|done|by eapply stored_later].
  - intros Hv req value Hreq Hm Hval. destruct (Hv req value Hreq Hm Hval) as (params & agent & g & pn & c & l & port & Hc & Ha & Hst & E).
    exists params, agent, g, pn, c, l, port. split_and!; [done|done|by eapply stored_later|done].
Qed.

Lemma receive_vetted s raw peer cid : vetted s [] (mkPending raw peer cid (receive raw)).
Proof.
  unfold vetted, receive. cbn. destruct (parse_request raw) as [req|e] eqn:Hp; cbv zeta; [|done].
  destruct (negb _); [done|]. destruct (bool_decide_reflect (rq_method req = "cdp.register")) as [Hm|_].
  { destruct (parse_register _); [by exists req|done]. }
  destruct (bool_decide_reflect (rq_method req = "cdp.requestCredential")) as [Hm|_]; [|done].
  destruct (parse_credential (rq_params req)) as [params|e] eqn:Hc; [done|]. done.
Qed.

Lemma found_enrolled `{MapOrder} `{!MapOrderLaws} peer cid rt reg :
  find_registration rt peer cid = Some reg -> enrolled peer cid rt reg.
Proof.
  intros Hf. destruct (find_registration_ok _ _ _ _ Hf) as [Hp Hc]. unfold find_registration in Hf.
  apply List.find_some in Hf as [Hin%list_elem_of_In _]. destruct (values_of_map _ _ Hin) as [k Hk]. by exists k.
Qed.

(** A response that is an error carries no result. *)
Lemma failed_no_result id e value : rp_result (gate_error_to_response id e) = Some value -> False.
Proof. by destruct e. Qed.

Lemma failed_vetted s h p id e : vetted s h (at_stage p (failed id e)).
Proof. intros req value _ _ Hres. by apply failed_no_result in Hres. Qed.

Lemma register_vetted (m : Moment) s p h h' rt st s' :
  match pd_stage p with StRegister _ _ | StVerify _ _ | StEnroll _ _ _ => True | _ => False end ->
  advance_at m p = (rt, st) -> vetted s h p -> vetted s' h' (at_stage p st).
Proof.
  unfold vetted, advance_at. destruct (pd_stage p) as [id params|id params|id reg result| | | | | | | | | | | |]; try done;
    intros _ Ha (req & Hreq & Hm); cbn [advance register_section] in Ha.
  all: repeat match type of Ha with
    | context [match ?x with _ => _ end] =>
        lazymatch x with context [match _ with _ => _ end] => fail | _ => destruct x end
    end; injection Ha as _ <-; cbn; try done; try (by exists req).
  all: intros req' value Hreq' Hm' _; rewrite Hreq in Hreq'; injection Hreq' as <-; congruence.
Qed.

Lemma credential_vetted (m : Moment) s h p rt st s' :
  match pd_stage p with StSession _ _ | StFresh _ _ | StLookup _ _ | StEvaluate _ _ _ | StPrompt _ _ _ _ _ _ => True | _ => False end ->
  advance_at m p = (rt, st) -> vetted s h p -> vetted s' (h ++ [m]) (at_stage p st).
Proof.
  intros Hst Ha Hv. unfold vetted in Hv. unfold advance_at in Ha.
  destruct (pd_stage p) as [| | |req [params|]|id params|id params|id params agent|id params agent g pn c| | | | | | |];
    try done; cbn [advance credential_section] in Ha.
  - destruct (validate_session _ _ _ _) as [[]|e|] eqn:Hval; injection Ha as _ <-; [|apply failed_vetted|done].
    apply validate_session_ok in Hval as (reg & Hf & Hh). destruct Hv as [Hc <-]. exists req. split; [done|].
    apply followed_here; [done|]. exists reg. split; [by apply found_enrolled|done].
  - destruct (validate_session _ _ _ _) as [[]|e|]; injection Ha as _ <-; [done|apply failed_vetted|done].
  - destruct (validate_replay _ _ _ _) as [cache [[]|e|]] eqn:Hval; injection Ha as _ <-; [|apply failed_vetted|done].
    destruct Hv as (req & Hc & Hv). exists req. split; [done|]. apply followed_here; [done|]. by exists cache.
  - destruct (find_registration _ _ _) as [reg|] eqn:Hf; injection Ha as _ <-; [|apply failed_vetted].
    destruct Hv as (req & Hc & Hv). exists req. split; [done|]. apply followed_here; [done|].
    exists reg. split; [by apply found_enrolled|done].
  - destruct Hv as (req & Hc & Hv).
    destruct (engine_evaluate _ _ _ _) as [[g pn c|g pn c|reason]|e|] eqn:He; injection Ha as _ <-;
      [exists req|exists req|apply failed_vetted|apply failed_vetted|done].
    + split; [done|]. left. by apply followed_here.
    + split; [done|]. by apply followed_here.
  - destruct Hv as (req & Hc & Hv).
    assert (forall r, r <> Deny -> prompt_user agent (rc_credential_ref params) g (rc_reason params)
      (approval_config (rt_engine mo_router)) = Ok r -> vetted s' (h ++ [m]) (at_stage p (StPrepare id params agent g pn c))) as Hyes.
    { intros r Hr' He. exists req. split; [done|]. right. apply followed_here; [done|]. by exists r. }
    destruct (prompt_user _ _ _ _ _) as [[|d|]|e|] eqn:He; injection Ha as _ <-;
      [by apply (Hyes AllowOnce)|by apply (Hyes (AllowTimed d))|apply failed_vetted|apply failed_vetted|done].
Qed.

Lemma grant_vetted (m : Moment) s h p rt st s' :
  match pd_stage p with StPrepare _ _ _ _ _ _ | StInsert _ _ _ _ | StIndex _ _ _ _ | StAnnounce _ _ _ _ | StListen _ _ _ => True
  | _ => False end ->
  system_ok s -> gstep s s' -> advance_at m p = (rt, st) -> sy_router s' = rt ->
  vetted s h p -> vetted s' (h ++ [m]) (at_stage p st).
Proof.
  intros Hst Hok Hs Ha Hrt Hv. unfold vetted in Hv. unfold advance_at in Ha.
  destruct (pd_stage p) as [| | | | | | | |id params agent g pn c|id agent g l|id agent g l|id agent g l|id g l| |];
    try done; cbn [advance grant_section] in Ha.
  - destruct (prepare_lease _ _ _ _ _ _ _ _ _ _) as [l|e|] eqn:Hp; injection Ha as _ <-; [|apply failed_vetted|done].
    destruct Hv as (req & Hc & Hv). exists req, params, pn, c. split; [done|].
    exists (h ++ [m]), []. rewrite app_nil_r. split_and!; [done..|]. by apply followed_here.
  - injection Ha as <- <-. destruct Hv as (req & params & pn & c & Hc & Hv). exists req, params, pn, c.
    split_and!; [done|by apply and_one_more|]. exists l. rewrite Hrt. cbn. split; [apply lookup_insert_eq|apply later_refl].
  - injection Ha as <- <-. destruct Hv as (req & params & pn & c & Hc & Hv & Hstr). exists req, params, pn, c.
    split_and!; [done|by apply and_one_more|by eapply stored_later].
  - injection Ha as <- <-. destruct Hv as (req & params & pn & c & Hc & Hv & Hstr). exists req, params, agent, pn, c.
    split_and!; [done|by apply and_one_more|by eapply stored_later].
  - destruct (start_proxy _ _) as [pm [port|e|]] eqn:Hsp; injection Ha as <- <-; [|apply failed_vetted|done].
    destruct Hv as (req & params & agent & pn & c & Hc & Hv & Hstr). intros req' value Hreq _ [= <-].
    assert (req' = req) as -> by (destruct Hc as (Hc & _); cbn in Hreq; congruence). exists params, agent, g, pn, c, l, port.
    split_and!; [done| |by eapply stored_later|done]. apply followed_here; [done|]. by exists pm.
Qed.

Lemma section_vetted (m : Moment) s h p rt st s' : finished (pd_stage p) = false ->
  system_ok s -> gstep s s' -> advance_at m p = (rt, st) -> sy_router s' = rt ->
  vetted s h p -> vetted s' (h ++ [m]) (at_stage p st).
Proof.
  intros Hf Hok Hs Ha Hrt Hv. destruct (pd_stage p) eqn:Hst; try done.
  1-3: by eapply register_vetted; [by rewrite Hst|..].
  1-5: by eapply credential_vetted; [by rewrite Hst|..].
  all: by eapply grant_vetted; [by rewrite Hst|..].
Qed.

Lemma trace_vetted s0 ls s : system_ok s0 -> sy_requests s0 = ∅ -> gtrace s0 ls s ->
  forall i p, sy_requests s !! i = Some p -> vetted s (history i ls) p.
Proof.
  intros Hok0 He Ht. induction Ht as [|ls s i raw peer cid Ht IH Hi|ls s i p m rt st Ht IH Hi Hf Hrt Hd Ha|ls s i p Ht IH Hi Hf|ls s s' Ht IH Hs E].
  { intros i p. by rewrite He, lookup_empty. }
  all: assert (system_ok s) as Hok by (eapply system_ok_run; [apply run_iff_trace; by eexists|done]);
    intros j q; rewrite history_snoc; cbn [note sy_requests].
  - assert (gstep s (mkSystem (sy_router s) (<[i := mkPending raw peer cid (receive raw)]> (sy_requests s)) (sy_death s))) as Hs
      by (by apply g_receive).
    intros [[<- <-]|[Hne Hj]]%lookup_insert_Some.
    + rewrite bool_decide_eq_true_2 by done. apply receive_vetted.
    + rewrite bool_decide_eq_false_2 by done. eapply vetted_later; eauto.
  - assert (gstep s (mkSystem rt (<[i := at_stage p st]> (sy_requests s)) (sy_death s))) as Hs.
    { unfold advance_at in Ha. rewrite Hrt in Ha. by eapply g_section. }
    intros [[<- <-]|[Hne Hj]]%lookup_insert_Some.
    + rewrite bool_decide_eq_true_2 by done. eapply section_vetted; eauto.
    + rewrite bool_decide_eq_false_2 by done. eapply vetted_later; eauto.
  - intros [_ Hj]%lookup_delete_Some. eapply vetted_later; eauto. by eapply g_done.
  - rewrite E. intros Hj. eapply vetted_later; eauto.
Qed.

(** A history with a lease, section by section. *)
Lemma with_lease_sections req params peer cid agent g pn c lease h :
  with_lease req params peer cid agent g pn c lease h ->
  exists m_session m_fresh m_lookup m_evaluate asked m_prepare,
    h = [m_session; m_fresh; m_lookup; m_evaluate] ++ asked ++ [m_prepare] /\
    session_valid (rq_params req) peer cid m_session /\ nonce_fresh params m_fresh /\ identified agent peer cid m_lookup /\
    (asked = [] /\ policy_decides agent params (AutoApprove g pn c) m_evaluate \/
     exists m_prompt, asked = [m_prompt] /\ policy_decides agent params (RequiresApproval g pn c) m_evaluate /\
       user_allows agent params g m_prompt) /\
    lease_made agent params g pn c lease m_prepare.
Proof.
  intros (h5 & m5 & -> & [(h4 & m4 & -> & (h3 & m3 & -> & (h2 & m2 & -> & (h1 & m1 & -> & <- & H1') & H2') & H3') & H4')|
    (h6 & m6 & -> & (h4 & m4 & -> & (h3 & m3 & -> & (h2 & m2 & -> & (h1 & m1 & -> & <- & H1') & H2') & H3') & H4') & H6')] & H5');
    exists m1, m2, m3, m4.
  - exists [], m5. split_and!; try done. by left.
  - exists [m6], m5. split_and!; try done. right. by exists m6.
Qed.

(** ** Property *)

(** C3. A credential is handed out only after every check, however the sections of
    the request interleave with other requests, deaths, disconnections,
    reloads and lease operations.  In any trace of a run, a request that ends
    with a credential has gone through exactly these sections since it came
    in, each in the state and the world the trace records for it: one that
    found the peer to hold the session of its registration on this connection,
    one that found its nonce fresh, one that found the registration, one in
    which the policy granted the scope by itself, or wanted to ask and was
    followed by one in which the user's answer was not a denial, one that made
    the lease with the gate's key for that agent, credential and scope, three
    that stored and announced it, and one that started its listener on the
    port that is returned; the lease is in the store. *)
Theorem credential_granted_to_session_holder (s0 s : System) (ls : list Event) (i : nat) (p : Pending) (req : JsonRpcRequest)
    (resp : JsonRpcResponse) (value : Json) :
  system_ok s0 -> sy_requests s0 = ∅ -> gtrace s0 ls s -> sy_requests s !! i = Some p ->
  pd_stage p = StReply resp -> rp_result resp = Some value ->
  parse_request (pd_raw p) = inl req -> rq_method req = "cdp.requestCredential" ->
  exists params agent granted pname constraints lease port,
  exists m_session m_fresh m_lookup m_evaluate asked m_prepare m_insert m_index m_announce m_listen,
    parse_credential (rq_params req) = inl params /\
    history i ls = [m_session; m_fresh; m_lookup; m_evaluate] ++ asked ++ [m_prepare; m_insert; m_index; m_announce; m_listen] /\
    session_valid (rq_params req) (pd_peer p) (pd_connection_id p) m_session /\
    nonce_fresh params m_fresh /\
    identified agent (pd_peer p) (pd_connection_id p) m_lookup /\
    (asked = [] /\ policy_decides agent params (AutoApprove granted pname constraints) m_evaluate \/
     exists m_prompt, asked = [m_prompt] /\
       policy_decides agent params (RequiresApproval granted pname constraints) m_evaluate /\
       user_allows agent params granted m_prompt) /\
    lease_made agent params granted pname constraints lease m_prepare /\
    listener_started lease port m_listen /\
    stored lease s /\ granted_scope lease = granted /\ credential_ref lease = rc_credential_ref params /\
    agent_fingerprint_hash lease = ai_fingerprint_hash agent /\ agent_pid lease = peer_pid (pd_peer p) /\
    value = granted_value granted lease port.
Proof.
  intros Hok He Ht Hi Hst Hres Hreq Hm. pose proof (trace_vetted s0 ls s Hok He Ht i p Hi) as Hv.
  unfold vetted in Hv. rewrite Hst in Hv.
  destruct (Hv req value Hreq Hm Hres) as (params & agent & g & pn & c & l & port & (_ & _ & Hc) &
    (h2 & m9 & Hh & (h1 & [|m6 [|m7 [|m8 []]]] & -> & Hlen & Hl) & Hlis) & Hstr & E); try done.
  destruct (with_lease_sections _ _ _ _ _ _ _ _ _ _ Hl) as (m1 & m2 & m3 & m4 & asked & m5 & -> & Hs & Hn & Hid & Happ & Hmade).
  exists params, agent, g, pn, c, l, port, m1, m2, m3, m4, asked, m5, m6, m7, m8, m9.
  destruct (prepare_lease_fields _ _ _ _ _ _ _ _ _ _ _ Hmade) as (Hg & Hfp & Hcr & Hap & _).
  split_and!; try done.
  - rewrite Hh. cbn. by rewrite <- !app_assoc.
  - destruct Hid as (reg & (_ & _ & Hpid & _) & ->). by rewrite Hap.
Qed.
End Vetting.

(** ** A request to follow *)

#[local] Existing Instances plain_fmt timed_gui plain_addr stat_os id_sha plain_parse demo_mac release_build
  chrono_range demo_dns system_chrono_laws system_codec system_typed system_text set_lru system_order system_order_laws.

(** The registered agent asks, and its request runs to the end. *)
Definition vetted_turn (n : nat) : System := Nat.iter n system_turn (system_received system_gate).

Lemma vetted_run : rtc gstep (system_new system_gate) (vetted_turn 10).
Proof.
  eapply rtc_l; [apply system_receives|].
  do 10 (eapply rtc_l; [apply system_turn_step; vm_compute; (exact I || reflexivity || (split; discriminate))|]).
  vm_compute. reflexivity.
Qed.

(** The same agent on a gate whose policy asks. *)
Definition asking_gate : Router := with_engine system_gate demo_engine.
Definition asked_turn (n : nat) : System := Nat.iter n system_turn (system_received asking_gate).

Lemma asking_gate_ok : gate_ok asking_gate.
Proof.
  destruct system_gate_ok as [Hl Hk Hp Hn Hr _]. split; try done.
  constructor; [|constructor]. split; intros x [= <-]; by vm_compute.
Qed.

(** The trace of its request. *)
Definition asked_moment (n : nat) : Moment :=
  mkMoment timed_gui stat_os demo_dns system_order system_order_laws 0 demo_draw (sy_router (asked_turn n)).

Fixpoint asked_events (n : nat) : list Event :=
  match n with
  | O => [EvReceive 0]
  | S n' => asked_events n' ++ [EvSection 0 (asked_moment n')]
  end.

Lemma asked_turn_trace n s0 : gtrace s0 (asked_events n) (asked_turn n) ->
  match sy_requests (asked_turn n) !! 0%nat with
  | Some p => finished (pd_stage p) = false /\ draw_fits (sy_router (asked_turn n)) demo_draw (pd_stage p)
  | None => False
  end -> gtrace s0 (asked_events (S n)) (asked_turn (S n)).
Proof.
  intros Ht. cbn [asked_events]. replace (asked_turn (S n)) with (system_turn (asked_turn n)) by done.
  unfold system_turn. destruct (sy_requests (asked_turn n) !! 0%nat) as [p|] eqn:Hp; [|done]. intros [Hf Hd].
  destruct (advance _ _ _ _ _ _) as [rt st] eqn:Ha. by apply tr_section.
Qed.

Lemma asked_trace : gtrace (system_new asking_gate) (asked_events 10) (asked_turn 10).
Proof.
  do 10 (apply asked_turn_trace; [|vm_compute; split; (exact I || reflexivity || (split; discriminate))]).
  apply (tr_receive _ [] (system_new asking_gate)); [constructor|reflexivity].
Qed.

(** The policy asks in this run, and the user of the fifth section allows. *)
Lemma credential_granted_to_session_holder_witness :
  exists agent params granted lease port,
    user_allows agent params granted (asked_moment 4) /\ stored lease (asked_turn 10) /\
    credential_ref lease = "github_api" /\ agent_pid lease = 41 /\
    JString "01" = granted_value (granted_scope lease) lease port.
Proof.
  destruct (credential_granted_to_session_holder (system_new asking_gate) (asked_turn 10) (asked_events 10) 0
    (mkPending [] demo_peer_info [Byte.x09] (StReply (success JNull (JString "01"))))
    (mkJsonRpcRequest "2.0" "cdp.requestCredential" (JObject [("session_token", JString demo_token)]) JNull)
    (success JNull (JString "01")) (JString "01"))
    as (params & agent & g & pn & c & lease & port & m1 & m2 & m3 & m4 & asked & m5 & m6 & m7 & m8 & m9 &
        Hp & Hh & _ & _ & _ & Happ & _ & _ & Hst & Hg & Hc & _ & Hpid & Hval).
  - exact (system_ok_new _ asking_gate_ok).
  - reflexivity.
  - exact asked_trace.
  - vm_compute. reflexivity.
  - reflexivity.
  - reflexivity.
  - reflexivity.
  - reflexivity.
  - exists agent, params, g, lease, port. injection Hp as <-.
    split; [|split; [exact Hst|split; [exact Hc|split; [exact Hpid|rewrite Hg; exact Hval]]]].
    destruct Happ as [[-> _]|(m & -> & _ & Ha)]; [discriminate (f_equal length Hh)|].
    injection Hh as _ _ _ _ <- _ _ _ _ _. exact Ha.
Defined.
