(* ===== verification/GateDeaths.v ===== *)
(** * A sequence of deaths

    What the notifications in the gate's death channel do when the death task
    takes them one after the other, the agents of the others among them:
    [handle_death] folded over the channel. *)

From S2P Require Import Prelude RustStr Crypto PolicyTypes PolicyEvaluator PolicyEngine AuditLog.
From S2P Require Import LeaseTypes LeaseManager LeaseLemmas LeaseSteps LeaseSafety LeaseProps.
From S2P Require Import ProxyScope ProxyAuth ProxyManager GateAgent GateRouter GateSystem.

(** ** The agent index under revocation *)

Definition indexed (m : LeaseManager) (fp : list byte) (id : string) : Prop := id ∈ default [] (agent_leases m !! fp).

Lemma remove_index_other ix fp0 y fp id :
  id ∈ default [] (ix !! fp) -> id <> y -> id ∈ default [] (remove_from_agent_index ix fp0 y !! fp).
Proof.
  intros Hin Hne. unfold remove_from_agent_index. destruct (ix !! fp0) as [ids|] eqn:E; [|done].
  assert (id ∈ default [] (ix !! fp) -> fp0 = fp ->
    id ∈ List.filter (fun x => negb (bool_decide (x = y))) ids) as Hf.
  { intros Hin' <-. rewrite E in Hin'. simpl in Hin'. apply list_elem_of_In, filter_In. split; [by apply list_elem_of_In|].
    by rewrite bool_decide_eq_false_2. }
  cbv zeta. destruct (decide (fp0 = fp)) as [->|Hfp].
  - specialize (Hf Hin eq_refl). rewrite bool_decide_eq_false_2; [by rewrite lookup_insert_eq|].
    intros E'. rewrite E' in Hf. by apply elem_of_nil in Hf.
  - destruct (bool_decide _); [by rewrite lookup_delete_ne|by rewrite lookup_insert_ne].
Qed.

Lemma revoke_one_indexed reason detail m y fp id :
  indexed m fp id -> id <> y -> indexed (revoke_one reason detail m y) fp id.
Proof.
  unfold indexed, revoke_one. intros Hin Hne. destruct (leases m !! y) as [l|]; [|done]. rewrite index_emit.
  cbn [agent_leases with_index with_leases]. by apply remove_index_other.
Qed.

Lemma revoke_many_indexed reason detail ds m fp id :
  indexed m fp id -> id ∉ ds -> indexed (fold_left (revoke_one reason detail) ds m) fp id.
Proof.
  revert m. induction ds as [|y ds IH]; intros m Hin Hni; simpl; [done|].
  apply IH; [apply revoke_one_indexed; [done|]|]; set_solver.
Qed.

Lemma revoke_lease_indexed m y reason m' r ds fp id :
  revoke_lease m y reason = Some (m', r) -> collect_descendants (leases m) y = Some ds ->
  indexed m fp id -> id ∉ y :: ds -> indexed m' fp id.
Proof.
  unfold revoke_lease. intros Hr Hds Hin Hni. destruct (leases m !! y); [|by simplify_eq].
  rewrite Hds in Hr. cbn in Hr. injection Hr as <- _.
  apply revoke_one_indexed; [apply revoke_many_indexed; [done|]|]; set_solver.
Qed.

(** [x] is in the tree of a root lease that is indexed for [fp]. *)
Definition in_trees (m : LeaseManager) (fp : list byte) (x : string) : Prop :=
  exists id, indexed m fp id /\ is_root_lease (leases m) id = true /\ within (leases m) id x.

Section Deaths.
Context `{Fmt} `{Gui} `{FmtAddr} `{AgentOs} `{Sha256} `{FmtParse} `{HmacSha256}.
Context `{Build} `{Chrono} `{!ChronoLaws} `{Resolver}.
Context `{!RpcCodec} `{TextParse} `{LruCache} `{MapOrder}.

Lemma within_run m m' id x : rtc lstep m m' -> within (leases m) id x -> within (leases m') id x.
Proof. intros Hr [->|Hd]; [by left|right; by eapply run_descends]. Qed.

Lemma within_trans ls a b c : within ls a b -> within ls b c -> within ls a c.
Proof. intros [->|Hab] [->|Hbc]; [by left|by right|by right|]. right. by etrans. Qed.

Lemma root_run m m' id : rtc lstep m m' -> is_root_lease (leases m) id = true -> is_root_lease (leases m') id = true.
Proof.
  intros Hr (l & Hl & Hp)%is_root_lease_spec. destruct (run_later _ _ _ _ Hr Hl) as (l' & Hl' & Hlat).
  apply is_root_lease_spec. exists l'. split; [done|]. by rewrite (later_parent _ _ Hlat).
Qed.

Lemma revoke_roots_indexed reason ids : forall m revoked m' r fp id,
  inv m -> revoke_roots m reason ids revoked = Some (m', r) -> indexed m fp id ->
  indexed m' fp id \/ exists y, y ∈ ids /\ is_root_lease (leases m) y = true /\ within (leases m) y id.
Proof.
  induction ids as [|y ids IH]; intros m revoked m' r fp id Hinv; simpl.
  { intros [= <- _]. by left. }
  destruct (is_root_lease (leases m) y) eqn:Hroot.
  2: { intros Hr Hin. destruct (IH _ _ _ _ _ _ Hinv Hr Hin) as [?|(z & Hz & ?)]; [by left|].
       right. exists z. split; [by right|done]. }
  pose proof Hroot as (l & Hl & _)%is_root_lease_spec.
  destruct (revoke_lease_ok m y reason l (inv_forest _ Hinv) Hl) as (m1 & ds & Hrev & Hds & _ & Hdesc & _ & _).
  rewrite Hds. cbn. rewrite Hrev. intros Hr Hin.
  destruct (decide (id ∈ y :: ds)) as [Hd|Hd].
  { right. exists y. split_and!; [by left|done|]. apply elem_of_cons in Hd as [->|Hd%Hdesc]; [by left|by right]. }
  pose proof (step_revoke _ _ _ _ _ Hrev) as Hs.
  destruct (IH _ _ _ _ fp id (inv_step _ _ Hs Hinv) Hr) as [?|(z & Hz & Hzr & Hzw)]; [by eapply revoke_lease_indexed|by left|].
  right. exists z. pose proof (revoke_pointwise _ _ _ _ _ Hrev) as Hpw. split_and!; [by right| |].
  - apply is_root_lease_spec in Hzr as (lz & Hlz & Hpz). destruct (pointwise_back _ _ _ _ Hpw Hlz) as (lz0 & Hz0 & Hst).
    apply is_root_lease_spec. exists lz0. split; [done|]. apply lease_step_static, static_fields in Hst as (_ & <- & _). done.
  - destruct Hzw as [->|Hzw]; [by left|right]. by eapply pointwise_descends.
Qed.

(** What one death leaves of another agent's index. *)
Lemma revoke_agent_indexed m fp0 reason m' r fp id :
  inv m -> revoke_agent_leases m fp0 reason = Some (m', r) -> fp <> fp0 -> indexed m fp id ->
  indexed m' fp id \/ in_trees m fp0 id.
Proof.
  intros Hinv Hr Hne Hin. unfold revoke_agent_leases in Hr. apply bind_Some in Hr as ([m1 r1] & Hroots & Hr).
  destruct (revoke_roots_indexed _ _ _ _ _ _ fp id Hinv Hroots Hin) as [Hi|(y & Hy & Hyr & Hyw)].
  - left. destruct r1; injection Hr as <- _; [|done..]. unfold indexed. cbn. by rewrite lookup_delete_ne.
  - right. by exists y.
Qed.

(** ** One death *)

(** Nothing is left of lease [x]: it is revoked and nobody listens for it. *)
Definition torn_down (rt : Router) (x : string) : Prop :=
  port_for_lease (rt_proxies rt) x = None /\
  exists lx, leases (rt_leases rt) !! x = Some lx /\ is_revoked (status lx) = true.

Lemma handle_death_total rt n : reachable (rt_leases rt) ->
  exists rt', handle_death rt n = Some rt' /\ rtc lstep (rt_leases rt) (rt_leases rt') /\
    (forall x, port_for_lease (rt_proxies rt') x = None \/
       port_for_lease (rt_proxies rt') x = port_for_lease (rt_proxies rt) x) /\
    rt_registry rt' = delete (bytes_to_hex (death_fingerprint n)) (rt_registry rt) /\
    rt_monitors rt' = rt_monitors rt /\
    (is_Some (rt_registry rt !! bytes_to_hex (death_fingerprint n)) ->
       (forall x, in_trees (rt_leases rt) (death_fingerprint n) x -> torn_down rt' x)) /\
    (forall fp id, fp <> death_fingerprint n -> indexed (rt_leases rt) fp id ->
       indexed (rt_leases rt') fp id \/
       is_Some (rt_registry rt !! bytes_to_hex (death_fingerprint n)) /\ in_trees (rt_leases rt) (death_fingerprint n) id).
Proof.
  intros Hr. unfold handle_death. destruct (rt_registry rt !! _) as [reg|] eqn:Ereg.
  2: { exists rt. split_and!; [done|done|by right|by rewrite delete_id|done|by intros [? ?]|by left]. }
  cbn [rt_leases with_registry].
  destruct (revoke_agent_trees _ (death_fingerprint n) "agent process exited" Hr) as (m' & rv & Hrev & _ & Hall & _).
  pose proof (revoke_agent_run _ _ _ _ _ Hrev) as Hrun. rewrite Hrev. cbn. eexists. split; [done|]. cbn.
  split_and!; try done.
  - intros x. rewrite release_all_port. destruct (contains rv x); [by left|by right].
  - intros _ x (id & Hid & Hroot & Hw). destruct (Hall id x Hid Hroot Hw) as [Hin Hst]. split; [|done]. cbn.
    rewrite release_all_port. by rewrite (proj2 (contains_spec _ _) Hin).
  - intros fp id Hne Hin. destruct (revoke_agent_indexed _ _ _ _ _ _ _ (reachable_inv _ Hr) Hrev Hne Hin);
      [by left|right; by split].
Qed.

Lemma torn_down_stays rt rt' x : reachable (rt_leases rt) -> rtc lstep (rt_leases rt) (rt_leases rt') ->
  (port_for_lease (rt_proxies rt') x = None \/
     port_for_lease (rt_proxies rt') x = port_for_lease (rt_proxies rt) x) ->
  torn_down rt x -> torn_down rt' x.
Proof.
  intros Hr Hrun Hport [Hp (l & Hl & Hrev)]. split; [destruct Hport as [?|Hport]; [done|by rewrite Hport]|].
  apply (revoked_stays (rt_leases rt) _ x x l Hr Hl Hrev Hrun). by left.
Qed.

(** ** The channel *)

Fixpoint handle_deaths (rt : Router) (ns : list DeathNotification) : option Router :=
  match ns with
  | [] => Some rt
  | n :: rest => rt' ← handle_death rt n; handle_deaths rt' rest
  end.

Lemma handle_deaths_app rt ns1 ns2 : handle_deaths rt (ns1 ++ ns2) = rt' ← handle_deaths rt ns1; handle_deaths rt' ns2.
Proof. revert rt. induction ns1 as [|n ns1 IH]; intros rt; simpl; [done|]. destruct (handle_death rt n); simpl; [apply IH|done]. Qed.

Lemma hex_inj a b : bytes_to_hex a = bytes_to_hex b -> a = b.
Proof.
  intros E. pose proof (hex_roundtrip (E:=unit) a) as Ha. rewrite E, hex_roundtrip in Ha. by injection Ha as ->.
Qed.

(** Along the whole channel: leases run, ports only go, registrations of the
    agents named go. *)
Lemma handle_deaths_total ns : forall rt, reachable (rt_leases rt) ->
  exists rt', handle_deaths rt ns = Some rt' /\ rtc lstep (rt_leases rt) (rt_leases rt') /\
    rt_monitors rt' = rt_monitors rt /\
    (forall x, torn_down rt x -> torn_down rt' x) /\
    (forall k, rt_registry rt' !! k = None \/ rt_registry rt' !! k = rt_registry rt !! k) /\
    (forall n, n ∈ ns -> rt_registry rt' !! bytes_to_hex (death_fingerprint n) = None).
Proof.
  induction ns as [|n ns IH]; intros rt Hr; simpl.
  { exists rt. split_and!; try done; [by right|]. intros n Hn. by apply elem_of_nil in Hn. }
  destruct (handle_death_total rt n Hr) as (rt1 & -> & Hrun & Hport & Hreg & Hmon & _). cbn.
  destruct (IH rt1 (reachable_run _ _ Hr Hrun)) as (rt' & -> & Hrun' & Hmon' & Htd & Hregs & Hgone).
  exists rt'. split_and!; try done.
  - by etrans.
  - congruence.
  - intros x Hx. apply Htd. by eapply torn_down_stays.
  - intros k. destruct (Hregs k) as [?|E]; [by left|]. rewrite E, Hreg.
    destruct (decide (k = bytes_to_hex (death_fingerprint n))) as [->|Hne]; [left; apply lookup_delete_eq|right].
    by apply lookup_delete_ne.
  - intros n' [->|Hn]%elem_of_cons; [|by apply Hgone].
    destruct (Hregs (bytes_to_hex (death_fingerprint n))) as [?|E]; [done|]. by rewrite E, Hreg, lookup_delete_eq.
Qed.

(** When a registered agent's notification is among them, its trees are torn
    down, whichever deaths come first. *)
Lemma handle_deaths_tear_down ns : forall rt n, reachable (rt_leases rt) -> n ∈ ns ->
  is_Some (rt_registry rt !! bytes_to_hex (death_fingerprint n)) ->
  exists rt', handle_deaths rt ns = Some rt' /\
    forall x, in_trees (rt_leases rt) (death_fingerprint n) x -> torn_down rt' x.
Proof.
  induction ns as [|n0 ns IH]; intros rt n Hr Hn Hreg; [by apply elem_of_nil in Hn|]. cbn [handle_deaths].
  destruct (handle_death_total rt n0 Hr) as (rt1 & -> & Hrun & Hport & Hreg1 & _ & Htrees & Hix). cbn.
  pose proof (reachable_run _ _ Hr Hrun) as Hr1.
  destruct (handle_deaths_total ns rt1 Hr1) as (rt' & Hrest & _ & _ & Htd & _ & _).
  destruct (decide (death_fingerprint n0 = death_fingerprint n)) as [E|Hne].
  { exists rt'. split; [done|]. intros x Hx. apply Htd, Htrees; by rewrite E. }
  apply elem_of_cons in Hn as [->|Hn]; [done|].
  destruct (IH rt1 n Hr1 Hn) as (rt2 & Hrt2 & Hall).
  { rewrite Hreg1, lookup_delete_ne; [done|]. intros E%hex_inj. done. }
  assert (rt2 = rt') as -> by congruence. exists rt'. split; [done|].
  intros x (id & Hid & Hroot & Hw).
  destruct (Hix _ _ (not_eq_sym Hne) Hid) as [Hid1|[Hreg0 (y & Hy & Hyr & Hyw)]].
  - apply Hall. exists id. split_and!; [done|by eapply root_run|by eapply within_run].
  - apply Htd, Htrees; [done|]. exists y. split_and!; [done|done|]. by eapply within_trans.
Qed.
End Deaths.
