(* ===== verification/Token.v ===== *)
(** * cdp-token: JWT issuing, revocation and attestation

    [cdp-token/src/issuer.rs], [revocation.rs] and [validator.rs].  Base64,
    Ed25519, RSA, [serde]'s codecs and the HTTP client that
    fetches key sets are the fields of classes. *)

From S2P Require Import Prelude RustStr PolicyTypes AuditLog ProxyScope GateAgent.

#[local] Arguments String.append !_ _ /.

(** ** Errors and claims *)

Inductive TokenError : Type :=
| SigningKeyError (m : string)
| InvalidClaims (m : string)
| TokenExpired
| TokenRevoked
| AttestationFailed (m : string)
| OidcVerification (m : string)
| InvalidCertificate (m : string)
| TokenIo (m : string)
| TokenCrypto (m : string)
| Serialization (m : string).

Record TokenClaims : Type := mkTokenClaims {
  tc_iss : string; tc_sub : string; tc_aud : string; tc_exp : Z; tc_iat : Z; tc_jti : string;
  tc_scope : list string; tc_lease_id : string; tc_delegation_chain : list string; tc_single_use : bool
}.

(** ** Crates *)

(** [URL_SAFE_NO_PAD] *)
Class Base64Url : Type := {
  b64_encode : list byte -> string;
  b64_decode : string -> list byte + string
}.

(** Keys, messages and signatures as bytes. *)
Class Ed25519 : Type := {
  ed_public : list byte -> list byte;
  ed_sign : list byte -> list byte -> list byte;
  ed_verify : list byte -> list byte -> list byte -> bool
}.

(** [serde_json] on claims and on arbitrary values. *)
Class ClaimsCodec : Type := {
  claims_to_vec : TokenClaims -> list byte + string;
  claims_from_slice : list byte -> TokenClaims + string;
  claims_to_value : TokenClaims -> Json + string;
  value_to_vec : Json -> list byte + string;
  value_from_slice : list byte -> Json + string
}.

(** ** Splitting *)

Definition dot : Ascii.ascii := Ascii.ascii_of_N 46.

(** [s.splitn(3, '.')] *)
Definition splitn3 (sep : Ascii.ascii) (s : string) : list string :=
  match splitn2 sep s with
  | [a; rest] => a :: splitn2 sep rest
  | l => l
  end.

Section Token.
Context `{Fmt} `{Base64Url} `{Ed25519} `{ClaimsCodec}.

(** ** Issuer *)

Record TokenIssuer : Type := mkTokenIssuer { secret_bytes : list byte; verifying_key : list byte }.

Definition JWT_HEADER_B64 : string := "eyJhbGciOiJFZERTQSIsInR5cCI6IkpXVCJ9".

(** [TokenIssuer::new] on the entropy drawn, and [from_key]. *)
Definition issuer_from_key (secret : list byte) : TokenIssuer := mkTokenIssuer secret (ed_public secret).

Definition public_key_base64 (i : TokenIssuer) : string := b64_encode (verifying_key i).

(** Signing the encoded claims, common to [issue] and [sign_claims_value]. *)
Definition sign_encoded (i : TokenIssuer) (claims_json : list byte) : result string TokenError :=
  let claims_b64 := b64_encode claims_json in
  let signing_input := JWT_HEADER_B64 +:+ "." +:+ claims_b64 in
  if negb (Nat.eqb (length (secret_bytes i)) 32) then Err (SigningKeyError "stored key has wrong length")
  else
    let signature_b64 := b64_encode (ed_sign (secret_bytes i) (as_bytes signing_input)) in
    Ok (signing_input +:+ "." +:+ signature_b64).

Definition issue (i : TokenIssuer) (claims : TokenClaims) : result string TokenError :=
  match claims_to_vec claims with
  | inr e => Err (Serialization e)
  | inl claims_json => sign_encoded i claims_json
  end.

Definition sign_claims_value (i : TokenIssuer) (claims : Json) : result string TokenError :=
  match value_to_vec claims with
  | inr e => Err (Serialization e)
  | inl claims_json => sign_encoded i claims_json
  end.

(** A fallible call whose error is wrapped. *)
Definition wrap {A : Type} (f : string -> TokenError) (r : A + string) : result A TokenError :=
  match r with inl a => Ok a | inr e => Err (f e) end.

(** [now] is [Utc::now().timestamp()]. *)
Definition verify (i : TokenIssuer) (now : Z) (token : string) : result TokenClaims TokenError :=
  match splitn3 dot token with
  | [header_b64; claims_b64; sig_b64] =>
      let! header_json := wrap (fun e => InvalidClaims ("invalid header encoding: " +:+ e)) (b64_decode header_b64) in
      let! header := wrap (fun e => InvalidClaims ("header parse error: " +:+ e)) (value_from_slice header_json) in
      if negb (bool_decide ((json_get header "alg" ≫= as_str) = Some "EdDSA")) then
        Err (InvalidClaims "unsupported algorithm; expected EdDSA")
      else
        let signing_input := header_b64 +:+ "." +:+ claims_b64 in
        let! sig_bytes := wrap (fun e => InvalidClaims ("invalid signature encoding: " +:+ e)) (b64_decode sig_b64) in
        if negb (Nat.eqb (length sig_bytes) 64) then Err (InvalidClaims "signature must be 64 bytes")
        else if negb (ed_verify (verifying_key i) (as_bytes signing_input) sig_bytes) then
          Err (TokenCrypto "signature verification failed")
        else
          let! claims_json := wrap (fun e => InvalidClaims ("invalid claims encoding: " +:+ e)) (b64_decode claims_b64) in
          let! claims := wrap (fun e => Serialization ("claims parse error: " +:+ e)) (claims_from_slice claims_json) in
          if tc_exp claims <=? now then Err TokenExpired else Ok claims
  | _ => Err (InvalidClaims "malformed JWT: expected 3 parts")
  end.
End Token.

(** ** Revocation list *)

(** JTI to the time after which the entry may be pruned. *)
Abbreviation RevocationList := (gmap string Z).

Definition revocation_new : RevocationList := ∅.

Definition revoke (entries : RevocationList) (jti : string) (exp : Z) : RevocationList := <[jti := exp]> entries.

Definition is_revoked_jti (entries : RevocationList) (jti : string) : bool :=
  bool_decide (is_Some (entries !! jti)).

Definition check_and_mark_used (entries : RevocationList) (jti : string) (exp : Z)
    : RevocationList * result unit TokenError :=
  match entries !! jti with
  | Some _ => (entries, Err TokenRevoked)
  | None => (<[jti := exp]> entries, Ok tt)
  end.

(** [entries.retain(|_, expires_at| *expires_at > now)] *)
Definition cleanup (entries : RevocationList) (now : Z) : RevocationList :=
  filter (fun kv => now < kv.2) entries.

(** [DateTime::to_rfc3339] *)
Class Rfc3339Auto : Type := { to_rfc3339 : Z -> string }.

Section SignedList.
Context `{Base64Url} `{Ed25519} `{ClaimsCodec} `{Rfc3339Auto} `{Chrono}.

(** [now] and [jti] are the clock and the UUID drawn; the entries' object is
    in key order. *)
Definition to_signed_list (entries : RevocationList) (issuer : TokenIssuer) (now : Z) (jti : string)
    : result string TokenError :=
  let payload := JObject (fold_left (fun acc kv => obj_insert kv.1 (JString (to_rfc3339 kv.2)) acc)
                            (map_to_list entries) []) in
  let! later := dt_add now (5 * 60 * NANOS) in
  let claims := mkTokenClaims "cdp-gate-revocation" "revocation-list" "cdp-gate"
    (later / NANOS) (now / NANOS) jti ["revocation"] "internal" [] false in
  match claims_to_value claims with
  | inr e => Err (Serialization e)
  | inl (JObject obj) => sign_claims_value issuer (JObject (obj_insert "revoked_entries" payload obj))
  | inl v => sign_claims_value issuer v
  end.
End SignedList.

(** ** OIDC attestation *)

Record TrustedIssuer : Type := mkTrustedIssuer {
  ti_name : string; ti_issuer_url : string; ti_required_audience : string
}.

Record JwkKey : Type := mkJwkKey {
  jk_key_id : option string; jk_key_type : string; jk_n : option string; jk_e : option string;
  jk_alg : option string
}.

Inductive AttestationType : Type := Mtls | Oidc | Enclave | SignedCode.

Record AttestationResult : Type := mkAttestationResult {
  at_identity : string; at_type : AttestationType; at_verified_at : Z; at_metadata : gmap string string
}.

(** The HTTP client (building it, fetching a key set: transport error, HTTP
    status, or a body that does not parse) and RSA. *)
Inductive JwksFetch : Type :=
| ClientError (m : string)
| FetchError (m : string)
| HttpStatus (text : string)
| JwksParse (m : string)
| Keys (ks : list JwkKey).

Class OidcEnv : Type := {
  fetch_jwks : string -> JwksFetch;
  RsaKey : Type;
  rsa_new : list byte -> list byte -> RsaKey + string;
  rsa_signature : list byte -> list byte + string;
  rsa_verify : RsaKey -> list byte -> list byte -> bool
}.

Section OidcModel.
Context `{Fmt} `{Base64Url} `{ClaimsCodec} `{OidcEnv}.

Definition is_rsa (k : JwkKey) : bool := bool_decide (jk_key_type k = "RSA").

Definition find_jwk (ks : list JwkKey) (kid : option string) : option JwkKey :=
  match kid with
  | Some id =>
      match List.find (fun k => is_rsa k && bool_decide (jk_key_id k = Some id)) ks with
      | Some k => Some k
      | None => List.find is_rsa ks
      end
  | None => List.find is_rsa ks
  end.

Definition verify_rs256 (header_b64 claims_b64 sig_b64 : string) (jwk : JwkKey) : result unit TokenError :=
  let! n := wrap (fun e => OidcVerification ("JWK `n` decode: " +:+ e)) (b64_decode (unwrap_or (jk_n jwk) EmptyString)) in
  let! e := wrap (fun e => OidcVerification ("JWK `e` decode: " +:+ e)) (b64_decode (unwrap_or (jk_e jwk) EmptyString)) in
  let! key := wrap (fun e => OidcVerification ("RSA key construction: " +:+ e)) (rsa_new n e) in
  let! sig_bytes := wrap (fun e => OidcVerification ("signature decode: " +:+ e)) (b64_decode sig_b64) in
  let! signature := wrap (fun e => OidcVerification ("signature parse: " +:+ e)) (rsa_signature sig_bytes) in
  if negb (rsa_verify key (as_bytes (header_b64 +:+ "." +:+ claims_b64)) signature) then
    Err (OidcVerification "RS256 signature verification failed")
  else Ok tt.

(** [s.trim_end_matches('/')] *)
Definition slash : Ascii.ascii := Ascii.ascii_of_N 47.
Fixpoint trim_slashes (s : string) : string :=
  match s with
  | EmptyString => EmptyString
  | String c s' =>
      match trim_slashes s' with
      | EmptyString => if bool_decide (c = slash) then EmptyString else String c EmptyString
      | r => String c r
      end
  end.

Definition audience_ok (aud : option Json) (required : string) : bool :=
  match aud with
  | Some (JString s) => bool_decide (s = required)
  | Some (JArray arr) => existsb (fun v => bool_decide (as_str v = Some required)) arr
  | _ => false
  end.

(** [now] and [verified] are the two readings of the clock, in seconds and
    nanoseconds. *)
Definition verify_oidc_attestation (trusted : list TrustedIssuer) (now verified : Z) (token : string)
    : result AttestationResult TokenError :=
  match splitn3 dot token with
  | [h; c; sg] =>
      let! header_bytes := wrap (fun e => OidcVerification ("header decode: " +:+ e)) (b64_decode h) in
      let! header := wrap (fun e => OidcVerification ("header parse: " +:+ e)) (value_from_slice header_bytes) in
      let alg := unwrap_or (json_get header "alg" ≫= as_str) EmptyString in
      if negb (bool_decide (alg = "RS256")) then
        Err (OidcVerification ("unsupported algorithm " +:+ debug_str alg +:+ "; only RS256 is accepted"))
      else
      let kid := json_get header "kid" ≫= as_str in
      let! claims_bytes := wrap (fun e => OidcVerification ("claims decode: " +:+ e)) (b64_decode c) in
      let! claims := wrap (fun e => OidcVerification ("claims parse: " +:+ e)) (value_from_slice claims_bytes) in
      let! iss := ok_or (json_get claims "iss" ≫= as_str) (OidcVerification "missing `iss` claim") in
      let! sub := ok_or (json_get claims "sub" ≫= as_str) (OidcVerification "missing `sub` claim") in
      let aud := json_get claims "aud" in
      let! exp := ok_or (json_get claims "exp" ≫= as_i64_json) (OidcVerification "missing `exp` claim") in
      let! ti := ok_or (List.find (fun t => bool_decide (ti_issuer_url t = iss)) trusted)
        (OidcVerification ("issuer " +:+ debug_str iss +:+ " is not trusted")) in
      if negb (audience_ok aud (ti_required_audience ti)) then
        Err (OidcVerification ("audience does not include " +:+ debug_str (ti_required_audience ti)))
      else if exp <=? now then Err TokenExpired
      else
      match fetch_jwks (trim_slashes (ti_issuer_url ti) +:+ "/.well-known/jwks.json") with
      | ClientError e => Err (OidcVerification ("HTTP client error: " +:+ e))
      | FetchError e => Err (OidcVerification ("JWKS fetch error: " +:+ e))
      | HttpStatus st => Err (OidcVerification ("JWKS endpoint returned HTTP " +:+ st))
      | JwksParse e => Err (OidcVerification ("JWKS parse error: " +:+ e))
      | Keys ks =>
          let! jwk := ok_or (find_jwk ks kid) (OidcVerification "no matching JWK found") in
          let! _ := verify_rs256 h c sg jwk in
          Ok (mkAttestationResult sub Oidc verified
                (<["aud" := ti_required_audience ti]> (<["iss" := iss]> ∅)))
      end
  | _ => Err (OidcVerification "malformed JWT")
  end.

Definition verify_enclave_attestation (evidence : list byte) : result AttestationResult TokenError :=
  Err (AttestationFailed "enclave attestation is not yet implemented").

Definition verify_signed_code_attestation (evidence : list byte) : result AttestationResult TokenError :=
  Err (AttestationFailed "signed-code attestation is not yet implemented").
End OidcModel.

(** ** Lemmas *)

Lemma splitn2_from_lacks sep a cur b :
  lacks sep a -> splitn2_from sep cur (a +:+ String sep b) = [cur +:+ a; b].
Proof.
  revert cur. induction a as [|x a IH]; intros cur; simpl.
  - intros _. rewrite bool_decide_eq_true_2 by done. by rewrite append_nil_r.
  - intros [Hne Hl]. rewrite bool_decide_eq_false_2 by done. rewrite IH by done.
    by rewrite append_assoc.
Qed.

Lemma splitn3_parts a b c :
  lacks dot a -> lacks dot b -> splitn3 dot (a +:+ "." +:+ b +:+ "." +:+ c) = [a; b; c].
Proof.
  intros Ha Hb. unfold splitn3, splitn2.
  change ("." +:+ b +:+ "." +:+ c) with (String dot (b +:+ String dot c)).
  rewrite splitn2_from_lacks by done. simpl. by rewrite splitn2_from_lacks.
Qed.

(** What the code relies on of the encoder, the signature scheme and the
    codec. *)
Class TokenLaws `{Base64Url} `{Ed25519} `{ClaimsCodec} : Prop := {
  b64_roundtrip : forall b, b64_decode (b64_encode b) = inl b;
  b64_no_dot : forall b, lacks dot (b64_encode b);
  ed_correct : forall sk m, ed_verify (ed_public sk) m (ed_sign sk m) = true;
  ed_sig_length : forall sk m, length (ed_sign sk m) = 64%nat;
  claims_roundtrip : forall c j, claims_to_vec c = inl j -> claims_from_slice j = inl c;
  header_is_eddsa : exists j v, b64_decode JWT_HEADER_B64 = inl j /\ value_from_slice j = inl v /\
    json_get v "alg" ≫= as_str = Some "EdDSA"
}.

Section TokenSpec.
Context `{Fmt} `{Base64Url} `{Ed25519} `{ClaimsCodec}.

Lemma wrap_ok {A : Type} f (r : A + string) a : wrap f r = Ok a <-> r = inl a.
Proof. destruct r; simpl; split; congruence. Qed.

Lemma header_no_dot : lacks dot JWT_HEADER_B64.
Proof. repeat (split; [discriminate|]). exact I. Qed.

Lemma signed_parts (h c g : string) :
  lacks dot h -> lacks dot c -> splitn3 dot ((h +:+ "." +:+ c) +:+ "." +:+ g) = [h; c; g].
Proof. intros. rewrite append_assoc. change (("." +:+ c) +:+ "." +:+ g) with ("." +:+ (c +:+ "." +:+ g)). by apply splitn3_parts. Qed.

(** C40. A token an issuer signs is accepted by it with the same claims until it
    expires, and refused as expired from then on. *)
Theorem issued_token_verifies `{!TokenLaws} (sk : list byte) (claims : TokenClaims) (token : string) (now : Z) :
  issue (issuer_from_key sk) claims = Ok token ->
  verify (issuer_from_key sk) now token = if tc_exp claims <=? now then Err TokenExpired else Ok claims.
Proof.
  unfold issue, sign_encoded. destruct (claims_to_vec claims) as [j|e] eqn:Hj; [|done].
  cbn [secret_bytes issuer_from_key]. destruct (Nat.eqb (length sk) 32); cbn [negb]; [|done].
  intros Hok. assert (token = (JWT_HEADER_B64 +:+ "." +:+ b64_encode j) +:+ "." +:+
    b64_encode (ed_sign sk (as_bytes (JWT_HEADER_B64 +:+ "." +:+ b64_encode j)))) as -> by congruence.
  unfold verify. destruct header_is_eddsa as (hj & hv & Hh1 & Hh2 & Hh3).
  rewrite signed_parts by (apply header_no_dot || apply b64_no_dot).
  rewrite Hh1. cbn [wrap rbind]. rewrite Hh2. cbn [wrap rbind]. rewrite bool_decide_eq_true_2 by done. cbn [negb].
  rewrite b64_roundtrip. cbn [wrap rbind]. rewrite ed_sig_length. cbn [Nat.eqb negb verifying_key issuer_from_key].
  rewrite ed_correct. cbn [negb]. rewrite b64_roundtrip. cbn [wrap rbind].
  by rewrite (claims_roundtrip _ _ Hj).
Qed.

(** Whatever is accepted was signed: the token has three parts, its header
    names EdDSA, its 64 signature bytes verify over the first two parts under
    the issuer's key, the claims are those of the second part and have not
    expired. *)
Theorem accepted_token_was_signed (i : TokenIssuer) (now : Z) (token : string) (claims : TokenClaims) :
  verify i now token = Ok claims ->
  exists h c g sig header json,
    splitn3 dot token = [h; c; g] /\ b64_decode g = inl sig /\ length sig = 64%nat /\
    ed_verify (verifying_key i) (as_bytes (h +:+ "." +:+ c)) sig = true /\
    b64_decode h = inl header /\ (exists v, value_from_slice header = inl v /\
      json_get v "alg" ≫= as_str = Some "EdDSA") /\
    b64_decode c = inl json /\ claims_from_slice json = inl claims /\ now < tc_exp claims.
Proof.
  unfold verify. destruct (splitn3 dot token) as [|h [|c [|g [|]]]] eqn:Hs; try done.
  intros (hj & Hh%wrap_ok & (hv & Hv%wrap_ok & Hk)%rbind_ok)%rbind_ok.
  rewrite guard_ok, negb_false_iff, bool_decide_eq_true in Hk. destruct Hk as (Halg & (sig & Hsig%wrap_ok & Hk)%rbind_ok).
  rewrite !guard_ok, !negb_false_iff in Hk. destruct Hk as (Hlen%Nat.eqb_eq & Hver & (json & Hc%wrap_ok & (cl & Hcl%wrap_ok & Hk)%rbind_ok)%rbind_ok).
  rewrite guard_ok in Hk. destruct Hk as (Hexp & [= <-]). bool_to_prop.
  exists h, c, g, sig, hj, json. split_and!; try done. by exists hv.
Qed.
End TokenSpec.

(** *** The revocation list over time *)

Inductive rl_op : Type :=
| RRevoke (jti : string) (exp : Z)
| RMark (jti : string) (exp : Z)
| RClean (now : Z).

Definition rl_step (e : RevocationList) (op : rl_op) : RevocationList :=
  match op with
  | RRevoke jti exp => revoke e jti exp
  | RMark jti exp => (check_and_mark_used e jti exp).1
  | RClean now => cleanup e now
  end.

(** An operation that neither prunes the entry of [jti] before [exp] nor
    replaces it by one that may be pruned earlier. *)
Definition rl_keeps (jti : string) (exp : Z) (op : rl_op) : Prop :=
  match op with
  | RRevoke j x => j = jti -> exp <= x
  | RMark _ _ => True
  | RClean now => now < exp
  end.

Lemma rl_step_keeps jti exp op e x :
  rl_keeps jti exp op -> e !! jti = Some x -> exp <= x -> exists y, rl_step e op !! jti = Some y /\ exp <= y.
Proof.
  intros Hk Hx Hle. destruct op as [j z|j z|now]; simpl in *.
  - unfold revoke. destruct (decide (j = jti)) as [->|Hne].
    + exists z. rewrite lookup_insert_eq. auto.
    + exists x. by rewrite lookup_insert_ne.
  - unfold check_and_mark_used. destruct (e !! j) eqn:Hj; simpl; [by exists x|].
    exists x. rewrite lookup_insert_ne by congruence. done.
  - exists x. split; [|done]. apply map_lookup_filter_Some. split; [done|]. simpl. lia.
Qed.

(** A single-use token is accepted once: after it was marked as used, no
    sequence of revocations, uses of any tokens and prunings before its
    expiry lets it be marked again. *)
Theorem single_use_token_accepted_once (e e1 : RevocationList) (jti : string) (exp exp' : Z) (ops : list rl_op) :
  check_and_mark_used e jti exp = (e1, Ok tt) -> Forall (rl_keeps jti exp) ops ->
  check_and_mark_used (fold_left rl_step ops e1) jti exp' = (fold_left rl_step ops e1, Err TokenRevoked) /\
  is_revoked_jti (fold_left rl_step ops e1) jti = true.
Proof.
  intros Hc Hops. assert (exists x, e1 !! jti = Some x /\ exp <= x) as Hx.
  { unfold check_and_mark_used in Hc. destruct (e !! jti); [done|]. injection Hc as <-.
    exists exp. by rewrite lookup_insert_eq. }
  clear Hc. revert e1 Hx. induction Hops as [|op ops Hop _ IH]; intros e1 (x & Hx & Hle); simpl.
  - unfold check_and_mark_used, is_revoked_jti. by rewrite Hx, bool_decide_eq_true_2 by done.
  - apply IH. by eapply rl_step_keeps.
Qed.

Lemma single_use_token_accepted_once_witness :
  check_and_mark_used (fold_left rl_step [RMark "b" 3; RClean 9] (<["a" := 10]> ∅)) "a" 10 =
    (fold_left rl_step [RMark "b" 3; RClean 9] (<["a" := 10]> ∅), Err TokenRevoked).
Proof.
  apply (single_use_token_accepted_once ∅ (<["a" := 10]> ∅) "a" 10 10 [RMark "b" 3; RClean 9]).
  - reflexivity.
  - repeat constructor.
Defined.

(** *** OIDC *)

(** An OIDC identity is accepted only from a configured issuer, for that
    issuer's audience, unexpired, under RS256 and with a signature over the
    first two parts that verifies under an RSA key of the issuer's key set. *)
Theorem oidc_identity_is_attested `{Fmt} `{Base64Url} `{ClaimsCodec} `{OidcEnv} (trusted : list TrustedIssuer)
    (now verified : Z) (token : string) (r : AttestationResult) :
  verify_oidc_attestation trusted now verified token = Ok r ->
  exists h c g header claims ti ks jwk exp,
    splitn3 dot token = [h; c; g] /\
    (exists b, b64_decode h = inl b /\ value_from_slice b = inl header) /\
    (exists b, b64_decode c = inl b /\ value_from_slice b = inl claims) /\
    json_get header "alg" ≫= as_str = Some "RS256" /\
    ti ∈ trusted /\ json_get claims "iss" ≫= as_str = Some (ti_issuer_url ti) /\
    audience_ok (json_get claims "aud") (ti_required_audience ti) = true /\
    json_get claims "exp" ≫= as_i64_json = Some exp /\ now < exp /\
    fetch_jwks (trim_slashes (ti_issuer_url ti) +:+ "/.well-known/jwks.json") = Keys ks /\
    jwk ∈ ks /\ jk_key_type jwk = "RSA" /\ verify_rs256 h c g jwk = Ok tt /\
    json_get claims "sub" ≫= as_str = Some (at_identity r) /\ at_type r = Oidc.
Proof.
  unfold verify_oidc_attestation. destruct (splitn3 dot token) as [|h [|c [|g [|]]]] eqn:Hs; try done.
  intros (hb & Hhb%wrap_ok & (header & Hh%wrap_ok & Hk)%rbind_ok)%rbind_ok.
  cbv zeta in Hk. rewrite guard_ok, negb_false_iff, bool_decide_eq_true in Hk. destruct Hk as (Halg & Hk).
  apply rbind_ok in Hk as (cb & Hcb%wrap_ok & (claims & Hc%wrap_ok & (iss & Hiss%ok_or_ok & Hk)%rbind_ok)%rbind_ok).
  apply rbind_ok in Hk as (sub & Hsub%ok_or_ok & (exp & Hexp%ok_or_ok & (ti & Hti%ok_or_ok & Hk)%rbind_ok)%rbind_ok).
  rewrite !guard_ok, negb_false_iff in Hk. destruct Hk as (Haud & Hnow & Hk). bool_to_prop.
  apply List.find_some in Hti as [Hin Heq]. bool_to_prop. subst iss.
  destruct (fetch_jwks _) as [| | | |ks] eqn:Hf; try done.
  apply rbind_ok in Hk as (jwk & Hjwk%ok_or_ok & ([] & Hver & [= <-])%rbind_ok).
  assert (jwk ∈ ks /\ jk_key_type jwk = "RSA") as [Hkin Hrsa].
  { unfold find_jwk, is_rsa in Hjwk.
    assert (forall p, List.find p ks = Some jwk -> (forall k, p k = true -> is_rsa k = true) ->
      jwk ∈ ks /\ jk_key_type jwk = "RSA") as Hfind.
    { intros p [Hi Hp]%List.find_some Himp. split; [by apply list_elem_of_In|].
      apply Himp in Hp. unfold is_rsa in Hp. by bool_to_prop. }
    destruct (json_get header "kid" ≫= as_str) as [kid|]; [|by eapply Hfind].
    destruct (List.find _ ks) as [k|] eqn:E; [|by eapply Hfind].
    injection Hjwk as ->. eapply Hfind; [exact E|]. intros k' [Hk' _]%andb_prop. exact Hk'. }
  exists h, c, g, header, claims, ti, ks, jwk, exp. split_and!; [done|by eexists|by eexists|..]; try done.
  - unfold unwrap_or in Halg. destruct (json_get header "alg" ≫= as_str); [by subst|discriminate].
  - by apply list_elem_of_In.
Qed.

(** ** Concrete crates *)

(** Hexadecimal for base64, a signature scheme whose signature is 64 zero
    bytes, and a codec that knows one set of claims. *)
Definition hex64 : Base64Url :=
  {| b64_encode := bytes_to_hex;
     b64_decode := fun s => match hex_to_bytes (E:=unit) s with
                            | Ok (Some b) => inl b
                            | _ => if bool_decide (s = JWT_HEADER_B64) then inl (as_bytes "H") else inr "bad"
                            end |}.

Definition zero_sig : Ed25519 :=
  {| ed_public := fun sk => sk; ed_sign := fun _ _ => replicate 64 Byte.x00;
     ed_verify := fun _ _ sig => bool_decide (sig = replicate 64 Byte.x00) |}.

Definition demo_claims : TokenClaims :=
  mkTokenClaims "gate" "agent" "svc" 100 50 "jti-1" ["read"] "01" [] true.

Definition oidc_claims : Json :=
  JObject [("aud", JArray [JString "cdp"]); ("exp", JNumber (PosInt 100)); ("iss", JString "https://idp/");
           ("sub", JString "agent")].

#[local] Instance claims_eq_dec : EqDecision TokenClaims.
Proof. solve_decision. Defined.

Definition one_claims : ClaimsCodec :=
  {| claims_to_vec := fun c => if bool_decide (c = demo_claims) then inl (as_bytes "C") else inr "no";
     claims_from_slice := fun _ => inl demo_claims;
     claims_to_value := fun _ => inr "no"; value_to_vec := fun _ => inr "no";
     value_from_slice := fun b => if bool_decide (b = as_bytes "H") then inl (JObject [("alg", JString "EdDSA")])
                                  else if bool_decide (b = as_bytes "R") then inl (JObject [("alg", JString "RS256")])
                                  else inl oidc_claims |}.

Definition one_idp : OidcEnv :=
  {| fetch_jwks := fun url => if bool_decide (url = "https://idp/.well-known/jwks.json")
       then Keys [mkJwkKey None "EC" None None None; mkJwkKey (Some "k1") "RSA" (Some "c1") (Some "03") None]
       else FetchError "unreachable";
     RsaKey := unit; rsa_new := fun _ _ => inl tt; rsa_signature := fun b => inl b;
     rsa_verify := fun _ _ sig => bool_decide (sig = [Byte.x00]) |}.

Lemma hex_no_dot l : lacks dot (bytes_to_hex l).
Proof. induction l as [|b l IH]; [exact I|]. destruct b; (split; [discriminate|]); (split; [discriminate|]); exact IH. Qed.

#[local] Existing Instances plain_fmt hex64 zero_sig one_claims one_idp.

#[local] Instance demo_token_laws : TokenLaws.
Proof.
  split; simpl.
  - intros b. by rewrite hex_roundtrip.
  - apply hex_no_dot.
  - intros sk m. vm_compute. reflexivity.
  - done.
  - intros c j. destruct (bool_decide (c = demo_claims)) eqn:E; [|done]. intros _. by bool_to_prop; subst.
  - eexists _, _. split_and!; vm_compute; reflexivity.
Qed.

Definition demo_secret : list byte := replicate 32 Byte.x07.

Lemma issued_token_verifies_witness :
  exists token, issue (issuer_from_key demo_secret) demo_claims = Ok token /\
    verify (issuer_from_key demo_secret) 60 token = Ok demo_claims /\
    verify (issuer_from_key demo_secret) 100 token = Err TokenExpired.
Proof.
  destruct (issue (issuer_from_key demo_secret) demo_claims) as [token|e|] eqn:E; [|discriminate E..].
  exists token. split; [reflexivity|]. split.
  - exact (issued_token_verifies demo_secret demo_claims token 60 E).
  - exact (issued_token_verifies demo_secret demo_claims token 100 E).
Defined.

Lemma accepted_token_was_signed_witness :
  exists h c g, splitn3 dot (JWT_HEADER_B64 +:+ ".43." +:+ bytes_to_hex (replicate 64 Byte.x00)) = [h; c; g].
Proof.
  destruct (accepted_token_was_signed (issuer_from_key demo_secret) 60
    (JWT_HEADER_B64 +:+ ".43." +:+ bytes_to_hex (replicate 64 Byte.x00)) demo_claims)
    as (h & c & g & sig & header & json & Hs & _); [vm_compute; reflexivity|].
  exists h, c, g. exact Hs.
Defined.

Lemma oidc_identity_is_attested_witness :
  exists ti ks jwk, ti ∈ [mkTrustedIssuer "idp" "https://idp/" "cdp"] /\
    fetch_jwks (trim_slashes (ti_issuer_url ti) +:+ "/.well-known/jwks.json") = Keys ks /\ jwk ∈ ks /\
    jk_key_type jwk = "RSA".
Proof.
  destruct (oidc_identity_is_attested [mkTrustedIssuer "idp" "https://idp/" "cdp"] 60 0 "52.43.00"
    (mkAttestationResult "agent" Oidc 0 (<["aud" := "cdp"]> (<["iss" := "https://idp/"]> ∅))))
    as (h & c & g & header & claims & ti & ks & jwk & exp & _ & _ & _ & _ & Hti & _ & _ & _ & _ & Hf & Hj & Hr & _);
    [vm_compute; reflexivity|].
  exists ti, ks, jwk. split; [exact Hti|]. split; [exact Hf|]. split; [exact Hj|exact Hr].
Defined.
