(* ===== verification/Mtls.v ===== *)
(** * mTLS: client certificates and their identity

    [verify_mtls_attestation] of [cdp-token/src/validator.rs] and
    [cdp-gate/src/tls_listener.rs].  The [x509-cert] and [rustls] crates are
    classes: a parsed certificate is its subject's attributes and its
    extensions; a handshake gives the peer's chain. *)

From S2P Require Import Prelude StateM RustStr AuditLog GateAgent Token.

#[local] Arguments String.append !_ _ /.

(** ** Certificates *)

(** An attribute of the subject: its OID, and its value read as a UTF-8 or as
    a printable string. *)
Record Attribute : Type := mkAttribute { atv_oid : string; atv_utf8 : option string; atv_printable : option string }.

Inductive GeneralName : Type :=
| DnsName (s : string)
| Rfc822Name (s : string)
| OtherName.

(** An extension: its OID, and its value read as a list of names. *)
Record Extension : Type := mkExtension { ex_oid : string; ex_names : option (list GeneralName) }.

Record Certificate : Type := mkCertificate {
  subject : list (list Attribute); extensions : option (list Extension)
}.

Class X509 : Type := { from_der : list byte -> Certificate + string }.

Definition OID_COMMON_NAME : string := "2.5.4.3".
Definition OID_SUBJECT_ALT_NAME : string := "2.5.29.17".

Section Attestation.
Context `{X509} `{Sha256}.

(** One relative name of the subject, until a common name is read. *)
Fixpoint common_name_in (rdn : list Attribute) : option string :=
  match rdn with
  | [] => None
  | atv :: rest =>
      if bool_decide (atv_oid atv = OID_COMMON_NAME) then
        match atv_utf8 atv with
        | Some s => Some s
        | None => match atv_printable atv with
                  | Some s => Some s
                  | None => common_name_in rest
                  end
        end
      else common_name_in rest
  end.

(** The ['outer] loop. *)
Fixpoint common_name_of (rdns : list (list Attribute)) : string :=
  match rdns with
  | [] => EmptyString
  | rdn :: rest => match common_name_in rdn with Some s => s | None => common_name_of rest end
  end.

(** The names of every subject-alternative-name extension that decodes. *)
Definition san_names (exts : option (list Extension)) : list GeneralName :=
  match exts with
  | None => []
  | Some exts =>
      flat_map (fun ext => if bool_decide (ex_oid ext = OID_SUBJECT_ALT_NAME) then default [] (ex_names ext) else []) exts
  end.

Definition dns_names (names : list GeneralName) : list string :=
  omap (fun n => match n with DnsName s => Some s | _ => None end) names.
Definition emails (names : list GeneralName) : list string :=
  omap (fun n => match n with Rfc822Name s => Some s | _ => None end) names.

(** [metadata.insert(..)] when there is something to insert. *)
Definition insert_joined (key : string) (values : list string) (metadata : gmap string string) : gmap string string :=
  if bool_decide (values = []) then metadata else <[key := join "," values]> metadata.

Definition verify_mtls_attestation (now : Z) (cert_der : list byte) : result AttestationResult TokenError :=
  let! cert := wrap (fun e => InvalidCertificate ("DER parse error: " +:+ e)) (from_der cert_der) in
  let cn := common_name_of (subject cert) in
  let names := san_names (extensions cert) in
  let san_dns_names := dns_names names in
  let san_emails := emails names in
  let fingerprint := bytes_to_hex (sha256 cert_der) in
  let identity :=
    if negb (bool_decide (cn = EmptyString)) then cn
    else match san_dns_names with
         | dns :: _ => dns
         | [] => fingerprint
         end in
  let metadata := insert_joined "san_email" san_emails
                    (insert_joined "san_dns" san_dns_names {["fingerprint" := fingerprint]}) in
  Ok (mkAttestationResult identity Mtls now metadata).

(** ** The listener's view *)

Definition REMOTE_MAX_TTL_SECONDS : Z := 300.
Definition REMOTE_SINGLE_USE : bool := true.
Definition REMOTE_DELEGATION_ALLOWED : bool := false.

Record TlsListenerConfig : Type := mkTlsListenerConfig {
  tl_bind_address : string; tl_bind_port : Z; server_cert_path : string; server_key_path : string;
  client_ca_cert_path : string; require_client_cert : bool
}.

Definition tls_config_new (cert key ca : string) : TlsListenerConfig :=
  mkTlsListenerConfig "127.0.0.1" 9443 cert key ca true.

Record ClientIdentity : Type := mkClientIdentity {
  common_name : option string; ci_san_dns_names : list string; ci_san_emails : list string;
  certificate_fingerprint : string; issuer : string
}.

Definition comma : Ascii.ascii := Ascii.ascii_of_N 44.

(** [metadata.get(key).map(|s| s.split(',')..).unwrap_or_default()] *)
Definition split_joined (metadata : gmap string string) (key : string) : list string :=
  match metadata !! key with Some s => split comma s | None => [] end.

Definition parse_cert_fields (now : Z) (cert_der : list byte) : string * list string * list string * string :=
  match verify_mtls_attestation now cert_der with
  | Ok res =>
      (at_identity res, split_joined (at_metadata res) "san_dns", split_joined (at_metadata res) "san_email",
       unwrap_or (at_metadata res !! "issuer") "unknown")
  | _ => (EmptyString, [], [], "unknown")
  end.

(** [chain] is what [peer_certificates] gives. *)
Definition extract_client_identity (now : Z) (chain : option (list (list byte))) : result ClientIdentity string :=
  let! certs := ok_or chain "no peer certificates in mTLS stream" in
  let! cert_der := ok_or (head certs) "empty certificate chain" in
  let fingerprint := bytes_to_hex (sha256 cert_der) in
  let '(cn, dns, mails, iss) := parse_cert_fields now cert_der in
  Ok (mkClientIdentity (if bool_decide (cn = EmptyString) then None else Some cn) dns mails fingerprint iss).

(** [rustls] and sockets: [S] is a TLS server configuration, [T] a bound
    socket, [St] an accepted stream. *)
Class TlsCrates (X S T St : Type) : Type := {
  pem_file_certs : string -> M X string (list (list byte) + string);
  pem_file_key : string -> M X string (list byte);
  root_store_add : list (list byte) -> list byte -> list (list byte) + string;
  client_verifier : list (list byte) -> unit + string;
  server_config : list (list byte) -> list (list byte) -> list byte -> S + string;
  parse_socket_addr : string -> string + string;
  tcp_bind : string -> M X string T;
  local_addr : T -> string + string;
  tcp_accept : T -> M X string (St * string);
  tls_accept : S -> St -> M X string St;
  peer_certificates : St -> option (list (list byte))
}.

Section Listener.
Context {X S T St : Type} `{TlsCrates X S T St}.

Definition lift_lis {A : Type} (what : string) (r : A + string) : M X GateError A :=
  lift (match r with inl a => Ok a | inr e => Err (GateListener (what +:+ e)) end).

Definition load_certs (path : string) : M X GateError (list (list byte)) :=
  certs ← map_errM (fun e => GateListener ("failed to read cert file " +:+ to_string_lossy path +:+ ": " +:+ e))
            (pem_file_certs path);
  lift_lis "PEM cert parse error: " certs.

Definition load_private_key (path : string) : M X GateError (list byte) :=
  map_errM (fun e => GateListener ("failed to load private key from " +:+ to_string_lossy path +:+ ": " +:+ e))
    (pem_file_key path).

Fixpoint add_roots (store cas : list (list byte)) : M X GateError (list (list byte)) :=
  match cas with
  | [] => mret store
  | ca :: rest =>
      store' ← lift_lis "failed to add client CA cert: " (root_store_add store ca);
      add_roots store' rest
  end.

Record TlsListener : Type := mkTlsListener { tls_inner : T; tls_acceptor : S; tls_bind_addr : string }.

Definition tls_bind (c : TlsListenerConfig) : M X GateError TlsListener :=
  server_certs ← load_certs (server_cert_path c);
  server_key ← load_private_key (server_key_path c);
  client_ca_certs ← load_certs (client_ca_cert_path c);
  root_store ← add_roots [] client_ca_certs;
  _ ← lift_lis "client verifier build failed: " (client_verifier root_store);
  cfg ← lift_lis "TLS config error: " (server_config root_store server_certs server_key);
  addr ← lift_lis "invalid bind address: " (parse_socket_addr (tl_bind_address c +:+ ":" +:+ display_Z (tl_bind_port c)));
  inner ← map_errM (fun e => GateListener ("failed to bind mTLS listener on " +:+ addr +:+ ": " +:+ e)) (tcp_bind addr);
  bound ← lift_lis "local_addr failed: " (local_addr inner);
  mret (mkTlsListener inner cfg bound).

Definition tls_listener_accept (now : Z) (l : TlsListener) : M X GateError (St * ClientIdentity) :=
  conn ← map_errM (fun e => GateListener ("TCP accept failed: " +:+ e)) (tcp_accept (tls_inner l));
  stream ← map_errM (fun e => GateListener ("TLS handshake failed from " +:+ conn.2 +:+ ": " +:+ e))
             (tls_accept (tls_acceptor l) conn.1);
  identity ← lift (map_err (fun e => AgentVerification ("client identity extraction: " +:+ e))
                     (extract_client_identity now (peer_certificates stream)));
  mret (stream, identity).
End Listener.
End Attestation.

(** ** Lemmas *)

(** Text without commas comes apart where it was joined. *)
Lemma split_join_comma l : Forall (fun s => lacks comma s) l -> l <> [] -> split comma (join "," l) = l.
Proof.
  unfold split. intros Hl Hne.
  assert (forall s cur rest, lacks comma s ->
    split_from comma cur (s +:+ String comma rest) = (cur +:+ s) :: split_from comma EmptyString rest) as Hsep.
  { intros s. induction s as [|c s IH]; intros cur rest Hs.
    - change (EmptyString +:+ String comma rest) with (String comma rest). cbn [split_from].
      rewrite bool_decide_eq_true_2 by done. by rewrite append_nil_r.
    - destruct Hs as [Hc Hs]. change (String c s +:+ String comma rest) with (String c (s +:+ String comma rest)).
      cbn [split_from]. rewrite bool_decide_eq_false_2 by done. rewrite IH by done. by rewrite append_assoc. }
  assert (forall s cur, lacks comma s -> split_from comma cur s = [cur +:+ s]) as Hlast.
  { intros s. induction s as [|c s IH]; intros cur Hs; cbn [split_from]; [by rewrite append_nil_r|].
    destruct Hs as [Hc Hs]. rewrite bool_decide_eq_false_2 by done. rewrite IH by done. by rewrite append_assoc. }
  induction l as [|x [|y l] IH]; [done|..].
  - apply Forall_cons in Hl as [Hx _]. by rewrite (Hlast _ _ Hx).
  - apply Forall_cons in Hl as [Hx Hl]. change (join "," (x :: y :: l)) with (x +:+ String comma (join "," (y :: l))).
    rewrite Hsep by done. cbn [String.append]. f_equal. by apply IH.
Qed.

Section MtlsSpec.
Context `{X509} `{Sha256}.

(** The joined names under their key, and nothing under other keys. *)
Lemma insert_joined_lookup key vs m k :
  insert_joined key vs m !! k = if bool_decide (key = k) && negb (bool_decide (vs = [])) then Some (join "," vs) else m !! k.
Proof.
  unfold insert_joined. destruct (bool_decide (vs = [])); simpl; [by rewrite andb_false_r|]. rewrite andb_true_r.
  case_bool_decide; [subst; by rewrite lookup_insert_eq|by rewrite lookup_insert_ne].
Qed.

(** The name a certificate answers to. *)
Definition certificate_identity (cert_der : list byte) (cert : Certificate) : string :=
  if negb (bool_decide (common_name_of (subject cert) = EmptyString)) then common_name_of (subject cert)
  else match dns_names (san_names (extensions cert)) with
       | dns :: _ => dns
       | [] => bytes_to_hex (sha256 cert_der)
       end.

Lemma parse_cert_fields_parsed now cert_der cert : from_der cert_der = inl cert ->
  let names := san_names (extensions cert) in
  let recover vs := if bool_decide (vs = []) then [] else split comma (join "," vs) in
  parse_cert_fields now cert_der =
    (certificate_identity cert_der cert, recover (dns_names names), recover (emails names), "unknown").
Proof.
  intros Hc names recover. unfold parse_cert_fields, verify_mtls_attestation, certificate_identity. rewrite Hc.
  cbn [wrap rbind at_identity at_metadata]. unfold split_joined. fold names. rewrite !insert_joined_lookup. unfold recover.
  destruct (bool_decide (dns_names names = [])), (bool_decide (emails names = [])); reflexivity.
Qed.

(** ** Properties *)

(** The identity of an mTLS client is that of the first certificate of its
    chain: its hash, the DNS and mail names of its extensions in order, and as
    a name its common name, failing that its first DNS name, failing that the
    hash; all provided that no alternative name contains a comma. *)
Theorem client_identity_is_the_certificates (now : Z) (cert_der : list byte) (chain : list (list byte))
    (cert : Certificate) :
  from_der cert_der = inl cert ->
  let names := san_names (extensions cert) in
  Forall (lacks comma) (dns_names names) -> Forall (lacks comma) (emails names) ->
  exists ci, extract_client_identity now (Some (cert_der :: chain)) = Ok ci /\
    ci_san_dns_names ci = dns_names names /\ ci_san_emails ci = emails names /\
    certificate_fingerprint ci = bytes_to_hex (sha256 cert_der) /\
    (certificate_identity cert_der cert <> EmptyString -> common_name ci = Some (certificate_identity cert_der cert)).
Proof.
  intros Hc names Hd He. unfold extract_client_identity. cbn [ok_or rbind head].
  rewrite (parse_cert_fields_parsed now _ _ Hc). fold names.
  assert (forall vs, Forall (lacks comma) vs -> (if bool_decide (vs = []) then [] else split comma (join "," vs)) = vs) as Hr
    by (intros vs Hvs; case_bool_decide; [done|by apply split_join_comma]).
  rewrite !Hr by done. eexists. split; [done|]. split_and!; try done.
  intros Hne. cbn [common_name]. by rewrite bool_decide_eq_false_2.
Qed.

(** A DNS name with a comma in it comes out as two names. *)
Theorem comma_splits_alternative_name (now : Z) (cert_der : list byte) (attrs : list (list Attribute)) :
  from_der cert_der = inl (mkCertificate attrs (Some [mkExtension OID_SUBJECT_ALT_NAME (Some [DnsName "evil,ok.example"])])) ->
  exists ci, extract_client_identity now (Some [cert_der]) = Ok ci /\ ci_san_dns_names ci = ["evil"; "ok.example"].
Proof.
  intros Hc. unfold extract_client_identity. cbn [ok_or rbind head].
  rewrite (parse_cert_fields_parsed now _ _ Hc). cbn -[bytes_to_hex]. by eexists.
Qed.

(** A certificate without any name is given its own hash as common name. *)
Theorem nameless_certificate_gets_common_name (now : Z) (cert_der : list byte) :
  from_der cert_der = inl (mkCertificate [] None) -> sha256 cert_der <> [] ->
  exists ci, extract_client_identity now (Some [cert_der]) = Ok ci /\
    common_name ci = Some (bytes_to_hex (sha256 cert_der)).
Proof.
  intros Hc Hne. unfold extract_client_identity. cbn [ok_or rbind head].
  rewrite (parse_cert_fields_parsed now _ _ Hc). eexists. split; [done|].
  unfold certificate_identity. cbn -[bytes_to_hex]. rewrite bool_decide_eq_false_2; [done|].
  destruct (sha256 cert_der); [done|]. by unfold bytes_to_hex, hex_byte.
Qed.
End MtlsSpec.

(** ** A certificate to evaluate *)

#[local] Existing Instance id_sha.
#[local] Instance one_cert : X509 :=
  {| from_der := fun _ => inl (mkCertificate [[mkAttribute OID_COMMON_NAME (Some "worker-1") None]]
       (Some [mkExtension OID_SUBJECT_ALT_NAME (Some [DnsName "a.example"; Rfc822Name "ops@a.example"; DnsName "b.example"])])) |}.

Lemma client_identity_is_the_certificates_witness :
  exists ci, extract_client_identity 0 (Some [[Byte.x30]]) = Ok ci /\
    ci_san_dns_names ci = ["a.example"; "b.example"] /\ common_name ci = Some "worker-1".
Proof.
  destruct (client_identity_is_the_certificates 0 [Byte.x30] []
    (mkCertificate [[mkAttribute OID_COMMON_NAME (Some "worker-1") None]]
       (Some [mkExtension OID_SUBJECT_ALT_NAME (Some [DnsName "a.example"; Rfc822Name "ops@a.example"; DnsName "b.example"])])))
    as (ci & He & Hd & _ & _ & Hn).
  - reflexivity.
  - repeat constructor; discriminate.
  - repeat constructor; discriminate.
  - exists ci. split; [exact He|]. split; [exact Hd|]. apply Hn. vm_compute. discriminate.
Defined.
