(* ===== verification/VaultProtocol.v ===== *)
(** * cdp-vault: errors, messages and their framing

    [cdp-vault/src/lib.rs] (the data) and [protocol.rs].  The functions of
    [protocol.rs] are generic in the reader and the writer; [Read] and
    [Write] are those traits, with in-memory buffers as their first
    instances.  Errors of [std::io] are their texts. *)

From S2P Require Import Prelude StateM RustStr Crypto AuditLog.

#[local] Arguments String.append !_ _ /.

(** ** Errors and data *)

Inductive VaultError : Type :=
| Locked (m : string)
| NotFound (m : string)
| Subprocess (m : string)
| Protocol (m : string)
| BitwardenCli (m : string)
| VaultDecryption (m : string)
| VaultIo (m : string)
| Sandbox (m : string)
| VaultCrypto (m : string).

(** [e.to_string()], from the [#[error]] attributes. *)
Definition vault_error_to_string (e : VaultError) : string :=
  match e with
  | Locked m => "vault locked: " +:+ m
  | NotFound m => "credential not found: " +:+ m
  | Subprocess m => "subprocess error: " +:+ m
  | Protocol m => "protocol error: " +:+ m
  | BitwardenCli m => "bw CLI error: " +:+ m
  | VaultDecryption m => "decryption failed: " +:+ m
  | VaultIo m => "I/O error: " +:+ m
  | Sandbox m => "sandbox error: " +:+ m
  | VaultCrypto m => "crypto error: " +:+ m
  end.

Record CredentialRef : Type := mkCredentialRef {
  cr_id : string;
  cr_name : string;
  cr_vault_type : string
}.

Record EncryptedCredential : Type := mkEncryptedCredential {
  ec_data : list byte;
  ec_nonce : list byte
}.

(** ** The I/O traits *)

Class Read (R : Type) : Type := { read_exact : nat -> M R string (list byte) }.

Class Write (W : Type) : Type := {
  write_all : list byte -> M W string unit;
  flush : M W string unit
}.

(** [&[u8]] as a reader: a short buffer is consumed and reported. *)
#[export] Instance slice_read : Read (list byte) := {|
  read_exact := fun n buf =>
    if (n <=? length buf)%nat then (drop n buf, Ok (take n buf))
    else ([], Err "failed to fill whole buffer")
|}.

(** [Vec<u8>] as a writer. *)
#[export] Instance vec_write : Write (list byte) := {|
  write_all := fun bs buf => (buf ++ bs, Ok tt);
  flush := mret tt
|}.

(** ** Framing *)

Definition MAX_MESSAGE_SIZE : Z := 16 * 1024 * 1024.

(** [write_message] and [write_message_sync]. *)
Definition write_message {W : Type} `{Write W} (payload : list byte) : M W string unit :=
  if MAX_MESSAGE_SIZE <? Z.of_nat (length payload) then fail "payload exceeds max message size"
  else
    _ ← write_all (be_bytes 4 (N.of_nat (length payload) mod 2 ^ 32));
    _ ← write_all payload;
    flush.

(** [read_message] and [read_message_sync]; [?] turns an I/O error into
    [VaultError::Io]. *)
Definition read_message {R : Type} `{Read R} : M R VaultError (list byte) :=
  len_buf ← map_errM VaultIo (read_exact 4);
  let len := from_be_bytes len_buf in
  if MAX_MESSAGE_SIZE <? Z.of_N len then
    fail (Protocol ("message length " +:+ display_Z (Z.of_N len) +:+
                    " exceeds maximum allowed size " +:+ display_Z MAX_MESSAGE_SIZE))
  else map_errM VaultIo (read_exact (N.to_nat len)).

(** ** Commands and responses *)

Inductive VaultCommand : Type :=
| Init (key : string)
| Unlock (password : string)
| List
| Fetch (ref_id : string)
| Exists (ref_id : string).

Inductive VaultResponse : Type :=
| ROk (data : Json)
| RError (message : string).

(** [serde_json::to_vec] and [from_slice] at the two message types. *)
Class VaultCodec : Type := {
  command_to_vec : VaultCommand -> list byte + string;
  command_from_slice : list byte -> VaultCommand + string;
  response_to_vec : VaultResponse -> list byte + string;
  response_from_slice : list byte -> VaultResponse + string
}.

(** The payloads the worker answers with: null, a boolean, and objects or
    arrays of objects whose members are strings. *)
Definition string_fields (fields : list (string * Json)) : bool :=
  forallb (fun kv => match kv.2 with JString _ => true | _ => false end) fields.

Definition flat_object (v : Json) : bool :=
  match v with JObject fields => string_fields fields | _ => false end.

Definition flat (v : Json) : bool :=
  match v with
  | JNull | JBool _ => true
  | JArray items => forallb flat_object items
  | JObject fields => string_fields fields
  | _ => false
  end.

(** What serde documents of derived codecs: what was serialized reads back. *)
Class VaultCodecLaws `{VaultCodec} : Prop := {
  command_roundtrip : forall c b, command_to_vec c = inl b -> command_from_slice b = inl c;
  response_ok_roundtrip : forall v b,
    flat v = true -> response_to_vec (ROk v) = inl b -> response_from_slice b = inl (ROk v);
  response_error_roundtrip : forall m b,
    response_to_vec (RError m) = inl b -> response_from_slice b = inl (RError m)
}.

(** The [STANDARD] alphabet of the base64 crate. *)
Class Base64Std : Type := {
  std_encode : list byte -> string;
  std_decode : string -> list byte + string
}.

Class Base64StdLaws `{Base64Std} : Prop := {
  std_roundtrip : forall l, std_decode (std_encode l) = inl l
}.

(** ** Lemmas *)

(** A frame as it is on the wire. *)
Definition frame4 (payload : list byte) : list byte :=
  be_bytes 4 (N.of_nat (length payload)) ++ payload.

Definition fits (payload : list byte) : Prop := Z.of_nat (length payload) <= MAX_MESSAGE_SIZE.

Lemma length_frame4 p : length (frame4 p) = (4 + length p)%nat.
Proof. unfold frame4. by rewrite length_app, length_be_bytes. Qed.

Lemma fits_u32 p : fits p -> (N.of_nat (length p) < 256 ^ 4)%N.
Proof. unfold fits, MAX_MESSAGE_SIZE. intros ?. change (256 ^ 4)%N with 4294967296%N. lia. Qed.

Lemma frame4_u32 p : fits p -> be_bytes 4 (N.of_nat (length p) mod 2 ^ 32) ++ p = frame4 p.
Proof. intros Hp%fits_u32. unfold frame4. by rewrite N.mod_small. Qed.

Lemma write_message_vec (buf p : list byte) : fits p -> write_message p buf = (buf ++ frame4 p, Ok tt).
Proof.
  intros Hp. unfold write_message. rewrite (proj2 (Z.ltb_ge _ _)) by exact Hp.
  rewrite !bind_eq. cbn [write_all vec_write flush].
  rewrite bind_eq, <- (frame4_u32 p Hp), app_assoc. done.
Qed.

Lemma write_message_oversize {W} `{Write W} p (w : W) :
  ~ fits p -> write_message p w = (w, Err "payload exceeds max message size").
Proof.
  intros Hp. unfold write_message. rewrite (proj2 (Z.ltb_lt _ _)); [done|]. unfold fits in Hp. lia.
Qed.

Lemma read_exact_app (l r : list byte) : read_exact (length l) (l ++ r) = (r, Ok l).
Proof.
  cbn. rewrite (proj2 (Nat.leb_le _ _)) by (rewrite length_app; lia).
  by rewrite drop_app_length, take_app_length.
Qed.

Lemma read_exact_app4 x (r : list byte) : read_exact 4 (be_bytes 4 x ++ r) = (r, Ok (be_bytes 4 x)).
Proof. rewrite <- (read_exact_app (be_bytes 4 x) r). by rewrite length_be_bytes. Qed.

Lemma read_message_frame (p rest : list byte) :
  fits p -> read_message (frame4 p ++ rest) = (rest, Ok p).
Proof.
  intros Hp. unfold read_message, frame4. rewrite <- app_assoc, bind_eq.
  unfold map_errM at 1. rewrite read_exact_app4. cbn [map_err].
  rewrite from_be_bytes_be by by apply fits_u32.
  rewrite (proj2 (Z.ltb_ge _ _)) by (unfold fits in Hp; lia).
  unfold map_errM. by rewrite Nat2N.id, read_exact_app.
Qed.

(** A longer frame is refused after its four length bytes. *)
Lemma read_message_oversize (x : N) (rest : list byte) :
  MAX_MESSAGE_SIZE < Z.of_N x -> (x < 2 ^ 32)%N ->
  exists m, read_message (be_bytes 4 x ++ rest) = (rest, Err (Protocol m)).
Proof.
  intros Hx Hu. unfold read_message. rewrite bind_eq. unfold map_errM at 1.
  rewrite read_exact_app4. cbn [map_err]. rewrite from_be_bytes_be by exact Hu.
  rewrite (proj2 (Z.ltb_lt _ _)) by done. eexists. done.
Qed.

(** Whatever arrives, a message handed out is within the limit. *)
Lemma read_message_bounded (buf : list byte) rest p :
  read_message buf = (rest, Ok p) -> fits p /\ buf = take 4 buf ++ p ++ rest.
Proof.
  unfold read_message. rewrite bind_ok. intros (b1 & lb & H1 & H2).
  unfold map_errM in H1. cbn [read_exact slice_read] in H1. destruct (4 <=? length buf)%nat eqn:E; [|discriminate].
  injection H1 as <- <-. destruct (MAX_MESSAGE_SIZE <? _) eqn:Em; [discriminate|]. bool_to_prop.
  unfold map_errM in H2. cbn [read_exact slice_read] in H2.
  destruct (N.to_nat _ <=? _)%nat eqn:El; [|discriminate]. apply Nat.leb_le in El.
  injection H2 as <- <-. split.
  - unfold fits. rewrite length_take. lia.
  - by rewrite !take_drop.
Qed.

Lemma std_frames_inj p q r s : fits p -> fits q -> frame4 p ++ r = frame4 q ++ s -> p = q /\ r = s.
Proof.
  intros Hp Hq Heq. pose proof (read_message_frame p r Hp) as H1.
  rewrite Heq, read_message_frame in H1 by done. by injection H1.
Qed.

(** Read a number of messages. *)
Fixpoint read_messages (n : nat) : M (list byte) VaultError (list (list byte)) :=
  match n with
  | O => mret []
  | S n => p ← read_message; ps ← read_messages n; mret (p :: ps)
  end.

Lemma write_messages_vec (ps : list (list byte)) buf :
  Forall fits ps -> for_each ps write_message buf = (buf ++ concat (map frame4 ps), Ok tt).
Proof.
  intros Hps. revert buf. induction Hps as [|p ps Hp _ IH]; intros buf; simpl; [by rewrite app_nil_r|].
  rewrite bind_eq, write_message_vec by done. by rewrite IH, <- app_assoc.
Qed.

Lemma read_messages_frames (ps : list (list byte)) rest :
  Forall fits ps -> read_messages (length ps) (concat (map frame4 ps) ++ rest) = (rest, Ok ps).
Proof.
  intros Hps. induction Hps as [|p ps Hp _ IH]; [done|].
  cbn [length read_messages map concat]. rewrite bind_eq, <- app_assoc, read_message_frame by done. by rewrite bind_eq, IH.
Qed.

(** ** Properties *)

(** C26. Messages survive the wire: any sequence of payloads of at most 16 MiB,
    written one after the other, reads back in order and leaves what follows
    untouched; a longer payload is refused by the writer before a byte is
    written and by the reader before its body is read, and nothing longer is
    ever handed out. *)
Theorem messages_survive_framing (ps : list (list byte)) (rest big : list byte) (declared : N) :
  Forall fits ps -> ~ fits big -> MAX_MESSAGE_SIZE < Z.of_N declared -> (declared < 2 ^ 32)%N ->
  (exists wire, for_each ps write_message [] = (wire, Ok tt) /\
     read_messages (length ps) (wire ++ rest) = (rest, Ok ps)) /\
  write_message big rest = (rest, Err "payload exceeds max message size") /\
  (exists m, read_message (be_bytes 4 declared ++ rest) = (rest, Err (Protocol m))) /\
  (forall buf rest' p, read_message buf = (rest', Ok p) -> fits p).
Proof.
  intros Hps Hbig Hd Hu. split; [|split; [|split]].
  - exists (concat (map frame4 ps)). split; [by apply (write_messages_vec ps [])|by apply read_messages_frames].
  - by apply write_message_oversize.
  - by apply read_message_oversize.
  - intros buf rest' p Hr. by apply read_message_bounded in Hr as [? _].
Qed.

Lemma messages_survive_framing_witness :
  exists wire, for_each [as_bytes "one"; []; as_bytes "three"] write_message [] = (wire, Ok tt) /\
    read_messages 3 (wire ++ as_bytes "tail") = (as_bytes "tail", Ok [as_bytes "one"; []; as_bytes "three"]).
Proof.
  apply (messages_survive_framing [as_bytes "one"; []; as_bytes "three"] (as_bytes "tail")
           (repeat Byte.x00 (Z.to_nat (MAX_MESSAGE_SIZE + 1))) (Z.to_N (MAX_MESSAGE_SIZE + 1))).
  - repeat constructor; by vm_compute.
  - unfold fits. rewrite repeat_length, Z2Nat.id; [lia|]. by vm_compute.
  - by vm_compute.
  - by vm_compute.
Defined.
