(* ===== verification/VaultBitwarden.v ===== *)
(** * cdp-vault: the Bitwarden backend

    [cdp-vault/src/bitwarden.rs].  The [bw] binary, the random generator and
    serde's reading of what [bw] prints are classes; [CommandExecutor] is the
    source's trait of that name, and [bw_cli_execute] its implementation over
    processes. *)

From S2P Require Import Prelude StateM RustStr Crypto AuditLog VaultProtocol.

#[local] Arguments String.append !_ _ /.

(** ** What [bw] prints *)

Record BwUri : Type := mkBwUri { bu_match_type : option Z; bu_uri : string }.

Record BwLogin : Type := mkBwLogin {
  bl_username : option string;
  bl_password : option string;
  bl_uris : option (list BwUri)
}.

Record BwField : Type := mkBwField { bf_name : string; bf_value : string; bf_field_type : Z }.

Record BwItem : Type := mkBwItem {
  bi_id : string;
  bi_name : string;
  bi_item_type : Z;
  bi_login : option BwLogin;
  bi_notes : option string;
  bi_fields : option (list BwField)
}.

(** [serde_json::from_str] at [BwItem] and [Vec<BwItem>]. *)
Class BwJson : Type := {
  bw_item_from_str : string -> BwItem + string;
  bw_items_from_str : string -> list BwItem + string
}.

(** A fallible call of a crate whose error is wrapped. *)
Definition vault_wrap {A : Type} (f : string -> VaultError) (r : A + string) : result A VaultError :=
  match r with inl a => Ok a | inr e => Err (f e) end.

(** ** Running commands *)

(** The trait [CommandExecutor]: arguments, standard input, environment. *)
Class CommandExecutor (X : Type) : Type := {
  execute : list string -> option (list byte) -> option (list (string * string)) ->
            M X VaultError string
}.

Class OsRng (X : Type) : Type := { gen_bytes : nat -> X -> X * list byte }.

Definition draw {X E : Type} `{OsRng X} (n : nat) : M X E (list byte) := fun x =>
  let '(x', l) := gen_bytes n x in (x', Ok l).

(** [std::process::Command] as far as the executor sets it up. *)
Record Command : Type := mkCommand {
  program : string;
  args : list string;
  env : list (string * string);
  stdin_piped : bool
}.

Record Output : Type := mkOutput {
  success : bool;
  status_text : string;
  stdout : list byte;
  stderr : list byte
}.

(** Processes; a child is known by a handle. *)
Class ProcessOs (X : Type) : Type := {
  spawn : Command -> M X string Z;
  write_stdin : Z -> list byte -> M X string unit;
  wait_with_output : Z -> M X string Output
}.

(** [String::from_utf8_lossy(bytes).into_owned()] *)
Definition from_utf8_lossy (l : list byte) : string := of_bytes (utf8_lossy l).

(** [std::str::from_utf8]: text is what lossy decoding leaves alone. *)
Definition from_utf8 (l : list byte) : option string :=
  if bool_decide (utf8_lossy l = l) then Some (of_bytes l) else None.

(** [<BwCliExecutor as CommandExecutor>::execute] *)
Definition bw_cli_execute {X : Type} `{ProcessOs X} (cli_path : string) (args_ : list string)
    (stdin_data : option (list byte)) (env_ : option (list (string * string)))
    : M X VaultError string :=
  let cmd := mkCommand cli_path args_
    (("BW_NOINTERACTION", "true") :: unwrap_or env_ [])
    (bool_decide (is_Some stdin_data)) in
  child ← map_errM (fun e => Subprocess ("failed to spawn bw: " +:+ e)) (spawn cmd);
  _ ← match stdin_data with
      | Some data => map_errM (fun e => Subprocess ("write to bw stdin: " +:+ e)) (write_stdin child data)
      | None => mret tt
      end;
  output ← map_errM (fun e => Subprocess ("wait_with_output: " +:+ e)) (wait_with_output child);
  if negb (success output) then
    fail (BitwardenCli ("bw exited with " +:+ status_text output +:+ ": " +:+
                        trim (from_utf8_lossy (stderr output))))
  else mret (from_utf8_lossy (stdout output)).

Definition BwCliExecutor {X : Type} `{ProcessOs X} (cli_path : string) : CommandExecutor X :=
  {| execute := bw_cli_execute cli_path |}.

(** ** The backend *)

Record BitwardenBackend (X : Type) : Type := mkBitwardenBackend {
  executor : X;
  session_key : option (list byte);
  ipc_encrypt_key : option (list byte)
}.
Arguments mkBitwardenBackend {X}.
Arguments executor {X}.
Arguments session_key {X}.
Arguments ipc_encrypt_key {X}.

Definition is_empty (s : string) : bool := bool_decide (s = EmptyString).

(** The message is only searched for ASCII words without k, so ASCII case
    folding finds what Unicode case folding would. *)
Definition is_not_found_error (msg : string) : bool :=
  let lower := lowercase msg in
  str_contains lower "not found" || str_contains lower "no items".

Definition vault_type_of (item_type : Z) : string :=
  if item_type =? 1 then "login" else if item_type =? 2 then "note"
  else if item_type =? 3 then "card" else if item_type =? 4 then "identity" else "unknown".

Fixpoint first_field (fields : list BwField) : option string :=
  match fields with
  | [] => None
  | f :: rest => if negb (is_empty (bf_value f)) then Some (bf_value f) else first_field rest
  end.

(** Each [if let ... && !x.is_empty()] either returns or falls through. *)
Definition extract_credential_value (item : BwItem) : result string VaultError :=
  let fall_3 :=
    match (match bi_fields item with Some fs => first_field fs | None => None end) with
    | Some v => Ok v
    | None => Err (NotFound ("item '" +:+ bi_id item +:+ "' has no extractable credential value"))
    end in
  let fall_2 :=
    match bi_notes item with
    | Some notes => if negb (is_empty notes) then Ok notes else fall_3
    | None => fall_3
    end in
  match bi_login item with
  | Some login =>
      match bl_password login with
      | Some password => if negb (is_empty password) then Ok password else fall_2
      | None => fall_2
      end
  | None => fall_2
  end.

Section Backend.
Context {X : Type} `{CommandExecutor X} `{OsRng X} `{Aead} `{BwJson}.

Abbreviation B := (BitwardenBackend X).

Definition set_executor (x : X) (b : B) : B :=
  mkBitwardenBackend x (session_key b) (ipc_encrypt_key b).

Definition on_executor {A : Type} (m : M X VaultError A) : M B VaultError A :=
  zoom executor set_executor m.

(** [BitwardenBackend::new] *)
Definition backend_new (x : X) : B := mkBitwardenBackend x None None.

Definition set_ipc_key {E : Type} (key : list byte) : M B E unit :=
  modify (fun b => mkBitwardenBackend (executor b) (session_key b) (Some key)).

Definition set_session (key : list byte) (b : B) : B :=
  mkBitwardenBackend (executor b) (Some key) (ipc_encrypt_key b).

(** [BitwardenBackend::unlock] *)
Definition backend_unlock (password : string) : M B VaultError unit :=
  output ← on_executor (execute ["unlock"; "--raw"] (Some (as_bytes password)) None);
  let session := trim output in
  if is_empty session then fail (BitwardenCli "bw unlock returned an empty session key")
  else modify (set_session (as_bytes session)).

Definition require_session : M B VaultError (list byte) := fun b =>
  (b, ok_or (session_key b) (Locked "vault is locked; call unlock first")).

(** [require_session()?] and the UTF-8 check every caller repeats. *)
Definition session_str : M B VaultError string :=
  session ← require_session;
  lift (ok_or (from_utf8 session) (Locked "session key is not valid UTF-8")).

(** [BitwardenBackend::list] *)
Definition backend_list : M B VaultError (list CredentialRef) :=
  session ← session_str;
  output ← on_executor (execute ["list"; "items"; "--raw"] None (Some [("BW_SESSION", session)]));
  items ← lift (vault_wrap (fun e => Protocol ("failed to parse bw list output: " +:+ e))
                  (bw_items_from_str output));
  mret (map (fun item => mkCredentialRef (bi_id item) (bi_name item) (vault_type_of (bi_item_type item))) items).

Definition encrypt_value (plaintext : list byte) : M B VaultError EncryptedCredential :=
  b ← get;
  key ← lift (ok_or (ipc_encrypt_key b) (Locked "IPC encryption key not set; Init not received"));
  nonce ← on_executor (draw 12);
  data ← lift (vault_wrap (fun e => VaultDecryption ("ChaCha20-Poly1305 encrypt: " +:+ e))
                 (aead_encrypt key nonce plaintext));
  mret (mkEncryptedCredential data nonce).

(** [BitwardenBackend::fetch] *)
Definition backend_fetch (ref_id : string) : M B VaultError EncryptedCredential :=
  session ← session_str;
  output ← on_executor (execute ["get"; "item"; ref_id; "--raw"] None (Some [("BW_SESSION", session)]));
  item ← lift (vault_wrap (fun e => Protocol ("failed to parse bw get item output: " +:+ e))
                 (bw_item_from_str output));
  value ← lift (extract_credential_value item);
  encrypt_value (as_bytes value).

(** [BitwardenBackend::exists] *)
Definition backend_exists (ref_id : string) : M B VaultError bool :=
  session ← session_str;
  r ← attempt (on_executor (execute ["get"; "item"; ref_id; "--raw"] None (Some [("BW_SESSION", session)])));
  match r with
  | Ok _ => mret true
  | Err (BitwardenCli msg) => if is_not_found_error msg then mret false else fail (BitwardenCli msg)
  | Err e => fail e
  | Panic => lift Panic
  end.
End Backend.

(** ** Lemmas *)

(** Everything an item could stand for, in the documented order. *)
Definition candidate_values (item : BwItem) : list string :=
  (match bi_login item with Some l => option_list (bl_password l) | None => [] end) ++
  option_list (bi_notes item) ++
  map bf_value (unwrap_or (bi_fields item) []).

Definition nonempty (s : string) : bool := negb (is_empty s).

Lemma find_app {A : Type} (p : A -> bool) (l k : list A) :
  List.find p (l ++ k) = match List.find p l with Some x => Some x | None => List.find p k end.
Proof. induction l as [|x l IH]; simpl; [done|]. by destruct (p x). Qed.

Lemma first_field_find fs : first_field fs = List.find nonempty (map bf_value fs).
Proof. induction fs as [|f fs IH]; simpl; [done|]. unfold nonempty at 1. by rewrite IH. Qed.

(** The cascade of early returns takes the first non-empty candidate. *)
Lemma extract_credential_value_first item :
  extract_credential_value item =
  match List.find nonempty (candidate_values item) with
  | Some v => Ok v
  | None => Err (NotFound ("item '" +:+ bi_id item +:+ "' has no extractable credential value"))
  end.
Proof.
  unfold extract_credential_value, candidate_values. rewrite !find_app.
  destruct (bi_login item) as [[? [pw|] ?]|], (bi_notes item) as [n|], (bi_fields item) as [fs|];
    simpl; rewrite ?first_field_find; unfold nonempty;
    repeat match goal with |- context [negb (is_empty ?x)] => destruct (negb (is_empty x)) end; done.
Qed.

Section BackendLemmas.
Context {X : Type} `{CommandExecutor X} `{OsRng X} `{Aead} `{BwJson}.

(** Without a session nothing is run and nothing is returned. *)
Lemma session_str_locked (b : BitwardenBackend X) :
  session_key b = None -> session_str b = (b, Err (Locked "vault is locked; call unlock first")).
Proof. intros Hs. unfold session_str, require_session. rewrite bind_eq. by rewrite Hs. Qed.

Lemma session_str_state (b : BitwardenBackend X) : (session_str b).1 = b.
Proof.
  unfold session_str, require_session. rewrite bind_eq.
  destruct (session_key b) as [l|]; simpl; [|done]. by destruct (from_utf8 l).
Qed.

Lemma backend_locked (b : BitwardenBackend X) ref :
  session_key b = None ->
  backend_fetch ref b = (b, Err (Locked "vault is locked; call unlock first")) /\
  backend_exists ref b = (b, Err (Locked "vault is locked; call unlock first")) /\
  backend_list b = (b, Err (Locked "vault is locked; call unlock first")).
Proof.
  intros Hs%session_str_locked. unfold backend_fetch, backend_exists, backend_list.
  by rewrite !(bind_err _ _ _ _ _ Hs).
Qed.

(** What a successful fetch did: asked [bw] under the session, and sealed the
    item's value under the IPC key and a fresh nonce. *)
Lemma backend_fetch_ok (b b' : BitwardenBackend X) ref enc :
  backend_fetch ref b = (b', Ok enc) ->
  exists sess key x out item value,
    session_key b = Some sess /\ ipc_encrypt_key b = Some key /\
    execute ["get"; "item"; ref; "--raw"] None (Some [("BW_SESSION", of_bytes sess)]) (executor b) = (x, Ok out) /\
    bw_item_from_str out = inl item /\ extract_credential_value item = Ok value /\
    ec_nonce enc = (gen_bytes 12 x).2 /\
    aead_encrypt key (ec_nonce enc) (as_bytes value) = inl (ec_data enc) /\
    b' = set_executor (gen_bytes 12 x).1 b.
Proof.
  unfold backend_fetch. rewrite bind_ok. intros (b0 & s & Hs & Hk).
  assert (b0 = b) as -> by (pose proof (session_str_state b) as Hst; rewrite Hs in Hst; done).
  unfold session_str, require_session in Hs. rewrite bind_ok in Hs.
  destruct Hs as (b1 & sess & Hreq & Hs). injection Hreq as <- Hsess%ok_or_ok.
  apply lift_ok in Hs as [_ Hs%ok_or_ok]. unfold from_utf8 in Hs.
  case_bool_decide; simplify_eq.
  apply bind_ok in Hk as (b1 & out & Hx & Hk). unfold on_executor, zoom in Hx.
  destruct (execute _ _ _ _) as [x r] eqn:Ex. simplify_eq.
  apply bind_ok in Hk as (b1 & item & [-> Hi]%lift_ok & Hk).
  apply bind_ok in Hk as (b1 & value & [-> Hv]%lift_ok & Hk).
  unfold encrypt_value, get in Hk. apply bind_ok in Hk as (b1 & b2 & [= <- <-] & Hk).
  apply bind_ok in Hk as (b1 & key & [-> Hkey%ok_or_ok]%lift_ok & Hk).
  apply bind_ok in Hk as (b1 & nonce & Hn & Hk). unfold on_executor, zoom, draw in Hn. simpl in Hn.
  destruct (gen_bytes 12 x) as [x' l] eqn:Eg. simplify_eq.
  apply bind_ok in Hk as (b1 & data & [-> Hd]%lift_ok & Hk). injection Hk as <- <-.
  unfold vault_wrap in *. destruct (bw_item_from_str out) eqn:?; [|discriminate].
  destruct (aead_encrypt _ _ _) eqn:?; [|discriminate]. simplify_eq/=.
  exists sess, key, x, out, item, value. by rewrite Eg.
Qed.
End BackendLemmas.
