(* ===== verification/VaultWorker.v ===== *)
(** * cdp-vault: the sandboxed worker process

    [cdp-vault/src/sandbox.rs] and [child_main.rs].  The kernel interface
    ([prctl], [setrlimit], [unshare], [close], [/proc/self/fd]) and the
    seccomp compiler are classes. *)

From S2P Require Import Prelude StateM RustStr Crypto AuditLog VaultProtocol VaultBitwarden.

#[local] Arguments String.append !_ _ /.

(** ** The seccomp filter *)

Inductive SeccompAction : Type := Errno (n : Z) | Allow.

(** Every rule is the empty vector: allowed whatever the arguments. *)
Record SeccompFilter : Type := mkSeccompFilter {
  rules : gset Z;
  mismatch_action : SeccompAction;
  match_action : SeccompAction;
  arch : string
}.

(** [libc]'s numbers, [seccompiler] and [std::env::consts::ARCH]. *)
Class Seccomp : Type := {
  syscall_number : string -> Z;
  target_arch : string + string;
  filter_check : SeccompFilter -> option string;
  BpfProgram : Type;
  filter_compile : SeccompFilter -> BpfProgram + string
}.

Definition EPERM : Z := 1.

Definition allowed : list string :=
  [ (* I/O *) "read"; "write"; "close"; "openat"; "fstat"; "newfstatat"; "lseek";
   (* Memory *) "mmap"; "mprotect"; "munmap"; "brk"; "mremap";
   (* Process *) "execve"; "exit_group"; "exit"; "wait4"; "clone3"; "clone"; "getpid"; "getppid";
   "arch_prctl"; "set_tid_address"; "set_robust_list"; "fork"; "vfork";
   (* Socket *) "socket"; "connect"; "sendto"; "recvfrom"; "setsockopt"; "getsockopt"; "bind";
   "getpeername"; "getsockname"; "sendmsg"; "recvmsg";
   (* File system *) "access"; "getcwd"; "readlink"; "readlinkat"; "ioctl"; "fcntl"; "dup"; "dup2";
   "dup3"; "pipe2"; "stat"; "lstat"; "getdents64"; "unlink"; "rename"; "mkdir"; "fchmod"; "fchown";
   "utimensat"; "fallocate"; "ftruncate"; "pread64"; "pwrite64"; "writev"; "readv";
   (* Signal *) "rt_sigaction"; "rt_sigprocmask"; "rt_sigreturn"; "sigaltstack";
   (* Misc *) "futex"; "clock_gettime"; "clock_getres"; "gettimeofday"; "getrandom"; "prlimit64";
   "prctl"; "poll"; "ppoll"; "select"; "pselect6"; "epoll_create1"; "epoll_ctl"; "epoll_wait";
   "epoll_pwait"; "eventfd2"; "nanosleep"; "sched_yield"; "sched_getaffinity"; "getuid"; "geteuid";
   "getgid"; "getegid"; "gettid"; "uname"; "madvise"; "statx"; "rseq"; "membarrier"].

Definition build_seccomp_filter `{Seccomp} : result BpfProgram VaultError :=
  let rules_ := fold_left (fun acc name => {[syscall_number name]} ∪ acc) allowed ∅ in
  let! arch_ := vault_wrap (fun e => Sandbox ("unsupported architecture: " +:+ e)) target_arch in
  let filter := mkSeccompFilter rules_ (Errno EPERM) Allow arch_ in
  match filter_check filter with
  | Some e => Err (Sandbox ("SeccompFilter::new: " +:+ e))
  | None => vault_wrap (fun e => Sandbox ("SeccompFilter compile: " +:+ e)) (filter_compile filter)
  end.

(** ** Entering the sandbox *)

Class SandboxOs `{Seccomp} (X : Type) : Type := {
  set_dumpable_off : M X string unit;
  setrlimit_core_zero : M X string unit;
  unshare_newpid : M X string unit;
  apply_filter : BpfProgram -> M X string unit;
  proc_self_fd : M X string (list string);
  close_fd : Z -> X -> X;
  (** [UnixStream::try_clone] of the socket *)
  try_clone : Z -> M X string unit
}.

Section Sandbox.
Context `{Seccomp} {X : Type} `{!SandboxOs X}.

(** A failed [unshare] is logged and ignored. *)
Definition apply_sandbox (sandbox_enabled : bool) : M X VaultError unit :=
  _ ← map_errM (fun e => Sandbox ("prctl PR_SET_DUMPABLE: " +:+ e)) set_dumpable_off;
  _ ← map_errM (fun e => Sandbox ("setrlimit RLIMIT_CORE: " +:+ e)) setrlimit_core_zero;
  if sandbox_enabled then
    _ ← attempt unshare_newpid;
    bpf ← lift build_seccomp_filter;
    map_errM (fun e => Sandbox ("seccomp apply_filter: " +:+ e)) (apply_filter bpf)
  else mret tt.

Definition minus_sign : Ascii.ascii := Ascii.ascii_of_N 45.

(** [s.parse::<i32>()] *)
Definition parse_i32 (s : string) : option Z :=
  match s with
  | String c (String d s') =>
      if bool_decide (c = minus_sign) then Z.opp <$> parse_digits (2 ^ 31 + 1) 0 (String d s')
      else parse_u (2 ^ 31) s
  | _ => parse_u (2 ^ 31) s
  end.

Definition protected (keep_fd : Z) : list Z := [0; 1; 2; keep_fd].

(** The descriptors the loop closes, from the entries of [/proc/self/fd]. *)
Definition fds_to_close (keep_fd : Z) (entries : list string) : list Z :=
  List.filter (fun fd => negb (contains (protected keep_fd) fd))
    (omap (fun name => parse_i32 (to_string_lossy name)) entries).

(** [3..1024] without the protected ones. *)
Definition fallback_fds (keep_fd : Z) : list Z :=
  List.filter (fun fd => negb (contains (protected keep_fd) fd)) (seqZ 3 (1024 - 3)).

Definition close_extra_fds {E : Type} (keep_fd : Z) : M X E unit :=
  r ← attempt proc_self_fd;
  modify (fun x => fold_left (fun x fd => close_fd fd x)
    (match r with
     | Ok entries => fds_to_close keep_fd entries
     | _ => fallback_fds keep_fd
     end) x).
End Sandbox.

(** ** Dispatching commands *)

(** [serde_json::to_value(refs)]: object members in key order. *)
Definition ref_to_value (r : CredentialRef) : Json :=
  JObject [("id", JString (cr_id r)); ("name", JString (cr_name r));
           ("vault_type", JString (cr_vault_type r))].

Definition refs_to_value (refs : list CredentialRef) : Json := JArray (map ref_to_value refs).

(** The payload of a fetch. *)
Definition credential_payload `{Base64Std} (enc : EncryptedCredential) : Json :=
  JObject [("data", JString (std_encode (ec_data enc))); ("nonce", JString (std_encode (ec_nonce enc)))].

Section Worker.
Context {X : Type} `{CommandExecutor X} `{OsRng X} `{Aead} `{BwJson} `{Base64Std} `{VaultCodec}.

(** [match r { Ok(a) => Ok { data: f(a) }, Err(e) => Error { e.to_string() } }] *)
Definition respond {E A : Type} (f : A -> Json) (m : M (BitwardenBackend X) VaultError A)
    : M (BitwardenBackend X) E VaultResponse :=
  r ← attempt m;
  match r with
  | Ok a => mret (ROk (f a))
  | Err e => mret (RError (vault_error_to_string e))
  | Panic => lift Panic
  end.

Definition dispatch {E : Type} (cmd : VaultCommand) : M (BitwardenBackend X) E VaultResponse :=
  match cmd with
  | Init key =>
      match std_decode key with
      | inl bytes =>
          if Nat.eqb (length bytes) 32 then _ ← set_ipc_key bytes; mret (ROk JNull)
          else mret (RError ("Init key must be 32 bytes, got " +:+ display_Z (Z.of_nat (length bytes))))
      | inr e => mret (RError ("Init key base64 decode error: " +:+ e))
      end
  | Unlock password => respond (fun _ => JNull) (backend_unlock password)
  | List => respond refs_to_value backend_list
  | Fetch ref_id => respond credential_payload (backend_fetch ref_id)
  | Exists ref_id => respond JBool (backend_exists ref_id)
  end.

(** ** The command loop *)

(** The backend and the socket, the two variables the loop carries. *)
Record Worker (S : Type) : Type := mkWorker { wk_backend : BitwardenBackend X; wk_sock : S }.
Arguments mkWorker {S}.
Arguments wk_backend {S}.
Arguments wk_sock {S}.

Context {S : Type} `{Read S} `{Write S}.

(** One turn: [Some code] when the process exits, 101 for a panic. *)
Definition worker_turn (w : Worker S) : Worker S * option Z :=
  match read_message (wk_sock w) with
  | (sock, Ok raw) =>
      let '(backend, response) :=
        match command_from_slice raw with
        | inl cmd => dispatch (E:=Empty_set) cmd (wk_backend w)
        | inr e => (wk_backend w, Ok (RError ("failed to deserialize command: " +:+ e)))
        end in
      match response with
      | Ok response =>
          match response_to_vec response with
          | inr _ => (mkWorker backend sock, Some 1)
          | inl response_bytes =>
              match write_message response_bytes sock with
              | (sock, Ok _) => (mkWorker backend sock, None)
              | (sock, _) => (mkWorker backend sock, Some 0)
              end
          end
      | _ => (mkWorker backend sock, Some 101)
      end
  | (sock, _) => (mkWorker (wk_backend w) sock, Some 0)
  end.

(** [loop { .. }]; [None] is a loop still running after [fuel] turns. *)
Fixpoint worker_loop (fuel : nat) (w : Worker S) : Worker S * option Z :=
  match fuel with
  | O => (w, None)
  | Datatypes.S fuel =>
      match worker_turn w with
      | (w', Some code) => (w', Some code)
      | (w', None) => worker_loop fuel w'
      end
  end.
End Worker.
Arguments mkWorker {X S}.
Arguments wk_backend {X S}.
Arguments wk_sock {X S}.

(** [vault_worker_main]: the sandbox before anything else, then the loop on
    the inherited socket, whose failing clone panics (code 101).  The executor
    runs [bw] at [bw_cli_path]. *)
Definition vault_worker_main `{Seccomp} {X : Type} `{!SandboxOs X} `{ProcessOs X} `{OsRng X} `{Aead} `{BwJson}
    `{Base64Std} `{VaultCodec} {S : Type} `{Read S} `{Write S} (fuel : nat) (socket_fd : Z) (bw_cli_path : string)
    (sandbox_enabled : bool) (x : X) (stream : S) : Worker (X:=X) S * option Z :=
  match apply_sandbox sandbox_enabled x with
  | (x, Ok _) =>
      let '(x, _) := close_extra_fds (E:=Empty_set) socket_fd x in
      match try_clone socket_fd x with
      | (x, Ok _) => worker_loop (H:=BwCliExecutor bw_cli_path) fuel (mkWorker (backend_new x) stream)
      | (x, _) => (mkWorker (backend_new x) stream, Some 101)
      end
  | (x, Err _) => (mkWorker (backend_new x) stream, Some 1)
  | (x, Panic) => (mkWorker (backend_new x) stream, Some 101)
  end.

(** ** A socket in memory *)

(** What the peer has written and what it has yet to read; an empty input is
    end of file. *)
Record Pipe : Type := mkPipe { inb : list byte; outb : list byte }.

#[export] Instance pipe_read : Read Pipe := {|
  read_exact := fun n => zoom inb (fun b p => mkPipe b (outb p)) (read_exact n)
|}.

#[export] Instance pipe_write : Write Pipe := {|
  write_all := fun bs => zoom outb (fun b p => mkPipe (inb p) b) (write_all bs);
  flush := mret tt
|}.

Lemma read_message_pipe (p : Pipe) :
  read_message p = zoom inb (fun b p => mkPipe b (outb p)) read_message p.
Proof.
  unfold read_message, zoom. rewrite !bind_eq. unfold map_errM.
  cbn [read_exact pipe_read]. unfold zoom.
  destruct (read_exact 4 (inb p)) as [b [l|e|]]; cbn [map_err]; try done.
  destruct (MAX_MESSAGE_SIZE <? _); [done|]. cbn [inb].
  by destruct (read_exact (N.to_nat _) b) as [? [?|?|]].
Qed.

Lemma read_message_pipe_frame (p rest out : list byte) :
  fits p -> read_message (mkPipe (frame4 p ++ rest) out) = (mkPipe rest out, Ok p).
Proof. intros Hp. rewrite read_message_pipe. unfold zoom. cbn [inb]. by rewrite read_message_frame. Qed.

Lemma write_message_pipe p (s : Pipe) :
  fits p -> write_message p s = (mkPipe (inb s) (outb s ++ frame4 p), Ok tt).
Proof.
  intros Hp. unfold write_message. rewrite (proj2 (Z.ltb_ge _ _)) by exact Hp.
  rewrite !bind_eq. cbn [write_all pipe_write flush]. unfold zoom.
  cbn [write_all vec_write flush outb inb].
  rewrite bind_eq. cbn [inb outb]. by rewrite <- app_assoc, frame4_u32.
Qed.

(** ** What a command changes *)

Section WorkerLemmas.
Context {X : Type} `{CommandExecutor X} `{OsRng X} `{Aead} `{BwJson} `{Base64Std} `{VaultCodec}.
Abbreviation B := (BitwardenBackend X).

Definition secrets (b : B) : option (list byte) * option (list byte) := (session_key b, ipc_encrypt_key b).

Lemma keeps_on_executor {A : Type} s (m : M X VaultError A) :
  keeps (fun b : B => secrets b = s) (on_executor m).
Proof. intros b Hb. unfold on_executor, zoom. by destruct (m (executor b)). Qed.

Lemma keeps_get (I : B -> Prop) : keeps I (get (E:=VaultError)).
Proof. by intros b. Qed.

Lemma keeps_session_str s : keeps (fun b : B => secrets b = s) session_str.
Proof. intros b Hb. by rewrite session_str_state. Qed.

#[local] Hint Resolve keeps_on_executor keeps_get keeps_session_str : cdp.

Lemma keeps_encrypt_value s v : keeps (fun b : B => secrets b = s) (encrypt_value v).
Proof. unfold encrypt_value. repeat (apply keeps_bind; [auto with cdp|intros ?]). auto with cdp. Qed.

#[local] Hint Resolve keeps_encrypt_value : cdp.

Lemma keeps_list s : keeps (fun b : B => secrets b = s) backend_list.
Proof. unfold backend_list. repeat (apply keeps_bind; [auto with cdp|intros ?]). auto with cdp. Qed.

Lemma keeps_fetch s ref : keeps (fun b : B => secrets b = s) (backend_fetch ref).
Proof. unfold backend_fetch. repeat (apply keeps_bind; [auto with cdp|intros ?]). auto with cdp. Qed.

Lemma keeps_exists s ref : keeps (fun b : B => secrets b = s) (backend_exists ref).
Proof.
  unfold backend_exists. repeat (apply keeps_bind; [auto with cdp|intros ?]).
  repeat break_match; auto with cdp.
Qed.

Lemma keeps_respond {A : Type} s (f : A -> Json) (m : M B VaultError A) :
  keeps (fun b : B => secrets b = s) m -> keeps (fun b : B => secrets b = s) (respond (E:=Empty_set) f m).
Proof.
  intros Hm. unfold respond. apply keeps_bind; [auto with cdp|].
  intros [?|?|]; auto with cdp.
Qed.

Lemma respond_inv {A : Type} (f : A -> Json) (m : M B VaultError A) b b' r :
  respond (E:=Empty_set) f m b = (b', Ok r) ->
  (exists a, m b = (b', Ok a) /\ r = ROk (f a)) \/
  (exists e, m b = (b', Err e) /\ r = RError (vault_error_to_string e)).
Proof.
  unfold respond. rewrite bind_eq. unfold attempt. destruct (m b) as [b1 [a|e|]]; intros [= <- <-]; eauto.
Qed.

Lemma respond_ok {A : Type} (f : A -> Json) (m : M B VaultError A) b b' a :
  m b = (b', Ok a) -> respond (E:=Empty_set) f m b = (b', Ok (ROk (f a))).
Proof. intros Hm. unfold respond. rewrite bind_eq. unfold attempt. by rewrite Hm. Qed.

Lemma respond_err {A : Type} (f : A -> Json) (m : M B VaultError A) b b' e :
  m b = (b', Err e) -> respond (E:=Empty_set) f m b = (b', Ok (RError (vault_error_to_string e))).
Proof. intros Hm. unfold respond. rewrite bind_eq. unfold attempt. by rewrite Hm. Qed.

(** The key after a command and its answer: the last accepted [Init]'s. *)
Definition accepted_key (old : option (list byte)) (cr : VaultCommand * VaultResponse) : option (list byte) :=
  match cr with
  | (Init k, ROk _) => match std_decode k with inl bytes => Some bytes | inr _ => old end
  | _ => old
  end.

Definition unlocked_by (cr : VaultCommand * VaultResponse) : bool :=
  match cr with (Unlock _, ROk _) => true | _ => false end.

Lemma unlock_effect p (b b' : B) r :
  backend_unlock p b = (b', r) ->
  ipc_encrypt_key b' = ipc_encrypt_key b /\ (session_key b' = session_key b \/ r = Ok tt).
Proof.
  unfold backend_unlock. rewrite bind_eq. unfold on_executor, zoom.
  destruct (execute _ _ _ _) as [x [out|e|]]; intros Hr; simplify_eq/=; auto.
  destruct (is_empty (trim out)); unfold fail, modify in Hr; simplify_eq/=; auto.
Qed.

(** Only an accepted [Init] sets the key, only an accepted [Unlock] opens a
    session. *)
Lemma dispatch_effect cmd (b b' : B) r :
  dispatch (E:=Empty_set) cmd b = (b', Ok r) ->
  ipc_encrypt_key b' = accepted_key (ipc_encrypt_key b) (cmd, r) /\
  (session_key b' = session_key b \/ unlocked_by (cmd, r) = true).
Proof.
  intros Hd. assert (Hkeep : forall A (f : A -> Json) m,
    (forall s, keeps (fun b : B => secrets b = s) m) -> respond (E:=Empty_set) f m b = (b', Ok r) ->
    secrets b' = secrets b).
  { intros A f m Hm Hr. pose proof (keeps_respond (secrets b) f m (Hm _) b eq_refl) as Hk.
    by rewrite Hr in Hk. }
  unfold dispatch in Hd. destruct cmd as [key|pw| |ref|ref].
  - destruct (std_decode key) as [bytes|e] eqn:Ek; [|injection Hd as <- <-; auto].
    destruct (length bytes =? 32)%nat; [|injection Hd as <- <-; auto].
    rewrite bind_eq in Hd. injection Hd as <- <-. simpl. rewrite Ek. auto.
  - apply respond_inv in Hd as [(a & Hu & ->)|(e & Hu & ->)]; apply unlock_effect in Hu as [-> [->|He]]; simpl; auto.
    discriminate.
  - apply Hkeep in Hd; [|apply keeps_list]. injection Hd as -> ->. auto.
  - apply Hkeep in Hd; [|intros; apply keeps_fetch]. injection Hd as -> ->. auto.
  - apply Hkeep in Hd; [|intros; apply keeps_exists]. injection Hd as -> ->. auto.
Qed.

(** Commands one after another, with their answers. *)
Fixpoint dispatch_all (cmds : list VaultCommand) : M B Empty_set (list VaultResponse) :=
  match cmds with
  | [] => mret []
  | cmd :: rest => r ← dispatch cmd; rs ← dispatch_all rest; mret (r :: rs)
  end.

Lemma dispatch_all_effect cmds (b b' : B) rs :
  dispatch_all cmds b = (b', Ok rs) ->
  ipc_encrypt_key b' = fold_left accepted_key (combine cmds rs) (ipc_encrypt_key b) /\
  (session_key b' = session_key b \/ existsb unlocked_by (combine cmds rs) = true).
Proof.
  revert b rs. induction cmds as [|cmd cmds IH]; intros b rs Hd; simpl in Hd.
  { injection Hd as <- <-. auto. }
  apply bind_ok in Hd as (b1 & r & Hd1 & Hd). apply bind_ok in Hd as (b2 & rs' & Hd2 & Hd).
  injection Hd as <- <-. apply dispatch_effect in Hd1 as [Hk Hs]. apply IH in Hd2 as [Hk2 Hs2].
  simpl combine. cbn [fold_left existsb]. rewrite <- Hk. split; [done|].
  destruct Hs as [Hs|Hs], Hs2 as [Hs2|Hs2]; rewrite ?Hs, ?Hs2, ?orb_true_r; auto.
Qed.

(** ** Termination of the loop *)

Lemma worker_turn_consumes (w w' : Worker Pipe) :
  worker_turn w = (w', None) -> (length (inb (wk_sock w')) < length (inb (wk_sock w)))%nat.
Proof.
  destruct w as [b p]. unfold worker_turn. cbn [wk_sock wk_backend]. rewrite read_message_pipe. unfold zoom.
  destruct (read_message (inb p)) as [rest [raw|e|]] eqn:Er; [|discriminate..].
  assert (Hlen : (length rest + 4 <= length (inb p))%nat).
  { unfold read_message in Er. rewrite bind_eq in Er. unfold map_errM at 1 in Er. cbn [read_exact slice_read] in Er.
    destruct (4 <=? length (inb p))%nat eqn:E4; [|discriminate]. apply Nat.leb_le in E4. cbn [map_err] in Er.
    destruct (MAX_MESSAGE_SIZE <? _); [discriminate|]. unfold map_errM in Er. cbn [read_exact slice_read] in Er.
    destruct (_ <=? _)%nat; [|discriminate]. injection Er as <- _. rewrite !length_drop. lia. }
  destruct (match command_from_slice raw with inl cmd => _ | inr e => _ end) as [b' [r|[]|]]; [|discriminate].
  destruct (response_to_vec r) as [bs|]; [|discriminate].
  destruct (decide (fits bs)) as [Hf|Hf].
  - rewrite write_message_pipe by done. intros [= <-]. simpl. lia.
  - rewrite write_message_oversize by done. discriminate.
Qed.

Lemma worker_loop_terminates fuel (w : Worker Pipe) :
  (length (inb (wk_sock w)) < fuel)%nat -> exists w' code, worker_loop fuel w = (w', Some code).
Proof.
  revert w. induction fuel as [|fuel IH]; intros w Hf; [lia|]. simpl.
  destruct (worker_turn w) as [w' [code|]] eqn:Et; [eauto|].
  apply IH. apply worker_turn_consumes in Et. lia.
Qed.
End WorkerLemmas.

(** ** Properties *)

(** A fetch is answered with a credential only after an accepted [Unlock] and
    an accepted [Init], and what it carries is the item's value sealed under
    the key of the last accepted [Init]; the other commands in between, in
    any order and with any answers, do not matter. *)
Theorem credentials_need_handshake {X : Type} `{CommandExecutor X} `{OsRng X} `{Aead} `{BwJson} `{Base64Std}
    (x : X) (cmds : list VaultCommand) b rs ref b' v :
  dispatch_all cmds (backend_new x) = (b, Ok rs) ->
  dispatch (E:=Empty_set) (Fetch ref) b = (b', Ok (ROk v)) ->
  existsb unlocked_by (combine cmds rs) = true /\
  exists key enc item value,
    fold_left accepted_key (combine cmds rs) None = Some key /\
    v = credential_payload enc /\
    extract_credential_value item = Ok value /\
    aead_encrypt key (ec_nonce enc) (as_bytes value) = inl (ec_data enc).
Proof.
  intros Hall Hf. apply dispatch_all_effect in Hall as [Hk Hs].
  apply respond_inv in Hf as [(enc & Hf & Hv)|(e & _ & Hv)]; [|discriminate]. injection Hv as ->.
  apply backend_fetch_ok in Hf as (sess & key & y & out & item & value & Hsess & Hkey & _ & _ & Hval & _ & Hseal & _).
  split.
  - destruct Hs as [Hs|Hs]; [|done]. rewrite Hsess in Hs. discriminate.
  - exists key, enc, item, value. simpl in Hk. by rewrite <- Hk.
Qed.

(** C28. The worker always exits: over a socket whose peer has stopped writing, the
    loop ends within one turn per input byte, and a sandbox that could not be
    set up ends the process with code 1 before a byte is read. *)
Theorem worker_exits `{Seccomp} {X : Type} `{!SandboxOs X} `{ProcessOs X} `{OsRng X} `{Aead} `{BwJson}
    `{Base64Std} `{VaultCodec} (fd : Z) (cli : string) (sandbox : bool) (x : X) (p : Pipe) (fuel : nat) :
  (length (inb p) < fuel)%nat ->
  (exists w code, vault_worker_main fuel fd cli sandbox x p = (w, Some code)) /\
  (forall x' e, apply_sandbox sandbox x = (x', Err e) ->
     vault_worker_main fuel fd cli sandbox x p = (mkWorker (backend_new x') p, Some 1)).
Proof.
  intros Hf. unfold vault_worker_main. split.
  - destruct (apply_sandbox sandbox x) as [x' [[]|e|]]; [|eauto..].
    destruct (close_extra_fds fd x') as [x'' ?]. destruct (try_clone fd x'') as [x3 [[]|e|]]; [|eauto..].
    by apply worker_loop_terminates.
  - intros x' e He. by rewrite He.
Qed.
