(* ===== verification/VaultManager.v ===== *)
(** * cdp-vault: the parent's side of the worker

    [cdp-vault/src/subprocess.rs].  The socket to the worker is any channel
    with the [Read] and [Write] traits; [Link] is the channel whose other end
    runs the worker's own loop, and over it the manager's operations are
    shown to be the backend's.  [mstep] is the manager under callers that
    share it, where [unlock] takes its lock twice. *)

From S2P Require Import Prelude StateM RustStr Crypto AuditLog VaultProtocol VaultBitwarden VaultWorker.

#[local] Arguments String.append !_ _ /.

(** ** State *)

Inductive VaultStatus : Type :=
| SLocked
| SUnlocked
| SCrashed (reason : string).

(** The two halves of the stream are one socket. *)
Record SubprocessInner (C : Type) : Type := mkSubprocessInner { status : VaultStatus; sock : C }.
Arguments mkSubprocessInner {C}.
Arguments status {C}.
Arguments sock {C}.

Record SubprocessManager (C : Type) : Type := mkSubprocessManager {
  inner : SubprocessInner C;
  ipc_key : list byte
}.
Arguments mkSubprocessManager {C}.
Arguments inner {C}.
Arguments ipc_key {C}.

(** [serde_json::from_value::<Vec<CredentialRef>>]: an object with the three
    string members, or an array of three strings; the text of its error is
    the crate's. *)
Class SerdeText : Type := { from_value_error : Json -> string }.

Definition ref_from_value (v : Json) : option CredentialRef :=
  match v with
  | JArray [JString a; JString b; JString c] => Some (mkCredentialRef a b c)
  | JObject _ =>
      a ← json_get v "id" ≫= as_str;
      b ← json_get v "name" ≫= as_str;
      c ← json_get v "vault_type" ≫= as_str;
      Some (mkCredentialRef a b c)
  | _ => None
  end.

Definition refs_from_value `{SerdeText} (v : Json) : list CredentialRef + string :=
  match v with
  | JArray items =>
      match mapM ref_from_value items with Some l => inl l | None => inr (from_value_error v) end
  | _ => inr (from_value_error v)
  end.

Section Manager.
Context {C : Type} `{Read C} `{Write C} `{VaultCodec} `{Base64Std} `{SerdeText}.

Abbreviation Mgr := (SubprocessManager C).

Definition on_sock {E A : Type} (m : M C E A) : M (SubprocessInner C) E A :=
  zoom sock (fun c i => mkSubprocessInner (status i) c) m.

Definition set_status {E : Type} (s : VaultStatus) : M (SubprocessInner C) E unit :=
  modify (fun i => mkSubprocessInner s (sock i)).

(** Under the lock: refuse after a crash, write, read, decode. *)
Definition exchange (payload : list byte) : M (SubprocessInner C) VaultError VaultResponse :=
  st ← gets status;
  match st with
  | SCrashed reason => fail (Locked ("subprocess crashed: " +:+ reason))
  | _ =>
      w ← attempt (on_sock (write_message payload));
      match w with
      | Ok _ =>
          r ← attempt (on_sock read_message);
          match r with
          | Ok raw =>
              lift (vault_wrap (fun e => Protocol ("deserialize response: " +:+ e)) (response_from_slice raw))
          | Err e =>
              _ ← set_status (SCrashed (vault_error_to_string e));
              fail (Subprocess ("read from vault subprocess: " +:+ vault_error_to_string e))
          | Panic => lift Panic
          end
      | Err e =>
          _ ← set_status (SCrashed e);
          fail (Subprocess ("write to vault subprocess: " +:+ e))
      | Panic => lift Panic
      end
  end.

Definition send_command (cmd : VaultCommand) : M Mgr VaultError VaultResponse :=
  payload ← lift (vault_wrap (fun e => Protocol ("serialize command: " +:+ e)) (command_to_vec cmd));
  zoom inner (fun i m => mkSubprocessManager i (ipc_key m)) (exchange payload).

Definition ok_or_err (response : VaultResponse) : result Json VaultError :=
  match response with
  | ROk data => Ok data
  | RError message => Err (Subprocess message)
  end.

(** The end of [unlock], which takes the lock again. *)
Definition mark_unlocked : M Mgr VaultError unit :=
  zoom inner (fun i m => mkSubprocessManager i (ipc_key m)) (set_status SUnlocked).

(** [SubprocessManager::unlock] when no other call takes the lock in between;
    the answer is dropped. *)
Definition manager_unlock (password : string) : M Mgr VaultError unit :=
  _ ← send_command (Unlock password);
  mark_unlocked.

(** [list_credentials] *)
Definition manager_list : M Mgr VaultError (list CredentialRef) :=
  response ← send_command List;
  data ← lift (ok_or_err response);
  lift (vault_wrap (fun e => Protocol ("deserialize credential list: " +:+ e)) (refs_from_value data)).

(** The second half of [fetch]: the sealed credential from the payload. *)
Definition decode_credential (data : Json) : result EncryptedCredential VaultError :=
  let! data_b64 := ok_or (json_get data "data" ≫= as_str) (Protocol "missing 'data' in fetch response") in
  let! nonce_b64 := ok_or (json_get data "nonce" ≫= as_str) (Protocol "missing 'nonce' in fetch response") in
  let! data_bytes := vault_wrap (fun e => Protocol ("base64 decode 'data': " +:+ e)) (std_decode data_b64) in
  let! nonce_bytes := vault_wrap (fun e => Protocol ("base64 decode 'nonce': " +:+ e)) (std_decode nonce_b64) in
  if negb (Nat.eqb (length nonce_bytes) 12) then
    Err (Protocol ("nonce must be 12 bytes, got " +:+ display_Z (Z.of_nat (length nonce_bytes))))
  else Ok (mkEncryptedCredential data_bytes nonce_bytes).

Definition manager_fetch (ref_id : string) : M Mgr VaultError EncryptedCredential :=
  response ← send_command (Fetch ref_id);
  data ← lift (ok_or_err response);
  lift (decode_credential data).

Definition manager_exists (ref_id : string) : M Mgr VaultError bool :=
  response ← send_command (Exists ref_id);
  data ← lift (ok_or_err response);
  lift (ok_or (as_bool data) (Protocol "exists response is not a boolean")).
End Manager.

(** ** Spawning *)

(** Sockets and processes as [spawn] uses them. *)
Class SpawnOs (X C : Type) : Type := {
  socketpair : M X string (Z * Z);
  fill_bytes : nat -> X -> X * list byte;
  getfd_flags : Z -> X -> Z;
  setfd_flags : Z -> Z -> X -> X;
  spawn_process : string -> list string -> M X string unit;
  close_parent : Z -> X -> X;
  set_nonblocking : Z -> M X string unit;
  stream_from_std : Z -> M X string C
}.

Definition FD_CLOEXEC : Z := 1.

(** [SubprocessManager::spawn], without its last step. *)
Definition spawn_worker {X C : Type} `{SpawnOs X C} (bw_cli_path : string) (sandbox_enabled : bool)
    : M X VaultError (SubprocessManager C) :=
  fds ← map_errM (fun e => Subprocess ("socketpair: " +:+ e)) socketpair;
  key ← (fun x => let '(x', k) := fill_bytes 32 x in (x', Ok k));
  let '(parent_fd, child_fd) := fds in
  _ ← modify (fun x => let flags := getfd_flags child_fd x in
                       if 0 <=? flags then setfd_flags child_fd (Z.land flags (Z.lnot FD_CLOEXEC)) x else x);
  _ ← map_errM (fun e => Subprocess ("spawn vault worker: " +:+ e))
        (spawn_process "/proc/self/exe"
           ["--vault-worker"; display_Z child_fd; bw_cli_path; if sandbox_enabled then "1" else "0"]);
  _ ← modify (close_parent child_fd);
  _ ← map_errM (fun e => Subprocess ("set_nonblocking: " +:+ e)) (set_nonblocking parent_fd);
  c ← map_errM (fun e => Subprocess ("UnixStream::from_std: " +:+ e)) (stream_from_std parent_fd);
  mret (mkSubprocessManager (mkSubprocessInner SLocked c) key).

(** The handshake: only a failed exchange stops it. *)
Definition init_handshake {C : Type} `{Read C} `{Write C} `{VaultCodec} `{Base64Std} (m : SubprocessManager C)
    : result (SubprocessManager C) VaultError :=
  match send_command (Init (std_encode (ipc_key m))) m with
  | (m', Ok _) => Ok m'
  | (_, Err e) => Err e
  | (_, Panic) => Panic
  end.

Definition manager_spawn {X C : Type} `{SpawnOs X C} `{Read C} `{Write C} `{VaultCodec} `{Base64Std}
    (bw_cli_path : string) (sandbox_enabled : bool) : M X VaultError (SubprocessManager C) :=
  m ← spawn_worker bw_cli_path sandbox_enabled;
  lift (init_handshake m).

(** ** A channel that ends in the worker *)

(** The worker process at the other end: its loop's state, whose input buffer
    is what the parent wrote, and its exit code once it has exited. *)
Record Link (X : Type) : Type := mkLink { lk_worker : Worker (X:=X) Pipe; lk_exit : option Z }.
Arguments mkLink {X}.
Arguments lk_worker {X}.
Arguments lk_exit {X}.

(** The worker's blocking read returns: a whole frame is there, or a length
    it refuses. *)
Definition frame_ready (l : list byte) : bool :=
  (4 <=? length l)%nat &&
  let n := Z.of_N (from_be_bytes (take 4 l)) in
  (MAX_MESSAGE_SIZE <? n) || (4 + n <=? Z.of_nat (length l)).

Section Link.
Context {X : Type} `{CommandExecutor X} `{OsRng X} `{Aead} `{BwJson} `{Base64Std} `{VaultCodec} `{SerdeText}.

(** Let the worker run until it waits for input or has exited.  Every turn
    takes four bytes or exits, so the input's length is fuel enough. *)
Fixpoint pump (fuel : nat) (l : Link X) : Link X :=
  match fuel, lk_exit l with
  | S fuel, None =>
      if frame_ready (inb (wk_sock (lk_worker l))) then
        let '(w, code) := worker_turn (lk_worker l) in pump fuel (mkLink w code)
      else l
  | _, _ => l
  end.

Definition link_in (l : Link X) : list byte := inb (wk_sock (lk_worker l)).
Definition link_out (l : Link X) : list byte := outb (wk_sock (lk_worker l)).
Definition link_set (i o : list byte) (l : Link X) : Link X :=
  mkLink (mkWorker (wk_backend (lk_worker l)) (mkPipe i o)) (lk_exit l).

(** Reading waits for the worker.  With no frame left to serve the wait ends
    when the worker exits; after a complete command it never waits in vain. *)
#[export] Instance link_read : Read (Link X) := {|
  read_exact := fun n l =>
    let l := pump (S (length (link_in l))) l in
    if (n <=? length (link_out l))%nat
    then (link_set (link_in l) (drop n (link_out l)) l, Ok (take n (link_out l)))
    else (link_set (link_in l) [] l, Err "early eof")
|}.

#[export] Instance link_write : Write (Link X) := {|
  write_all := fun bs l =>
    match lk_exit l with
    | None => (link_set (link_in l ++ bs) (link_out l) l, Ok tt)
    | Some _ => (l, Err "Broken pipe")
    end;
  flush := mret tt
|}.

(** A worker waiting for a command, nothing in either direction. *)
Definition idle (b : BitwardenBackend X) : Link X := mkLink (mkWorker b (mkPipe [] [])) None.

Lemma write_message_idle b p :
  fits p -> write_message p (idle b) = (mkLink (mkWorker b (mkPipe (frame4 p) [])) None, Ok tt).
Proof.
  intros Hp. unfold write_message. rewrite (proj2 (Z.ltb_ge _ _)) by exact Hp.
  rewrite !bind_eq. cbn [write_all link_write lk_exit idle].
  rewrite bind_eq. cbn [write_all link_write lk_exit idle link_set link_in link_out lk_worker wk_sock wk_backend inb outb].
  by rewrite app_nil_l, frame4_u32.
Qed.

Lemma frame_ready_frame p : fits p -> frame_ready (frame4 p) = true.
Proof.
  intros Hp. unfold frame_ready. rewrite length_frame4. unfold frame4.
  rewrite take_app_length' by by rewrite length_be_bytes.
  rewrite from_be_bytes_be by by apply fits_u32. rewrite (proj2 (Nat.leb_le _ _)) by lia.
  apply orb_true_intro. right. apply Z.leb_le. lia.
Qed.

(** What the worker made of one frame. *)
Definition served (b : BitwardenBackend X) (p : list byte) : Link X :=
  let '(w, code) := worker_turn (mkWorker b (mkPipe (frame4 p) [])) in mkLink w code.

Lemma pump_quiet fuel l : link_in l = [] -> pump fuel l = l.
Proof.
  intros Hi. destruct fuel as [|fuel]; [done|]. simpl. destruct (lk_exit l); [done|].
  unfold link_in in Hi. by rewrite Hi.
Qed.

Lemma served_cases b p cmd :
  fits p -> command_from_slice p = inl cmd ->
  (exists b' r rb, dispatch (E:=Empty_set) cmd b = (b', Ok r) /\ response_to_vec r = inl rb /\ fits rb /\
     served b p = mkLink (mkWorker b' (mkPipe [] (frame4 rb))) None) \/
  (exists b' code, served b p = mkLink (mkWorker b' (mkPipe [] [])) (Some code)).
Proof.
  intros Hp Hc. unfold served, worker_turn. cbn [wk_sock wk_backend].
  rewrite <- (app_nil_r (frame4 p)), read_message_pipe_frame by done. rewrite Hc.
  destruct (dispatch cmd b) as [b' [r|[]|]] eqn:Ed; [|right; eauto].
  destruct (response_to_vec r) as [rb|] eqn:Er; [|right; eauto].
  destruct (decide (fits rb)) as [Hf|Hf].
  - left. exists b', r, rb. by rewrite write_message_pipe.
  - right. rewrite write_message_oversize by done. eauto.
Qed.

Lemma pump_frame b p cmd :
  fits p -> command_from_slice p = inl cmd ->
  pump (S (length (frame4 p))) (mkLink (mkWorker b (mkPipe (frame4 p) [])) None) = served b p.
Proof.
  intros Hp Hc. assert (Hq : link_in (served b p) = []).
  { destruct (served_cases b p cmd Hp Hc) as [(?&?&?&_&_&_&->)|(?&?&->)]; done. }
  cbn [pump lk_exit lk_worker wk_sock inb]. rewrite frame_ready_frame by done.
  unfold served in *. destruct (worker_turn _) as [w code]. by apply pump_quiet.
Qed.

Lemma read_message_served b p cmd b' rb :
  fits p -> command_from_slice p = inl cmd -> fits rb ->
  served b p = mkLink (mkWorker b' (mkPipe [] (frame4 rb))) None ->
  read_message (mkLink (mkWorker b (mkPipe (frame4 p) [])) None) = (idle b', Ok rb).
Proof.
  intros Hp Hc Hf Hs. unfold read_message. rewrite bind_eq. unfold map_errM. cbn [read_exact link_read].
  change (link_in (mkLink _ None)) with (frame4 p). rewrite (pump_frame b p cmd), Hs by done.
  change (link_out (mkLink _ None)) with (frame4 rb). rewrite length_frame4, (proj2 (Nat.leb_le _ _)) by lia.
  unfold frame4. rewrite take_app_length', drop_app_length' by by rewrite length_be_bytes.
  cbn [map_err]. rewrite from_be_bytes_be by by apply fits_u32.
  rewrite (proj2 (Z.ltb_ge _ _)) by (unfold fits in Hf; lia). rewrite Nat2N.id.
  rewrite pump_quiet by done. unfold link_set, link_out, link_in. cbn [lk_worker wk_sock wk_backend inb outb lk_exit].
  rewrite (proj2 (Nat.leb_le _ _)) by lia.
  by rewrite take_ge, drop_ge by lia.
Qed.

Lemma read_message_exited b p cmd b' code :
  fits p -> command_from_slice p = inl cmd ->
  served b p = mkLink (mkWorker b' (mkPipe [] [])) (Some code) ->
  read_message (mkLink (mkWorker b (mkPipe (frame4 p) [])) None) =
  (mkLink (mkWorker b' (mkPipe [] [])) (Some code), Err (VaultIo "early eof")).
Proof.
  intros Hp Hc Hs. unfold read_message. rewrite bind_eq. unfold map_errM at 1. cbn [read_exact link_read].
  change (link_in (mkLink _ None)) with (frame4 p). by rewrite (pump_frame b p cmd), Hs.
Qed.

Lemma exchange_reads st b p :
  (forall r, st <> SCrashed r) -> fits p ->
  exchange p (mkSubprocessInner st (idle b)) =
    match read_message (mkLink (mkWorker b (mkPipe (frame4 p) [])) None) with
    | (l, Ok raw) => (mkSubprocessInner st l,
        vault_wrap (fun e => Protocol ("deserialize response: " +:+ e)) (response_from_slice raw))
    | (l, Err e) => (mkSubprocessInner (SCrashed (vault_error_to_string e)) l,
        Err (Subprocess ("read from vault subprocess: " +:+ vault_error_to_string e)))
    | (l, Panic) => (mkSubprocessInner st l, Panic)
    end.
Proof.
  intros Hst Hp. unfold exchange. rewrite bind_eq. unfold gets. cbn [status].
  destruct st as [| |r0]; [| |by specialize (Hst r0)];
    rewrite bind_eq; unfold attempt at 1, on_sock at 1, zoom; cbn [sock];
    rewrite write_message_idle by done; rewrite bind_eq; unfold attempt, on_sock, zoom; cbn [sock];
    by destruct (read_message _) as [l [raw|e|]].
Qed.

(** One exchange with a waiting worker: its answer came back whole, or it
    exited and the manager has recorded a crash. *)
Lemma exchange_link st b p cmd :
  (forall r, st <> SCrashed r) -> command_from_slice p = inl cmd -> fits p ->
  (exists b' r rb, dispatch (E:=Empty_set) cmd b = (b', Ok r) /\ response_to_vec r = inl rb /\ fits rb /\
     exchange p (mkSubprocessInner st (idle b)) =
     (mkSubprocessInner st (idle b'),
      vault_wrap (fun e => Protocol ("deserialize response: " +:+ e)) (response_from_slice rb))) \/
  (exists reason l e, exchange p (mkSubprocessInner st (idle b)) = (mkSubprocessInner (SCrashed reason) l, Err e)).
Proof.
  intros Hst Hc Hp. rewrite exchange_reads by done.
  destruct (served_cases b p cmd Hp Hc) as [(b' & r & rb & Hd & Hr & Hf & Hs)|(b' & code & Hs)].
  - left. exists b', r, rb. by rewrite (read_message_served b p cmd b' rb).
  - right. rewrite (read_message_exited b p cmd b' code) by done. eauto.
Qed.

Lemma served_answer b p cmd b' r rb :
  fits p -> command_from_slice p = inl cmd -> dispatch (E:=Empty_set) cmd b = (b', Ok r) ->
  response_to_vec r = inl rb -> fits rb ->
  served b p = mkLink (mkWorker b' (mkPipe [] (frame4 rb))) None.
Proof.
  intros Hp Hc Hd Hr Hf. unfold served, worker_turn. cbn [wk_sock wk_backend].
  rewrite <- (app_nil_r (frame4 p)), read_message_pipe_frame by done. rewrite Hc, Hd, Hr.
  by rewrite write_message_pipe.
Qed.

End Link.

(** ** The manager over the worker *)

Lemma refs_roundtrip `{SerdeText} refs : refs_from_value (refs_to_value refs) = inl refs.
Proof.
  unfold refs_from_value, refs_to_value.
  assert (mapM ref_from_value (map ref_to_value refs) = Some refs) as ->; [|done].
  induction refs as [|[a b c] refs IH]; [done|]. cbn [map mapM].
  change (ref_from_value (ref_to_value (mkCredentialRef a b c))) with (Some (mkCredentialRef a b c)).
  cbn. by rewrite IH.
Qed.

Lemma refs_flat refs : flat (refs_to_value refs) = true.
Proof. simpl. induction refs as [|r refs IH]; [done|]. done. Qed.

(** Nonces are as long as asked for. *)
Class OsRngLaws {X : Type} `{OsRng X} : Prop := {
  gen_bytes_length : forall n x, length (gen_bytes n x).2 = n
}.

(** ChaCha20-Poly1305 opens what it sealed. *)
Class AeadLaws `{Aead} : Prop := {
  aead_roundtrip : forall k n p c, aead_encrypt k n p = inl c -> aead_decrypt k n c = Some p
}.

Section Transparent.
Context {X : Type} `{CommandExecutor X} `{!OsRng X} `{!Aead} `{!BwJson} `{!Base64Std} `{!VaultCodec} `{!SerdeText}
  `{!VaultCodecLaws} `{!Base64StdLaws} `{!OsRngLaws (X:=X)}.

(** A manager whose worker waits for commands. *)
Definition wired (st : VaultStatus) (key : list byte) (b : BitwardenBackend X) : SubprocessManager (Link X) :=
  mkSubprocessManager (mkSubprocessInner st (idle b)) key.

Definition alive (st : VaultStatus) : bool := match st with SCrashed _ => false | _ => true end.

(** The command and its answer can be encoded within the message limit, and
    serving it does not panic. *)
Definition carried (cmd : VaultCommand) (b : BitwardenBackend X) : Prop :=
  exists p b' r rb, command_to_vec cmd = inl p /\ fits p /\
    dispatch (E:=Empty_set) cmd b = (b', Ok r) /\ response_to_vec r = inl rb /\ fits rb.

(** An operation of the backend seen from the parent: the same outcome, with
    errors carried as text. *)
Definition remote {A : Type} (st : VaultStatus) (key : list byte)
    (o : BitwardenBackend X * result A VaultError) : SubprocessManager (Link X) * result A VaultError :=
  (wired st key o.1, map_err (fun e => Subprocess (vault_error_to_string e)) o.2).

Lemma alive_not_crashed st : alive st = true -> forall r, st <> SCrashed r.
Proof. intros Ha r ->. discriminate. Qed.

Definition decodable (r : VaultResponse) : bool := match r with ROk v => flat v | RError _ => true end.

Lemma response_roundtrip r rb :
  decodable r = true -> response_to_vec r = inl rb -> response_from_slice rb = inl r.
Proof. destruct r; simpl; intros; [by apply response_ok_roundtrip|by apply response_error_roundtrip]. Qed.

Lemma dispatch_decodable cmd (b b' : BitwardenBackend X) r :
  dispatch (E:=Empty_set) cmd b = (b', Ok r) -> decodable r = true.
Proof.
  destruct cmd as [key|pw| |ref|ref]; simpl; intros Hd.
  - destruct (std_decode key) as [bytes|e]; [|by injection Hd as <- <-].
    destruct (length bytes =? 32)%nat; [rewrite bind_eq in Hd|]; by injection Hd as <- <-.
  - by apply respond_inv in Hd as [(?&_&->)|(?&_&->)].
  - apply respond_inv in Hd as [(?&_&->)|(?&_&->)]; [apply refs_flat|done].
  - by apply respond_inv in Hd as [(?&_&->)|(?&_&->)].
  - by apply respond_inv in Hd as [(?&_&->)|(?&_&->)].
Qed.

(** A carried command comes back with the worker's answer. *)
Lemma send_command_carried st key b cmd :
  alive st = true -> carried cmd b ->
  exists b' r, dispatch (E:=Empty_set) cmd b = (b', Ok r) /\
    send_command cmd (wired st key b) = (wired st key b', Ok r).
Proof.
  intros Ha (p & b' & r & rb & Hp & Hf & Hd & Hr & Hfr). exists b', r. split; [done|].
  pose proof (alive_not_crashed _ Ha) as Hst. pose proof (command_roundtrip _ _ Hp) as Hc.
  unfold send_command. rewrite Hp, bind_eq. unfold lift, vault_wrap, zoom. cbn [inner wired].
  rewrite exchange_reads by done. rewrite (read_message_served b p cmd b' rb)
    by (done || by eapply served_answer).
  rewrite (response_roundtrip r rb) by (done || by eapply dispatch_decodable). done.
Qed.

(** Any answer at all means the exchange was carried. *)
Lemma send_command_ok_inv st key b cmd m' r :
  alive st = true -> send_command cmd (wired st key b) = (m', Ok r) ->
  exists b', dispatch (E:=Empty_set) cmd b = (b', Ok r) /\ m' = wired st key b'.
Proof.
  intros Ha Hs. pose proof (alive_not_crashed _ Ha) as Hst.
  unfold send_command in Hs. rewrite bind_eq in Hs. unfold lift, vault_wrap in Hs.
  destruct (command_to_vec cmd) as [p|e] eqn:Hp; [|discriminate].
  pose proof (command_roundtrip _ _ Hp) as Hc. unfold zoom in Hs. cbn [inner wired] in Hs.
  destruct (decide (fits p)) as [Hf|Hf].
  - destruct (exchange_link st b p cmd Hst Hc Hf) as [(b' & r' & rb & Hd & Hr & Hfr & Hx)|(? & ? & ? & Hx)];
      rewrite Hx in Hs; [|discriminate].
    rewrite (response_roundtrip r' rb) in Hs by (done || by eapply dispatch_decodable).
    cbn in Hs. simplify_eq. by exists b'.
  - unfold exchange in Hs. rewrite bind_eq in Hs. unfold gets in Hs. cbn [status] in Hs.
    destruct st as [| |r0]; [| |discriminate]; rewrite bind_eq in Hs; unfold attempt, on_sock, zoom in Hs;
      cbn [sock] in Hs; rewrite write_message_oversize in Hs by done; discriminate.
Qed.

Lemma decode_credential_payload enc :
  length (ec_nonce enc) = 12%nat -> decode_credential (credential_payload enc) = Ok enc.
Proof.
  intros Hn. unfold decode_credential.
  change (json_get (credential_payload enc) "data" ≫= as_str) with (Some (std_encode (ec_data enc))).
  change (json_get (credential_payload enc) "nonce" ≫= as_str) with (Some (std_encode (ec_nonce enc))).
  cbn [ok_or rbind]. rewrite !std_roundtrip. cbn [vault_wrap rbind]. rewrite Hn. by destruct enc.
Qed.

Lemma backend_fetch_nonce (b b' : BitwardenBackend X) ref enc :
  backend_fetch ref b = (b', Ok enc) -> length (ec_nonce enc) = 12%nat.
Proof.
  intros (? & ? & x & ? & ? & ? & _ & _ & _ & _ & _ & -> & _)%backend_fetch_ok. apply gen_bytes_length.
Qed.

(** An exchange whose answer is turned back into the backend's outcome. *)
Lemma remote_respond {A : Type} st key b cmd (f : A -> Json) (m : M (BitwardenBackend X) VaultError A)
    (decode : Json -> result A VaultError) :
  alive st = true -> carried cmd b -> dispatch (E:=Empty_set) cmd b = respond f m b ->
  (forall b' a, m b = (b', Ok a) -> decode (f a) = Ok a) ->
  (response ← send_command cmd; data ← lift (ok_or_err response); lift (decode data)) (wired st key b) =
  remote st key (m b).
Proof.
  intros Ha Hc Hd Hdec. destruct (send_command_carried st key b cmd Ha Hc) as (b' & r & Hdr & Hs).
  rewrite (bind_run _ _ _ _ _ Hs). rewrite Hd in Hdr. unfold remote.
  apply respond_inv in Hdr as [(a & Hm & ->)|(e & Hm & ->)]; rewrite Hm, bind_eq; [|done].
  cbn. by rewrite (Hdec _ _ Hm).
Qed.
End Transparent.

(** ** Properties *)

(** C16. The process boundary is transparent: over a worker that waits for
    commands, [fetch], [exists] and [list_credentials] of the manager return
    what the Bitwarden backend inside the worker returns, leave the worker in
    the state the backend reached and the channel empty, and turn its errors
    into [Subprocess] errors with the same text. *)
Theorem manager_refines_backend {X : Type} `{CommandExecutor X} `{!OsRng X} `{!Aead} `{!BwJson} `{!Base64Std}
    `{!VaultCodec} `{!SerdeText} `{!VaultCodecLaws} `{!Base64StdLaws} `{!OsRngLaws (X:=X)}
    (st : VaultStatus) (key : list byte) (b : BitwardenBackend X) (ref : string) :
  alive st = true ->
  (carried (Fetch ref) b -> manager_fetch ref (wired st key b) = remote st key (backend_fetch ref b)) /\
  (carried (Exists ref) b -> manager_exists ref (wired st key b) = remote st key (backend_exists ref b)) /\
  (carried List b -> manager_list (wired st key b) = remote st key (backend_list b)).
Proof.
  intros Ha. split; [|split]; intros Hc.
  - unfold manager_fetch. apply (remote_respond st key b _ credential_payload); try done.
    intros b' enc Hf. by eapply decode_credential_payload, backend_fetch_nonce.
  - unfold manager_exists. by apply (remote_respond st key b _ JBool _ (fun data => ok_or (as_bool data) _)).
  - unfold manager_list. apply (remote_respond st key b _ refs_to_value _ (fun data => vault_wrap _ (refs_from_value data)));
      try done. intros b' refs _. by rewrite refs_roundtrip.
Qed.

Section EndToEnd.
Context {X : Type} `{CommandExecutor X} `{!OsRng X} `{!Aead} `{!BwJson} `{!Base64Std} `{!VaultCodec} `{!SerdeText}
  `{!VaultCodecLaws} `{!Base64StdLaws}.

Lemma init_handshake_inv (x : X) key m :
  length key = 32%nat -> init_handshake (wired SLocked key (backend_new x)) = Ok m ->
  m = wired SLocked key (mkBitwardenBackend x None (Some key)).
Proof.
  intros Hk. unfold init_handshake. cbn [ipc_key wired].
  destruct (send_command _ _) as [m' [r|e|]] eqn:Hs; [|discriminate..]. intros [= <-].
  apply send_command_ok_inv in Hs as (b' & Hd & ->); [|done].
  unfold dispatch in Hd. rewrite std_roundtrip, Hk in Hd. simpl in Hd. rewrite bind_eq in Hd.
  by injection Hd as <- <-.
Qed.

Lemma backend_unlock_inv pw (b b' : BitwardenBackend X) :
  backend_unlock pw b = (b', Ok tt) ->
  exists x out, execute ["unlock"; "--raw"] (Some (as_bytes pw)) None (executor b) = (x, Ok out) /\
    trim out <> EmptyString /\ b' = mkBitwardenBackend x (Some (as_bytes (trim out))) (ipc_encrypt_key b).
Proof.
  unfold backend_unlock. rewrite bind_ok. intros (b1 & out & Hx & Hk).
  unfold on_executor, zoom in Hx. destruct (execute _ _ _ _) as [x r]. simplify_eq.
  unfold is_empty in Hk. case_bool_decide; [discriminate|]. injection Hk as <-. eauto.
Qed.

Lemma manager_unlock_inv st key (b : BitwardenBackend X) pw m :
  alive st = true -> manager_unlock pw (wired st key b) = (m, Ok tt) ->
  exists b' r, dispatch (E:=Empty_set) (Unlock pw) b = (b', Ok r) /\ m = wired SUnlocked key b'.
Proof.
  intros Ha. unfold manager_unlock. rewrite bind_ok. intros (m1 & r & Hs & Hm).
  apply send_command_ok_inv in Hs as (b' & Hd & ->); [|done]. injection Hm as <-. by exists b', r.
Qed.

Lemma manager_fetch_inv st key (b : BitwardenBackend X) ref m enc :
  alive st = true -> manager_fetch ref (wired st key b) = (m, Ok enc) ->
  exists b', backend_fetch ref b = (b', Ok enc) /\ m = wired st key b'.
Proof.
  intros Ha. unfold manager_fetch. rewrite bind_ok. intros (m1 & r & Hs & Hm).
  apply send_command_ok_inv in Hs as (b' & Hd & ->); [|done].
  apply bind_ok in Hm as (m2 & v & [-> Hv]%lift_ok & [-> Hdec]%lift_ok).
  apply respond_inv in Hd as [(enc' & Hf & ->)|(e & _ & ->)]; simplify_eq/=.
  exists b'. split; [|done]. rewrite Hf. do 2 f_equal.
  unfold decode_credential in Hdec.
  change (json_get (credential_payload enc') "data" ≫= as_str) with (Some (std_encode (ec_data enc'))) in Hdec.
  change (json_get (credential_payload enc') "nonce" ≫= as_str) with (Some (std_encode (ec_nonce enc'))) in Hdec.
  cbn [ok_or rbind] in Hdec. rewrite !std_roundtrip in Hdec. cbn [vault_wrap rbind] in Hdec.
  destruct (negb _); [discriminate|]. injection Hdec as <-. by destruct enc'.
Qed.

Context `{!AeadLaws}.

(** C24. What the caller of the vault gets in the end: after the handshake and an
    [unlock], a credential that [fetch] returns opens, under the manager's
    own key, to the value of the item that [bw] printed for that reference in
    the session that this password opened. *)
Theorem fetched_credential_opens (x : X) (key : list byte) (pw ref : string) m1 m2 m3 enc :
  length key = 32%nat ->
  init_handshake (wired SLocked key (backend_new x)) = Ok m1 ->
  manager_unlock pw m1 = (m2, Ok tt) ->
  manager_fetch ref m2 = (m3, Ok enc) ->
  exists x1 x2 out1 out2 item value,
    execute ["unlock"; "--raw"] (Some (as_bytes pw)) None x = (x1, Ok out1) /\
    execute ["get"; "item"; ref; "--raw"] None (Some [("BW_SESSION", trim out1)]) x1 = (x2, Ok out2) /\
    bw_item_from_str out2 = inl item /\ extract_credential_value item = Ok value /\
    aead_decrypt (ipc_key m3) (ec_nonce enc) (ec_data enc) = Some (as_bytes value).
Proof.
  intros Hk Hi Hu Hf. apply init_handshake_inv in Hi as ->; [|done].
  apply manager_unlock_inv in Hu as (b2 & r & Hd & ->); [|done].
  apply manager_fetch_inv in Hf as (b3 & Hf & ->); [|done].
  apply backend_fetch_ok in Hf as (sess & key' & x2 & out2 & item & value & Hs & Hkey & Hx & Hi & Hv & _ & Ha & _).
  apply respond_inv in Hd as [([] & Hb & _)|(e & Hb & _)].
  - apply backend_unlock_inv in Hb as (x1 & out1 & Hx1 & _ & ->). simplify_eq/=.
    exists x1, x2, out1, out2, item, value. unfold of_bytes, as_bytes in Hx.
    rewrite String.string_of_list_byte_of_string in Hx.
    repeat split; try done. by apply aead_roundtrip.
  - apply unlock_effect in Hb as [_ [He|He]]; [|discriminate]. rewrite He in Hs. discriminate.
Qed.

(** The manager does not look at the worker's answer to [Unlock]: a password
    that [bw] refused leaves the status [Unlocked] and returns success. *)
Theorem unlock_hides_refusal st key (b b' : BitwardenBackend X) pw e :
  alive st = true -> carried (Unlock pw) b -> backend_unlock pw b = (b', Err e) ->
  manager_unlock pw (wired st key b) = (wired SUnlocked key b', Ok tt).
Proof.
  intros Ha Hc Hb. destruct (send_command_carried st key b _ Ha Hc) as (b1 & r & Hd & Hs).
  cbn [dispatch] in Hd. rewrite (respond_err _ _ _ _ _ Hb) in Hd. injection Hd as <- <-.
  unfold manager_unlock. by rewrite (bind_run _ _ _ _ _ Hs).
Qed.
End EndToEnd.

(** ** Crashes *)

Section Crash.
Context {C : Type} `{Read C} `{Write C} `{!VaultCodec} `{!Base64Std} `{!SerdeText}.

(** An operation on a crashed manager. *)
Definition refused {A : Type} (reason : string) (m : SubprocessManager C)
    (o : SubprocessManager C * result A VaultError) : Prop :=
  o = (m, Err (Locked ("subprocess crashed: " +:+ reason))) \/
  (exists e, o = (m, Err (Protocol ("serialize command: " +:+ e)))).

Lemma send_command_crashed (m : SubprocessManager C) reason cmd :
  status (inner m) = SCrashed reason -> refused reason m (send_command cmd m).
Proof.
  intros Hs. unfold send_command. rewrite bind_eq. unfold lift, vault_wrap.
  destruct (command_to_vec cmd) as [p|e]; [|right; by exists e]. left.
  unfold zoom, exchange. rewrite bind_eq. unfold gets. rewrite Hs.
  by destruct m as [[? ?] ?].
Qed.

Lemma refused_bind {A B : Type} reason (m : SubprocessManager C) (c : M _ VaultError A) (k : A -> M _ VaultError B) :
  refused reason m (c m) -> refused reason m ((c ≫= k) m).
Proof. intros [Hc|[e Hc]]; rewrite (bind_err _ _ _ _ _ Hc); [left|right]; eauto. Qed.

(** Callers that share the manager.  A call takes the lock once, but for
    [unlock], which gives it up between its two sections; [sh_unlocks] of them
    are in between. *)
Record Shared : Type := mkShared { sh_manager : SubprocessManager C; sh_unlocks : nat }.

Inductive mstep : Shared -> Shared -> Prop :=
| ms_command s cmd m r : (forall pw, cmd <> Unlock pw) -> send_command cmd (sh_manager s) = (m, r) ->
    mstep s (mkShared m (sh_unlocks s))
| ms_unlock s pw m r : send_command (Unlock pw) (sh_manager s) = (m, r) ->
    mstep s (mkShared m (match r with Ok _ => S (sh_unlocks s) | _ => sh_unlocks s end))
| ms_unlocked s n : sh_unlocks s = S n -> mstep s (mkShared (mark_unlocked (sh_manager s)).1 n).

Lemma crashed_step reason s s' : status (inner (sh_manager s)) = SCrashed reason -> sh_unlocks s = 0%nat -> mstep s s' -> s' = s.
Proof.
  intros Hs Hn Hst. destruct Hst as [s cmd m r _ Hc|s pw m r Hc|s n Hn']; [| |congruence].
  - destruct (send_command_crashed (sh_manager s) reason cmd Hs) as [E|[e E]]; rewrite E in Hc; injection Hc as <- <-; by destruct s.
  - destruct (send_command_crashed (sh_manager s) reason (Unlock pw) Hs) as [E|[e E]]; rewrite E in Hc; injection Hc as <- <-; by destruct s.
Qed.

(** C27. A crash is recorded and lasts: when writing a command or reading its
    answer fails, the caller gets a [Subprocess] error and the manager is
    marked crashed; every operation on a crashed manager is refused, with
    nothing written to or read from the channel and no state changed; and
    while no [unlock] is between its two sections, nothing the callers of the
    manager do changes it any more.  An [unlock] that is between them takes
    the mark away ([unlock_hides_crash]). *)
Theorem crash_is_final (m : SubprocessManager C) (cmd : VaultCommand) (pw ref : string) :
  (forall payload c e, command_to_vec cmd = inl payload -> alive (status (inner m)) = true ->
     (write_message payload (sock (inner m)) = (c, Err e) \/
      exists c' e', write_message payload (sock (inner m)) = (c', Ok tt) /\ read_message c' = (c, Err e') /\
                    e = vault_error_to_string e') ->
     exists t, send_command cmd m =
       (mkSubprocessManager (mkSubprocessInner (SCrashed e) c) (ipc_key m), Err (Subprocess t))) /\
  (forall reason, status (inner m) = SCrashed reason ->
     refused reason m (manager_unlock pw m) /\ refused reason m (manager_list m) /\
     refused reason m (manager_fetch ref m) /\ refused reason m (manager_exists ref m) /\
     forall s, rtc mstep (mkShared m 0) s -> s = mkShared m 0).
Proof.
  split.
  - intros payload c e Hp Ha Hio. unfold send_command. rewrite Hp, bind_eq. unfold lift, vault_wrap, zoom, exchange.
    rewrite bind_eq. unfold gets. destruct (status (inner m)) as [| |r]; [| |discriminate];
      rewrite bind_eq; unfold attempt at 1, on_sock at 1, zoom;
      destruct Hio as [Hw|(c' & e' & Hw & Hr & ->)]; rewrite Hw; try (eexists; reflexivity);
      rewrite bind_eq; unfold attempt, on_sock, zoom; cbn [sock]; rewrite Hr; eexists; reflexivity.
  - intros reason Hs. unfold manager_unlock, manager_list, manager_fetch, manager_exists.
    split_and!; try (by apply refused_bind, send_command_crashed).
    intros s Hr. remember (mkShared m 0) as s0 eqn:E. induction Hr as [x|x y z Hxy _ IH]; [done|]. subst x.
    assert (y = mkShared m 0) as -> by (by eapply (crashed_step reason (mkShared m 0))). by apply IH.
Qed.

(** A crash that another call meets while an [unlock] is between its two
    sections is forgotten: the manager counts as unlocked, and the next call
    uses the channel again. *)
Theorem unlock_hides_crash (m m1 m2 : SubprocessManager C) (pw : string) (cmd : VaultCommand) (resp : VaultResponse)
    (e : VaultError) (reason : string) :
  send_command (Unlock pw) m = (m1, Ok resp) -> (forall p, cmd <> Unlock p) -> send_command cmd m1 = (m2, Err e) ->
  status (inner m2) = SCrashed reason ->
  exists m3, rtc mstep (mkShared m 0) (mkShared m3 0) /\ status (inner m3) = SUnlocked /\ sock (inner m3) = sock (inner m2).
Proof.
  intros Hu Hne Hc Hs. exists (mark_unlocked m2).1. split; [|done].
  eapply rtc_l; [by eapply (ms_unlock (mkShared m 0))|]. eapply rtc_l; [by eapply (ms_command (mkShared m1 1))|].
  apply rtc_once. by apply (ms_unlocked (mkShared m2 1)).
Qed.
End Crash.

(** ** A vault to evaluate *)

(** [bw] knows one password and one item; the world counts nonces. *)
#[local] Instance demo_bw : CommandExecutor nat := {|
  execute := fun args stdin env x =>
    match args with
    | ["unlock"; "--raw"] =>
        if bool_decide (stdin = Some (as_bytes "hunter2")) then (x, Ok (" S3SSION" +:+ String newline EmptyString))
        else (x, Err (BitwardenCli "bw exited with 1: Invalid master password."))
    | ["get"; "item"; "github"; "--raw"] =>
        if bool_decide (env = Some [("BW_SESSION", "S3SSION")]) then (x, Ok "ghp_token")
        else (x, Err (BitwardenCli "bw exited with 1: Vault is locked."))
    | _ => (x, Err (BitwardenCli "bw exited with 1: Not found."))
    end |}.
#[local] Instance demo_rng : OsRng nat := {| gen_bytes := fun n x => (S x, repeat Byte.x07 n) |}.
#[local] Instance demo_rng_laws : OsRngLaws (X:=nat).
Proof. split. intros n x. apply repeat_length. Qed.

(** Sealing reverses and appends the key; it is its own check. *)
#[local] Instance demo_aead : Aead := {|
  aead_encrypt := fun k n p => inl (rev p ++ k);
  aead_decrypt := fun k n c =>
    let p := take (length c - length k) c in
    if bool_decide (c = p ++ k) then Some (rev p) else None
|}.
#[local] Instance demo_aead_laws : AeadLaws.
Proof.
  split. intros k n p c [= <-]. cbn. rewrite length_app, Nat.add_sub, take_app_length.
  rewrite bool_decide_eq_true_2 by done. by rewrite rev_involutive.
Qed.

#[local] Instance demo_bw_json : BwJson := {|
  bw_item_from_str := fun s => inl (mkBwItem "i" "n" 1 (Some (mkBwLogin None (Some s) None)) None None);
  bw_items_from_str := fun s => inr "not a list"
|}.
#[local] Instance hex_std : Base64Std := {|
  std_encode := bytes_to_hex;
  std_decode := fun s => match hex_to_bytes (E:=unit) s with Ok (Some l) => inl l | _ => inr "invalid" end
|}.
#[local] Instance hex_std_laws : Base64StdLaws.
Proof. split. intros l. cbn. by rewrite hex_roundtrip. Qed.

#[local] Instance demo_serde : SerdeText := {| from_value_error := fun _ => "invalid type" |}.

(** Messages as a tag byte and their strings. *)
#[local] Instance demo_vault_codec : VaultCodec := {|
  command_to_vec := fun c => inl
    match c with
    | Init k => Byte.x00 :: as_bytes k
    | Unlock p => Byte.x01 :: as_bytes p
    | List => [Byte.x02]
    | Fetch r => Byte.x03 :: as_bytes r
    | Exists r => Byte.x04 :: as_bytes r
    end;
  command_from_slice := fun l =>
    match l with
    | Byte.x00 :: s => inl (Init (of_bytes s))
    | Byte.x01 :: s => inl (Unlock (of_bytes s))
    | [Byte.x02] => inl List
    | Byte.x03 :: s => inl (Fetch (of_bytes s))
    | Byte.x04 :: s => inl (Exists (of_bytes s))
    | _ => inr "expected value"
    end;
  response_to_vec := fun r =>
    match r with
    | RError m => inl (Byte.x00 :: as_bytes m)
    | ROk JNull => inl [Byte.x01]
    | ROk (JBool b) => inl [Byte.x02; if b then Byte.x01 else Byte.x00]
    | ROk (JObject [("data", JString a); ("nonce", JString b)]) =>
        if bool_decide (fits (as_bytes a)) then inl (Byte.x03 :: frame4 (as_bytes a) ++ as_bytes b) else inr "long"
    | ROk _ => inr "unsupported"
    end;
  response_from_slice := fun l =>
    match l with
    | Byte.x00 :: m => inl (RError (of_bytes m))
    | [Byte.x01] => inl (ROk JNull)
    | [Byte.x02; Byte.x01] => inl (ROk (JBool true))
    | [Byte.x02; Byte.x00] => inl (ROk (JBool false))
    | Byte.x03 :: s =>
        match read_message s with
        | (b, Ok a) => inl (ROk (JObject [("data", JString (of_bytes a)); ("nonce", JString (of_bytes b))]))
        | _ => inr "expected value"
        end
    | _ => inr "expected value"
    end
|}.

Lemma of_as_bytes s : of_bytes (as_bytes s) = s.
Proof. apply String.string_of_list_byte_of_string. Qed.

#[local] Instance demo_vault_codec_laws : VaultCodecLaws.
Proof.
  split.
  - intros [k|p| |r|r] b [= <-]; cbn; by rewrite ?of_as_bytes.
  - intros v b _ Hv. cbn [response_to_vec demo_vault_codec] in Hv.
    destruct v as [|bo|n|s|l|fs]; try discriminate; [by simplify_eq| |].
    { destruct bo; by simplify_eq. }
    repeat (case_match; try discriminate). simplify_eq. bool_to_prop.
    cbn [response_from_slice demo_vault_codec]. rewrite read_message_frame by done. by rewrite !of_as_bytes.
  - intros m b [= <-]. cbn. by rewrite of_as_bytes.
Qed.

Definition demo_key : list byte := repeat Byte.x2a 32.
Definition demo_enc : EncryptedCredential :=
  mkEncryptedCredential (rev (as_bytes "ghp_token") ++ demo_key) (repeat Byte.x07 12).
Definition demo_unlocked : BitwardenBackend nat :=
  mkBitwardenBackend 0%nat (Some (as_bytes "S3SSION")) (Some demo_key).

Lemma fetched_credential_opens_witness :
  aead_decrypt demo_key (ec_nonce demo_enc) (ec_data demo_enc) = Some (as_bytes "ghp_token").
Proof.
  destruct (fetched_credential_opens 0%nat demo_key "hunter2" "github"
    (wired SLocked demo_key (mkBitwardenBackend 0%nat None (Some demo_key)))
    (wired SUnlocked demo_key demo_unlocked)
    (wired SUnlocked demo_key (mkBitwardenBackend 1%nat (Some (as_bytes "S3SSION")) (Some demo_key)))
    demo_enc) as (x1 & x2 & out1 & out2 & item & value & H1 & H2 & H3 & H4 & H5).
  - by vm_compute.
  - by vm_compute.
  - by vm_compute.
  - by vm_compute.
  - vm_compute in H1. injection H1 as <- <-. vm_compute in H2. injection H2 as <- <-.
    vm_compute in H3. injection H3 as <-. vm_compute in H4. injection H4 as <-. exact H5.
Defined.

Lemma manager_refines_backend_witness :
  manager_fetch "github" (wired SUnlocked demo_key demo_unlocked) =
  remote SUnlocked demo_key (backend_fetch "github" demo_unlocked).
Proof.
  apply manager_refines_backend; [done|].
  eexists _, _, _, _. split; [reflexivity|]. split; [by vm_compute|].
  split; [vm_compute; reflexivity|]. split; [vm_compute; reflexivity|by vm_compute].
Defined.

Lemma credentials_need_handshake_witness :
  existsb unlocked_by
    (combine [Exists "a"; Unlock "hunter2"; Init (bytes_to_hex demo_key)]
       [RError "vault locked: vault is locked; call unlock first"; ROk JNull; ROk JNull]) = true.
Proof.
  refine (proj1 (credentials_need_handshake 0%nat [Exists "a"; Unlock "hunter2"; Init (bytes_to_hex demo_key)]
    demo_unlocked _ "github" (set_executor 1%nat demo_unlocked) (credential_payload demo_enc) _ _)); by vm_compute.
Defined.

#[local] Instance demo_seccomp : Seccomp := {|
  syscall_number := len; target_arch := inl "x86_64"; filter_check := fun _ => None;
  BpfProgram := SeccompFilter; filter_compile := fun f => inl f
|}.
#[local] Instance demo_sandbox : SandboxOs nat := {|
  set_dumpable_off := mret tt; setrlimit_core_zero := mret tt; unshare_newpid := fail "EPERM";
  apply_filter := fun _ => mret tt; proc_self_fd := mret ["0"; "1"; "2"; "3"; "7"];
  close_fd := fun _ x => S x; try_clone := fun _ => mret tt
|}.
#[local] Instance demo_processes : ProcessOs nat := {|
  spawn := fun _ => fail "No such file or directory"; write_stdin := fun _ _ => mret tt;
  wait_with_output := fun _ => fail "no child"
|}.

Lemma worker_exits_witness :
  exists w code, vault_worker_main 50 3 "bw" true 0%nat (mkPipe (frame4 [Byte.x02] ++ [Byte.x00]) []) = (w, Some code).
Proof. apply (worker_exits 3 "bw" true 0%nat (mkPipe (frame4 [Byte.x02] ++ [Byte.x00]) []) 50). cbn. lia. Defined.

(** A manager whose worker is gone, and one whose worker goes after its first
    answer. *)
Definition piped (input : list byte) : SubprocessManager Pipe :=
  mkSubprocessManager (mkSubprocessInner SLocked (mkPipe input [])) demo_key.

Lemma crash_is_final_witness :
  exists m t reason, send_command List (piped []) = (m, Err (Subprocess t)) /\ status (inner m) = SCrashed reason /\
    refused reason m (manager_fetch "github" m) /\ forall s, rtc mstep (mkShared m 0) s -> s = mkShared m 0.
Proof.
  destruct (crash_is_final (piped []) List EmptyString "github") as [Hrec _].
  destruct (Hrec [Byte.x02] (mkPipe [] (frame4 [Byte.x02])) (match read_message (mkPipe [] []) with (_, Err e) => vault_error_to_string e | _ => EmptyString end))
    as [t Ht].
  - reflexivity.
  - reflexivity.
  - right. eexists _, _. split; [vm_compute; reflexivity|]. split; vm_compute; reflexivity.
  - eexists _, t, _. split; [exact Ht|]. split; [reflexivity|].
    match goal with |- refused _ ?m _ /\ _ => destruct (crash_is_final m List EmptyString "github") as [_ Hfin] end.
    destruct (Hfin _ eq_refl) as (_ & _ & Hf & _ & Hm). split; [exact Hf|exact Hm].
Defined.

Lemma unlock_hides_crash_witness :
  exists m, rtc mstep (mkShared (piped (frame4 [Byte.x01])) 0) (mkShared m 0) /\ status (inner m) = SUnlocked.
Proof.
  destruct (unlock_hides_crash (piped (frame4 [Byte.x01]))
    (send_command (Unlock "hunter2") (piped (frame4 [Byte.x01]))).1
    (send_command List (send_command (Unlock "hunter2") (piped (frame4 [Byte.x01]))).1).1 "hunter2" List (ROk JNull)
    (match (send_command List (send_command (Unlock "hunter2") (piped (frame4 [Byte.x01]))).1).2 with Err e => e | _ => Locked EmptyString end)
    (match status (inner (send_command List (send_command (Unlock "hunter2") (piped (frame4 [Byte.x01]))).1).1) with
     | SCrashed r => r | _ => EmptyString end)) as (m & Hr & Hu & _).
  - vm_compute. reflexivity.
  - discriminate.
  - vm_compute. reflexivity.
  - vm_compute. reflexivity.
  - exists m. split; [exact Hr|exact Hu].
Defined.
