(* ===== verification/VaultFile.v ===== *)
(** * cdp-vault: the file backend

    [cdp-vault/src/file.rs]: credentials in one file sealed with Argon2id and
    ChaCha20-Poly1305.  The file system, Argon2 and serde's codec of the file
    are classes. *)

From S2P Require Import Prelude StateM RustStr Crypto AuditLog VaultProtocol VaultBitwarden VaultManager.

#[local] Arguments String.append !_ _ /.

(** ** Constants and data *)

Definition SALT_LEN : nat := 16.
Definition NONCE_LEN : nat := 12.
Definition MIN_FILE_LEN : nat := SALT_LEN + NONCE_LEN.
Definition ARGON2_M_COST : Z := 65536.
Definition ARGON2_T_COST : Z := 3.
Definition ARGON2_P_COST : Z := 1.
Definition ARGON2_KEY_LEN : nat := 32.

Record DevCredential : Type := mkDevCredential { dc_value : string; dc_name : string }.

Record DevVaultFile : Type := mkDevVaultFile { credentials : gmap string DevCredential }.

Record FileBackend : Type := mkFileBackend {
  fb_credentials : gmap string DevCredential;
  fb_ipc_key : list byte
}.

(** ** Crates and the file system *)

Class Argon2 : Type := {
  ArgonParams : Type;
  params_new : Z -> Z -> Z -> nat -> ArgonParams + string;
  hash_password_into : ArgonParams -> list byte -> list byte -> list byte + string
}.

Class DevVaultCodec : Type := {
  vault_to_vec : DevVaultFile -> list byte + string;
  vault_from_slice : list byte -> DevVaultFile + string
}.

(** [write_file path mode bytes] opens with [create], [truncate] and the mode,
    and writes. *)
Class FileOs (X : Type) : Type := {
  read_file : string -> M X string (list byte);
  create_dir_all : string -> M X string unit;
  write_file : string -> Z -> list byte -> M X string unit
}.

Section File.
Context `{Argon2} `{Aead} `{DevVaultCodec} {X : Type} `{FileOs X} `{OsRng X}.

Definition derive_key (password : string) (salt : list byte) : result (list byte) VaultError :=
  let! params := vault_wrap (fun e => VaultDecryption ("Argon2id params: " +:+ e))
                   (params_new ARGON2_M_COST ARGON2_T_COST ARGON2_P_COST ARGON2_KEY_LEN) in
  vault_wrap (fun e => VaultDecryption ("Argon2id hash_password_into: " +:+ e))
    (hash_password_into params (as_bytes password) salt).

Definition chacha_encrypt (key nonce_bytes plaintext : list byte) : result (list byte) VaultError :=
  vault_wrap (fun e => VaultDecryption ("ChaCha20-Poly1305 encrypt: " +:+ e))
    (aead_encrypt key nonce_bytes plaintext).

Definition chacha_decrypt (key nonce_bytes ciphertext : list byte) : result (list byte) VaultError :=
  ok_or (aead_decrypt key nonce_bytes ciphertext)
    (VaultDecryption "decryption failed (wrong password or corrupted file)").

(** [FileBackend::open] *)
Definition open (path password : string) : M X VaultError FileBackend :=
  bytes ← map_errM VaultIo (read_file path);
  if (length bytes <? MIN_FILE_LEN)%nat then
    fail (VaultDecryption ("file too short: " +:+ display_Z (Z.of_nat (length bytes)) +:+
            " bytes (minimum " +:+ display_Z (Z.of_nat MIN_FILE_LEN) +:+ ")"))
  else
    let salt := take SALT_LEN bytes in
    let rest := drop SALT_LEN bytes in
    let nonce_bytes := take NONCE_LEN rest in
    let ciphertext := drop NONCE_LEN rest in
    key ← lift (derive_key password salt);
    plaintext ← lift (chacha_decrypt key nonce_bytes ciphertext);
    vault ← lift (vault_wrap (fun e => Protocol ("failed to parse vault JSON: " +:+ e))
                    (vault_from_slice plaintext));
    ipc ← draw 32;
    mret (mkFileBackend (credentials vault) ipc).

Definition create_dev_vault (path password : string) (creds : gmap string DevCredential) : M X VaultError unit :=
  plaintext ← lift (vault_wrap (fun e => Protocol ("serialize vault: " +:+ e))
                      (vault_to_vec (mkDevVaultFile creds)));
  salt ← draw SALT_LEN;
  nonce_bytes ← draw NONCE_LEN;
  key ← lift (derive_key password salt);
  ciphertext ← lift (chacha_encrypt key nonce_bytes plaintext);
  _ ← match path_parent path with
      | Some parent => map_errM VaultIo (create_dir_all parent)
      | None => mret tt
      end;
  let file_bytes := salt ++ nonce_bytes ++ ciphertext in
  map_errM VaultIo (write_file path 384 (* 0o600 *) file_bytes).

(** The [VaultBackend] implementation. *)
Definition file_list `{MapIter} (b : FileBackend) : list CredentialRef :=
  map (fun '(id, cred) => mkCredentialRef id (dc_name cred) "dev") (map_iter (fb_credentials b)).

Definition file_fetch (b : FileBackend) (ref_id : string) : M X VaultError EncryptedCredential :=
  match fb_credentials b !! ref_id with
  | None => fail (NotFound ("credential '" +:+ ref_id +:+ "' not found in dev vault"))
  | Some cred =>
      nonce ← draw 12;
      data ← lift (vault_wrap (fun e => VaultDecryption ("encrypt credential: " +:+ e))
                     (aead_encrypt (fb_ipc_key b) nonce (as_bytes (dc_value cred))));
      mret (mkEncryptedCredential data nonce)
  end.

Definition file_exists (b : FileBackend) (ref_id : string) : bool :=
  bool_decide (is_Some (fb_credentials b !! ref_id)).
End File.

(** ** What is relied on *)

(** serde reads back what it wrote; the password hash and the cipher work on
    any input of their documented sizes. *)
Class DevVaultCodecLaws `{DevVaultCodec} : Prop := {
  vault_roundtrip : forall v b, vault_to_vec v = inl b -> vault_from_slice b = inl v
}.

(** A read right after the file was written, when it succeeds, returns the
    bytes written (an existing file may be writable but not readable). *)
Class FileOsLaws {X : Type} `{FileOs X} : Prop := {
  read_own_write : forall path mode bytes x x' x'' read,
    write_file path mode bytes x = (x', Ok tt) -> read_file path x' = (x'', Ok read) -> read = bytes
}.

Section FileLemmas.
Context `{Argon2} `{!Aead} `{!DevVaultCodec} {X : Type} `{!FileOs X} `{!OsRng X}.

Lemma draw_ok {E : Type} n (x x' : X) l : draw (E:=E) n x = (x', Ok l) <-> gen_bytes n x = (x', l).
Proof. unfold draw. destruct (gen_bytes n x). split; congruence. Qed.

Lemma vault_wrap_ok {A : Type} f (r : A + string) a : vault_wrap f r = Ok a <-> r = inl a.
Proof. destruct r; simpl; split; congruence. Qed.

Context `{!OsRngLaws (X:=X)} `{!FileOsLaws (X:=X)} `{!AeadLaws} `{!DevVaultCodecLaws}.

(** The file's layout, from a successful creation. *)
Lemma create_dev_vault_file path pw creds (x x' : X) :
  create_dev_vault path pw creds x = (x', Ok tt) ->
  exists salt nonce key ct pt x1,
    length salt = SALT_LEN /\ length nonce = NONCE_LEN /\ derive_key pw salt = Ok key /\
    vault_to_vec (mkDevVaultFile creds) = inl pt /\ aead_encrypt key nonce pt = inl ct /\
    write_file path 384 (salt ++ nonce ++ ct) x1 = (x', Ok tt).
Proof.
  unfold create_dev_vault. intros Hc.
  apply bind_ok in Hc as (x1 & pt & [-> Hpt%vault_wrap_ok]%lift_ok & Hc).
  apply bind_ok in Hc as (x2 & salt & Hs%draw_ok & Hc).
  apply bind_ok in Hc as (x3 & nonce & Hn%draw_ok & Hc).
  apply bind_ok in Hc as (x4 & key & [-> Hk]%lift_ok & Hc).
  apply bind_ok in Hc as (x5 & ct & [-> Hct%vault_wrap_ok]%lift_ok & Hc).
  apply bind_ok in Hc as (x6 & [] & _ & Hw%map_errM_ok).
  exists salt, nonce, key, ct, pt, x6. repeat split; try done.
  - pose proof (gen_bytes_length SALT_LEN x) as Hl. by rewrite Hs in Hl.
  - pose proof (gen_bytes_length NONCE_LEN x2) as Hl. by rewrite Hn in Hl.
Qed.

Lemma file_fetch_ok b ref (x x' : X) enc :
  file_fetch b ref x = (x', Ok enc) ->
  exists cred, fb_credentials b !! ref = Some cred /\
    aead_decrypt (fb_ipc_key b) (ec_nonce enc) (ec_data enc) = Some (as_bytes (dc_value cred)).
Proof.
  unfold file_fetch. destruct (fb_credentials b !! ref) as [cred|]; [|discriminate]. intros Hf.
  apply bind_ok in Hf as (x1 & nonce & _ & Hf).
  apply bind_ok in Hf as (x2 & data & [-> Hd%vault_wrap_ok]%lift_ok & [= <- <-]).
  exists cred. split; [done|]. by apply aead_roundtrip.
Qed.

(** ** Properties *)

(** C25. The dev vault round-trips: a vault that was created, and whose file can be
    read, opens with the same password to exactly the credentials stored; [exists] and
    [list_credentials] tell which, and every [fetch] that succeeds opens under
    the backend's key to the stored value. *)
Theorem file_vault_roundtrip `{!MapIter} `{!MapIterLaws} (path pw : string)
    (creds : gmap string DevCredential) (x x' x2 : X) (bytes : list byte) :
  create_dev_vault path pw creds x = (x', Ok tt) -> read_file path x' = (x2, Ok bytes) ->
  exists b x'', open path pw x' = (x'', Ok b) /\ fb_credentials b = creds /\
    (forall ref, file_exists b ref = true <-> is_Some (creds !! ref)) /\
    (forall r, r ∈ file_list b <-> exists cred, creds !! cr_id r = Some cred /\
                 r = mkCredentialRef (cr_id r) (dc_name cred) "dev") /\
    (forall ref y y' enc, file_fetch b ref y = (y', Ok enc) ->
       exists cred, creds !! ref = Some cred /\
         aead_decrypt (fb_ipc_key b) (ec_nonce enc) (ec_data enc) = Some (as_bytes (dc_value cred))).
Proof.
  intros (salt & nonce & key & ct & pt & x1 & Hsl & Hnl & Hk & Hpt & Hct & Hw)%create_dev_vault_file Hr.
  pose proof (read_own_write _ _ _ _ _ _ _ Hw Hr) as ->.
  destruct (gen_bytes 32 x2) as [x3 ipc] eqn:Eg.
  exists (mkFileBackend creds ipc), x3. split; [|split; [done|]].
  - unfold open. rewrite (bind_run _ _ _ _ _ (proj2 (map_errM_ok VaultIo _ _ _ _) Hr)).
    rewrite (proj2 (Nat.ltb_ge _ _)) by (rewrite !length_app, Hsl, Hnl; unfold MIN_FILE_LEN; lia).
    rewrite take_app_length', drop_app_length', take_app_length', drop_app_length' by done.
    rewrite Hk, (bind_run _ _ _ x2 key) by done. unfold chacha_decrypt.
    rewrite (aead_roundtrip _ _ _ _ Hct), (bind_run _ _ _ x2 pt) by done.
    rewrite (vault_roundtrip _ _ Hpt), (bind_run _ _ _ x2 (mkDevVaultFile creds)) by done.
    rewrite (bind_run _ _ _ _ _ (proj2 (draw_ok 32 x2 x3 ipc) Eg)). done.
  - split; [|split].
    + intros ref. unfold file_exists. by rewrite bool_decide_eq_true.
    + intros r. unfold file_list. cbn [fb_credentials]. rewrite list_elem_of_fmap. split.
      * intros ([id cred] & -> & Hin). rewrite map_iter_perm in Hin. apply elem_of_map_to_list in Hin.
        exists cred. done.
      * intros (cred & Hc & Heq). exists (cr_id r, cred). split; [done|].
        rewrite map_iter_perm. by apply elem_of_map_to_list.
    + intros ref y y' enc Hf. apply file_fetch_ok in Hf as (cred & Hc & Ha). by exists cred.
Qed.
End FileLemmas.

(** ** A file system to evaluate *)

Abbreviation Disk := (gmap string (list byte)).

#[local] Instance disk_os : FileOs Disk := {|
  read_file := fun p d => (d, match d !! p with Some b => Ok b | None => Err "No such file or directory" end);
  create_dir_all := fun _ => mret tt;
  write_file := fun p _ b d => (<[p := b]> d, Ok tt)
|}.
#[local] Instance disk_os_laws : FileOsLaws (X:=Disk).
Proof.
  split. intros path mode bytes x x' x'' read [= <-]. unfold read_file, disk_os. rewrite lookup_insert_eq.
  by intros [= _ <-].
Qed.
#[local] Instance disk_rng : OsRng Disk := {| gen_bytes := fun n d => (d, repeat Byte.x11 n) |}.
#[local] Instance disk_rng_laws : OsRngLaws (X:=Disk).
Proof. split. intros n x. apply repeat_length. Qed.

#[local] Instance plain_argon : Argon2 := {|
  ArgonParams := unit; params_new := fun _ _ _ _ => inl tt;
  hash_password_into := fun _ p s => inl (take 32 (p ++ s ++ repeat Byte.x00 32))
|}.
#[local] Instance tag_aead : Aead := {|
  aead_encrypt := fun k n p => inl (k ++ rev p);
  aead_decrypt := fun k n c => if bool_decide (take (length k) c = k) then Some (rev (drop (length k) c)) else None
|}.
#[local] Instance tag_aead_laws : AeadLaws.
Proof.
  split. intros k n p c [= <-]. cbn. rewrite take_app_length, drop_app_length, rev_involutive.
  by rewrite bool_decide_eq_true_2.
Qed.

(** One credential per file. *)
#[local] Instance one_vault : DevVaultCodec := {|
  vault_to_vec := fun v =>
    match map_to_list (credentials v) with
    | [(id, c)] =>
        if bool_decide (fits (as_bytes id)) && bool_decide (fits (as_bytes (dc_value c)))
        then inl (frame4 (as_bytes id) ++ frame4 (as_bytes (dc_value c)) ++ as_bytes (dc_name c)) else inr "long"
    | _ => inr "unsupported"
    end;
  vault_from_slice := fun b =>
    match read_message b with
    | (r1, Ok id) =>
        match read_message r1 with
        | (r2, Ok v) => inl (mkDevVaultFile {[of_bytes id := mkDevCredential (of_bytes v) (of_bytes r2)]})
        | _ => inr "eof"
        end
    | _ => inr "eof"
    end
|}.
#[local] Instance one_vault_laws : DevVaultCodecLaws.
Proof.
  split. intros [m] b. cbn [vault_to_vec one_vault credentials].
  destruct (map_to_list m) as [|[id [v n]] [|? ?]] eqn:E; try discriminate.
  destruct (_ && _) eqn:Ef; [|discriminate]. intros Hb. apply (inj inl) in Hb as <-. bool_to_prop.
  cbn [vault_from_slice one_vault]. rewrite read_message_frame by done.
  rewrite read_message_frame by done. cbn [dc_value dc_name].
  rewrite !of_as_bytes. do 2 f_equal. rewrite <- (list_to_map_to_list m), E. done.
Qed.
#[local] Instance plain_iter : MapIter := {| map_iter := fun A m => map_to_list m |}.
#[local] Instance plain_iter_laws : MapIterLaws.
Proof. by split. Qed.

Definition demo_creds : gmap string DevCredential := {["k" := mkDevCredential "secret" "API key"]}.

Lemma file_vault_roundtrip_witness :
  exists b d, open "/v/dev" "pw" (create_dev_vault "/v/dev" "pw" demo_creds (∅ : Disk)).1 = (d, Ok b) /\
    fb_credentials b = demo_creds.
Proof.
  destruct (file_vault_roundtrip "/v/dev" "pw" demo_creds (∅ : Disk)
    (create_dev_vault "/v/dev" "pw" demo_creds (∅ : Disk)).1 (create_dev_vault "/v/dev" "pw" demo_creds (∅ : Disk)).1
    (default [] ((create_dev_vault "/v/dev" "pw" demo_creds (∅ : Disk)).1 !! "/v/dev"))) as (b & d & Ho & Hc & _).
  - by vm_compute.
  - vm_compute. reflexivity.
  - by exists b, d.
Defined.
