(* ===== verification/BrowserCookies.v ===== *)
(** * cdp-browser: cookies

    [cdp-browser/src/cookies.rs] and the error type of [lib.rs].  Regular
    expressions are the [regex] crate's: a class, with what it documents of
    anchored literals as laws. *)

From S2P Require Import Prelude RustStr.

#[local] Arguments String.append !_ _ /.

(** ** Errors and data *)

Inductive BrowserError : Type :=
| BSandbox (m : string)
| BSubprocess (m : string)
| BLogin (m : string)
| BCookieExtraction (m : string)
| BTwoFactor (m : string)
| BTimeout (m : string)
| BProtocol (m : string)
| BIo (m : string)
| BCrypto (m : string).

Record Cookie : Type := mkCookie {
  ck_name : string; ck_value : string; ck_domain : string; ck_path : string;
  ck_secure : bool; ck_http_only : bool; ck_same_site : string;
  ck_expires : option Z; ck_max_age : option Z
}.

(** [Cookie::session] *)
Definition cookie_session (name value domain : string) : Cookie :=
  mkCookie name value domain "/" true true "Lax" None None.

(** ** Filters *)

Definition TRACKING_PATTERNS : list string :=
  ["^_ga$"; "^_gid$"; "^_fbp$"; "^_gcl_"; "^__utm"; "^_hjid$"; "^_hjSession";
   "^_hjIncludedInPageview"; "^_hjFirstSeen$"; "^_hjAbsoluteSessionInProgress$"; "^_ttp$";
   "^_pin_unauth$"; "^MUID$"; "^IDE$"].

Class RegexCrate : Type := {
  Regex : Type;
  regex_new : string -> Regex + string;
  is_match : Regex -> string -> bool
}.

Section Filter.
Context `{RegexCrate}.

Record CookieFilter : Type := mkCookieFilter {
  keep_patterns : list Regex;
  drop_patterns : list Regex;
  drop_tracking : bool
}.

(** [CookieFilter::default] and [new] *)
Definition filter_new : CookieFilter := mkCookieFilter [] [] true.

Definition keep (f : CookieFilter) (pattern : string) : result CookieFilter BrowserError :=
  match regex_new pattern with
  | inr e => Err (BProtocol ("invalid keep pattern '" +:+ pattern +:+ "': " +:+ e))
  | inl re => Ok (mkCookieFilter (keep_patterns f ++ [re]) (drop_patterns f) (drop_tracking f))
  end.

Definition drop_pattern (f : CookieFilter) (pattern : string) : result CookieFilter BrowserError :=
  match regex_new pattern with
  | inr e => Err (BProtocol ("invalid drop pattern '" +:+ pattern +:+ "': " +:+ e))
  | inl re => Ok (mkCookieFilter (keep_patterns f) (drop_patterns f ++ [re]) (drop_tracking f))
  end.

Definition with_drop_tracking (f : CookieFilter) (b : bool) : CookieFilter :=
  mkCookieFilter (keep_patterns f) (drop_patterns f) b.

(** A pattern that does not compile matches nothing. *)
Definition is_tracking (name : string) : bool :=
  existsb (fun pat => match regex_new pat with inl re => is_match re name | inr _ => false end)
    TRACKING_PATTERNS.

Definition any_match (res : list Regex) (name : string) : bool := existsb (fun re => is_match re name) res.

(** The closure of [filter_cookies]. *)
Definition passes (f : CookieFilter) (c : Cookie) : bool :=
  if drop_tracking f && is_tracking (ck_name c) then false
  else if any_match (drop_patterns f) (ck_name c) then false
  else if negb (match keep_patterns f with [] => true | _ => false end) &&
          negb (any_match (keep_patterns f) (ck_name c)) then false
  else true.

Definition filter_cookies (cookies : list Cookie) (f : CookieFilter) : list Cookie :=
  List.filter (passes f) cookies.

(** ** Transformations *)

Definition transform_for_proxy_only (cookies : list Cookie) : list Cookie := cookies.

Definition restrict (allowed_domain : string) (max_age_seconds : Z) (c : Cookie) : Cookie :=
  mkCookie (ck_name c) (ck_value c) allowed_domain (ck_path c) true false (ck_same_site c)
    None (Some max_age_seconds).

Definition transform_for_scoped_snapshot (cookies : list Cookie) (allowed_domain : string)
    (max_age_seconds : Z) : list Cookie :=
  map (restrict allowed_domain max_age_seconds) cookies.
End Filter.

(** ** The store *)

Abbreviation CookieStore := (gmap string (list Cookie)).

Definition store_set (s : CookieStore) (origin : string) (cookies : list Cookie) : CookieStore :=
  <[origin := cookies]> s.

(** [get]: nothing stored reads as no cookies. *)
Definition store_get (s : CookieStore) (origin : string) : list Cookie := unwrap_or (s !! origin) [].

Definition store_remove (s : CookieStore) (origin : string) : CookieStore := delete origin s.

(** [origins], in some order. *)
Definition store_origins (s : CookieStore) : list string := map fst (map_to_list s).

Definition total_count (s : CookieStore) : nat :=
  fold_right (fun kv acc => (length kv.2 + acc)%nat) 0%nat (map_to_list s).

Definition cookie_pair (c : Cookie) : string := ck_name c +:+ "=" +:+ ck_value c.

Definition build_cookie_header (s : CookieStore) (origin : string) : option string :=
  match store_get s origin with
  | [] => None
  | cookies => Some (join "; " (map cookie_pair cookies))
  end.

(** [CookieManager] wraps the store. *)
Section Manager.
Context `{RegexCrate}.

Definition store_proxy_only (s : CookieStore) (origin : string) (cookies : list Cookie) (f : CookieFilter)
    : CookieStore :=
  store_set s origin (transform_for_proxy_only (filter_cookies cookies f)).

Definition store_scoped_snapshot (s : CookieStore) (origin : string) (cookies : list Cookie)
    (f : CookieFilter) (allowed_domain : string) (max_age_seconds : Z) : CookieStore :=
  store_set s origin
    (transform_for_scoped_snapshot (filter_cookies cookies f) allowed_domain max_age_seconds).
End Manager.

(** ** Lemmas *)

(** Characters that stand for themselves in a pattern. *)
Definition literal_char (c : Ascii.ascii) : bool :=
  let n := code c in
  ((48 <=? n) && (n <=? 57) || (65 <=? n) && (n <=? 90) || (97 <=? n) && (n <=? 122) || (n =? 95))%N.

Fixpoint literal (s : string) : bool :=
  match s with
  | EmptyString => true
  | String c s' => literal_char c && literal s'
  end.

(** An anchored literal matches the text itself; without the closing anchor
    it matches what starts with it. *)
Class RegexLaws `{RegexCrate} : Prop := {
  regex_whole : forall lit s, literal lit = true -> exists re, regex_new ("^" +:+ lit +:+ "$") = inl re /\
    is_match re s = bool_decide (s = lit);
  regex_prefix : forall lit s, literal lit = true -> exists re, regex_new ("^" +:+ lit) = inl re /\
    is_match re s = bool_decide (is_Some (strip_prefix lit s))
}.

Definition tracking_names : list string :=
  ["_ga"; "_gid"; "_fbp"; "_hjid"; "_hjFirstSeen"; "_hjAbsoluteSessionInProgress"; "_ttp"; "_pin_unauth";
   "MUID"; "IDE"].
Definition tracking_prefixes : list string := ["_gcl_"; "__utm"; "_hjSession"; "_hjIncludedInPageview"].

Definition tracks (name : string) : Prop :=
  name ∈ tracking_names \/ exists p rest, p ∈ tracking_prefixes /\ name = p +:+ rest.

Definition pattern_hit `{RegexCrate} (name pat : string) : bool :=
  match regex_new pat with inl re => is_match re name | inr _ => false end.

Section FilterLemmas.
Context `{RegexCrate} `{!RegexLaws}.

Lemma hit_whole name lit : literal lit = true -> pattern_hit name ("^" +:+ lit +:+ "$") = bool_decide (name = lit).
Proof. intros Hl. unfold pattern_hit. by destruct (regex_whole lit name Hl) as (re & -> & ->). Qed.

Lemma hit_prefix name lit :
  literal lit = true -> pattern_hit name ("^" +:+ lit) = bool_decide (is_Some (strip_prefix lit name)).
Proof. intros Hl. unfold pattern_hit. by destruct (regex_prefix lit name Hl) as (re & -> & ->). Qed.

(** The compiled patterns decide membership in the two lists. *)
Lemma is_tracking_hits name :
  is_tracking name =
  existsb (fun l => bool_decide (name = l)) tracking_names ||
  existsb (fun l => bool_decide (is_Some (strip_prefix l name))) tracking_prefixes.
Proof.
  assert (Hw : existsb (pattern_hit name) (map (fun l => "^" +:+ l +:+ "$") tracking_names) =
               existsb (fun l => bool_decide (name = l)) tracking_names).
  { cbn [tracking_names map existsb]. by rewrite !hit_whole by (vm_compute; done). }
  assert (Hp : existsb (pattern_hit name) (map (fun l => "^" +:+ l) tracking_prefixes) =
               existsb (fun l => bool_decide (is_Some (strip_prefix l name))) tracking_prefixes).
  { cbn [tracking_prefixes map existsb]. by rewrite !hit_prefix by (vm_compute; done). }
  rewrite <- Hw, <- Hp, <- existsb_app. unfold is_tracking.
  apply eq_true_iff_eq. rewrite !existsb_exists.
  split; intros (p & Hin & Hm); exists p; (split; [|done]);
    vm_compute in Hin |- *; repeat destruct Hin as [<-|Hin]; try done; tauto.
Qed.

Lemma is_tracking_spec name : is_tracking name = true <-> tracks name.
Proof.
  rewrite is_tracking_hits, orb_true_iff, !existsb_exists. unfold tracks.
  split; (intros [Hn|Hp]; [left|right]).
  - destruct Hn as (l & Hin & Hd). bool_to_prop. subst. by apply list_elem_of_In.
  - destruct Hp as (l & Hin & Hd). bool_to_prop. destruct Hd as [rest Hs%strip_prefix_Some].
    exists l, rest. by rewrite list_elem_of_In.
  - exists name. apply list_elem_of_In in Hn. by rewrite bool_decide_eq_true.
  - destruct Hp as (p & rest & Hin & ->). exists p. apply list_elem_of_In in Hin. split; [done|].
    apply bool_decide_eq_true_2. exists rest. apply strip_prefix_app.
Qed.
End FilterLemmas.

Lemma passes_spec `{RegexCrate} `{!RegexLaws} f c :
  passes f c = true <->
  (drop_tracking f = true -> ~ tracks (ck_name c)) /\
  any_match (drop_patterns f) (ck_name c) = false /\
  (keep_patterns f = [] \/ any_match (keep_patterns f) (ck_name c) = true).
Proof.
  rewrite <- is_tracking_spec. unfold passes.
  destruct (drop_tracking f), (is_tracking (ck_name c)), (any_match (drop_patterns f) _),
    (keep_patterns f), (any_match _ _); simpl; naive_solver.
Qed.

(** ** Properties *)

(** A scoped snapshot stores, for its origin only, the cookies that pass the
    filter (no tracker unless allowed, no drop pattern, a keep pattern where
    there are any), each with the allowed domain, the short lifetime and the
    Secure flag; other origins keep what they had, and the proxy gets a header
    exactly when something was kept. *)
Theorem scoped_snapshot_stored `{RegexCrate} `{!RegexLaws} (s : CookieStore) (origin : string)
    (cookies : list Cookie) (f : CookieFilter) (domain : string) (age : Z) :
  let s' := store_scoped_snapshot s origin cookies f domain age in
  (forall c, c ∈ store_get s' origin <->
     exists c0, c0 ∈ cookies /\ (drop_tracking f = true -> ~ tracks (ck_name c0)) /\
       any_match (drop_patterns f) (ck_name c0) = false /\
       (keep_patterns f = [] \/ any_match (keep_patterns f) (ck_name c0) = true) /\
       c = restrict domain age c0) /\
  Forall (fun c => ck_domain c = domain /\ ck_max_age c = Some age /\ ck_expires c = None /\
                   ck_secure c = true /\ ck_http_only c = false) (store_get s' origin) /\
  (forall o, o <> origin -> store_get s' o = store_get s o) /\
  (build_cookie_header s' origin = None <-> store_get s' origin = []).
Proof.
  set (kept := transform_for_scoped_snapshot (filter_cookies cookies f) domain age).
  assert (Hg : store_get (store_scoped_snapshot s origin cookies f domain age) origin = kept).
  { unfold store_get, store_scoped_snapshot, store_set. by rewrite lookup_insert_eq. }
  cbn zeta. split; [|split; [|split]].
  - intros c. rewrite Hg. unfold kept, transform_for_scoped_snapshot, filter_cookies.
    rewrite list_elem_of_In, in_map_iff. setoid_rewrite filter_In. setoid_rewrite passes_spec.
    setoid_rewrite <- list_elem_of_In. naive_solver.
  - rewrite Hg. apply Forall_forall. intros c Hc. unfold kept, transform_for_scoped_snapshot in Hc.
    apply list_elem_of_In, in_map_iff in Hc as (c0 & <- & _). done.
  - intros o Ho. unfold store_get, store_scoped_snapshot, store_set. by rewrite lookup_insert_ne.
  - unfold build_cookie_header. rewrite Hg. by destruct kept.
Qed.

(** The domain is overwritten, not checked: a cookie of any other site passes
    and becomes one of the allowed domain. *)
Theorem foreign_cookie_relabelled `{RegexCrate} `{!RegexLaws} s origin c domain age :
  ~ tracks (ck_name c) ->
  store_get (store_scoped_snapshot s origin [c] filter_new domain age) origin = [restrict domain age c].
Proof.
  intros Ht. unfold store_get, store_scoped_snapshot, store_set. rewrite lookup_insert_eq.
  unfold filter_cookies. simpl. rewrite (proj2 (passes_spec filter_new c)); [done|]. simpl. auto.
Qed.

(** ** Anchored literals to evaluate *)

(** The text before a final dollar sign. *)
Fixpoint strip_dollar (s : string) : option string :=
  match s with
  | EmptyString => None
  | String c EmptyString => if bool_decide (c = Ascii.ascii_of_N 36) then Some EmptyString else None
  | String c s' => String c <$> strip_dollar s'
  end.

Lemma strip_dollar_snoc s : strip_dollar (s +:+ "$") = Some s.
Proof. induction s as [|c s IH]; [done|]. cbn. rewrite IH. by destruct s. Qed.

Lemma strip_dollar_literal s : literal s = true -> strip_dollar s = None.
Proof.
  induction s as [|c s IH]; [done|]. cbn [literal]. intros Hl. bool_to_prop. rename H into Hc, H0 into Hs.
  cbn. destruct s as [|d s]; [|by rewrite IH].
  case_bool_decide; [|done]. subst. vm_compute in Hc. discriminate.
Qed.

#[local] Instance anchored_regex : RegexCrate := {|
  Regex := bool * string;
  regex_new := fun pat =>
    match strip_prefix "^" pat with
    | None => inr "unsupported"
    | Some r => match strip_dollar r with Some l => inl (true, l) | None => inl (false, r) end
    end;
  is_match := fun re s => if re.1 then bool_decide (s = re.2) else bool_decide (is_Some (strip_prefix re.2 s))
|}.

#[local] Instance anchored_regex_laws : RegexLaws.
Proof.
  split; intros lit s Hl; cbn [regex_new anchored_regex]; rewrite strip_prefix_app.
  - rewrite strip_dollar_snoc. eexists. split; [done|]. done.
  - rewrite strip_dollar_literal by done. eexists. split; [done|]. done.
Qed.

Lemma scoped_snapshot_stored_witness :
  restrict "app.example" 300 (cookie_session "sid" "1" "example.com") ∈
  store_get (store_scoped_snapshot ∅ "https://app.example"
    [cookie_session "_ga" "x" "a"; cookie_session "sid" "1" "example.com"] filter_new "app.example" 300)
    "https://app.example".
Proof.
  apply (proj1 (scoped_snapshot_stored ∅ "https://app.example"
    [cookie_session "_ga" "x" "a"; cookie_session "sid" "1" "example.com"] filter_new "app.example" 300)).
  exists (cookie_session "sid" "1" "example.com"). split; [set_solver|].
  split; [|split; [done|split; [by left|done]]].
  intros _ [Hn|(p & rest & Hp & Heq)].
  - unfold tracking_names in Hn. cbn [ck_name cookie_session] in Hn. repeat (apply elem_of_cons in Hn as [Hn|Hn]; [discriminate|]). by apply not_elem_of_nil in Hn.
  - unfold tracking_prefixes in Hp. cbn [ck_name cookie_session] in Heq. repeat (apply elem_of_cons in Hp as [->|Hp]; [discriminate|]). by apply not_elem_of_nil in Hp.
Defined.
