(* ===== verification/Browser.v ===== *)
(** * cdp-browser: the sandboxed browser and the login flow

    [cdp-browser/src/sandbox.rs] and [snapshot.rs].  The browser itself, the
    kernel and tokio's timer are classes; the login flow is written against
    [BrowserPeer], the part of a [SandboxedProcess] it uses, which
    [process_peer] implements with the framing and tokio's [timeout]. *)

From S2P Require Import Prelude StateM RustStr Crypto AuditLog VaultProtocol VaultBitwarden VaultWorker BrowserCookies.

#[local] Arguments String.append !_ _ /.

(** ** Configuration *)

Record SandboxConfig : Type := mkSandboxConfig {
  bwrap_path : string; chromium_path : string;
  enable_seccomp : bool; enable_pid_namespace : bool; enable_net_namespace : bool
}.

Definition default_sandbox : SandboxConfig :=
  mkSandboxConfig "/usr/bin/bwrap" "/usr/bin/chromium" true true false.

Inductive SuccessIndicatorMsg : Type :=
| MUrlChange (pattern : string)
| MCookiePresent (name : string)
| MSelectorAppears (selector : string).

Inductive BrowserCommand : Type :=
| Navigate (url : string)
| FillCredentials (username password username_selector password_selector : string)
| Submit (selector : string)
| WaitForLogin (success_indicator : SuccessIndicatorMsg)
| ExtractCookies
| Enter2Fa (code : string)
| Shutdown.

Inductive BrowserResponse : Type :=
| BOk (data : option Json)
| BError (message : string)
| TwoFaRequired (hint : string).

(** [serde_json] on the two message types. *)
Class BrowserCodec : Type := {
  bcommand_to_vec : BrowserCommand -> list byte + string;
  bresponse_from_slice : list byte -> BrowserResponse + string;
  cookies_from_value : Json -> list Cookie + string
}.

(** ** Framing *)

Definition b_write_message {W : Type} `{Write W} (payload : list byte) : M W BrowserError unit :=
  if MAX_MESSAGE_SIZE <? Z.of_nat (length payload) then
    fail (BProtocol ("payload size " +:+ display_Z (Z.of_nat (length payload)) +:+ " exceeds max " +:+
                     display_Z MAX_MESSAGE_SIZE))
  else
    _ ← map_errM BIo (write_all (be_bytes 4 (N.of_nat (length payload) mod 2 ^ 32)));
    _ ← map_errM BIo (write_all payload);
    map_errM BIo flush.

Definition b_read_message {R : Type} `{Read R} : M R BrowserError (list byte) :=
  len_buf ← map_errM BIo (read_exact 4);
  let len := from_be_bytes len_buf in
  if MAX_MESSAGE_SIZE <? Z.of_N len then
    fail (BProtocol ("declared message length " +:+ display_Z (Z.of_N len) +:+ " exceeds maximum " +:+
                     display_Z MAX_MESSAGE_SIZE))
  else map_errM BIo (read_exact (N.to_nat len)).

Definition browser_wrap {A : Type} (f : string -> BrowserError) (r : A + string) : result A BrowserError :=
  match r with inl a => Ok a | inr e => Err (f e) end.

(** [SandboxedProcess::send_command] *)
Definition send_browser_command {C : Type} `{Read C} `{Write C} `{BrowserCodec} (cmd : BrowserCommand)
    : M C BrowserError BrowserResponse :=
  payload ← lift (browser_wrap (fun e => BProtocol ("serialize command: " +:+ e)) (bcommand_to_vec cmd));
  _ ← b_write_message payload;
  raw ← b_read_message;
  lift (browser_wrap (fun e => BProtocol ("deserialize response: " +:+ e)) (bresponse_from_slice raw)).

(** [tokio::time::timeout(d, future)]: [None] when the time is up, in which
    case the future is dropped wherever it was. *)
Class TokioTimer (C : Type) : Type := {
  timeout : forall E A, Z -> M C E A -> C -> C * option (result A E)
}.
Arguments timeout {C _ E A}.

Class TokioTimerLaws {C : Type} `{TokioTimer C} : Prop := {
  timeout_completed : forall E A d (m : M C E A) c c' r, timeout d m c = (c', Some r) -> m c = (c', r)
}.

(** ** Spawning *)

Record BCommand : Type := mkBCommand { bc_program : string; bc_args : list string; bc_env : list (string * string) }.

Definition chromium_args : list string :=
  ["--headless=new"; "--no-sandbox"; "--disable-gpu"; "--remote-debugging-port=0"; "--enable-automation";
   "--disable-extensions"; "--disable-default-apps"].

(** The command of [spawn_with_bwrap]. *)
Definition bwrap_command (cfg : SandboxConfig) (child_fd : Z) : BCommand :=
  mkBCommand (bwrap_path cfg)
    (["--ro-bind"; "/"; "/"] ++ ["--dev"; "/dev"] ++ ["--proc"; "/proc"] ++ ["--tmpfs"; "/tmp"] ++
     (if enable_pid_namespace cfg then ["--unshare-pid"] else []) ++
     (if enable_net_namespace cfg then ["--unshare-net"] else []) ++
     ["--unshare-user"] ++ ["--die-with-parent"] ++
     ["--setenv"; "CDP_BROWSER_FD"; display_Z child_fd] ++
     (if enable_seccomp cfg then ["--setenv"; "CDP_BROWSER_SECCOMP"; "1"] else []) ++
     [chromium_path cfg] ++ chromium_args) [].

(** The command of [spawn_with_unshare]. *)
Definition unshare_command (cfg : SandboxConfig) (child_fd : Z) : BCommand :=
  mkBCommand "unshare"
    ((if enable_pid_namespace cfg then ["--pid"; "--fork"] else []) ++
     (if enable_net_namespace cfg then ["--net"] else []) ++
     [chromium_path cfg] ++ chromium_args)
    (("CDP_BROWSER_FD", display_Z child_fd) ::
     (if enable_seccomp cfg then [("CDP_BROWSER_SECCOMP", "1")] else [])).

(** The kernel, as far as spawning and killing go; [C] is a connected stream. *)
Class BrowserOs (X C : Type) : Type := {
  b_socketpair : M X string (Z * Z);
  path_exists : string -> X -> bool;
  clear_fd_flags : Z -> X -> X;
  spawn_child : BCommand -> M X string Z;
  b_close : Z -> X -> X;
  b_set_nonblocking : Z -> M X string unit;
  b_stream_from_std : Z -> M X string C;
  child_id : Z -> X -> option Z;
  sigkill : Z -> X -> X * Z;
  start_kill : Z -> X -> X
}.

Record SandboxedProcess (C : Type) : Type := mkSandboxedProcess { child : Z; child_pid : Z; chan : C }.
Arguments mkSandboxedProcess {C}.
Arguments child {C}.
Arguments child_pid {C}.
Arguments chan {C}.

(** [id as i32] *)
Definition as_i32 (x : Z) : Z := let y := x mod U32 in if y <? 2 ^ 31 then y else y - U32.

Section Spawn.
Context {X C : Type} `{BrowserOs X C}.

Definition launch (what : string) (cmd : BCommand) (child_fd : Z) : M X BrowserError Z :=
  _ ← modify (clear_fd_flags child_fd);
  map_errM (fun e => BSubprocess (what +:+ " spawn: " +:+ e)) (spawn_child cmd).

Definition spawn_with_bwrap (cfg : SandboxConfig) (child_fd : Z) : M X BrowserError Z :=
  launch "bwrap" (bwrap_command cfg child_fd) child_fd.

Definition spawn_with_unshare (cfg : SandboxConfig) (child_fd : Z) : M X BrowserError Z :=
  launch "unshare" (unshare_command cfg child_fd) child_fd.

(** [BrowserSandbox::spawn] *)
Definition browser_spawn (cfg : SandboxConfig) : M X BrowserError (SandboxedProcess C) :=
  fds ← map_errM (fun e => BSandbox ("socketpair: " +:+ e)) b_socketpair;
  let '(parent_fd, child_fd) := fds in
  has_bwrap ← gets (path_exists (bwrap_path cfg));
  ch ← (if has_bwrap : bool then spawn_with_bwrap cfg child_fd else spawn_with_unshare cfg child_fd);
  _ ← modify (b_close child_fd);
  _ ← map_errM BIo (b_set_nonblocking parent_fd);
  c ← map_errM (fun e => BSubprocess ("UnixStream::from_std: " +:+ e)) (b_stream_from_std parent_fd);
  id ← gets (child_id ch);
  pid ← lift (ok_or (as_i32 <$> id) (BSubprocess "child has no PID"));
  mret (mkSandboxedProcess ch pid c).

(** [SandboxedProcess::kill]; a failed signal is only logged. *)
Definition kill (p : SandboxedProcess C) (x : X) : X :=
  start_kill (child p) (sigkill (child_pid p) x).1.

(** [Drop for SandboxedProcess] *)
Definition drop_process (p : SandboxedProcess C) (x : X) : X := (sigkill (child_pid p) x).1.
End Spawn.

(** ** The login flow *)

Inductive SuccessIndicator : Type :=
| UrlChange (pattern : string)
| CookiePresent (name : string)
| SelectorAppears (selector : string).

Definition to_msg (s : SuccessIndicator) : SuccessIndicatorMsg :=
  match s with
  | UrlChange p => MUrlChange p
  | CookiePresent n => MCookiePresent n
  | SelectorAppears x => MSelectorAppears x
  end.

Inductive TwoFactorTrigger : Type := UrlPattern (p : string) | Selector (s : string).

Record TwoFactorDetector : Type := mkTwoFactorDetector {
  trigger : TwoFactorTrigger; input_selector : string; tf_submit_selector : string
}.

Record SnapshotConfig : Type := mkSnapshotConfig {
  login_url : string; username_selector : string; password_selector : string; submit_selector : string;
  success_indicator : SuccessIndicator; twofa_detector : option TwoFactorDetector;
  timeout_seconds : Z; sandbox_config : SandboxConfig
}.

Definition default_snapshot : SnapshotConfig :=
  mkSnapshotConfig EmptyString "input[name=username],input[type=email]" "input[type=password]"
    "button[type=submit],input[type=submit]" (UrlChange EmptyString) None 30 default_sandbox.

Record LoginCredential : Type := mkLoginCredential { lc_username : string; lc_password : list byte }.

Definition cmd_name (cmd : BrowserCommand) : string :=
  match cmd with
  | Navigate _ => "Navigate"
  | FillCredentials _ _ _ _ => "FillCredentials"
  | Submit _ => "Submit"
  | WaitForLogin _ => "WaitForLogin"
  | ExtractCookies => "ExtractCookies"
  | Enter2Fa _ => "Enter2FA"
  | Shutdown => "Shutdown"
  end.

(** What the flow asks of the process: a command with a deadline in seconds. *)
Class BrowserPeer (C : Type) : Type := {
  send_within : Z -> BrowserCommand -> C -> C * option (result BrowserResponse BrowserError)
}.

Definition process_peer {C : Type} `{Read C} `{Write C} `{BrowserCodec} `{TokioTimer C} : BrowserPeer C :=
  {| send_within := fun secs cmd => timeout secs (send_browser_command cmd) |}.

Section Flow.
Context {C : Type} `{BrowserPeer C} `{BrowserCodec} `{Fmt}.
Variable cfg : SnapshotConfig.

(** [timeout(..).await.map_err(|_| Timeout(msg))??] *)
Definition send_or_timeout (secs : Z) (cmd : BrowserCommand) (msg : string) : M C BrowserError BrowserResponse :=
  fun c => match send_within secs cmd c with
           | (c', None) => (c', Err (BTimeout msg))
           | (c', Some r) => (c', r)
           end.

Definition send_expect_ok (cmd : BrowserCommand) : M C BrowserError unit :=
  response ← send_or_timeout (timeout_seconds cfg) cmd
               ("command " +:+ debug_str (cmd_name cmd) +:+ " timed out");
  match response with
  | BOk _ => mret tt
  | BError message => fail (BLogin ("browser error: " +:+ message))
  | TwoFaRequired hint => fail (BTwoFactor ("unexpected 2FA challenge: " +:+ hint))
  end.

Definition twofa_indicator (detector : TwoFactorDetector) : SuccessIndicatorMsg :=
  match trigger detector with
  | UrlPattern p => MUrlChange p
  | Selector s => MSelectorAppears s
  end.

(** [callback] is the code the user types when asked, if there is a callback. *)
Definition try_handle_twofa (detector : TwoFactorDetector) (callback : option (result string BrowserError))
    : M C BrowserError bool := fun c =>
  let '(c, response) := send_within 5 (WaitForLogin (twofa_indicator detector)) c in
  let detected :=
    match response with
    | Some (Ok (TwoFaRequired _)) => true
    | Some (Ok (BOk _)) => true
    | Some (Ok (BError _)) => false
    | Some (Err _) | Some Panic | None => false
    end in
  match response with
  | Some Panic => (c, Panic)
  | _ =>
      if negb detected then (c, Ok false)
      else
        (callback_outcome ← lift (ok_or callback (BTwoFactor "2FA challenge detected but no callback provided"));
         code ← lift callback_outcome;
         _ ← send_expect_ok (Enter2Fa code);
         mret true) c
  end.

Definition extract_cookies : M C BrowserError (list Cookie) :=
  response ← send_or_timeout (timeout_seconds cfg) ExtractCookies "ExtractCookies timed out";
  match response with
  | BOk (Some data) =>
      cookies ← lift (browser_wrap (fun e => BCookieExtraction ("deserialize cookies: " +:+ e))
                        (cookies_from_value data));
      match cookies with
      | [] => fail (BCookieExtraction "no cookies returned by browser")
      | _ => mret cookies
      end
  | BOk None => fail (BCookieExtraction "browser returned Ok but no cookie data")
  | BError message => fail (BCookieExtraction ("browser error extracting cookies: " +:+ message))
  | TwoFaRequired _ => fail (BCookieExtraction "unexpected 2FA challenge during cookie extraction")
  end.

Definition run_login_flow (credential : LoginCredential) (callback : option (result string BrowserError))
    : M C BrowserError (list Cookie) :=
  _ ← send_expect_ok (Navigate (login_url cfg));
  password_str ← lift (ok_or (from_utf8 (lc_password credential)) (BLogin "password contains invalid UTF-8"));
  _ ← send_expect_ok (FillCredentials (lc_username credential) password_str
                        (username_selector cfg) (password_selector cfg));
  _ ← send_expect_ok (Submit (submit_selector cfg));
  _ ← match twofa_detector cfg with
      | Some detector => try_handle_twofa detector callback
      | None => mret false
      end;
  _ ← send_expect_ok (WaitForLogin (to_msg (success_indicator cfg)));
  extract_cookies.

(** [SessionSnapshot::capture] *)
Definition capture {X : Type} `{BrowserOs X C} `{TokioTimer X} (credential : LoginCredential)
    (callback : option (result string BrowserError)) : M X BrowserError (list Cookie) := fun x =>
  match timeout (timeout_seconds cfg) (browser_spawn (C:=C) (sandbox_config cfg)) x with
  | (x, None) => (x, Err (BTimeout "browser spawn timed out"))
  | (x, Some (Err e)) => (x, Err e)
  | (x, Some Panic) => (x, Panic)
  | (x, Some (Ok process)) =>
      let '(c, result) := run_login_flow credential callback (chan process) in
      let process := mkSandboxedProcess (child process) (child_pid process) c in
      (drop_process process (kill process x), result)
  end.
End Flow.

(** ** What the browser is told *)

(** A peer that also writes down every command it is given. *)
#[export] Instance logged_peer {C : Type} `{BrowserPeer C} : BrowserPeer (C * list BrowserCommand) := {|
  send_within := fun secs cmd '(c, log) =>
    let '(c', r) := send_within secs cmd c in ((c', log ++ [cmd]), r)
|}.

(** The commands between submitting the form and waiting for the result: none
    without a detector, else the probe, followed by the code if one was asked
    for. *)
Definition twofa_scripts (cfg : SnapshotConfig) (callback : option (result string BrowserError))
    : list (list BrowserCommand) :=
  match twofa_detector cfg with
  | None => [[]]
  | Some d =>
      let probe := WaitForLogin (twofa_indicator d) in
      [probe] :: match callback with Some (Ok code) => [[probe; Enter2Fa code]] | _ => [] end
  end.

(** The conversations the configuration allows. *)
Definition scripts (cfg : SnapshotConfig) (user password : string)
    (callback : option (result string BrowserError)) : list (list BrowserCommand) :=
  map (fun mid =>
    [Navigate (login_url cfg);
     FillCredentials user password (username_selector cfg) (password_selector cfg);
     Submit (submit_selector cfg)] ++ mid ++
    [WaitForLogin (to_msg (success_indicator cfg)); ExtractCookies])
    (twofa_scripts cfg callback).

Section Scripts.
Context {C : Type} `{BrowserPeer C} `{!BrowserCodec} `{!Fmt}.
Variable cfg : SnapshotConfig.

Lemma send_or_timeout_logged secs cmd msg (c : C) log :
  exists c' r, send_or_timeout secs cmd msg (c, log) = ((c', log ++ [cmd]), r).
Proof.
  unfold send_or_timeout. cbn. destruct (send_within secs cmd c) as [c' [r|]]; eauto.
Qed.

Lemma send_expect_ok_logged cmd (c : C) log :
  exists c' r, send_expect_ok cfg cmd (c, log) = ((c', log ++ [cmd]), r).
Proof.
  unfold send_expect_ok. rewrite bind_eq.
  destruct (send_or_timeout_logged (timeout_seconds cfg) cmd
    ("command " +:+ debug_str (cmd_name cmd) +:+ " timed out") c log) as (c' & r & ->).
  destruct r as [[?|?|?]|e|]; unfold fail, mret, M_ret; eauto.
Qed.

Lemma extract_cookies_logged (c : C) log :
  exists c' r, extract_cookies cfg (c, log) = ((c', log ++ [ExtractCookies]), r) /\ r <> Ok [].
Proof.
  unfold extract_cookies. rewrite bind_eq.
  destruct (send_or_timeout_logged (timeout_seconds cfg) ExtractCookies "ExtractCookies timed out" c log)
    as (c' & r & ->).
  destruct r as [[[data|]|?|?]|e|]; try (do 2 eexists; split; [reflexivity|discriminate]).
  rewrite bind_eq. unfold lift. destruct (browser_wrap _ _) as [[|ck cks]|e|];
    do 2 eexists; (split; [reflexivity|discriminate]).
Qed.

(** Either nothing was detected after the probe, or a code was typed and
    sent, or the flow ends here. *)
Lemma try_handle_twofa_logged d callback (c : C) log :
  exists c' mid r, try_handle_twofa cfg d callback (c, log) = ((c', log ++ mid), r) /\
    (mid = [WaitForLogin (twofa_indicator d)] \/
     exists code, callback = Some (Ok code) /\ mid = [WaitForLogin (twofa_indicator d); Enter2Fa code]).
Proof.
  unfold try_handle_twofa. cbn [send_within logged_peer].
  destruct (send_within 5 _ c) as [c1 response].
  destruct response as [[[?|?|?]|?|]|]; cbn [negb];
    try (eexists _, _, _; split; [reflexivity|by left]).
  all: rewrite bind_eq; unfold lift at 1; destruct callback as [o|]; cbn [ok_or];
    [|eexists _, _, _; split; [reflexivity|by left]].
  all: rewrite bind_eq; unfold lift at 1; destruct o as [code|e|];
    [|eexists _, _, _; split; [reflexivity|by left]..].
  all: rewrite bind_eq;
    destruct (send_expect_ok_logged (Enter2Fa code) c1 (log ++ [WaitForLogin (twofa_indicator d)]))
      as (c2 & r & ->); rewrite <- app_assoc.
  all: destruct r as [[]|e|]; eexists _, _, _; (split; [reflexivity|right; by exists code]).
Qed.
End Scripts.

(** The step after step [pre]. *)
Lemma prefix_snoc_app {A : Type} (pre : list A) x rest : (pre ++ [x]) `prefix_of` (pre ++ x :: rest).
Proof. exists rest. by rewrite <- app_assoc. Qed.

Section Conformance.
Context {C : Type} `{BrowserPeer C} `{!BrowserCodec} `{!Fmt}.
Variable cfg : SnapshotConfig.

(** The tail of the flow after the two-factor step. *)
Lemma finish_logged (c : C) log mid callback user pw :
  mid ∈ twofa_scripts cfg callback ->
  log = [Navigate (login_url cfg);
         FillCredentials user pw (username_selector cfg) (password_selector cfg);
         Submit (submit_selector cfg)] ++ mid ->
  exists c' log' r,
    (_ ← send_expect_ok cfg (WaitForLogin (to_msg (success_indicator cfg))); extract_cookies cfg) (c, log) =
      ((c', log'), r) /\
    exists script, script ∈ scripts cfg user pw callback /\ log' `prefix_of` script /\
      (forall cookies, r = Ok cookies -> log' = script /\ cookies <> []).
Proof.
  intros Hmid ->. rewrite bind_eq.
  set (start := [Navigate _; _; _] ++ mid).
  set (wait := WaitForLogin _).
  assert (Hin : start ++ [wait; ExtractCookies] ∈ scripts cfg user pw callback).
  { unfold scripts. apply list_elem_of_fmap. exists mid. split; [|done]. unfold start. by rewrite <- app_assoc. }
  destruct (send_expect_ok_logged cfg wait c start) as (c1 & r1 & ->).
  destruct r1 as [[]|e|].
  - destruct (extract_cookies_logged cfg c1 (start ++ [wait])) as (c2 & r2 & -> & Hne).
    rewrite <- app_assoc. exists c2, (start ++ [wait; ExtractCookies]), r2. split; [done|].
    exists (start ++ [wait; ExtractCookies]). split; [done|]. split; [done|].
    intros cookies ->. split; [done|]. by intros ->.
  - eexists _, _, _. split; [done|]. exists (start ++ [wait; ExtractCookies]).
    split; [done|]. split; [apply prefix_snoc_app|done].
  - eexists _, _, _. split; [done|]. exists (start ++ [wait; ExtractCookies]).
    split; [done|]. split; [apply prefix_snoc_app|done].
Qed.

(** Some conversation continues any of the common first steps. *)
Lemma scripts_start callback user pw :
  exists rest, [Navigate (login_url cfg);
    FillCredentials user pw (username_selector cfg) (password_selector cfg);
    Submit (submit_selector cfg)] ++ rest ∈ scripts cfg user pw callback.
Proof.
  assert (exists mid, mid ∈ twofa_scripts cfg callback) as (mid & Hmid).
  { unfold twofa_scripts. destruct (twofa_detector cfg); eexists; constructor. }
  exists (mid ++ [WaitForLogin (to_msg (success_indicator cfg)); ExtractCookies]).
  unfold scripts. apply list_elem_of_fmap. by exists mid.
Qed.

Lemma stopped_early (log : list BrowserCommand) callback user pw (r : result (list Cookie) BrowserError) :
  log `prefix_of` [Navigate (login_url cfg);
    FillCredentials user pw (username_selector cfg) (password_selector cfg); Submit (submit_selector cfg)] ->
  (forall a, r <> Ok a) ->
  exists script, script ∈ scripts cfg user pw callback /\ log `prefix_of` script /\
    (forall cookies, r = Ok cookies -> log = script /\ cookies <> []).
Proof.
  intros Hpre Hr. destruct (scripts_start callback user pw) as (rest & Hin).
  eexists. split; [exact Hin|]. split; [by apply prefix_app_r|]. intros a Ha. by destruct (Hr a).
Qed.

(** The two-factor step says one of its scripts. *)
Lemma twofa_logged callback (c : C) log :
  exists c' mid r, mid ∈ twofa_scripts cfg callback /\
    match twofa_detector cfg with Some d => try_handle_twofa cfg d callback | None => mret false end (c, log) =
    ((c', log ++ mid), r).
Proof.
  unfold twofa_scripts. destruct (twofa_detector cfg) as [d|].
  - destruct (try_handle_twofa_logged cfg d callback c log) as (c' & mid & r & -> & Hm).
    exists c', mid, r. split; [|done]. destruct Hm as [->|(code & -> & ->)]; [constructor|]. do 2 constructor.
  - exists c, [], (Ok false). split; [constructor|]. by rewrite app_nil_r.
Qed.

(** ** Properties *)

(** C29. The browser is told nothing but a prefix of the configured conversation,
    whatever it answers and whenever it times out: the password is sent only
    once the login page was reached, a code only after the probe, and nothing
    after a failed step; cookies are returned only when the whole
    conversation took place, and there is at least one. *)
Theorem login_follows_script (credential : LoginCredential) (callback : option (result string BrowserError)) (c : C) :
  let '((_, log), r) := run_login_flow cfg credential callback (c, []) in
  match from_utf8 (lc_password credential) with
  | None => log = [Navigate (login_url cfg)] /\ (forall cookies, r <> Ok cookies)
  | Some pw => exists script, script ∈ scripts cfg (lc_username credential) pw callback /\
      log `prefix_of` script /\ (forall cookies, r = Ok cookies -> log = script /\ cookies <> [])
  end.
Proof.
  unfold run_login_flow. rewrite bind_eq.
  destruct (send_expect_ok_logged cfg (Navigate (login_url cfg)) c []) as (c1 & r1 & ->). cbn [app].
  destruct r1 as [[]|e|]; [|destruct (from_utf8 _); [apply stopped_early; [by eexists|done]|done]..].
  rewrite bind_eq. unfold lift. destruct (from_utf8 (lc_password credential)) as [pw|]; cbn [ok_or]; [|done].
  rewrite bind_eq. set (fill := FillCredentials _ _ _ _).
  destruct (send_expect_ok_logged cfg fill c1 [Navigate (login_url cfg)]) as (c2 & r2 & ->). cbn [app].
  destruct r2 as [[]|e|]; [|apply stopped_early; [by eexists|done]..].
  rewrite bind_eq.
  destruct (send_expect_ok_logged cfg (Submit (submit_selector cfg)) c2 [Navigate (login_url cfg); fill])
    as (c3 & r3 & ->). cbn [app].
  destruct r3 as [[]|e|]; [|apply stopped_early; [by exists []|done]..].
  rewrite bind_eq.
  destruct (twofa_logged callback c3 [Navigate (login_url cfg); fill; Submit (submit_selector cfg)])
    as (c4 & mid & r4 & Hmid & ->).
  destruct (finish_logged c4 _ mid callback (lc_username credential) pw Hmid eq_refl)
    as (c5 & log' & r5 & Hfin & Hs).
  subst fill. destruct r4 as [b|e|].
  - cbn [app] in Hfin |- *. rewrite Hfin. exact Hs.
  - eexists. split; [unfold scripts; apply list_elem_of_fmap; by exists mid|].
    split; [apply prefix_app; by eexists|done].
  - eexists. split; [unfold scripts; apply list_elem_of_fmap; by exists mid|].
    split; [apply prefix_app; by eexists|done].
Qed.
End Conformance.

(** ** Killing the browser *)

(** SIGKILL ends the process, and asking again does not bring it back. *)
Class KillLaws {X C : Type} `{BrowserOs X C} (running : Z -> X -> bool) : Prop := {
  sigkill_ends : forall pid x, running pid (sigkill pid x).1 = false;
  start_kill_keeps : forall pid ch x, running pid x = false -> running pid (start_kill ch x) = false
}.

Section Kill.
Context {C : Type} `{BrowserPeer C} `{!BrowserCodec} `{!Fmt} {X : Type} `{!BrowserOs X C} `{!TokioTimer X}.

(** The browser does not outlive the capture: once [spawn] has handed out a
    process, that process has been killed when [capture] returns, whatever
    the login flow came to; and cookies are returned only after such a
    spawn, with what the flow on its channel returned. *)
Theorem capture_kills_browser (running : Z -> X -> bool) `{!KillLaws running} (cfg : SnapshotConfig)
    (credential : LoginCredential) (callback : option (result string BrowserError)) (x : X) :
  (forall x1 p, timeout (timeout_seconds cfg) (browser_spawn (C:=C) (sandbox_config cfg)) x = (x1, Some (Ok p)) ->
     running (child_pid p) (capture cfg credential callback x).1 = false /\
     (capture cfg credential callback x).2 = (run_login_flow cfg credential callback (chan p)).2) /\
  (forall cookies, (capture cfg credential callback x).2 = Ok cookies ->
     exists x1 p, timeout (timeout_seconds cfg) (browser_spawn (C:=C) (sandbox_config cfg)) x = (x1, Some (Ok p))).
Proof.
  unfold capture. split.
  - intros x1 p ->. destruct (run_login_flow cfg credential callback (chan p)) as [c r]. split; [|done].
    cbn [fst drop_process kill child_pid child]. apply sigkill_ends.
  - intros cookies. destruct (timeout _ _ x) as [x1 [[p|e|]|]]; [|discriminate..]. eauto.
Qed.
End Kill.

(** ** Answers are not matched with commands *)

Lemma b_write_message_pipe p (s : Pipe) :
  fits p -> b_write_message p s = (mkPipe (inb s) (outb s ++ frame4 p), Ok tt).
Proof.
  intros Hp. unfold b_write_message. rewrite (proj2 (Z.ltb_ge _ _)) by exact Hp.
  rewrite !bind_eq. unfold map_errM. cbn [write_all pipe_write flush]. unfold zoom.
  cbn [write_all vec_write flush outb inb map_err]. rewrite bind_eq. unfold map_errM.
  cbn [inb outb]. by rewrite <- app_assoc, frame4_u32.
Qed.

Lemma b_read_message_pipe (p rest out : list byte) :
  fits p -> b_read_message (mkPipe (frame4 p ++ rest) out) = (mkPipe rest out, Ok p).
Proof.
  intros Hp. generalize (read_message_pipe_frame p rest out Hp).
  unfold read_message, b_read_message. rewrite !bind_eq. unfold map_errM.
  destruct (read_exact 4 _) as [s [l|e|]]; cbn [map_err]; try discriminate.
  destruct (MAX_MESSAGE_SIZE <? _); [discriminate|].
  destruct (read_exact (N.to_nat _) s) as [s' [l'|e|]]; cbn [map_err]; congruence.
Qed.

(** A command is answered by the first frame on the stream, even one that was
    left there when an earlier command's wait timed out: after such a
    timeout every answer belongs to the command before. *)
Theorem stale_reply_answers_next_command `{BrowserCodec} (cmd : BrowserCommand) payload stale answer rest out :
  bcommand_to_vec cmd = inl payload -> fits payload -> fits stale -> bresponse_from_slice stale = inl answer ->
  send_browser_command cmd (mkPipe (frame4 stale ++ rest) out) =
  (mkPipe rest (out ++ frame4 payload), Ok answer).
Proof.
  intros Hc Hp Hs Ha. unfold send_browser_command. rewrite Hc.
  rewrite (bind_run _ _ _ (mkPipe (frame4 stale ++ rest) out) payload) by done.
  rewrite (bind_run _ _ _ _ _ (b_write_message_pipe payload _ Hp)). cbn [inb outb].
  rewrite (bind_run _ _ _ _ _ (b_read_message_pipe stale rest _ Hs)). by rewrite Ha.
Qed.

(** ** A browser to evaluate *)

(** The world: the live processes, next pid 100, and whether streams can be
    made non-blocking. *)
Record DemoWorld : Type := mkDemoWorld { dw_live : list Z; dw_nonblocking : bool }.

Definition demo_running (pid : Z) (w : DemoWorld) : bool := contains (dw_live w) pid.

(** The channel is the list of answers to come. *)
#[local] Instance demo_browser_os : BrowserOs DemoWorld (list BrowserResponse) := {|
  b_socketpair := mret (5, 6);
  path_exists := fun _ _ => true;
  clear_fd_flags := fun _ w => w;
  spawn_child := fun _ w => (mkDemoWorld (100 :: dw_live w) (dw_nonblocking w), Ok 100);
  b_close := fun _ w => w;
  b_set_nonblocking := fun _ w => (w, if dw_nonblocking w then Ok tt else Err "EBADF");
  b_stream_from_std := fun _ => mret [BOk None; BOk None; BOk None; BOk None; BOk (Some (JString "sid"))];
  child_id := fun ch _ => Some ch;
  sigkill := fun pid w => (mkDemoWorld (List.filter (fun p => negb (p =? pid)) (dw_live w)) (dw_nonblocking w), 0);
  start_kill := fun _ w => w
|}.
#[local] Instance demo_kill_laws : KillLaws demo_running.
Proof.
  split; [|done]. intros pid w. apply contains_false. cbn. rewrite list_elem_of_In, filter_In.
  intros [_ Hn]. by rewrite Z.eqb_refl in Hn.
Qed.
#[local] Instance demo_timer : TokioTimer DemoWorld := {|
  timeout := fun E A d m w => let '(w', r) := m w in (w', Some r)
|}.
#[local] Instance demo_peer : BrowserPeer (list BrowserResponse) := {|
  send_within := fun _ _ l => match l with [] => ([], None) | r :: l' => (l', Some (Ok r)) end
|}.
#[local] Instance demo_browser_codec : BrowserCodec := {|
  bcommand_to_vec := fun c => inl (as_bytes (cmd_name c));
  bresponse_from_slice := fun l => inl (BError (of_bytes l));
  cookies_from_value := fun v =>
    match v with JString s => inl [cookie_session s "1" "example.com"] | _ => inr "invalid type" end
|}.
#[local] Existing Instance plain_fmt.

Definition demo_login : LoginCredential := mkLoginCredential "me" (as_bytes "pw").

Lemma capture_kills_browser_witness :
  demo_running 100 (capture default_snapshot demo_login None (mkDemoWorld [1] true)).1 = false /\
  (capture default_snapshot demo_login None (mkDemoWorld [1] true)).2 = Ok [cookie_session "sid" "1" "example.com"].
Proof.
  destruct (capture_kills_browser demo_running default_snapshot demo_login None (mkDemoWorld [1] true)) as [Hk _].
  destruct (Hk (mkDemoWorld [100; 1] true)
    (mkSandboxedProcess 100 100 [BOk None; BOk None; BOk None; BOk None; BOk (Some (JString "sid"))])) as [Hr Hf];
    [by vm_compute|].
  split; [exact Hr|]. rewrite Hf. by vm_compute.
Defined.

(** When [spawn] fails after the child was started, nobody kills the child. *)
Theorem failed_spawn_leaves_browser_running :
  demo_running 100 (capture default_snapshot demo_login None (mkDemoWorld [1] false)).1 = true /\
  (capture default_snapshot demo_login None (mkDemoWorld [1] false)).2 = Err (BIo "EBADF").
Proof. by vm_compute. Qed.
