(* ===== verification/Mitm.v ===== *)
(** * cdp-proxy: TLS interception

    [cdp-proxy/src/mitm.rs] and [mitm_ca.rs].  Certificates, TLS sessions and
    sockets are classes; what is modelled is who is intercepted, what the CA
    signs (by the sections of concurrent calls, [castep]), and what happens to
    the bytes of requests and responses. *)

From S2P Require Import Prelude StateM RustStr Crypto LeaseTypes ProxyScope BrowserCookies.

#[local] Arguments String.append !_ _ /.

(** ** Text *)

(** [s.ends_with(suffix)] *)
Fixpoint ends_with (s suffix : string) : bool :=
  bool_decide (s = suffix) ||
  match s with
  | EmptyString => false
  | String _ s' => ends_with s' suffix
  end.

(** [s.rsplit_once(sep)] *)
Fixpoint rsplit_once (sep : Ascii.ascii) (s : string) : option (string * string) :=
  match s with
  | EmptyString => None
  | String c s' =>
      match rsplit_once sep s' with
      | Some (a, b) => Some (String c a, b)
      | None => if bool_decide (c = sep) then Some (EmptyString, s') else None
      end
  end.

Definition colon : Ascii.ascii := Ascii.ascii_of_N 58.

Definition parse_connect_target (authority : string) : result (string * Z) ProxyError :=
  match rsplit_once colon authority with
  | None => Err (UpstreamError ("CONNECT authority missing port: '" +:+ authority +:+ "'"))
  | Some (host, port_str) =>
      match parse_u U16 port_str with
      | None => Err (UpstreamError ("CONNECT authority has invalid port: '" +:+ authority +:+ "'"))
      | Some port => Ok (host, port)
      end
  end.

(** ** Header manipulation *)

Definition CRLF : list byte := [Byte.x0d; Byte.x0a].
Definition SEPARATOR : list byte := CRLF ++ CRLF.

(** [data.starts_with(p)] *)
Fixpoint starts_with (p data : list byte) : bool :=
  match p, data with
  | [], _ => true
  | a :: p', b :: data' => bool_decide (a = b) && starts_with p' data'
  | _ :: _, [] => false
  end.

(** [data.windows(p.len()).position(|w| w == p)] *)
Fixpoint position (p data : list byte) : option nat :=
  if starts_with p data then Some 0%nat
  else match data with
       | [] => None
       | _ :: data' => S <$> position p data'
       end.

Definition find_header_end (data : list byte) : option nat :=
  (fun p => (p + length SEPARATOR)%nat) <$> position SEPARATOR data.

Definition inject_cookie_header (data : list byte) (cookie_value : string) : list byte :=
  match find_header_end data with
  | Some pos =>
      let insert_at := (pos - 4)%nat in
      take insert_at data ++ as_bytes "Cookie: " ++ as_bytes cookie_value ++ CRLF ++ drop insert_at data
  | None => data
  end.

(** The loop of [filter_header_lines]; [rest] is [header_section[start..]].
    A turn takes a line and its line end, so the length is fuel enough. *)
Fixpoint filter_loop (fuel : nat) (keep : list byte -> bool) (rest : list byte) : list byte :=
  match fuel, rest with
  | _, [] => []
  | O, _ => []
  | S fuel, _ =>
      match position CRLF rest with
      | Some p =>
          (if keep (take p rest) then take p rest ++ CRLF else []) ++
          filter_loop fuel keep (drop (p + 2) rest)
      | None => if keep rest then rest else []
      end
  end.

Definition filter_header_lines (header_section : list byte) (keep : list byte -> bool) : list byte :=
  filter_loop (length header_section) keep header_section.

Definition lower_byte (b : byte) : byte :=
  if byte_in 65 90 b then unwrap_or (Byte.of_N (Byte.to_N b + 32)) b else b.

(** The predicate of [strip_set_cookie]. *)
Definition not_set_cookie (line : list byte) : bool :=
  negb (starts_with (as_bytes "set-cookie:") (map lower_byte line)).

Definition strip_set_cookie (data : list byte) : list byte :=
  match find_header_end data with
  | Some header_end =>
      filter_header_lines (take header_end data) not_set_cookie ++ drop header_end data
  | None => data
  end.

(** ** Forwarding *)

(** Each direction works on one [read] at a time. *)
Definition agent_to_upstream (cookie_header : option string) (reads : list (list byte)) : list byte :=
  concat (map (fun data => match cookie_header with
                           | Some hdr => inject_cookie_header data hdr
                           | None => data
                           end) reads).

Definition upstream_to_agent (reads : list (list byte)) : list byte := concat (map strip_set_cookie reads).

(** [tokio::select!]: the copy ends with the first direction that ends; the
    other has forwarded some of its reads. *)
Definition forward_with_interception (cookie_header : option string)
    (agent_reads upstream_reads : list (list byte)) (agent_done upstream_done : nat) : list byte * list byte :=
  (agent_to_upstream cookie_header (take agent_done agent_reads),
   upstream_to_agent (take upstream_done upstream_reads)).

(** ** The certificate authority *)

Record LeafParams : Type := mkLeafParams {
  lp_san : list string; lp_common_name : string; lp_is_ca : bool;
  lp_server_auth : bool; lp_not_before : Z; lp_not_after : Z
}.

Record CaParams : Type := mkCaParams {
  cp_permitted : list string; cp_not_before : Z; cp_not_after : Z
}.

(** [rcgen] and [time]: key generation is a draw, arithmetic that leaves the
    supported range panics ([None]). *)
Class Rcgen : Type := {
  KeyT : Type;
  CertT : Type;
  KeyDer : Type;
  self_sign : CaParams -> KeyT -> CertT + string;
  leaf_params_check : string -> option string;
  sign_leaf : LeafParams -> KeyT -> CertT -> KeyT -> CertT + string;
  cert_der : CertT -> list byte;
  key_der : KeyT -> KeyDer;
  time_add_hours : Z -> Z -> option Z
}.

Section Ca.
Context `{Rcgen}.

Record MitmCa : Type := mkMitmCa {
  ca_cert_der : list byte;
  ca_cert : CertT;
  ca_key : KeyT;
  allowed_origins : list string;
  leaf_cache : gmap string (list byte * KeyDer);
  validity_hours : Z
}.

(** [key] is the outcome of key generation, [now] the clock. *)
Definition generate (origins : list string) (validity : Z) (key : KeyT + string) (now : Z)
    : result MitmCa ProxyError :=
  match origins with
  | [] => Err (UpstreamError "MitmCa: allowed_origins must not be empty")
  | _ =>
      match key with
      | inr e => Err (UpstreamError ("CA keygen: " +:+ e))
      | inl key =>
          match time_add_hours now (as_i64 validity) with
          | None => Panic
          | Some expires =>
              match self_sign (mkCaParams origins now expires) key with
              | inr e => Err (UpstreamError ("CA self-sign: " +:+ e))
              | inl cert => Ok (mkMitmCa (cert_der cert) cert key origins ∅ validity)
              end
          end
      end
  end.

Definition is_allowed (ca : MitmCa) (origin : string) : bool :=
  existsb (fun o => bool_decide (o = origin) || ends_with origin ("." +:+ o)) (allowed_origins ca).

Definition with_cache (ca : MitmCa) (cache : gmap string (list byte * KeyDer)) : MitmCa :=
  mkMitmCa (ca_cert_der ca) (ca_cert ca) (ca_key ca) (allowed_origins ca) cache (validity_hours ca).

(** [issue_leaf_cert] up to its second lock: whether the origin is allowed and,
    under the read lock, what the cache has. *)
Definition cached_leaf (origin : string) (ca : MitmCa) : result (option (list byte * KeyDer)) ProxyError :=
  if negb (is_allowed ca origin) then
    Err (ScopeViolation ("MITM CA: origin '" +:+ origin +:+ "' is not in allowed_origins"))
  else Ok (leaf_cache ca !! origin).

(** Then, without a lock, a new leaf. *)
Definition new_leaf (origin : string) (key : KeyT + string) (now : Z) (ca : MitmCa)
    : result (list byte * KeyDer) ProxyError :=
  match key with
  | inr e => Err (UpstreamError ("leaf keygen for '" +:+ origin +:+ "': " +:+ e))
  | inl leaf_key =>
      match leaf_params_check origin with
      | Some e => Err (UpstreamError ("leaf cert params for '" +:+ origin +:+ "': " +:+ e))
      | None =>
          match time_add_hours now (as_i64 (validity_hours ca)) with
          | None => Panic
          | Some expires =>
              let params := mkLeafParams [origin] origin false true now expires in
              match sign_leaf params leaf_key (ca_cert ca) (ca_key ca) with
              | inr e => Err (UpstreamError ("leaf sign for '" +:+ origin +:+ "': " +:+ e))
              | inl leaf => Ok (cert_der leaf, key_der leaf_key)
              end
          end
      end
  end.

(** And under the write lock, whatever the cache has by then. *)
Definition cache_leaf (origin : string) (leafpair : list byte * KeyDer) (ca : MitmCa) : MitmCa :=
  with_cache ca (<[origin := leafpair]> (leaf_cache ca)).

(** [issue_leaf_cert] when no other call comes between its sections. *)
Definition issue_leaf_cert (origin : string) (key : KeyT + string) (now : Z)
    : M MitmCa ProxyError (list byte * KeyDer) := fun ca =>
  match cached_leaf origin ca with
  | Err e => (ca, Err e)
  | Panic => (ca, Panic)
  | Ok (Some leafpair) => (ca, Ok leafpair)
  | Ok None =>
      match new_leaf origin key now ca with
      | Err e => (ca, Err e)
      | Panic => (ca, Panic)
      | Ok leafpair => (cache_leaf origin leafpair ca, Ok leafpair)
      end
  end.

(** Calls that share the authority: [ci_signed] have a new leaf and have not
    cached it yet, [ci_given] are the answers so far. *)
Record Issuing : Type := mkIssuing {
  ci_ca : MitmCa; ci_signed : list (string * (list byte * KeyDer)); ci_given : list (string * (list byte * KeyDer))
}.

Inductive castep : Issuing -> Issuing -> Prop :=
| ca_hit s origin leafpair : cached_leaf origin (ci_ca s) = Ok (Some leafpair) ->
    castep s (mkIssuing (ci_ca s) (ci_signed s) (ci_given s ++ [(origin, leafpair)]))
| ca_miss s origin key now leafpair : cached_leaf origin (ci_ca s) = Ok None -> new_leaf origin key now (ci_ca s) = Ok leafpair ->
    castep s (mkIssuing (ci_ca s) (ci_signed s ++ [(origin, leafpair)]) (ci_given s))
| ca_cache s before origin leafpair rest : ci_signed s = before ++ (origin, leafpair) :: rest ->
    castep s (mkIssuing (cache_leaf origin leafpair (ci_ca s)) (before ++ rest) (ci_given s ++ [(origin, leafpair)])).
End Ca.

(** ** CONNECT *)

(** Sockets and TLS sessions of one connection. *)
Class MitmNet `{Rcgen} (X : Type) : Type := {
  agent_write : list byte -> M X string unit;
  server_tls_config : list byte * KeyDer -> option string;
  tls_accept : list byte * KeyDer -> M X string unit;
  tcp_connect : string -> M X string unit;
  server_name_ok : string -> bool;
  tls_connect : string -> M X string unit;
  (** what the two ends send, and how far each copy gets *)
  agent_reads : X -> list (list byte);
  upstream_reads : X -> list (list byte);
  copy_progress : X -> nat * nat;
  deliver : list byte * list byte -> X -> X;
  copy_bidirectional : M X string unit
}.

Record MitmProxy `{Rcgen} (X : Type) : Type := mkMitmProxy {
  mp_ca : MitmCa;
  mp_cookies : CookieStore;
  mp_origins : gset string;
  mp_net : X
}.
Arguments mkMitmProxy {_ X}.
Arguments mp_ca {_ X}.
Arguments mp_cookies {_ X}.
Arguments mp_origins {_ X}.
Arguments mp_net {_ X}.

Section Connect.
Context `{Rcgen} {X : Type} `{!MitmNet X}.
Abbreviation P := (MitmProxy X).

Definition on_net {E A : Type} (m : M X E A) : M P E A :=
  zoom mp_net (fun x p => mkMitmProxy (mp_ca p) (mp_cookies p) (mp_origins p) x) m.

Definition on_ca {E A : Type} (m : M MitmCa E A) : M P E A :=
  zoom mp_ca (fun ca p => mkMitmProxy ca (mp_cookies p) (mp_origins p) (mp_net p)) m.

Definition up {A : Type} (what : string) (m : M X string A) : M P ProxyError A :=
  on_net (map_errM (fun e => UpstreamError (what +:+ ": " +:+ e)) m).

(** Status, headers and body of the two responses a caller can send itself. *)
Definition connection_established_response : Z * list (string * string) * list byte := (200, [], []).

Definition bad_gateway_response (reason : string) : Z * list (string * string) * list byte :=
  (502, [("Content-Type", "text/plain")], as_bytes ("Bad Gateway: " +:+ reason)).

Definition ESTABLISHED : list byte := as_bytes "HTTP/1.1 200 Connection Established" ++ SEPARATOR.

Definition build_server_tls_config (leafpair : list byte * KeyDer) : result unit ProxyError :=
  match server_tls_config leafpair with
  | Some e => Err (UpstreamError ("build server TLS config: " +:+ e))
  | None => Ok tt
  end.

(** The compiled-in root certificates; nothing can fail. *)
Definition build_client_tls_config (host : string) : result unit ProxyError := Ok tt.

(** [e.to_string()] of the error the CA returns is the printer's. *)
Definition intercept (show : ProxyError -> string) (host : string) (port : Z) (key : KeyT + string) (now : Z)
    : M P ProxyError unit :=
  _ ← up "write 200 to agent" (agent_write ESTABLISHED);
  leafpair ← map_errM (fun e => UpstreamError ("issue leaf cert: " +:+ show e)) (on_ca (issue_leaf_cert host key now));
  _ ← lift (build_server_tls_config leafpair);
  _ ← up "TLS accept from agent" (tls_accept leafpair);
  let upstream_addr := host +:+ ":" +:+ display_Z port in
  _ ← up ("connect to upstream " +:+ upstream_addr) (tcp_connect upstream_addr);
  _ ← lift (build_client_tls_config host);
  _ ← (if server_name_ok host then mret tt else fail (UpstreamError ("invalid server name: " +:+ host)));
  _ ← up "upstream TLS handshake" (tls_connect host);
  cookie_header ← gets (fun p => build_cookie_header (mp_cookies p) ("https://" +:+ host));
  on_net (modify (fun x =>
    let '(a, u) := copy_progress x in
    deliver (forward_with_interception cookie_header (agent_reads x) (upstream_reads x) a u) x)).

Definition tunnel (host : string) (port : Z) : M P ProxyError unit :=
  let upstream_addr := host +:+ ":" +:+ display_Z port in
  _ ← up ("tunnel connect to " +:+ upstream_addr) (tcp_connect upstream_addr);
  _ ← up "write 200 (tunnel)" (agent_write ESTABLISHED);
  _ ← attempt (on_net copy_bidirectional);
  mret tt.

Definition handle_connect (show : ProxyError -> string) (host : string) (port : Z) (key : KeyT + string) (now : Z)
    : M P ProxyError unit := fun p =>
  if bool_decide (host ∈ mp_origins p) then intercept show host port key now p
  else tunnel host port p.
End Connect.

(** ** Lines, by definition *)

(** Read the text once, byte by byte: a line ends at the first CRLF, and the
    flag says whether it was ended by one. *)
Fixpoint crlf_lines (cur data : list byte) : list (list byte * bool) :=
  match data with
  | [] => match cur with [] => [] | _ => [(cur, false)] end
  | b :: data' =>
      match data' with
      | c :: data'' =>
          if bool_decide (b = Byte.x0d) && bool_decide (c = Byte.x0a)
          then (cur, true) :: crlf_lines [] data''
          else crlf_lines (cur ++ [b]) data'
      | [] => [(cur ++ [b], false)]
      end
  end.

Definition render (line : list byte * bool) : list byte := line.1 ++ (if line.2 then CRLF else []).

Definition keep_lines (keep : list byte -> bool) (ls : list (list byte * bool)) : list (list byte * bool) :=
  List.filter (fun line => keep line.1) ls.

(** A header line that sets a cookie, in any case. *)
Definition sets_cookie (line : list byte) : Prop := as_bytes "set-cookie:" `prefix_of` map lower_byte line.

#[export] Instance sets_cookie_dec line : Decision (sets_cookie line) := decide (_ `prefix_of` _).

(** ** Lemmas *)

Lemma starts_with_spec p data : starts_with p data = true <-> exists rest, data = p ++ rest.
Proof.
  revert data. induction p as [|a p IH]; intros [|b data]; simpl.
  - split; [by exists []|done].
  - split; [by eexists|done].
  - split; [done|intros [? ?]; discriminate].
  - rewrite andb_true_iff, bool_decide_eq_true, IH. naive_solver.
Qed.

Lemma position_some p data n :
  position p data = Some n -> data = take n data ++ p ++ drop (n + length p) data /\ (n + length p <= length data)%nat.
Proof.
  revert n. induction data as [|b data IH]; intros n; simpl.
  - destruct (starts_with p []) eqn:E; [|discriminate]. intros [= <-].
    apply starts_with_spec in E as [rest Hr]. destruct p; [by destruct rest|done].
  - destruct (starts_with p (b :: data)) eqn:E.
    + intros [= <-]. apply starts_with_spec in E as [rest Hr]. rewrite Hr.
      rewrite take_0, Nat.add_0_l, drop_app_length. split; [done|].
      apply (f_equal length) in Hr. rewrite length_app in Hr. simpl in Hr. lia.
    + destruct (position p data) as [m|] eqn:Ep; [|discriminate]. intros [= <-].
      destruct (IH m eq_refl) as [Hd Hl]. simpl. split; [by f_equal|lia].
Qed.

Lemma position_app p x y n : position p x = Some n -> position p (x ++ y) = Some n.
Proof.
  revert n. induction x as [|b x IH]; intros n; simpl.
  - destruct (starts_with p []) eqn:E; [|discriminate]. intros [= <-].
    destruct p; [by destruct y|discriminate].
  - destruct (starts_with p (b :: x)) eqn:E.
    + intros [= <-]. apply starts_with_spec in E as [rest Hr].
      assert (starts_with p (b :: x ++ y) = true) as ->; [|done].
      apply starts_with_spec. exists (rest ++ y). by rewrite app_assoc, <- Hr.
    + destruct (position p x) as [m|] eqn:Ep; [|discriminate]. intros [= <-].
      destruct (position_some _ _ _ Ep) as [_ Hl].
      assert (starts_with p (b :: x ++ y) = false) as ->; [|by rewrite (IH m)].
      apply not_true_is_false. intros (rest & Hr)%starts_with_spec. rewrite <- not_true_iff_false in E.
      apply E, starts_with_spec. exists (drop (length p) (b :: x)).
      assert (Ht : take (length p) (b :: x ++ y) = p) by by rewrite Hr, take_app_length.
      rewrite <- Ht at 1. change (b :: x ++ y) with ((b :: x) ++ y).
      rewrite take_app_le by (simpl; lia). by rewrite take_drop.
Qed.

Lemma crlf_start b c l : starts_with CRLF (b :: c :: l) = bool_decide (b = Byte.x0d) && bool_decide (c = Byte.x0a).
Proof.
  cbn. rewrite andb_true_r.
  by rewrite (bool_decide_ext (Byte.x0d = b) (b = Byte.x0d)), (bool_decide_ext (Byte.x0a = c) (c = Byte.x0a)) by done.
Qed.

Lemma crlf_lines_cons cur b c l :
  crlf_lines cur (b :: c :: l) =
  if bool_decide (b = Byte.x0d) && bool_decide (c = Byte.x0a) then (cur, true) :: crlf_lines [] l
  else crlf_lines (cur ++ [b]) (c :: l).
Proof. done. Qed.

Lemma position_cons b l :
  position CRLF (b :: l) = if starts_with CRLF (b :: l) then Some 0%nat else S <$> position CRLF l.
Proof. done. Qed.

Lemma crlf_lines_some cur data p :
  position CRLF data = Some p ->
  crlf_lines cur data = (cur ++ take p data, true) :: crlf_lines [] (drop (p + 2) data).
Proof.
  revert cur p. induction data as [|b [|c data] IH]; intros cur p Hp.
  - discriminate.
  - simpl in Hp. rewrite andb_false_r in Hp. discriminate.
  - rewrite position_cons, crlf_start in Hp. rewrite crlf_lines_cons.
    destruct (_ && _).
    + injection Hp as <-. by rewrite app_nil_r.
    + destruct (position CRLF (c :: data)) as [q|]; [|discriminate]. injection Hp as <-.
      rewrite (IH (cur ++ [b]) q eq_refl). by rewrite <- app_assoc.
Qed.

Lemma crlf_lines_none cur data :
  position CRLF data = None -> crlf_lines cur data = match cur ++ data with [] => [] | l => [(l, false)] end.
Proof.
  revert cur. induction data as [|b [|c data] IH]; intros cur Hp.
  - simpl. rewrite app_nil_r. by destruct cur.
  - simpl. by destruct cur.
  - rewrite position_cons, crlf_start in Hp. rewrite crlf_lines_cons.
    destruct (_ && _); [discriminate|].
    destruct (position CRLF (c :: data)) as [q|]; [discriminate|].
    rewrite (IH (cur ++ [b]) eq_refl), <- app_assoc. done.
Qed.

(** Induction one line at a time. *)
Lemma lines_ind (P : list byte -> Prop) :
  (forall data, position CRLF data = None -> P data) ->
  (forall data p, position CRLF data = Some p -> P (drop (p + 2) data) -> P data) ->
  forall data, P data.
Proof.
  intros Hn Hs data. remember (length data) as n eqn:Hl. revert data Hl.
  induction n as [n IH] using lt_wf_ind. intros data ->.
  destruct (position CRLF data) as [p|] eqn:Ep; [|by apply Hn].
  apply (Hs _ p Ep), (IH (length (drop (p + 2) data))); [|done].
  apply position_some in Ep as [_ Hl]. rewrite length_drop. simpl in Hl. lia.
Qed.

Lemma filter_loop_lines fuel keep rest :
  (length rest <= fuel)%nat ->
  filter_loop fuel keep rest = concat (map render (keep_lines keep (crlf_lines [] rest))).
Proof.
  revert rest. induction fuel as [|fuel IH]; intros [|b rest] Hf; simpl in Hf; try done; [lia|].
  cbn [filter_loop]. destruct (position CRLF (b :: rest)) as [p|] eqn:Ep.
  - rewrite (crlf_lines_some [] _ _ Ep), app_nil_l. cbn [keep_lines List.filter].
    pose proof (position_some _ _ _ Ep) as [_ Hl]. rewrite IH by (rewrite length_drop; simpl in *; lia).
    cbn [fst]. destruct (keep _); [|done]. cbn [map concat render fst snd]. done.
  - rewrite (crlf_lines_none [] _ Ep). cbn [app keep_lines List.filter fst].
    destruct (keep _); [|done]. cbn. by rewrite !app_nil_r.
Qed.

(** A line without CRLF inside. *)
Definition crlf_free (l : list byte) : Prop := position CRLF l = None.

Lemma position_take_free data p : position CRLF data = Some p -> crlf_free (take p data).
Proof.
  unfold crlf_free. revert p. induction data as [|b [|c data] IH]; intros p Hp; [discriminate| |].
  - simpl in Hp. rewrite andb_false_r in Hp. discriminate.
  - rewrite position_cons in Hp. destruct (starts_with CRLF (b :: c :: data)) eqn:E; [by injection Hp as <-|].
    destruct (position CRLF (c :: data)) as [q|] eqn:Eq; [|discriminate]. injection Hp as <-.
    specialize (IH q eq_refl). destruct q as [|q].
    + simpl. by rewrite andb_false_r.
    + change (take (S (S q)) (b :: c :: data)) with (b :: take (S q) (c :: data)).
      change (take (S q) (c :: data)) with (c :: take q data) in *.
      rewrite position_cons, crlf_start. rewrite crlf_start in E. rewrite E. by rewrite IH.
Qed.

Lemma position_crlf_first l rest : crlf_free l -> position CRLF (l ++ CRLF ++ rest) = Some (length l).
Proof.
  unfold crlf_free. induction l as [|b l IH]; intros Hl; [done|]. rewrite position_cons in Hl.
  cbn [app]. rewrite position_cons.
  destruct (starts_with CRLF (b :: l)) eqn:E; [discriminate|].
  destruct (position CRLF l) eqn:Ep; [discriminate|]. rewrite IH by done.
  destruct l as [|c l].
  - change (b :: [] ++ CRLF ++ rest) with (b :: Byte.x0d :: Byte.x0a :: rest).
    by rewrite crlf_start, andb_false_r.
  - change ((c :: l) ++ CRLF ++ rest) with (c :: l ++ CRLF ++ rest). rewrite crlf_start in E |- *. by rewrite E.
Qed.

Lemma crlf_lines_line l rest : crlf_free l -> crlf_lines [] (l ++ CRLF ++ rest) = (l, true) :: crlf_lines [] rest.
Proof.
  intros Hl. rewrite (crlf_lines_some [] _ _ (position_crlf_first l rest Hl)), app_nil_l, take_app_length.
  do 2 f_equal. rewrite drop_app_ge by lia. replace (length l + 2 - length l)%nat with 2%nat by lia. done.
Qed.

(** Lines as the reader produces them. *)
Definition line_ok (line : list byte * bool) : Prop := crlf_free line.1 /\ line.2 = true.

Lemma lines_of_rendered ls : Forall line_ok ls -> crlf_lines [] (concat (map render ls)) = ls.
Proof.
  induction 1 as [|[l t] ls [Hf Ht] _ IH]; [done|]. simpl in Hf, Ht. subst t.
  change (concat (map render ((l, true) :: ls))) with ((l ++ CRLF) ++ concat (map render ls)).
  by rewrite <- app_assoc, crlf_lines_line, IH.
Qed.

Lemma terminated_lines_ok x : Forall line_ok (crlf_lines [] (x ++ CRLF)).
Proof.
  induction x as [x Hn|x p Hp IH] using lines_ind.
  - rewrite <- (app_nil_r CRLF), crlf_lines_line by done. by repeat constructor.
  - rewrite (crlf_lines_some [] _ p) by by apply position_app.
    pose proof (position_some _ _ _ Hp) as [_ Hl]. simpl in Hl.
    rewrite app_nil_l, drop_app_le, take_app_le by lia.
    constructor; [|done]. split; [by apply position_take_free|done].
Qed.

Lemma keep_lines_ok keep ls : Forall line_ok ls -> Forall line_ok (keep_lines keep ls).
Proof. intros H. unfold keep_lines. induction H; simpl; [done|]. destruct (keep _); auto. Qed.

Lemma header_section data n :
  find_header_end data = Some n -> exists x, take n data = (x ++ CRLF) ++ CRLF /\ position SEPARATOR data = Some (length x).
Proof.
  unfold find_header_end. destruct (position SEPARATOR data) as [p|] eqn:Ep; [|discriminate].
  intros [= <-]. destruct (position_some _ _ _ Ep) as [Hd Hl]. exists (take p data).
  rewrite length_take, Nat.min_l by lia. split; [|done].
  rewrite Hd at 1. rewrite app_assoc, take_app_length'.
  - by rewrite <- app_assoc.
  - rewrite length_app, length_take, Nat.min_l by lia. done.
Qed.

(** Text appended to the last line of a block. *)
Lemma crlf_free_app l w : crlf_free l -> crlf_free w -> head w <> Some Byte.x0a -> crlf_free (l ++ w).
Proof.
  unfold crlf_free. intros Hl Hw Hh. induction l as [|b l IH]; [done|]. rewrite position_cons in Hl.
  cbn [app]. rewrite position_cons. destruct (starts_with CRLF (b :: l)) eqn:E; [discriminate|].
  destruct (position CRLF l) eqn:Ep; [discriminate|]. rewrite IH by done.
  destruct l as [|c l].
  - destruct w as [|c w]; [simpl; by rewrite andb_false_r|]. cbn [app]. rewrite crlf_start.
    rewrite (bool_decide_eq_false_2 (c = _)), andb_false_r; [done|]. intros ->. by apply Hh.
  - change ((c :: l) ++ w) with (c :: l ++ w). rewrite crlf_start in E |- *. by rewrite E.
Qed.

Lemma lines_extend x w :
  crlf_free w -> head w <> Some Byte.x0a ->
  exists init last, crlf_lines [] (x ++ CRLF) = init ++ [(last, true)] /\
    crlf_lines [] (x ++ w ++ CRLF) = init ++ [(last ++ w, true)].
Proof.
  intros Hw Hh. induction x as [x Hn|x p Hp (init & last & IH1 & IH2)] using lines_ind.
  - exists [], x. rewrite app_assoc, <- (app_nil_r CRLF), !crlf_lines_line; [done| |done].
    by apply crlf_free_app.
  - pose proof (position_some _ _ _ Hp) as [_ Hl]. simpl in Hl.
    exists ((take p x, true) :: init), last.
    rewrite (crlf_lines_some [] (x ++ CRLF) p), (crlf_lines_some [] (x ++ w ++ CRLF) p) by by apply position_app.
    rewrite !app_nil_l, !(drop_app_le x), !(take_app_le x) by lia. by rewrite IH1, IH2.
Qed.

Lemma not_set_cookie_spec line : not_set_cookie line = true <-> ~ sets_cookie line.
Proof. unfold not_set_cookie. rewrite negb_true_iff, <- not_true_iff_false, starts_with_spec. reflexivity. Qed.

Lemma kept_set_no_cookie ls : keep_lines not_set_cookie ls = filter (fun line => ~ sets_cookie line.1) ls.
Proof.
  induction ls as [|line ls IH]; [done|]. rewrite filter_cons. unfold keep_lines in *. simpl.
  destruct (not_set_cookie line.1) eqn:E; [|apply not_true_iff_false in E]; rewrite not_set_cookie_spec in E;
    [rewrite decide_True by done|rewrite decide_False by done]; by rewrite IH.
Qed.

(** ** Properties: headers *)

(** C31. Stripping works line by line: a buffer without a complete header block
    passes unchanged; otherwise exactly the header lines that begin with
    [Set-Cookie:], in any case, are gone, the others and their order are
    kept, the result still reads as those lines, and the body is untouched.
    The loop over positions thus does what the one-pass definition of lines
    says. *)
Theorem strip_set_cookie_removes_lines (data : list byte) :
  match find_header_end data with
  | None => strip_set_cookie data = data
  | Some n =>
      let kept := filter (fun line => ~ sets_cookie line.1) (crlf_lines [] (take n data)) in
      strip_set_cookie data = concat (map render kept) ++ drop n data /\
      crlf_lines [] (concat (map render kept)) = kept
  end.
Proof.
  destruct (find_header_end data) as [n|] eqn:En; unfold strip_set_cookie; rewrite En; [|done].
  cbn zeta. rewrite <- kept_set_no_cookie. split.
  - unfold filter_header_lines. by rewrite filter_loop_lines.
  - apply lines_of_rendered, keep_lines_ok. destruct (header_section _ _ En) as (x & -> & _).
    apply terminated_lines_ok.
Qed.

(** The cookie does not become a header: it is glued to the end of the last
    header line, and the rest of the block stays as it was. *)
Theorem injected_cookie_is_glued data n cookie :
  find_header_end data = Some n -> crlf_free (as_bytes cookie) -> head (as_bytes cookie) <> Some Byte.x0a ->
  exists init last,
    crlf_lines [] (take (n - 2) data) = init ++ [(last, true)] /\
    crlf_lines [] (take (n - 2 + length (as_bytes "Cookie: ") + length (as_bytes cookie))
                     (inject_cookie_header data cookie)) =
    init ++ [(last ++ as_bytes "Cookie: " ++ as_bytes cookie, true)].
Proof.
  intros Hn Hf Hh. destruct (header_section _ _ Hn) as (x & Ht & Hp).
  assert (Hlen : n = (length x + 4)%nat).
  { unfold find_header_end in Hn. rewrite Hp in Hn. by injection Hn. }
  assert (Hx : take (n - 2) data = x ++ CRLF).
  { transitivity (take (n - 2) (take n data)); [by rewrite take_take, Nat.min_l by lia|].
    rewrite Ht, take_app_length'; [done|]. rewrite length_app. simpl. lia. }
  assert (Hx4 : take (n - 4) data = x).
  { transitivity (take (n - 4) (take (n - 2) data)); [by rewrite take_take, Nat.min_l by lia|].
    rewrite Hx, take_app_length'; [done|lia]. }
  rewrite Hx. set (w := as_bytes "Cookie: " ++ as_bytes cookie).
  destruct (lines_extend x w) as (init & last & H1 & H2).
  - apply crlf_free_app; [done|done|done].
  - done.
  - exists init, last. split; [done|]. rewrite <- H2. f_equal.
    unfold inject_cookie_header. rewrite Hn, Hx4. rewrite (app_assoc (as_bytes "Cookie: ")). fold w.
    replace (x ++ w ++ CRLF ++ drop (n - 4) data) with ((x ++ w ++ CRLF) ++ drop (n - 4) data)
      by by rewrite <- !app_assoc.
    apply take_app_length'. rewrite !length_app. unfold w. rewrite length_app. simpl. lia.
Qed.

(** A header that arrives in two reads is not stripped. *)
Theorem split_set_cookie_passes :
  upstream_to_agent [as_bytes "HTTP/1.1 200 OK" ++ CRLF ++ as_bytes "Set-Cookie: sid=1"; CRLF ++ CRLF] =
  as_bytes "HTTP/1.1 200 OK" ++ CRLF ++ as_bytes "Set-Cookie: sid=1" ++ SEPARATOR.
Proof. by vm_compute. Qed.

(** ** Properties: the certificate authority *)

Lemma ends_with_spec s suffix : ends_with s suffix = true <-> exists p, s = p +:+ suffix.
Proof.
  induction s as [|c s IH]; cbn [ends_with]; rewrite orb_true_iff, bool_decide_eq_true.
  - split; [intros [<-|?]; [by exists EmptyString|done]|]. intros [p Hp]. left. by destruct p.
  - rewrite IH. split.
    + intros [<-|[p ->]]; [by exists EmptyString|by exists (String c p)].
    + intros [[|d p] Hp]; simpl in Hp; [by left|]. injection Hp as <- ->. right. by exists p.
Qed.

(** A host or a name below it. *)
Definition within (origin host : string) : Prop := origin = host \/ exists sub, origin = sub +:+ "." +:+ host.

Section CaProps.
Context `{Rcgen}.

Lemma is_allowed_spec ca origin : is_allowed ca origin = true <-> exists o, o ∈ allowed_origins ca /\ within origin o.
Proof.
  unfold is_allowed. rewrite existsb_exists. setoid_rewrite list_elem_of_In.
  setoid_rewrite orb_true_iff. setoid_rewrite bool_decide_eq_true. setoid_rewrite ends_with_spec.
  unfold within. naive_solver.
Qed.

(** A leaf of this CA: one name, not an authority, for TLS servers. *)
Definition leaf_for (ca : MitmCa) (origin : string) (leafpair : list byte * KeyDer) : Prop :=
  exists key leaf nb na,
    sign_leaf (mkLeafParams [origin] origin false true nb na) key (ca_cert ca) (ca_key ca) = inl leaf /\
    leafpair = (cert_der leaf, key_der key).

Record ca_ok (origins : list string) (s : Issuing) : Prop := {
  co_origins : allowed_origins (ci_ca s) = origins;
  co_cache : forall o leafpair, leaf_cache (ci_ca s) !! o = Some leafpair ->
    is_allowed (ci_ca s) o = true /\ leaf_for (ci_ca s) o leafpair;
  co_made : forall o leafpair, (o, leafpair) ∈ ci_signed s ++ ci_given s ->
    is_allowed (ci_ca s) o = true /\ leaf_for (ci_ca s) o leafpair
}.

Lemma new_leaf_ok origin key now ca leafpair : new_leaf origin key now ca = Ok leafpair -> leaf_for ca origin leafpair.
Proof.
  unfold new_leaf. destruct key as [k|e]; [|done]. destruct (leaf_params_check origin); [done|].
  destruct (time_add_hours _ _) as [expires|]; [|done]. destruct (sign_leaf _ _ _ _) as [leaf|e] eqn:Es; [|done].
  intros [= <-]. by exists k, leaf, now, expires.
Qed.

Lemma cached_leaf_ok origin ca o : cached_leaf origin ca = Ok o -> is_allowed ca origin = true /\ leaf_cache ca !! origin = o.
Proof. unfold cached_leaf. destruct (is_allowed ca origin); cbn; [by intros [= <-]|done]. Qed.

Lemma castep_ok origins s s' : castep s s' -> ca_ok origins s -> ca_ok origins s'.
Proof.
  intros Hs [Ho Hc Hm]. destruct Hs as [s origin lp [Hal Hl]%cached_leaf_ok|s origin key now lp [Hal _]%cached_leaf_ok Hn%new_leaf_ok|
    s before origin lp rest Hsig]; split; cbn [ci_ca ci_signed ci_given]; try done.
  - intros o x. rewrite app_assoc. intros [?|[= -> ->]%list_elem_of_singleton]%elem_of_app; auto.
  - intros o x. rewrite !elem_of_app, list_elem_of_singleton. intros [[?|[= -> ->]]|?]; [|done|]; apply Hm; set_solver.
  - intros o x. unfold cache_leaf. cbn. intros [[<- <-]|[_ ?]]%lookup_insert_Some; [|by apply Hc].
    apply (Hm origin lp). rewrite Hsig. set_solver.
  - intros o x Hin. apply (Hm o x). rewrite Hsig. set_solver.
Qed.

Lemma issuing_ok origins hours key now ca s : generate origins hours key now = Ok ca -> rtc castep (mkIssuing ca [] []) s ->
  ca_ok origins s.
Proof.
  intros Hg Hr. assert (ca_ok origins (mkIssuing ca [] [])) as Hok.
  { unfold generate in Hg. destruct origins; [discriminate|]. destruct key as [k|]; [|discriminate].
    destruct (time_add_hours _ _); [|discriminate]. destruct (self_sign _ _) as [c|]; [|discriminate].
    injection Hg as <-. split; [done| |].
    - intros o lp Hl. cbn in Hl. by rewrite lookup_empty in Hl.
    - intros o lp Hl. by apply elem_of_nil in Hl. }
  induction Hr as [|x y z Hxy _ IH]; [done|]. apply IH. by eapply castep_ok.
Qed.

(** A cached leaf stays while no other call has one to cache for the name. *)
Lemma cached_stays origin leafpair s s' : rtc castep s s' ->
  leaf_cache (ci_ca s) !! origin = Some leafpair -> (forall x, (origin, x) ∉ ci_signed s) ->
  leaf_cache (ci_ca s') !! origin = Some leafpair.
Proof.
  induction 1 as [|x y z Hxy _ IH]; [done|]. intros Hl Hn. apply IH; destruct Hxy as [s o lp _|s o key now lp [_ Hc]%cached_leaf_ok _|
    s before o lp rest Hsig]; cbn in *; try done.
  - rewrite lookup_insert_ne; [done|]. intros ->. apply (Hn lp). rewrite Hsig. set_solver.
  - intros x. rewrite elem_of_app, list_elem_of_singleton. intros [?|[= -> ->]]; [by eapply Hn|congruence].
  - intros x Hin. apply (Hn x). rewrite Hsig. set_solver.
Qed.

(** A call that nothing interrupts is made of these sections. *)
Lemma issue_steps origin key now ca leafpair ca' signed given : issue_leaf_cert origin key now ca = (ca', Ok leafpair) ->
  rtc castep (mkIssuing ca signed given) (mkIssuing ca' signed (given ++ [(origin, leafpair)])).
Proof.
  unfold issue_leaf_cert. destruct (cached_leaf origin ca) as [[lp|]| |] eqn:Hc; [|..|done|done].
  - intros [= <- <-]. apply rtc_once. by apply (ca_hit (mkIssuing ca signed given)).
  - destruct (new_leaf origin key now ca) as [lp| |] eqn:Hn; [|done..]. intros [= <- <-].
    eapply rtc_l; [by apply (ca_miss (mkIssuing ca signed given) origin key now lp)|]. apply rtc_once.
    pose proof (ca_cache (mkIssuing ca (signed ++ [(origin, lp)]) given) signed origin lp [] eq_refl) as Hs.
    rewrite app_nil_r in Hs. exact Hs.
Qed.

(** C30. The authority signs only for its origins: however the sections of the
    calls that share it interleave, every certificate it has handed out is for
    a configured host or a name below one and is a leaf for exactly that one
    name signed by this authority; any other name is refused as a scope
    violation and nothing changes; and once a name is in the cache and no
    other call is about to cache a leaf for it, every further call for it
    gets that certificate.  Calls that miss the cache together get different
    ones ([parallel_misses_differ]). *)
Theorem ca_signs_within_origins (origins : list string) (hours : Z) (cakey : KeyT + string) (start : Z) (ca : MitmCa)
    (s : Issuing) (origin : string) (key : KeyT + string) (now : Z) :
  generate origins hours cakey start = Ok ca -> rtc castep (mkIssuing ca [] []) s ->
  (forall o leafpair, (o, leafpair) ∈ ci_given s -> (exists h, h ∈ origins /\ within o h) /\ leaf_for (ci_ca s) o leafpair) /\
  ((forall o, o ∈ origins -> ~ within origin o) ->
     exists m, cached_leaf origin (ci_ca s) = Err (ScopeViolation m) /\
       issue_leaf_cert origin key now (ci_ca s) = (ci_ca s, Err (ScopeViolation m))) /\
  (forall leafpair s', leaf_cache (ci_ca s) !! origin = Some leafpair -> (forall x, (origin, x) ∉ ci_signed s) ->
     rtc castep s s' ->
     cached_leaf origin (ci_ca s') = Ok (Some leafpair) /\
     issue_leaf_cert origin key now (ci_ca s') = (ci_ca s', Ok leafpair)).
Proof.
  intros Hg Hr. pose proof (issuing_ok _ _ _ _ _ _ Hg Hr) as [Ho Hc Hm]. split_and!.
  - intros o lp Hin. destruct (Hm o lp) as [Hal Hlf]; [set_solver|]. split; [|done]. rewrite <- Ho. by apply is_allowed_spec.
  - intros Hno. unfold issue_leaf_cert, cached_leaf. destruct (is_allowed (ci_ca s) origin) eqn:Hal; [|by eexists].
    apply is_allowed_spec in Hal as (o & Hin & Hw). rewrite Ho in Hin. by destruct (Hno o Hin).
  - intros lp s' Hl Hn Hr'. pose proof (cached_stays _ _ _ _ Hr' Hl Hn) as Hl'.
    destruct (issuing_ok _ _ _ _ _ s' Hg) as [_ Hc' _]; [by etrans|]. destruct (Hc' _ _ Hl') as [Hal _].
    unfold issue_leaf_cert, cached_leaf. by rewrite Hal, Hl'.
Qed.

(** Two calls that miss the cache together each sign a leaf of their own; the
    first to cache its one gets an answer that the next call does not get. *)
Theorem parallel_misses_differ (ca : MitmCa) (origin : string) (key1 key2 : KeyT + string) (now1 now2 : Z)
    (leaf1 leaf2 : list byte * KeyDer) :
  cached_leaf origin ca = Ok None -> new_leaf origin key1 now1 ca = Ok leaf1 -> new_leaf origin key2 now2 ca = Ok leaf2 ->
  exists ca', rtc castep (mkIssuing ca [] []) (mkIssuing ca' [] [(origin, leaf1); (origin, leaf2); (origin, leaf2)]).
Proof.
  intros Hc Hn1 Hn2. exists (cache_leaf origin leaf2 (cache_leaf origin leaf1 ca)).
  eapply rtc_l; [by apply (ca_miss (mkIssuing ca [] []) origin key1 now1 leaf1)|].
  eapply rtc_l; [by apply (ca_miss (mkIssuing ca [(origin, leaf1)] []) origin key2 now2 leaf2)|].
  eapply rtc_l; [by apply (ca_cache (mkIssuing ca [(origin, leaf1); (origin, leaf2)] []) [] origin leaf1 [(origin, leaf2)])|].
  eapply rtc_l; [by apply (ca_cache (mkIssuing (cache_leaf origin leaf1 ca) [(origin, leaf2)] [(origin, leaf1)]) [] origin leaf2 [])|].
  apply rtc_once. refine (ca_hit (mkIssuing _ [] [(origin, leaf1); (origin, leaf2)]) origin leaf2 _).
  apply cached_leaf_ok in Hc as [Hal _]. unfold cached_leaf, cache_leaf. cbn [ci_ca].
  match goal with |- context [is_allowed ?c origin] => change (is_allowed c origin) with (is_allowed ca origin) end.
  rewrite Hal. cbn. by rewrite lookup_insert_eq.
Qed.
End CaProps.

(** ** An authority to evaluate *)

#[local] Instance demo_rcgen : Rcgen := {|
  KeyT := Z; CertT := list string; KeyDer := Z;
  self_sign := fun p _ => inl (cp_permitted p);
  leaf_params_check := fun _ => None;
  sign_leaf := fun p _ _ _ => inl (lp_san p);
  cert_der := fun c => as_bytes (join "," c);
  key_der := fun k => k;
  time_add_hours := fun t h => Some (t + 3600 * h)
|}.

Definition demo_ca : MitmCa := mkMitmCa (as_bytes "example.com") ["example.com"] 1 ["example.com"] ∅ 24.

Lemma ca_signs_within_origins_witness :
  exists m, issue_leaf_cert "evil-example.com" (inl (2 : @KeyT demo_rcgen)) 0 demo_ca = (demo_ca, Err (ScopeViolation m)).
Proof.
  destruct (ca_signs_within_origins ["example.com"] 24 (inl (1 : @KeyT demo_rcgen)) 0 demo_ca (mkIssuing demo_ca [] []) "evil-example.com"
    (inl (2 : @KeyT demo_rcgen)) 0) as (_ & Hno & _).
  - reflexivity.
  - constructor.
  - destruct Hno as (m & _ & Hm); [|exists m; exact Hm].
    intros o ->%list_elem_of_singleton [Hw|[sub Hw]]; [discriminate|].
    assert (Hno : ends_with "evil-example.com" ".example.com" = true) by by apply ends_with_spec; exists sub.
    vm_compute in Hno. discriminate.
Defined.

Lemma parallel_misses_differ_witness :
  exists ca', rtc castep (mkIssuing demo_ca [] [])
    (mkIssuing ca' [] [("example.com", (as_bytes "example.com", 2)); ("example.com", (as_bytes "example.com", 3));
                       ("example.com", (as_bytes "example.com", 3))]).
Proof.
  apply (parallel_misses_differ demo_ca "example.com" (inl (2 : @KeyT demo_rcgen)) (inl (3 : @KeyT demo_rcgen)) 0 0);
    vm_compute; reflexivity.
Defined.
