(* ===== verification/MitmCookies.v ===== *)
(** * The intercepting proxy with the cookie store

    What becomes of the cookies a browser login captured: [CookieManager]
    stores them, [MitmProxy::handle_connect] sends them.  The store is shared
    by all connections, so the question is which connections its contents
    can influence at all. *)

From S2P Require Import Prelude StateM RustStr ProxyScope ProxyAuth BrowserCookies Mitm.

#[local] Arguments String.append !_ _ /.

(** ** Another store behind the same proxy *)

Section Interference.
Context `{Rcgen} {X : Type} `{!MitmNet X}.

Definition with_cookies (s : CookieStore) (p : MitmProxy X) : MitmProxy X :=
  mkMitmProxy (mp_ca p) s (mp_origins p) (mp_net p).

(** [m] does the same with [s] in place of a store of [Q], and leaves the
    store alone. *)
Definition blind {E A : Type} (s : CookieStore) (Q : CookieStore -> Prop) (m : M (MitmProxy X) E A) : Prop :=
  forall p, Q (mp_cookies p) ->
    m (with_cookies s p) = (with_cookies s (m p).1, (m p).2) /\ mp_cookies (m p).1 = mp_cookies p.

Section Blind.
Context (s : CookieStore) (Q : CookieStore -> Prop).

Lemma blind_bind {E A B : Type} (m : M (MitmProxy X) E A) (k : A -> M (MitmProxy X) E B) :
  blind s Q m -> (forall a, blind s Q (k a)) -> blind s Q (mbind k m).
Proof.
  intros Hm Hk p Hp. destruct (Hm p Hp) as [Hw Hc]. rewrite !bind_eq, Hw.
  destruct (m p) as [p1 [a|e|]]; cbn [fst snd] in *; [|by split..].
  destruct (Hk a p1) as [Hw1 Hc1]; [by rewrite Hc|]. split; [done|]. by rewrite Hc1.
Qed.

Lemma blind_lift {E A : Type} (r : result A E) : blind s Q (lift r).
Proof. by intros p _. Qed.

Lemma blind_ret {E A : Type} (a : A) : blind (E:=E) s Q (mret a).
Proof. by intros p _. Qed.

Lemma blind_fail {E A : Type} (e : E) : blind (A:=A) s Q (fail e).
Proof. by intros p _. Qed.

Lemma blind_map_errM {E F A : Type} (f : E -> F) (m : M (MitmProxy X) E A) : blind s Q m -> blind s Q (map_errM f m).
Proof.
  intros Hm p Hp. destruct (Hm p Hp) as [Hw Hc]. unfold map_errM. rewrite Hw. by destruct (m p) as [p1 r].
Qed.

Lemma blind_on_net {E A : Type} (m : M X E A) : blind s Q (on_net m).
Proof. intros p _. unfold on_net, zoom. cbn. by destruct (m (mp_net p)) as [x r]. Qed.

Lemma blind_on_ca {E A : Type} (m : M MitmCa E A) : blind s Q (on_ca m).
Proof. intros p _. unfold on_ca, zoom. cbn. by destruct (m (mp_ca p)) as [ca r]. Qed.

Lemma blind_up {A : Type} what (m : M X string A) : blind s Q (up what m).
Proof. apply blind_on_net. Qed.

Lemma blind_attempt {E F A : Type} (m : M (MitmProxy X) E A) : blind s Q m -> blind (E:=F) s Q (attempt m).
Proof. intros Hm p Hp. destruct (Hm p Hp) as [Hw Hc]. unfold attempt. rewrite Hw. by destruct (m p) as [p1 []]. Qed.

Lemma blind_header {E : Type} origin : (forall t, Q t -> store_get t origin = store_get s origin) ->
  blind (E:=E) s Q (gets (fun p => build_cookie_header (mp_cookies p) origin)).
Proof. intros Ho p Hp%Ho. unfold gets, build_cookie_header. cbn. by rewrite Hp. Qed.
End Blind.

#[local] Hint Resolve blind_lift blind_ret blind_fail blind_map_errM blind_on_net blind_on_ca blind_up blind_attempt
  blind_header : cdp.

Lemma intercept_blind s show host port key now :
  blind s (fun t => store_get t ("https://" +:+ host) = store_get s ("https://" +:+ host)) (intercept show host port key now).
Proof.
  unfold intercept.
  repeat (apply blind_bind; [first [by auto with cdp|by destruct (server_name_ok host); auto with cdp]|intros ?]).
  apply blind_on_net.
Qed.

Lemma tunnel_blind s host port : blind s (fun _ => True) (tunnel host port).
Proof. unfold tunnel. repeat (apply blind_bind; [by auto with cdp|intros ?]). apply blind_ret. Qed.

(** ** Properties *)

Context `{RegexCrate}.

(** C39. The cookies of a login stay with their origin.  After a snapshot was
    stored for [origin], a connection to a host that is not intercepted, or
    whose own origin is another, does exactly what it did before, towards the
    agent and towards the network, with the same result; an intercepted
    connection to the origin sends, to every port of the host, the pairs of
    the cookies that passed the filter. *)
Theorem captured_cookies_stay_with_origin (p : MitmProxy X) (show : ProxyError -> string) (origin host : string) (port : Z)
    (key : KeyT + string) (now : Z) (cookies : list Cookie) (f : CookieFilter) (domain : string) (age : Z) :
  let s' := store_scoped_snapshot (mp_cookies p) origin cookies f domain age in
  (host ∉ mp_origins p \/ "https://" +:+ host <> origin ->
     handle_connect show host port key now (with_cookies s' p) =
       (with_cookies s' (handle_connect show host port key now p).1, (handle_connect show host port key now p).2)) /\
  (origin = "https://" +:+ host ->
     build_cookie_header s' ("https://" +:+ host) =
       match filter_cookies cookies f with
       | [] => None
       | kept => Some (join "; " (map cookie_pair kept))
       end).
Proof.
  intros s'. split.
  - intros Hor. unfold handle_connect. cbn [mp_origins with_cookies]. case_bool_decide as Hin.
    + destruct Hor as [Hn|Hne]; [done|]. apply intercept_blind. unfold s', store_scoped_snapshot, store_get, store_set.
      by rewrite lookup_insert_ne.
    + by apply tunnel_blind.
  - intros ->. unfold build_cookie_header, s', store_scoped_snapshot, store_get, store_set. rewrite lookup_insert_eq.
    cbn [unwrap_or]. destruct (filter_cookies cookies f) as [|c l]; [done|]. cbn [transform_for_scoped_snapshot map].
    f_equal. f_equal. cbn. f_equal. unfold transform_for_scoped_snapshot. rewrite map_map. by apply map_ext.
Qed.
End Interference.

(** Nothing of a cookie but its name and value counts: the lifetime and the
    path that the snapshot sets are not looked at when the header is built. *)
Theorem cookie_limits_are_ignored (s : CookieStore) (origin : string) (l1 l2 : list Cookie) :
  map cookie_pair l1 = map cookie_pair l2 ->
  build_cookie_header (store_set s origin l1) origin = build_cookie_header (store_set s origin l2) origin.
Proof.
  intros Hm. unfold build_cookie_header, store_get, store_set. rewrite !lookup_insert_eq. cbn [unwrap_or].
  destruct l1, l2; try done. by rewrite Hm.
Qed.

Lemma cookie_limits_are_ignored_witness :
  let c := cookie_session "sid" "1" "example.com" in
  build_cookie_header (store_set ∅ "https://example.com" [restrict "example.com" 300 c]) "https://example.com" =
  build_cookie_header (store_set ∅ "https://example.com" [restrict "example.com" 0 c]) "https://example.com".
Proof. apply cookie_limits_are_ignored. reflexivity. Defined.
