(* ===== verification/Sdk.v ===== *)
(** * cdp-sdk: the agent's side

    [cdp-sdk/src/] ([discovery.rs], [transport.rs], [client.rs],
    [session.rs], [lease.rs], [types.rs] and the error type of [lib.rs]).
    Sockets, the environment and serde are classes; [Transport] talks to any
    channel with [LineIo]. *)

From S2P Require Import Prelude StateM RustStr AuditLog LeaseTypes ProxyScope ProxyAuth.

#[local] Arguments String.append !_ _ /.

(** ** Errors and messages *)

Inductive CdpError : Type :=
| GateNotFound (m : string)
| IdentityVerification (m : string)
| Connection (m : string)
| CdpSerialization (m : string)
| CdpIo (m : string)
| CdpGateError (code : Z) (message : string)
| MalformedResponse (m : string)
| LeaseExpiredError
| ProxyRequest (m : string)
| CdpConfig (m : string).

(** [Scope] and [GrantedScope] have the same fields. *)
Record SdkScope : Type := mkSdkScope {
  ss_hosts : list string; ss_methods : list string; ss_paths : list string;
  ss_ttl_seconds : option Z; ss_max_requests : option Z
}.

Record LeaseRequest : Type := mkLeaseRequest {
  lr_credential_ref : string; lr_scope : SdkScope; lr_reason : string
}.

Record SdkRequest : Type := mkSdkRequest {
  sq_jsonrpc : string; sq_method : string; sq_params : Json; sq_id : Z
}.

Record SdkResponse : Type := mkSdkResponse {
  sp_result : option Json; sp_error : option (Z * string); sp_id : Json
}.

Record SdkRegisterResult : Type := mkSdkRegisterResult {
  sr_status : string; sr_agent_fingerprint : string; sr_session_token : string;
  sr_capabilities_granted : list string
}.

Record SdkCredentialResult : Type := mkSdkCredentialResult {
  sc_status : string; sc_lease_id : string; sc_proxy_port : Z; sc_lease_token : string;
  sc_channel_binding_nonce : string; sc_ttl_seconds : Z; sc_granted_scope : SdkScope
}.

Record RenewalInfo : Type := mkRenewalInfo {
  ri_status : string; ri_new_expires_at : string; ri_renewals_remaining : Z
}.

Record GateFingerprint : Type := mkGateFingerprint {
  gate_pid : Z; gate_binary_hash : string; public_key : string; socket_path : string; started_at : string
}.

(** serde at these types. *)
Class SdkCodec : Type := {
  request_to_string : SdkRequest -> string + string;
  response_from_str : string -> SdkResponse + string;
  register_from_value : Json -> SdkRegisterResult + string;
  credential_from_value : Json -> SdkCredentialResult + string;
  renewal_from_value : Json -> RenewalInfo + string;
  fingerprint_from_str : string -> GateFingerprint + string
}.

Definition sdk_wrap {A : Type} (f : string -> CdpError) (r : A + string) : result A CdpError :=
  match r with inl a => Ok a | inr e => Err (f e) end.

(** ** Discovery *)

(** The process environment, files and sockets.  A connection is a handle;
    [C] is a connected asynchronous stream. *)
Class SdkOs (X C : Type) : Type := {
  env_var : string -> X -> option string;
  sdk_read_to_string : string -> M X string string;
  connect_blocking : string -> M X string Z;
  peer_cred_pid : Z -> X -> Z + string;
  connect_async : string -> M X string C
}.

Section Discovery.
Context {X C : Type} `{SdkOs X C}.

Definition default_fingerprint_path (x : X) : string :=
  match env_var "XDG_CONFIG_HOME" x with
  | Some xdg => path_join (path_join xdg "cdp") "gate.fingerprint"
  | None =>
      let home := unwrap_or (env_var "HOME" x) "/root" in
      path_join (path_join (path_join home ".config") "cdp") "gate.fingerprint"
  end.

(** A fingerprint that only names a socket. *)
Definition bare_fingerprint (path : string) : GateFingerprint :=
  mkGateFingerprint 0 EmptyString EmptyString path EmptyString.

Definition discover `{SdkCodec} : M X CdpError GateFingerprint := fun x =>
  match env_var "CDP_GATE_SOCKET" x with
  | Some path => (x, Ok (bare_fingerprint path))
  | None =>
      let path := default_fingerprint_path x in
      (contents ← map_errM (fun e => GateNotFound ("cannot read fingerprint file " +:+ to_string_lossy path +:+ ": " +:+ e))
                    (sdk_read_to_string path);
       lift (sdk_wrap (fun e => MalformedResponse ("invalid fingerprint file " +:+ to_string_lossy path +:+ ": " +:+ e))
               (fingerprint_from_str contents))) x
  end.

Definition verify_gate (stream : Z) (fp : GateFingerprint) : M X CdpError unit := fun x =>
  if gate_pid fp =? 0 then (x, Ok tt)
  else
    match peer_cred_pid stream x with
    | inr e => (x, Err (IdentityVerification ("getsockopt SO_PEERCRED failed: " +:+ e)))
    | inl pid =>
        let peer_pid := pid mod U32 in
        if negb (peer_pid =? gate_pid fp) then
          (x, Err (IdentityVerification ("peer PID " +:+ display_Z peer_pid +:+
                     " does not match expected gate PID " +:+ display_Z (gate_pid fp))))
        else (x, Ok tt)
    end.

(** ** The client *)

(** [id_counter] is the next request id. *)
Record Transport : Type := mkTransport { chan : C; id_counter : Z }.

Definition transport_connect (path : string) : M X CdpError Transport :=
  c ← map_errM (fun e => Connection (to_string_lossy path +:+ ": " +:+ e)) (connect_async path);
  mret (mkTransport c 1).

Record CdpClient : Type := mkCdpClient { cl_fingerprint : GateFingerprint; cl_transport : Transport }.

Definition connect_with_fingerprint (fp : GateFingerprint) : M X CdpError CdpClient :=
  let path := socket_path fp in
  _ ← (if negb (gate_pid fp =? 0) then
         stream ← map_errM (fun e => Connection (to_string_lossy path +:+ ": " +:+ e)) (connect_blocking path);
         verify_gate stream fp
       else mret tt);
  transport ← transport_connect path;
  mret (mkCdpClient fp transport).

Definition client_discover `{SdkCodec} : M X CdpError CdpClient :=
  fp ← discover;
  connect_with_fingerprint fp.

Definition client_connect (path : string) : M X CdpError CdpClient :=
  connect_with_fingerprint (bare_fingerprint (to_string_lossy path)).
End Discovery.
Arguments Transport : clear implicits.
Arguments mkTransport {C}.
Arguments chan {C}.
Arguments id_counter {C}.
Arguments CdpClient : clear implicits.
Arguments mkCdpClient {C}.
Arguments cl_fingerprint {C}.
Arguments cl_transport {C}.

(** ** Requests *)

(** One line out, one line in; an empty line read is end of file. *)
Class LineIo (C : Type) : Type := {
  write_line_bytes : list byte -> M C string unit;
  read_line : M C string string
}.

Section Requests.
Context {C : Type} `{LineIo C} `{SdkCodec} `{JsonText}.

Definition on_chan {A : Type} (m : M C CdpError A) : M (Transport C) CdpError A :=
  zoom chan (fun c t => mkTransport c (id_counter t)) m.

(** [nonce] and [timestamp] are the UUID drawn and the clock's text. *)
Definition send (method : string) (params : Json) (nonce timestamp : string) : M (Transport C) CdpError Json :=
  id ← gets id_counter;
  _ ← modify (fun t => mkTransport (chan t) ((id_counter t + 1) mod U64));
  match params with
  | JObject fields =>
      let fields := obj_insert "nonce" (JString nonce) fields in
      let fields := obj_insert "timestamp" (JString timestamp) fields in
      let request := mkSdkRequest "2.0" method (JObject fields) id in
      line ← lift (sdk_wrap CdpSerialization (request_to_string request));
      _ ← on_chan (map_errM CdpIo (write_line_bytes (as_bytes (line +:+ String newline EmptyString))));
      response_line ← on_chan (map_errM CdpIo read_line);
      if bool_decide (response_line = EmptyString) then
        fail (Connection "gate closed the connection unexpectedly")
      else
        response ← lift (sdk_wrap CdpSerialization (response_from_str (trim response_line)));
        match sp_error response with
        | Some (code, message) => fail (CdpGateError code message)
        | None => lift (ok_or (sp_result response) (MalformedResponse "response missing 'result' field"))
        end
  | other => fail (MalformedResponse ("params must be an object, got: " +:+ json_to_string other))
  end.

Record Session : Type := mkSession {
  se_transport : Transport C;
  session_token : string;
  agent_fingerprint : string
}.

Definition register_params (agent_id agent_version : string) (capabilities : list string) : Json :=
  JObject [("agent_id", JString agent_id); ("agent_version", JString agent_version);
           ("capabilities", JArray (map JString capabilities))].

(** [CdpClient::register] consumes the client. *)
Definition register (client : CdpClient C) (agent_id agent_version : string) (capabilities : list string)
    (nonce timestamp : string) : result Session CdpError :=
  let '(t, r) := send "cdp.register" (register_params agent_id agent_version capabilities) nonce timestamp
                   (cl_transport client) in
  let! result_value := r in
  let! res := sdk_wrap (fun e => MalformedResponse ("invalid register response: " +:+ e))
                (register_from_value result_value) in
  if negb (bool_decide (sr_status res = "registered")) then
    Err (MalformedResponse ("unexpected register status: " +:+ sr_status res))
  else Ok (mkSession t (sr_session_token res) (sr_agent_fingerprint res)).

Definition json_opt_u64 (o : option Z) : Json :=
  match o with Some n => JNumber (PosInt n) | None => JNull end.

(** The [json!] object of [request_lease]; members in key order. *)
Definition credential_params (token : string) (params : LeaseRequest) : Json :=
  let s := lr_scope params in
  JObject [("credential_ref", JString (lr_credential_ref params));
           ("reason", JString (lr_reason params));
           ("scope", JObject [("hosts", JArray (map JString (ss_hosts s)));
                              ("max_requests", json_opt_u64 (ss_max_requests s));
                              ("methods", JArray (map JString (ss_methods s)));
                              ("paths", JArray (map JString (ss_paths s)));
                              ("ttl_seconds", json_opt_u64 (ss_ttl_seconds s))]);
           ("session_token", JString token)].

Record SdkLease : Type := mkSdkLease {
  sl_lease_id : string; sl_proxy_port : Z; sl_lease_token : string; sl_channel_binding_nonce : string;
  sl_ttl_seconds : Z; sl_granted_scope : SdkScope; sl_expires_at : Z; sl_session_token : string;
  sl_transport : option (Transport C)
}.

(** [Lease::new] leaves the transport empty; [with_transport] has no caller. *)
Definition lease_new (res : SdkCredentialResult) (expires_at : Z) (token : string) : SdkLease :=
  mkSdkLease (sc_lease_id res) (sc_proxy_port res) (sc_lease_token res) (sc_channel_binding_nonce res)
    (sc_ttl_seconds res) (sc_granted_scope res) expires_at token None.

Definition with_transport (l : SdkLease) (t : Transport C) : SdkLease :=
  mkSdkLease (sl_lease_id l) (sl_proxy_port l) (sl_lease_token l) (sl_channel_binding_nonce l)
    (sl_ttl_seconds l) (sl_granted_scope l) (sl_expires_at l) (sl_session_token l) (Some t).

Definition on_transport {A : Type} (m : M (Transport C) CdpError A) : M Session CdpError A :=
  zoom se_transport (fun t s => mkSession t (session_token s) (agent_fingerprint s)) m.

(** [now] is the clock when the answer has arrived. *)
Definition request_lease `{Chrono} (params : LeaseRequest) (nonce timestamp : string) (now : Z)
    : M Session CdpError SdkLease :=
  token ← gets session_token;
  result_value ← on_transport (send "cdp.requestCredential" (credential_params token params) nonce timestamp);
  res ← lift (sdk_wrap (fun e => MalformedResponse ("invalid requestCredential response: " +:+ e))
                (credential_from_value result_value));
  if negb (bool_decide (sc_status res = "granted")) then
    fail (MalformedResponse ("unexpected credential status: " +:+ sc_status res))
  else
    d ← lift (duration_seconds (as_i64 (sc_ttl_seconds res)));
    expires_at ← lift (dt_add now d);
    mret (lease_new res expires_at token).

Definition is_expired (l : SdkLease) (now : Z) : bool := sl_expires_at l <=? now.

(** ** Renewal and revocation *)

Definition set_expiry (t : Z) (l : SdkLease) : SdkLease :=
  mkSdkLease (sl_lease_id l) (sl_proxy_port l) (sl_lease_token l) (sl_channel_binding_nonce l)
    (sl_ttl_seconds l) (sl_granted_scope l) t (sl_session_token l) (sl_transport l).

Definition set_transport (o : option (Transport C)) (l : SdkLease) : SdkLease :=
  mkSdkLease (sl_lease_id l) (sl_proxy_port l) (sl_lease_token l) (sl_channel_binding_nonce l)
    (sl_ttl_seconds l) (sl_granted_scope l) (sl_expires_at l) (sl_session_token l) o.

(** [parse_utc] is [str::parse::<DateTime<Utc>>]. *)
Definition renew `{Chrono} (parse_utc : string -> option Z) (extend_seconds : Z) (nonce timestamp : string) (now : Z)
    : M SdkLease CdpError RenewalInfo := fun l =>
  match sl_transport l with
  | None =>
      (l, Err (Connection ("no transport available for renew (use Session::request_lease to obtain a Lease with transport)")))
  | Some t =>
      let params := JObject [("extend_seconds", JNumber (PosInt extend_seconds));
                             ("lease_id", JString (sl_lease_id l));
                             ("session_token", JString (sl_session_token l))] in
      let '(t, r) := send "cdp.renewLease" params nonce timestamp t in
      let l := set_transport (Some t) l in
      (result_value ← lift r;
       info ← lift (sdk_wrap (fun e => MalformedResponse ("invalid renewLease response: " +:+ e))
                      (renewal_from_value result_value));
       match parse_utc (ri_new_expires_at info) with
       | Some new_expiry => _ ← modify (set_expiry new_expiry); mret info
       | None =>
           d ← lift (duration_seconds (as_i64 extend_seconds));
           e ← lift (dt_add now d);
           _ ← modify (set_expiry e);
           mret info
       end) l
  end.

(** [revoke] consumes the lease. *)
Definition revoke_sdk (l : SdkLease) (reason nonce timestamp : string) : result unit CdpError :=
  match sl_transport l with
  | None => Err (Connection "no transport available for revoke")
  | Some t =>
      let params := JObject [("lease_id", JString (sl_lease_id l)); ("reason", JString reason);
                             ("session_token", JString (sl_session_token l))] in
      let '(_, r) := send "cdp.revokeLease" params nonce timestamp t in
      let! result_value := r in
      let status := unwrap_or (json_get result_value "status" ≫= as_str) EmptyString in
      if negb (bool_decide (status = "revoked")) then
        Err (MalformedResponse ("unexpected revoke status: " +:+ status))
      else Ok tt
  end.
End Requests.
Arguments Session : clear implicits.
Arguments mkSession {C}.
Arguments SdkLease : clear implicits.
Arguments mkSdkLease {C}.

(** ** HTTP through the proxy *)

Record FetchOptions : Type := mkFetchOptions {
  fo_method : option string; fo_headers : gmap string string; fo_body : option (list byte)
}.

Record SdkHttpResponse : Type := mkSdkHttpResponse {
  hr_status : Z; hr_headers : gmap string string; hr_body : list byte
}.

Section Fetch.
Context `{HttpCrate} `{MapIter}.

Record HttpRequest : Type := mkHttpRequest {
  hq_method : string; hq_uri : UriT; hq_headers : HeaderMap; hq_body : list byte
}.

(** What the HTTP client gets back; the body may fail to arrive. *)
Record RawResponse : Type := mkRawResponse {
  rw_status : Z; rw_headers : list (string * list byte); rw_body : list byte + string
}.

(** The rest of the [http] crate [fetch] uses, and the client. *)
Class SdkHttp (X : Type) : Type := {
  hm_empty : HeaderMap;
  method_from_str : string -> string + string;
  uri_path_and_query : UriT -> option string;
  uri_with_path : UriT -> option string -> UriT + string;
  http_request : HttpRequest -> M X string RawResponse
}.

Context {X C : Type} `{!SdkHttp X}.

(** [builder.header(name, value)]: the first bad value is kept and reported
    by [body]. *)
Definition build_header (b : HeaderMap + string) (name : string) (value : string) : HeaderMap + string :=
  match b with
  | inr e => inr e
  | inl h => match header_value_from_str value with
             | inl v => inl (hm_append h name v)
             | inr e => inr e
             end
  end.

(** [for (name, value) in &options.headers] *)
Fixpoint add_headers (b : HeaderMap + string) (headers : list (string * string)) : result (HeaderMap + string) CdpError :=
  match headers with
  | [] => Ok b
  | (name, value) :: rest =>
      let! header_name := sdk_wrap (fun e => ProxyRequest ("invalid header name '" +:+ name +:+ "': " +:+ e))
                            (header_name_from_bytes (as_bytes name)) in
      let! header_value := sdk_wrap (fun e => ProxyRequest ("invalid header value for '" +:+ name +:+ "': " +:+ e))
                             (header_value_from_str value) in
      add_headers (match b with inl h => inl (hm_append h header_name header_value) | inr e => inr e end) rest
  end.

(** The four headers the SDK sets itself, in order. *)
Definition auth_headers (l : SdkLease C) (host_header url : string) : HeaderMap + string :=
  build_header (build_header (build_header (build_header (inl hm_empty) "host" host_header)
    "x-cdp-lease-token" (sl_lease_token l)) "x-cdp-channel-binding" (sl_channel_binding_nonce l))
    "x-cdp-original-url" url.

Definition send_via_proxy (req : HttpRequest) (proxy_uri : UriT) : M X CdpError RawResponse :=
  final_uri ← lift (sdk_wrap (fun e => ProxyRequest ("URI construction failed: " +:+ e))
                      (uri_with_path proxy_uri (uri_path_and_query (hq_uri req))));
  map_errM (fun e => ProxyRequest ("HTTP request failed: " +:+ e))
    (http_request (mkHttpRequest (hq_method req) final_uri (hq_headers req) (hq_body req))).

(** Everything [fetch] does before it sends. *)
Definition build_request (l : SdkLease C) (url : string) (options : FetchOptions) : result (HttpRequest * UriT) CdpError :=
  let! method := sdk_wrap (fun e => ProxyRequest ("invalid method: " +:+ e))
                   (method_from_str (unwrap_or (fo_method options) "GET")) in
  let! original_uri := sdk_wrap (fun e => ProxyRequest ("invalid URL '" +:+ url +:+ "': " +:+ e)) (uri_parse url) in
  let! proxy_uri := sdk_wrap (fun e => ProxyRequest ("invalid proxy URI: " +:+ e))
                      (uri_parse ("http://127.0.0.1:" +:+ display_Z (sl_proxy_port l))) in
  let path := unwrap_or (uri_path_and_query original_uri) "/" in
  let! host := ok_or (uri_host original_uri) (ProxyRequest "URL has no host") in
  let host_header := match uri_port_u16 original_uri with
                     | Some p => host +:+ ":" +:+ display_Z p
                     | None => host
                     end in
  let! request_uri := sdk_wrap (fun e => ProxyRequest ("invalid path: " +:+ e)) (uri_parse path) in
  let! b := add_headers (auth_headers l host_header url) (map_iter (fo_headers options)) in
  let! headers := sdk_wrap (fun e => ProxyRequest ("failed to build request: " +:+ e)) b in
  Ok (mkHttpRequest method request_uri headers (unwrap_or (fo_body options) []), proxy_uri).

(** [for (name, value) in response.headers()]: values that are not text are
    left out, a later value of a name replaces an earlier one. *)
Definition collect_headers (hs : list (string * list byte)) : gmap string string :=
  fold_left (fun acc '(name, value) =>
    match header_value_to_str value with Some v => <[name := v]> acc | None => acc end) hs ∅.

Definition fetch (l : SdkLease C) (now : Z) (url : string) (options : FetchOptions) : M X CdpError SdkHttpResponse :=
  if is_expired l now then fail LeaseExpiredError
  else
    req ← lift (build_request l url options);
    resp ← send_via_proxy req.1 req.2;
    body ← lift (sdk_wrap (fun e => ProxyRequest ("failed to read response body: " +:+ e)) (rw_body resp));
    mret (mkSdkHttpResponse (rw_status resp) (collect_headers (rw_headers resp)) body).
End Fetch.

(** ** Lemmas *)

Section SdkLemmas.
Context {C : Type} `{LineIo C} `{!SdkCodec} `{!JsonText}.

(** What a successful [send] did. *)
Lemma send_ok method fields nonce ts (t t' : Transport C) v :
  send method (JObject fields) nonce ts t = (t', Ok v) ->
  exists line c1 c2 resp_line resp,
    request_to_string (mkSdkRequest "2.0" method
      (JObject (obj_insert "timestamp" (JString ts) (obj_insert "nonce" (JString nonce) fields))) (id_counter t)) =
      inl line /\
    write_line_bytes (as_bytes (line +:+ String newline EmptyString)) (chan t) = (c1, Ok tt) /\
    read_line c1 = (c2, Ok resp_line) /\ resp_line <> EmptyString /\
    response_from_str (trim resp_line) = inl resp /\
    sp_error resp = None /\ sp_result resp = Some v /\
    t' = mkTransport c2 ((id_counter t + 1) mod U64).
Proof.
  unfold send. intros Hs.
  apply bind_ok in Hs as (t0 & id & [= <- <-] & Hs).
  apply bind_ok in Hs as (t1 & [] & [= <-] & Hs).
  apply bind_ok in Hs as (t2 & line & [-> Hl]%lift_ok & Hs).
  apply bind_ok in Hs as (t3 & [] & Hw & Hs). unfold on_chan, zoom, map_errM in Hw. cbn [chan id_counter] in Hw.
  destruct (write_line_bytes _ _) as [c1 [[]|e|]] eqn:Ew; simplify_eq/=.
  apply bind_ok in Hs as (t4 & rl & Hr & Hs). unfold on_chan, zoom, map_errM in Hr. cbn [chan id_counter] in Hr.
  destruct (read_line c1) as [c2 [rl'|e|]] eqn:Er; simplify_eq/=.
  case_bool_decide; [discriminate|].
  apply bind_ok in Hs as (t5 & resp & [-> Hp]%lift_ok & Hs).
  destruct (sp_error resp) as [[code m]|] eqn:Ee; [discriminate|].
  apply lift_ok in Hs as [-> Hv%ok_or_ok].
  unfold sdk_wrap in *. destruct (request_to_string _) eqn:?; [|discriminate].
  destruct (response_from_str _) eqn:?; [|discriminate]. simplify_eq.
  exists line, c1, c2, rl, resp. done.
Qed.

(** What a lease is made of. *)
Lemma request_lease_ok `{Chrono} params nonce ts now (s s' : Session C) l :
  request_lease params nonce ts now s = (s', Ok l) ->
  exists v res t',
    send "cdp.requestCredential" (credential_params (session_token s) params) nonce ts (se_transport s) = (t', Ok v) /\
    credential_from_value v = inl res /\ sc_status res = "granted" /\
    l = lease_new res (sl_expires_at l) (session_token s) /\
    s' = mkSession t' (session_token s) (agent_fingerprint s).
Proof.
  unfold request_lease. intros Hr.
  apply bind_ok in Hr as (s0 & token & [= <- <-] & Hr).
  apply bind_ok in Hr as (s1 & v & Hs & Hr). unfold on_transport, zoom in Hs.
  destruct (send _ _ _ _ _) as [t' r] eqn:Es. simplify_eq.
  apply bind_ok in Hr as (s2 & res & [-> Hres]%lift_ok & Hr).
  destruct (bool_decide _) eqn:Est; [|discriminate]. bool_to_prop. cbn [negb] in Hr.
  apply bind_ok in Hr as (s3 & d & [-> _]%lift_ok & Hr).
  apply bind_ok in Hr as (s4 & e & [-> _]%lift_ok & [= <- <-]).
  unfold sdk_wrap in Hres. destruct (credential_from_value v) as [res'|] eqn:?; [|discriminate]. simplify_eq.
  exists v, res, t'. done.
Qed.
End SdkLemmas.

(** ** Properties *)

(** The lease a session hands out has no way back to the gate: [renew] and
    [revoke] on it fail, whatever the gate would say. *)
Theorem session_lease_cannot_be_managed {C : Type} `{LineIo C} `{!SdkCodec} `{!JsonText} `{Chrono}
    params nonce ts now (s s' : Session C) l parse secs nonce' ts' now' reason :
  request_lease params nonce ts now s = (s', Ok l) ->
  (exists m, renew parse secs nonce' ts' now' l = (l, Err (Connection m))) /\
  (exists m, revoke_sdk l reason nonce' ts' = Err (Connection m)).
Proof.
  intros (v & res & t' & _ & _ & _ & Hl & _)%request_lease_ok. rewrite Hl.
  unfold renew, revoke_sdk. simpl. eauto.
Qed.

(** ** Whom the client talks to *)

(** Connections are served by successive processes, known by their pids. *)
Definition relay_os : SdkOs (list Z) Z := {|
  env_var := fun _ _ => None;
  sdk_read_to_string := fun _ => fail "No such file or directory";
  connect_blocking := fun _ servers => match servers with
                                       | [] => ([], Err "Connection refused")
                                       | pid :: rest => (rest, Ok pid)
                                       end;
  peer_cred_pid := fun stream _ => inl stream;
  connect_async := fun _ servers => match servers with
                                    | [] => ([], Err "Connection refused")
                                    | pid :: rest => (rest, Ok pid)
                                    end
|}.

(** The check is made on a connection that is then dropped: the transport is
    a second connection, which another process may have accepted. *)
Theorem verified_connection_is_not_used :
  connect_with_fingerprint (H:=relay_os) (mkGateFingerprint 7 EmptyString EmptyString "/run/cdp.sock" EmptyString) [7; 666] =
  ([], Ok (mkCdpClient (mkGateFingerprint 7 EmptyString EmptyString "/run/cdp.sock" EmptyString) (mkTransport 666 1))).
Proof. by vm_compute. Qed.
