(* ===== verification/CliWrap.v ===== *)
(** * cdp-cli-wrap: running a command with a lease

    [cdp-cli-wrap/src/] ([lib.rs], [sanitize.rs], [askpass.rs],
    [gate_client.rs], [exec.rs], [namespace.rs] and [main.rs]).  Processes,
    descriptors, the environment and serde are classes. *)

From S2P Require Import Prelude StateM RustStr AuditLog VaultWorker BrowserCookies Sdk.

#[local] Arguments String.append !_ _ /.

(** ** Errors and injection methods *)

Inductive WrapError : Type :=
| WGate (m : string)
| WIo (m : string)
| WChild (m : string)
| WCredentialDelivery (m : string)
| WSanitize (m : string)
| WNamespace (m : string)
| WConfig (m : string)
| WJson (m : string)
| WSignal (m : string)
| WChildExitStatus (code : Z).

Inductive InjectionMethod : Type := GitAskpass | SshAskpass | CurlPipe | GenericAskpass.

(** [Path::new(s).file_name().and_then(to_str).unwrap_or(s)] *)
Definition base_name (s : string) : string := unwrap_or (path_file_name s) s.

Definition from_command (command : string) : InjectionMethod :=
  let name := base_name command in
  if bool_decide (name = "git") then GitAskpass
  else if contains ["ssh"; "scp"; "sftp"] name then SshAskpass
  else if bool_decide (name = "curl") then CurlPipe
  else GenericAskpass.

Definition wrap_err {A : Type} (f : string -> WrapError) (r : A + string) : result A WrapError :=
  match r with inl a => Ok a | inr e => Err (f e) end.

(** ** Output sanitizing *)

Definition REDACTED_MARKER : string := "[CDP:REDACTED]".

Definition default_patterns : list string :=
  ["ghp_[A-Za-z0-9]{36,}"; "gho_[A-Za-z0-9]{36,}"; "github_pat_[A-Za-z0-9_]{36,}";
   "xoxb-[A-Za-z0-9\-]{20,}"; "xoxp-[A-Za-z0-9\-]{20,}"; "xoxa-[A-Za-z0-9\-]{20,}";
   "sk-[A-Za-z0-9\-_]{20,}"; "AKIA[A-Z0-9]{16}";
   "(?i)(Authorization:\s*Bearer\s+)[A-Za-z0-9\-_=+/]{16,}";
   "(?:=|:\s*)[A-Za-z0-9+/]{32,}={0,2}"].

(** [Regex::replace_all]; the marker has no [$]. *)
Class RegexReplace `{RegexCrate} : Type := { replace_all : Regex -> string -> string -> string }.

Section Sanitize.
Context `{RegexCrate} `{!RegexReplace}.

Abbreviation OutputSanitizer := (list Regex).

(** [collect] into a [Result] stops at the first pattern that fails. *)
Fixpoint with_patterns (patterns : list string) : result OutputSanitizer WrapError :=
  match patterns with
  | [] => Ok []
  | p :: rest =>
      let! re := wrap_err (fun e => WSanitize ("compile pattern: " +:+ e)) (regex_new p) in
      let! res := with_patterns rest in
      Ok (re :: res)
  end.

Definition sanitizer_new : result OutputSanitizer WrapError := with_patterns default_patterns.

Definition sanitize_line (s : OutputSanitizer) (line : string) : string :=
  fold_left (fun acc re => if is_match re acc then replace_all re acc REDACTED_MARKER else acc) s line.

Definition sanitize_buffer (s : OutputSanitizer) (buf : string) : string :=
  join (String newline EmptyString) (map (sanitize_line s) (lines buf)).

Definition sanitize_bytes (s : OutputSanitizer) (bytes : list byte) : list byte :=
  as_bytes (sanitize_buffer s (of_bytes (utf8_lossy bytes))).
End Sanitize.

(** ** The operating system *)

Record WrapCommand : Type := mkWrapCommand {
  wc_program : string; wc_args : list string; wc_env : gmap string string; wc_unshare_pid : bool;
  wc_inherit_fd : option Z
}.

(** [wait] gives the exit code, if the child was not killed by a signal.  The
    lines of the two pipes are what the reader threads read before an error
    or the end. *)
Class WrapOs (X : Type) : Type := {
  w_env_var : string -> X -> option string;
  w_current_exe : X -> string + string;
  w_read_to_string : string -> M X string string;
  disable_core_dumps : M X string unit;
  prctl_dumpable_off : X -> X * Z;
  w_setrlimit_core_zero : M X string unit;
  read_fd_to_end : Z -> M X string (list byte);
  write_stdout : list byte -> M X string unit;
  flush_stdout : M X string unit;
  w_spawn : WrapCommand -> M X string Z;
  child_stdout_lines : Z -> X -> list string;
  child_stderr_lines : Z -> X -> list string;
  print_lines : list string -> list string -> X -> X;
  w_wait : Z -> M X string (option Z)
}.

(** ** The ASKPASS helper *)

Definition CDP_PIPE_FD_ENV : string := "CDP_PIPE_FD".

Section Askpass.
Context {X : Type} `{WrapOs X}.

Definition deliver_err (what : string) (e : string) : WrapError := WCredentialDelivery (what +:+ ": " +:+ e).

Definition last_is_newline (l : list byte) : bool := bool_decide (last l = Some Byte.x0a).

Definition run_askpass : M X WrapError unit :=
  _ ← map_errM (deliver_err "disable_core_dumps") disable_core_dumps;
  fd_str ← (fun x => (x, ok_or (w_env_var CDP_PIPE_FD_ENV x)
    (WCredentialDelivery ("ASKPASS helper: " +:+ CDP_PIPE_FD_ENV +:+ " environment variable not set"))));
  fd ← lift (ok_or (parse_i32 fd_str)
    (WCredentialDelivery ("ASKPASS helper: " +:+ CDP_PIPE_FD_ENV +:+ " is not a valid integer: " +:+ fd_str)));
  if fd <? 0 then
    fail (WCredentialDelivery ("ASKPASS helper: " +:+ CDP_PIPE_FD_ENV +:+ " is negative: " +:+ display_Z fd))
  else
    credential ← map_errM (deliver_err ("read from pipe fd " +:+ display_Z fd)) (read_fd_to_end fd);
    match credential with
    | [] => fail (WCredentialDelivery "ASKPASS helper: received empty credential")
    | _ =>
        _ ← map_errM (deliver_err "write credential to stdout") (write_stdout credential);
        _ ← (if negb (last_is_newline credential)
             then map_errM (deliver_err "write newline to stdout") (write_stdout [Byte.x0a])
             else mret tt);
        map_errM (deliver_err "flush stdout") flush_stdout
    end.

Definition is_askpass_mode (argv0 : string) (args : list string) : bool :=
  let name := base_name argv0 in
  if str_contains name "cdp-askpass" || str_contains name "askpass" then true
  else match args with a :: _ => bool_decide (a = "--askpass") | [] => false end.

(** ** Isolation *)

Definition INHERITED : list string := ["PATH"; "HOME"; "USER"; "LOGNAME"; "TERM"; "LANG"; "LC_ALL"].

(** [env_clear], then the given variables, then the inherited ones. *)
Definition child_env (env : gmap string string) (x : X) : gmap string string :=
  fold_left (fun acc var => match w_env_var var x with Some v => <[var := v]> acc | None => acc end)
    INHERITED env.

Definition spawn_isolated (command : string) (args : list string) (env : gmap string string) (pipe_fd : option Z)
    : M X WrapError Z :=
  cmd ← gets (fun x => mkWrapCommand command args (child_env env x) true pipe_fd);
  map_errM (fun e => WChild ("spawn " +:+ command +:+ ": " +:+ e)) (w_spawn cmd).

(** A failed [prctl] is only logged. *)
Definition harden_current_process : M X WrapError unit :=
  _ ← modify (fun x => (prctl_dumpable_off x).1);
  map_errM (fun e => WNamespace ("setrlimit RLIMIT_CORE: " +:+ e)) w_setrlimit_core_zero.
End Askpass.

(** A [CString] holds no NUL byte. *)
Definition to_cstring (s : string) : result (list byte) WrapError :=
  match list_find (fun b => b = Byte.x00) (as_bytes s) with
  | Some (i, _) => Err (WNamespace ("invalid command string: nul byte found in provided data at position: " +:+
                                    display_Z (Z.of_nat i)))
  | None => Ok (as_bytes s)
  end.

(** ** The gate client *)

Record LeaseInfo : Type := mkLeaseInfo {
  li_proxy_port : Z; li_lease_token : string; li_channel_binding_nonce : string; li_ttl_seconds : Z
}.

Record WrapFingerprint : Type := mkWrapFingerprint { wf_socket_path : string; wf_version : option string }.

Record WRegisterParams : Type := mkWRegisterParams {
  wr_agent_id : string; wr_agent_version : string; wr_capabilities : list string;
  wr_nonce : string; wr_timestamp : string
}.

Record WCredentialParams : Type := mkWCredentialParams {
  wp_session_token : string; wp_credential_ref : string;
  wp_hosts : list string; wp_methods : list string; wp_paths : list string;
  wp_reason : string; wp_nonce : string; wp_timestamp : string
}.

Inductive WParams : Type := WRegister (p : WRegisterParams) | WCredential (p : WCredentialParams).

(** [JsonRpcRequest]: version, method, params and id. *)
Record WRequest : Type := mkWRequest { wq_method : string; wq_params : WParams; wq_id : Z }.

Class WrapCodec : Type := {
  fingerprint_of_str : string -> WrapFingerprint + string;
  wrequest_to_vec : WRequest -> list byte + string;
  wresponse_from_str : string -> SdkResponse + string
}.

(** The socket of the client: connecting and setting its timeouts. *)
Class WrapNet (X C : Type) : Type := {
  unix_connect : string -> M X string C;
  set_read_timeout : Z -> C -> option string;
  set_write_timeout : Z -> C -> option string;
  clone_stream : C -> option string
}.

Definition CARGO_PKG_VERSION : string := "0.1.0".

(** [v.as_u64()] *)
Definition as_u64_json (v : Json) : option Z := match v with JNumber (PosInt n) => Some n | _ => None end.

Section GateClient.
Context {X C : Type} `{WrapOs X} `{WrapNet X C} `{LineIo C} `{WrapCodec}.

Definition wrap_default_path (x : X) : result string WrapError :=
  let! home := ok_or (w_env_var "HOME" x) (WConfig "HOME environment variable not set") in
  Ok (path_join home ".config/cdp/gate.fingerprint").

Definition wrap_fingerprint_load : M X WrapError WrapFingerprint :=
  path ← (fun x => (x, wrap_default_path x));
  contents ← map_errM (fun e => WConfig ("cannot read gate fingerprint at " +:+ to_string_lossy path +:+ ": " +:+ e))
               (w_read_to_string path);
  lift (wrap_err (fun e => WConfig ("malformed gate fingerprint: " +:+ e)) (fingerprint_of_str contents)).

Record GateClient : Type := mkGateClient { gc_stream : C; gc_session_token : option string }.

Definition opt_fail {E : Type} (f : string -> WrapError) (o : option string) : M E WrapError unit :=
  match o with Some e => fail (f e) | None => mret tt end.

Definition gate_connect (socket_path : string) : M X WrapError GateClient :=
  c ← map_errM (fun e => WGate ("cannot connect to Gate at " +:+ socket_path +:+ ": " +:+ e)) (unix_connect socket_path);
  _ ← opt_fail (fun e => WGate ("set_read_timeout: " +:+ e)) (set_read_timeout 30 c);
  _ ← opt_fail (fun e => WGate ("set_write_timeout: " +:+ e)) (set_write_timeout 30 c);
  _ ← opt_fail (fun e => WGate ("clone stream: " +:+ e)) (clone_stream c);
  mret (mkGateClient c None).

Definition on_stream {A : Type} (m : M C WrapError A) : M GateClient WrapError A :=
  zoom gc_stream (fun c g => mkGateClient c (gc_session_token g)) m.

Definition send_request (request : WRequest) : M GateClient WrapError Json :=
  payload ← lift (wrap_err WJson (wrequest_to_vec request));
  _ ← on_stream (map_errM (fun e => WGate ("write request: " +:+ e)) (write_line_bytes (payload ++ [Byte.x0a])));
  line ← on_stream (map_errM (fun e => WGate ("read response: " +:+ e)) read_line);
  if bool_decide (line = EmptyString) then fail (WGate "Gate closed connection unexpectedly")
  else
    rpc ← lift (wrap_err (fun e => WGate ("deserialize response: " +:+ e)) (wresponse_from_str (trim line)));
    match sp_error rpc with
    | Some (code, message) =>
        fail (WGate ("Gate returned error " +:+ display_Z code +:+ ": " +:+ message))
    | None => lift (ok_or (sp_result rpc) (WGate "Gate response missing both result and error"))
    end.

(** [nonce] and [timestamp] are drawn per request. *)
Definition gate_register (nonce timestamp : string) : M GateClient WrapError unit :=
  response ← send_request (mkWRequest "cdp.register"
    (WRegister (mkWRegisterParams "cdp-wrap" CARGO_PKG_VERSION ["cli"] nonce timestamp)) 1);
  token ← lift (ok_or (json_get response "session_token" ≫= as_str)
                  (WGate "register: missing session_token in response"));
  modify (fun g => mkGateClient (gc_stream g) (Some token)).

Definition request_credential (credential_ref command nonce timestamp : string) : M GateClient WrapError LeaseInfo :=
  g ← get;
  token ← lift (ok_or (gc_session_token g) (WGate "must call register() before request_credential()"));
  response ← send_request (mkWRequest "cdp.requestCredential"
    (WCredential (mkWCredentialParams token credential_ref [] [] []
       ("CLI wrapper for " +:+ command) nonce timestamp)) 2);
  port ← lift (ok_or (json_get response "proxy_port" ≫= as_u64_json) (WGate "missing proxy_port in response"));
  lease_token ← lift (ok_or (json_get response "lease_token" ≫= as_str) (WGate "missing lease_token in response"));
  binding ← lift (ok_or (json_get response "channel_binding_nonce" ≫= as_str)
                    (WGate "missing channel_binding_nonce in response"));
  mret (mkLeaseInfo (port mod U16) lease_token binding
          (unwrap_or (json_get response "ttl_seconds" ≫= as_u64_json) 3600)).
End GateClient.
Arguments GateClient : clear implicits.
Arguments mkGateClient {C}.

(** ** Running the command *)

Definition build_proxy_command (command : string) (args : list string) (method : InjectionMethod) (lease : LeaseInfo)
    : string * list string * gmap string string :=
  let proxy_url := "http://127.0.0.1:" +:+ display_Z (li_proxy_port lease) in
  match method with
  | CurlPipe =>
      (command,
       ["--proxy"; proxy_url; "-H"; "X-CDP-Lease-Token: " +:+ li_lease_token lease; "-H";
        "X-CDP-Channel-Binding: " +:+ li_channel_binding_nonce lease] ++ args, ∅)
  | GitAskpass =>
      (command, args,
       <["GIT_TERMINAL_PROMPT" := "0"]> (<["https_proxy" := proxy_url]> (<["http_proxy" := proxy_url]> ∅)))
  | SshAskpass => (command, args, <["DISPLAY" := ":0"]> ∅)
  | GenericAskpass => (command, args, <["https_proxy" := proxy_url]> (<["http_proxy" := proxy_url]> ∅))
  end.

Section Run.
Context {X C : Type} `{WrapOs X} `{RegexCrate} `{!RegexReplace}.

Record CommandExecutor : Type := mkCommandExecutor { self_path : string }.

(** The default patterns are compiled once, for the error. *)
Definition executor_new (path : string) : result CommandExecutor WrapError :=
  let! _ := sanitizer_new in Ok (mkCommandExecutor path).

(** Only a line is logged. *)
Definition install_signal_forwarding (ex : CommandExecutor) (child_pid : Z) (x : X) : X := x.

(** [CommandExecutor::run]; the two threads have ended when it returns. *)
Definition run (ex : CommandExecutor) (command : string) (args : list string) (method : InjectionMethod)
    (lease : LeaseInfo) : M X WrapError Z :=
  _ ← harden_current_process;
  let '(final_command, final_args, env) := build_proxy_command command args method lease in
  cmd ← gets (fun x => mkWrapCommand final_command final_args (child_env env x) false None);
  child ← map_errM (fun e => WChild ("spawn " +:+ final_command +:+ ": " +:+ e)) (w_spawn cmd);
  _ ← modify (install_signal_forwarding ex child);
  san_out ← lift sanitizer_new;
  san_err ← lift sanitizer_new;
  out ← gets (child_stdout_lines child);
  err ← gets (child_stderr_lines child);
  status ← map_errM (fun e => WChild ("wait: " +:+ e)) (w_wait child);
  _ ← modify (print_lines (map (sanitize_line san_out) out) (map (sanitize_line san_err) err));
  (* a child killed by a signal has no code and did not succeed *)
  mret (unwrap_or status 1).

Record WrapArgs : Type := mkWrapArgs { wa_command : string; wa_args : list string; wa_credential_ref : string }.

(** [inr code] is [process::exit]. *)
Definition parse_args (all_args : list string) : result (WrapArgs + Z) WrapError :=
  match tail all_args with
  | [] => Ok (inr 2)
  | first :: more =>
      let! '(cref, iter) :=
        (if bool_decide (first = "--credential-ref") then
           match more with
           | [] => Err (WConfig "--credential-ref requires a value")
           | r :: rest => Ok (r, rest)
           end
         else Ok (EmptyString, first :: more)) in
      match iter with
      | [] => Err (WConfig "command is required")
      | command :: args =>
          let cref := if bool_decide (cref = EmptyString) then "cli/" +:+ base_name command else cref in
          Ok (inl (mkWrapArgs command args cref))
      end
  end.

Context `{!WrapNet X C} `{!LineIo C} `{!WrapCodec}.

(** The random ids and timestamps of the two requests. *)
Record WrapDraws : Type := mkWrapDraws { wd_nonce1 : string; wd_ts1 : string; wd_nonce2 : string; wd_ts2 : string }.

(** The two calls on the client, which lives as long as [run_wrap]. *)
Definition obtain_lease (a : WrapArgs) (d : WrapDraws) : M (GateClient C) WrapError LeaseInfo :=
  _ ← gate_register (wd_nonce1 d) (wd_ts1 d);
  request_credential (wa_credential_ref a) (wa_command a) (wd_nonce2 d) (wd_ts2 d).

(** [run_wrap]: the exit code. *)
Definition run_wrap (all_args : list string) (d : WrapDraws) : M X WrapError Z :=
  parsed ← lift (parse_args all_args);
  match parsed with
  | inr code => mret code
  | inl a =>
      let method := from_command (wa_command a) in
      fp ← wrap_fingerprint_load;
      g ← gate_connect (wf_socket_path fp);
      lease ← lift (obtain_lease a d g).2;
      path ← gets (fun x => match w_current_exe x with
                            | inl p => to_string_lossy p
                            | inr _ => unwrap_or (head all_args) "cdp-wrap"
                            end);
      ex ← lift (executor_new path);
      run ex (wa_command a) (wa_args a) method lease
  end.

(** [main]: the exit code of the process. *)
Definition wrap_main (all_args : list string) (d : WrapDraws) (x : X) : X * Z :=
  let argv0 := unwrap_or (head all_args) "cdp-wrap" in
  if is_askpass_mode argv0 (tail all_args) then
    match run_askpass x with
    | (x, Ok _) => (x, 0)
    | (x, Err _) => (x, 1)
    | (x, Panic) => (x, 101)
    end
  else
    match run_wrap all_args d x with
    | (x, Ok code) => (x, code)
    | (x, Err _) => (x, 1)
    | (x, Panic) => (x, 101)
    end.
End Run.

(** ** Lemmas *)

Lemma inherit_lookup (parent : string -> option string) (vars : list string) (env : gmap string string) (k : string) :
  NoDup vars ->
  fold_left (fun acc var => match parent var with Some v => <[var := v]> acc | None => acc end) vars env !! k =
  if contains vars k then opt_or (parent k) (env !! k) else env !! k.
Proof.
  revert env. induction vars as [|var vars IH]; intros env Hnd; [done|]. cbn [fold_left].
  apply NoDup_cons in Hnd as [Hni Hnd]. rewrite IH by done. unfold contains.
  destruct (decide (k = var)) as [->|Hne].
  - rewrite (bool_decide_eq_false_2 (var ∈ vars)) by done.
    rewrite bool_decide_eq_true_2 by constructor. destruct (parent var); simpl; [apply lookup_insert_eq|done].
  - rewrite (bool_decide_ext (k ∈ vars) (k ∈ var :: vars)) by (rewrite elem_of_cons; naive_solver).
    destruct (parent var); [rewrite lookup_insert_ne by done|]; done.
Qed.

Lemma inherited_nodup : NoDup INHERITED.
Proof. apply (bool_decide_unpack _). by vm_compute. Qed.

(** The variables a method sets. *)
Definition METHOD_VARS : list string := ["http_proxy"; "https_proxy"; "GIT_TERMINAL_PROMPT"; "DISPLAY"].

Lemma method_env_vars command args method lease k v :
  (build_proxy_command command args method lease).2 !! k = Some v ->
  k ∈ METHOD_VARS /\
  (v = "http://127.0.0.1:" +:+ display_Z (li_proxy_port lease) \/ v = "0" \/ v = ":0").
Proof.
  unfold METHOD_VARS. destruct method; cbn [build_proxy_command snd]; intros Hl;
    repeat (apply lookup_insert_Some in Hl as [[<- <-]|[_ Hl]]; [split; [set_solver|auto]|]);
    by rewrite lookup_empty in Hl.
Qed.

(** ** Properties *)

(** The child's environment is built from nothing: of the caller's variables
    it has exactly the seven system ones, with the caller's values, and
    besides them only the proxy settings of its injection method; no secret
    of the caller's environment and neither the lease token nor the channel
    binding is a variable of the child. *)
Theorem child_environment_confined {X : Type} `{WrapOs X} (x : X) (command : string) (args : list string)
    (method : InjectionMethod) (lease : LeaseInfo) (k v : string) :
  child_env (build_proxy_command command args method lease).2 x !! k = Some v ->
  (k ∈ INHERITED /\ w_env_var k x = Some v) \/
  (k ∈ METHOD_VARS /\ (v = "http://127.0.0.1:" +:+ display_Z (li_proxy_port lease) \/ v = "0" \/ v = ":0")).
Proof.
  unfold child_env. rewrite (inherit_lookup (fun var => w_env_var var x)) by apply inherited_nodup.
  destruct (contains INHERITED k) eqn:Ec; [|intros Hm; right; by eapply method_env_vars].
  apply contains_spec in Ec. destruct (w_env_var k x) as [w|] eqn:Ew; simpl; intros Hm.
  - left. by injection Hm as ->.
  - right. by eapply method_env_vars.
Qed.

(** For curl the token and the binding are arguments of the command. *)
Theorem curl_arguments_carry_token command args lease :
  "X-CDP-Lease-Token: " +:+ li_lease_token lease ∈ (build_proxy_command command args CurlPipe lease).1.2 /\
  "X-CDP-Channel-Binding: " +:+ li_channel_binding_nonce lease ∈ (build_proxy_command command args CurlPipe lease).1.2.
Proof. cbn [build_proxy_command fst snd app]. set_solver. Qed.

(** For every other command they are not passed on at all: two leases on the
    same port give the same command. *)
Theorem other_commands_lack_token command args method l1 l2 :
  method <> CurlPipe -> li_proxy_port l1 = li_proxy_port l2 ->
  build_proxy_command command args method l1 = build_proxy_command command args method l2.
Proof. intros Hm Hp. destruct method; [..|by destruct Hm|]; cbn [build_proxy_command]; by rewrite ?Hp. Qed.

(** Line endings are not preserved. *)
Theorem sanitize_buffer_drops_line_ends `{RegexCrate} `{!RegexReplace} :
  sanitize_buffer [] ("a" +:+ String carriage_return (String newline ("b" +:+ String newline EmptyString))) =
  "a" +:+ String newline "b".
Proof. by vm_compute. Qed.

(** ** A shell to evaluate *)

#[local] Instance demo_wrap_os : WrapOs (gmap string string) := {|
  w_env_var := fun k x => x !! k;
  w_current_exe := fun _ => inl "/usr/bin/cdp-wrap";
  w_read_to_string := fun _ => fail "No such file or directory";
  disable_core_dumps := mret tt;
  prctl_dumpable_off := fun x => (x, 0);
  w_setrlimit_core_zero := mret tt;
  read_fd_to_end := fun _ => mret (as_bytes "secret");
  write_stdout := fun _ => mret tt;
  flush_stdout := mret tt;
  w_spawn := fun _ => mret 100;
  child_stdout_lines := fun _ _ => [];
  child_stderr_lines := fun _ _ => [];
  print_lines := fun _ _ x => x;
  w_wait := fun _ => mret (Some 0)
|}.

Lemma child_environment_confined_witness :
  let x : gmap string string := {["HOME" := "/home/me"; "AWS_SECRET_ACCESS_KEY" := "s3cret"]} in
  let env := child_env (build_proxy_command "git" ["push"] GitAskpass (mkLeaseInfo 19000 "t" "b" 60)).2 x in
  env !! "AWS_SECRET_ACCESS_KEY" = None /\ env !! "HOME" = Some "/home/me".
Proof.
  intros x env. split; [|by vm_compute].
  destruct (env !! "AWS_SECRET_ACCESS_KEY") as [v|] eqn:Ev; [|done]. exfalso.
  destruct (child_environment_confined x "git" ["push"] GitAskpass (mkLeaseInfo 19000 "t" "b" 60) _ _ Ev)
    as [[Hi _]|[Hi _]]; revert Hi; apply (bool_decide_unpack (¬ _)); by vm_compute.
Defined.
