(* ===== verification/GateFiles.v ===== *)
(** * cdp-gate: the fingerprint file and the gate's socket

    [cdp-gate/src/fingerprint.rs] and [listener.rs] on a Unix host, and the
    agent's discovery of what the gate wrote.  Ed25519 and serde are the
    fields of [IdentityCrates]; the 32 key bytes drawn are an argument. *)

From S2P Require Import Prelude StateM RustStr AuditLog UnixHost GateAgent GateConfig.
From S2P Require Import VaultProtocol.
From S2P Require Sdk.

#[local] Arguments String.append !_ _ /.

(** ** The fingerprint file *)

Record GateIdentity : Type := mkGateIdentity { signing_key : list byte; gi_fingerprint_path : string }.

Record GateFingerprintFile : Type := mkGateFingerprintFile {
  ff_gate_pid : Z; ff_gate_binary_hash : string; ff_public_key : string; ff_socket_path : string;
  ff_started_at : string
}.

#[export] Instance GateFingerprintFile_eq_dec : EqDecision GateFingerprintFile.
Proof. solve_decision. Defined.

Class IdentityCrates : Type := {
  verifying_key : list byte -> list byte;
  to_rfc3339 : Z -> string;
  fp_to_string_pretty : GateFingerprintFile -> string + string
}.

Section Identity.
Context `{AgentOs} `{Sha256} `{FmtAddr : ProxyAuth.FmtAddr} `{IdentityCrates} `{Base64Std}.

(** [e.to_string()] of the inner error, as [map_err] embeds it. *)
Definition fp_err {A : Type} (what : string) (m : M Host IoErr A) : M Host GateError A :=
  map_errM (fun e => GateFingerprint (what +:+ display_io e)) m.

Definition fingerprint_file (key_bytes : list byte) (socket_path : string) (gate_hash : list byte) (h : Host)
    : GateFingerprintFile :=
  mkGateFingerprintFile (h_pid h) ("sha256:" +:+ bytes_to_hex gate_hash) (std_encode (verifying_key key_bytes))
    socket_path (to_rfc3339 (h_now h)).

(** Reading the gate's own binary: the link and the hash. *)
Definition own_hash (h : Host) : result (list byte) GateError :=
  match h_self_exe h with
  | inr e => Err (GateFingerprint ("failed to read /proc/self/exe: " +:+ e))
  | inl exe =>
      map_err (fun e => GateFingerprint ("failed to hash gate binary: " +:+ display_gate_error e)) (hash_binary exe)
  end.

(** The parent directory exists and is private. *)
Definition private_parent (path : string) : M Host GateError unit := fun h =>
  match path_parent path with
  | None => (h, Ok tt)
  | Some parent =>
      (_ ← (if negb (fs_exists parent h) then fp_err "failed to create dir: " (fs_create_dir_all parent)
            else mret tt);
       fp_err "failed to set dir permissions: " (fs_chmod parent 448 (* 0o700 *))) h
  end.

(** [GateIdentity::create] *)
Definition identity_create (key_bytes : list byte) (fingerprint_path socket_path : string)
    : M Host GateError GateIdentity := fun h =>
  (gate_hash ← lift (own_hash h);
   let fp := fingerprint_file key_bytes socket_path gate_hash h in
   _ ← private_parent fingerprint_path;
   json ← lift (match fp_to_string_pretty fp with
                | inl s => Ok s
                | inr e => Err (GateFingerprint ("failed to serialize fingerprint: " +:+ e))
                end);
   _ ← fp_err "failed to write fingerprint file: " (fs_write fingerprint_path (as_bytes json));
   _ ← fp_err "failed to set file permissions: " (fs_chmod fingerprint_path 256 (* 0o400 *));
   mret (mkGateIdentity key_bytes fingerprint_path)) h.

(** [GateIdentity::cleanup] *)
Definition cleanup (id : GateIdentity) : M Host GateError unit := fun h =>
  match fs_remove_file (gi_fingerprint_path id) h with
  | (h', Ok _) => (h', Ok tt)
  | (h', Err ENOENT) => (h', Ok tt)
  | (h', Err e) => (h', Err (GateFingerprint ("failed to remove fingerprint file: " +:+ display_io e)))
  | (h', Panic) => (h', Panic)
  end.
End Identity.

(** ** The socket *)

Record Listener : Type := mkListener { l_socket_path : string }.

Definition lis_err {A : Type} (what : string) (m : M Host IoErr A) : M Host GateError A :=
  map_errM (fun e => GateListener (what +:+ display_io e)) m.

(** [GateListener::bind] *)
Definition bind (socket_path : string) : M Host GateError Listener :=
  _ ← (fun h => match fs_remove_file socket_path h with
                | (h', Err ENOENT) => (h', Ok tt)
                | (h', Err e) => (h', Err (GateListener ("failed to remove stale socket: " +:+ display_io e)))
                | (h', Ok _) => (h', Ok tt)
                | (h', Panic) => (h', Panic)
                end);
  _ ← (fun h => match path_parent socket_path with
                | Some parent =>
                    if fs_exists parent h then (h, Ok tt)
                    else (_ ← lis_err "failed to create socket directory: " (fs_create_dir_all parent);
                          lis_err "failed to set directory permissions: " (fs_chmod parent 448)) h
                | None => (h, Ok tt)
                end);
  _ ← lis_err ("failed to bind socket at " +:+ to_string_lossy socket_path +:+ ": ") (fs_bind socket_path);
  _ ← lis_err "failed to set socket permissions: " (fs_chmod socket_path 384 (* 0o600 *));
  mret (mkListener socket_path).

(** [Drop for GateListener] *)
Definition drop_listener (l : Listener) (h : Host) : Host := (fs_remove_file (l_socket_path l) h).1.

(** [SO_PEERCRED]: the kernel's signed pid with uid and gid. *)
Definition extract_peer_info (creds : (Z * Z * Z) + string) : result PeerInfo GateError :=
  match creds with
  | inr e => Err (Syscall ("getsockopt(SO_PEERCRED) failed: " +:+ e))
  | inl (pid, uid, gid) =>
      if pid <? 0 then Err (Syscall ("SO_PEERCRED returned negative PID: " +:+ display_Z pid))
      else Ok (mkPeerInfo pid uid gid)
  end.

(** [accept]: [S] is the accepted stream with what [getsockopt] says of it. *)
Definition accept {S : Type} (next : (S * ((Z * Z * Z) + string)) + string) : result (S * PeerInfo) GateError :=
  match next with
  | inr e => Err (GateListener ("accept failed: " +:+ e))
  | inl (stream, creds) => let! peer := extract_peer_info creds in Ok (stream, peer)
  end.

(** ** Lemmas *)

Section FileLemmas.
Context `{AgentOs} `{Sha256} `{FmtAddr : ProxyAuth.FmtAddr} `{IdentityCrates} `{Base64Std}.

Lemma fp_err_fst {A : Type} what (m : M Host IoErr A) h : (fp_err what m h).1 = (m h).1.
Proof. unfold fp_err, map_errM. by destruct (m h). Qed.

Lemma touches_keeps {A : Type} p (m : M Host IoErr A) h q n :
  touches (eq p) m -> p <> q -> h_fs h !! q = Some n -> h_fs (m h).1 !! q = Some n.
Proof. intros Ht Hne Hq. destruct (Ht h) as [_ Ho]. by rewrite Ho. Qed.

(** Every call of the gate on files keeps the rest of the host. *)
Lemma private_parent_world p h : same_world h (private_parent p h).1.
Proof.
  unfold private_parent. destruct (path_parent p) as [d|]; [|done]. rewrite bind_eq.
  destruct (negb _).
  - pose proof (create_dir_all_grows d h) as [Hw _]. rewrite <- (fp_err_fst "failed to create dir: ") in Hw.
    destruct (fp_err _ (fs_create_dir_all d) h) as [h1 [[]|e|]]; [|done..].
    etrans; [exact Hw|]. rewrite fp_err_fst. apply fs_chmod_touches.
  - cbn. rewrite fp_err_fst. apply fs_chmod_touches.
Qed.

(** What is there stays, but for the directory's own permissions. *)
Lemma private_parent_keeps p h q n :
  path_parent p <> Some q -> h_fs h !! q = Some n -> h_fs (private_parent p h).1 !! q = Some n.
Proof.
  unfold private_parent. destruct (path_parent p) as [d|]; [|done]. intros Hne Hq. rewrite bind_eq.
  assert (d <> q) as Hdq by congruence. destruct (negb _).
  - pose proof (grows_keeps _ _ _ _ (create_dir_all_grows d h) Hq) as Hk.
    rewrite <- (fp_err_fst "failed to create dir: ") in Hk.
    destruct (fp_err _ (fs_create_dir_all d) h) as [h1 [[]|e|]]; [|done..].
    rewrite fp_err_fst. by apply (touches_keeps d); [apply fs_chmod_touches| |].
  - cbn. rewrite fp_err_fst. by apply (touches_keeps d); [apply fs_chmod_touches| |].
Qed.

(** The parent's new mode; where there was nothing, a directory at most. *)
Lemma private_parent_ok p d h h' : path_parent p = Some d -> private_parent p h = (h', Ok tt) ->
  (exists n, h_fs h' !! d = Some n /\ node_mode n = 448) /\
  forall q, q <> d -> h_fs h !! q = None -> h_fs h' !! q = None \/ exists m, h_fs h' !! q = Some (Directory m).
Proof.
  intros Hp. unfold private_parent. rewrite Hp. intros Hpp.
  apply bind_ok in Hpp as (h1 & [] & Hc & Hm%map_errM_ok).
  assert (grows h h1) as [_ Hg].
  { destruct (negb _); [|injection Hc as <-; done]. apply map_errM_ok in Hc.
    pose proof (create_dir_all_grows d h) as Hg. by rewrite Hc in Hg. }
  unfold fs_chmod in Hm. destruct (h_fs h1 !! d) as [n|] eqn:Ed; [|done]. injection Hm as <-. split.
  - exists (set_mode 448 n). simpl. rewrite lookup_insert_eq. split; [done|]. by destruct n.
  - intros q Hqd Hq. simpl. rewrite lookup_insert_ne by done.
    destruct (Hg q) as [->|[_ ->]]; [by left|right; eauto].
Qed.

Lemma private_parent_there p d h n : path_parent p = Some d -> h_fs h !! d = Some n ->
  private_parent p h = (put d (set_mode 448 n) h, Ok tt).
Proof.
  intros Hp Hd. assert (fs_exists d h = true) as He by (apply bool_decide_eq_true_2; by exists n).
  unfold private_parent. rewrite Hp, He, bind_eq. cbn [negb mret M_ret].
  unfold fp_err, map_errM, fs_chmod. by rewrite Hd.
Qed.

Lemma private_parent_errors p h : match (private_parent p h).2 with Ok _ | Err (GateFingerprint _) => True | _ => False end.
Proof.
  unfold private_parent. destruct (path_parent p) as [d|]; [|done]. rewrite bind_eq.
  assert (forall h1, match (fp_err "failed to set dir permissions: " (fs_chmod d 448) h1).2 with
                     | Ok _ | Err (GateFingerprint _) => True | _ => False end) as Hm.
  { intros h1. unfold fp_err, map_errM, fs_chmod. by destruct (h_fs h1 !! d). }
  assert (forall fuel q h1, (create_tree fuel q h1).2 <> Panic) as Hn.
  { assert (forall q h1, (mkdir_or_there q h1).2 <> Panic) as Hk.
    { intros q h1. unfold mkdir_or_there, mkdir, check_dir.
      repeat case_match; simplify_eq; simpl; done. }
    induction fuel as [|fuel IH]; intros q h1; simpl; [done|]. destruct (bool_decide _); [done|].
    pose proof (Hk q h1). destruct (mkdir_or_there q h1) as [h2 [[]|[]|]]; try done.
    destruct (path_parent q) as [d'|]; [|done]. rewrite bind_eq. specialize (IH d' h2).
    destruct (create_tree fuel d' h2) as [h3 [[]|e|]]; simpl in *; [apply Hk|done..]. }
  destruct (negb _); [|apply Hm].
  unfold fp_err at 1, map_errM at 1. specialize (Hn (S (String.length d)) d h).
  unfold fs_create_dir_all. destruct (create_tree _ d h) as [h1 [[]|e|]]; simpl in *; [apply Hm|done..].
Qed.

(** The steps of a successful creation. *)
Lemma identity_create_ok key p sock h h' id : identity_create key p sock h = (h', Ok id) ->
  exists hash json h1 h2, own_hash h = Ok hash /\
    fp_to_string_pretty (fingerprint_file key sock hash h) = inl json /\
    private_parent p h = (h1, Ok tt) /\ fs_write p (as_bytes json) h1 = (h2, Ok tt) /\
    h' = put p (File 256 (as_bytes json)) h2 /\ h_fs h2 !! p <> None /\ id = mkGateIdentity key p.
Proof.
  unfold identity_create. intros Hc.
  apply bind_ok in Hc as (h0 & hash & [-> Hh]%lift_ok & Hc).
  apply bind_ok in Hc as (h1 & [] & Hp & Hc).
  apply bind_ok in Hc as (h1' & json & [-> Hj]%lift_ok & Hc).
  apply bind_ok in Hc as (h2 & [] & Hw%map_errM_ok & Hc).
  apply bind_ok in Hc as (h3 & [] & Hm%map_errM_ok & [= <- <-]).
  destruct (fp_to_string_pretty _) as [j|e] eqn:Ej; [|done]. injection Hj as ->.
  exists hash, json, h1, h2. split_and!; try done.
  - unfold fs_chmod in Hm. destruct (h_fs h2 !! p) as [n|] eqn:En; [|done]. injection Hm as <-.
    unfold fs_write, open_write in Hw. repeat case_match; simplify_eq; simpl in En; rewrite lookup_insert_eq in En;
      by injection En as <-.
  - unfold fs_chmod in Hm. by destruct (h_fs h2 !! p).
Qed.

Lemma own_hash_world h h' : same_world h h' -> own_hash h' = own_hash h.
Proof. intros (_&_&_&_&He&_). unfold own_hash. by rewrite He. Qed.

(** An unprivileged gate cannot write over the file of an earlier one. *)
Lemma identity_create_blocked key p sock h m d0 :
  h_privileged h = false -> Z.land m OWNER_WRITE = 0 -> h_fs h !! p = Some (File m d0) ->
  exists h' e, identity_create key p sock h = (h', Err (GateFingerprint e)) /\ h_fs h' !! p = Some (File m d0).
Proof.
  intros Hu Hm Hf. unfold identity_create. rewrite bind_eq. unfold lift at 1.
  destruct (own_hash h) as [hash|e|] eqn:Eh.
  2: { unfold own_hash, map_err in Eh. repeat case_match; simplify_eq; (do 2 eexists; by split). }
  2: { unfold own_hash, hash_binary, map_err in Eh. repeat case_match; simplify_eq. }
  rewrite bind_eq.
  assert (path_parent p <> Some p) as Hpp by (intros Hp; by apply path_parent_ne in Hp).
  pose proof (private_parent_keeps p h p _ Hpp Hf) as Hk.
  pose proof (private_parent_world p h) as (_ & Hu1 & _). pose proof (private_parent_errors p h) as He.
  destruct (private_parent p h) as [h1 [[]|e|]]; simpl in Hk, Hu1, He;
    [|destruct e; try done; (do 2 eexists; by split)|done].
  rewrite bind_eq. unfold lift. destruct (fp_to_string_pretty _) as [json|e]; [|(do 2 eexists; by split)].
  rewrite bind_eq. unfold fp_err at 1, map_errM at 1, fs_write, open_write, may. rewrite Hk, Hu1, Hu, Hm. (do 2 eexists; by split).
Qed.

(** Where the private directory is there and the file is not, creation
    succeeds. *)
Lemma identity_create_fresh key p sock d h hash json :
  path_parent p = Some d -> dir_of p = d -> h_privileged h = false ->
  h_fs h !! d = Some (Directory 448) -> h_fs h !! p = None -> own_hash h = Ok hash ->
  fp_to_string_pretty (fingerprint_file key sock hash h) = inl json ->
  exists h', identity_create key p sock h = (h', Ok (mkGateIdentity key p)).
Proof.
  intros Hp Hdir Hu Hd Hn Hh Hj. pose proof (path_parent_ne _ _ Hp) as Hdp.
  set (h1 := put d (Directory 448) h). set (bytes := as_bytes json).
  assert (fs_write p bytes h1 = (put p (File (created_mode h1 438) bytes) h1, Ok tt)) as Hw.
  { unfold fs_write, open_write, check_dir, may. unfold h1 at 1. cbn [put with_fs h_fs]. rewrite lookup_insert_ne by done.
    rewrite Hn, Hdir. unfold h1 at 1. cbn [put with_fs h_fs]. rewrite lookup_insert_eq.
    change (h_privileged h1) with (h_privileged h). by rewrite Hu. }
  set (h2 := put p (File (created_mode h1 438) bytes) h1) in Hw.
  assert (fs_chmod p 256 h2 = (put p (File 256 bytes) h2, Ok tt)) as Hm
    by (unfold fs_chmod, h2; cbn [put with_fs h_fs]; by rewrite lookup_insert_eq).
  eexists. unfold identity_create. rewrite Hh. run (eq_refl : lift (E:=GateError) (Ok hash) h = (h, Ok hash)).
  run (private_parent_there _ _ _ _ Hp Hd). rewrite Hj.
  rewrite (bind_run _ _ _ h1 json) by done.
  run (proj2 (map_errM_ok (fun e => GateFingerprint ("failed to write fingerprint file: " +:+ display_io e)) _ _ _ _) Hw).
  run (proj2 (map_errM_ok (fun e => GateFingerprint ("failed to set file permissions: " +:+ display_io e)) _ _ _ _) Hm).
  done.
Qed.
End FileLemmas.

(** ** Properties *)

Section Lifecycle.
Context `{AgentOs} `{Sha256} `{FmtAddr : ProxyAuth.FmtAddr} `{IdentityCrates} `{Base64Std}.

(** The fingerprint file over the gate's life, for a gate without privileges.
    A first start writes the identity into a file only the owner can read, in
    a directory only the owner can enter.  While that file is there no
    further start gets past it; [cleanup] removes it and the next start
    succeeds. *)
Theorem fingerprint_file_lifecycle (key : list byte) (p sock d : string) (h h1 : Host) (id : GateIdentity) :
  path_parent p = Some d -> d <> EmptyString -> h_fs h !! p = None -> h_privileged h = false ->
  identity_create key p sock h = (h1, Ok id) ->
  (exists hash json, own_hash h = Ok hash /\
     fp_to_string_pretty (fingerprint_file key sock hash h) = inl json /\
     h_fs h1 !! p = Some (File 256 (as_bytes json)) /\ h_fs h1 !! d = Some (Directory 448)) /\
  (forall key' sock', exists h2 e, identity_create key' p sock' h1 = (h2, Err (GateFingerprint e)) /\
     h_fs h2 !! p = h_fs h1 !! p) /\
  exists h2 h3, cleanup id h1 = (h2, Ok tt) /\ h_fs h2 !! p = None /\
    identity_create key p sock h2 = (h3, Ok id).
Proof.
  intros Hp Hd Hnew Hu Hc. pose proof (path_parent_ne _ _ Hp) as Hdp.
  apply identity_create_ok in Hc as (hash & json & ha & hb & Hh & Hj & Hpp & Hw & -> & Hb & ->).
  pose proof (private_parent_world p h) as Hwa. rewrite Hpp in Hwa. simpl in Hwa.
  destruct (private_parent_ok p d h ha Hp Hpp) as [(n & Hn & Hmode) Hrest].
  assert (dir_of p = d) as Hdir by (unfold dir_of; rewrite Hp; by destruct d).
  assert (h_fs ha !! p = None /\ n = Directory 448 /\ hb = put p (File (created_mode ha 438) (as_bytes json)) ha)
    as (Hnone & -> & ->).
  { unfold fs_write, open_write in Hw. destruct (Hrest p (not_eq_sym Hdp) Hnew) as [Hq|[m Hq]]; rewrite Hq in Hw; [|done].
    unfold check_dir in Hw. rewrite Hdir, Hn in Hw. split; [done|].
    destruct n as [| m |]; [done| |done]. simpl in Hmode. subst. split; [done|].
    destruct (_ && _); [|done]. by injection Hw as <-. }
  assert (h_privileged ha = false) as Hua by (destruct Hwa as (_ & -> & _); done).
  set (h1 := put p (File 256 (as_bytes json)) (put p (File (created_mode ha 438) (as_bytes json)) ha)).
  assert (h_fs h1 !! p = Some (File 256 (as_bytes json))) as Hf by (unfold h1; simpl; by rewrite lookup_insert_eq).
  assert (h_fs h1 !! d = Some (Directory 448)) as Hfd.
  { unfold h1. simpl. rewrite !lookup_insert_ne by congruence. done. }
  split; [|split].
  - by exists hash, json.
  - intros key' sock'. rewrite Hf. by apply identity_create_blocked.
  - assert (check_dir h1 p = Ok tt) as Hcd.
    { unfold check_dir, may. rewrite Hdir, Hfd. change (h_privileged h1) with (h_privileged ha). by rewrite Hua. }
    exists (with_fs h1 (delete p (h_fs h1))). unfold cleanup, fs_remove_file. cbn [gi_fingerprint_path].
    rewrite Hf, Hcd. set (h2 := with_fs h1 (delete p (h_fs h1))).
    assert (h_fs h2 !! p = None) as H2p by (unfold h2; simpl; by rewrite lookup_delete_eq).
    assert (h_fs h2 !! d = Some (Directory 448)) as H2d
      by (unfold h2; cbn [h_fs with_fs]; by rewrite lookup_delete_ne by congruence).
    assert (same_world h h2) as Hw2 by exact Hwa.
    destruct (identity_create_fresh key p sock d h2 hash json) as [h3 Hc]; try done.
    + by rewrite (own_hash_world _ _ Hw2).
    + destruct Hw2 as (_&_&_&E1&_&E2). unfold fingerprint_file in *. by rewrite E1, E2.
    + by exists h3.
Qed.
End Lifecycle.

(** ** Discovery by an agent on the same host *)

(** The agent's process sees the same environment and the same files. *)
Class SameHost {C : Type} `{Sdk.SdkOs Host C} : Prop := {
  sh_env : forall k h, Sdk.env_var k h = env_get k h;
  sh_read : forall p h, Sdk.sdk_read_to_string p h = map_errM display_io (fs_read_to_string p) h
}.

(** The two crates derive serde for the same five fields; JSON text is UTF-8. *)
Class FingerprintCodecLaws `{IdentityCrates} `{Sdk.SdkCodec} : Prop := {
  fp_roundtrip : forall f s, fp_to_string_pretty f = inl s ->
    Sdk.fingerprint_from_str s =
      inl (Sdk.mkGateFingerprint (ff_gate_pid f) (ff_gate_binary_hash f) (ff_public_key f) (ff_socket_path f)
             (ff_started_at f));
  fp_utf8 : forall f s, fp_to_string_pretty f = inl s -> to_string_lossy s = s
}.

Section Discovered.
Context `{AgentOs} `{Sha256} `{FmtAddr : ProxyAuth.FmtAddr} `{!IdentityCrates} `{!Base64Std}.
Context {C : Type} `{!Sdk.SdkOs Host C} `{!SameHost} `{!Sdk.SdkCodec} `{!FingerprintCodecLaws} `{!ConfigToml}.

(** The gate's default path, once expanded, is the one the SDK builds. *)
Lemma default_path_agrees h home : env_get "HOME" h = Some home -> env_get "XDG_CONFIG_HOME" h = None ->
  expand_field h "~/.config/cdp/gate.fingerprint" = Sdk.default_fingerprint_path h.
Proof.
  intros Hh Hx. unfold Sdk.default_fingerprint_path. rewrite !sh_env, Hx, Hh. cbn [unwrap_or].
  unfold expand_field. change "~/.config/cdp/gate.fingerprint" with ("~/" +:+ ".config/cdp/gate.fingerprint").
  rewrite (expand_tilde_home _ _ _ Hh).
  assert (to_string_lossy home = home) as Hu.
  { unfold env_get in Hh. destruct (h_env h !! "HOME") as [v|]; [|done]. simpl in Hh.
    destruct (bool_decide _) eqn:E; [|done]. apply bool_decide_eq_true in E. by injection Hh as <-. }
  assert (exists s, path_join home ".config" = s +:+ ".config" /\
            path_join home ".config/cdp/gate.fingerprint" = s +:+ ".config/cdp/gate.fingerprint" /\
            to_string_lossy s = s) as (s & E1 & E2 & Hs).
  { unfold path_join. rewrite !bool_decide_eq_false_2 by done.
    destruct (_ || _); [by exists home|]. exists (home +:+ "/"). rewrite !append_assoc. split_and!; try done.
    by apply to_string_lossy_app. }
  rewrite E1, E2, to_string_lossy_app by done.
  rewrite (path_join_name s ".config" "cdp"); [|by vm_compute; intuition discriminate|done|by do 2 eexists].
  rewrite <- append_assoc, <- (append_assoc _ "/" "cdp").
  rewrite (path_join_name _ "cdp" "gate.fingerprint"); [|by vm_compute; intuition discriminate|done|by do 2 eexists].
  by rewrite !append_assoc.
Qed.

(** An agent finds the gate it shares a host and home directory with: when
    the gate has started with its default configuration, [discover] returns
    the identity the gate wrote, with the socket it listens on, and a
    connection passes [verify_gate] exactly when the kernel reports the
    gate's own process at its other end. *)
Theorem fingerprint_is_discovered (key : list byte) (home : string) (c : GateConfig) (h h1 : Host)
    (id : GateIdentity) :
  env_get "HOME" h = Some home -> env_get "XDG_CONFIG_HOME" h = None -> env_get "CDP_GATE_SOCKET" h = None ->
  fs_exists (expand_tilde h "~/.config/cdp/gate.toml") h = false -> in_u U32 (h_pid h) -> h_pid h <> 0 ->
  load_config h = (h, Ok c) ->
  identity_create key (fingerprint_path (gate c)) (gs_socket_path (gate c)) h = (h1, Ok id) ->
  exists fp, Sdk.discover h1 = (h1, Ok fp) /\
    Sdk.socket_path fp = to_string_lossy (expand_tilde h (default_socket_path h)) /\
    Sdk.gate_pid fp = h_pid h /\ Sdk.public_key fp = std_encode (verifying_key key) /\
    forall stream x pid, Sdk.peer_cred_pid stream x = inl pid ->
      Sdk.verify_gate stream fp x = (x, Ok tt) <-> pid mod U32 = h_pid h.
Proof.
  intros Hh Hx Hs Hnone Hpid Hp0 Hl Hc.
  assert (c = expand_paths h (default_config h)) as ->.
  { unfold load_config in Hl. rewrite Hnone in Hl. by injection Hl as <-. }
  cbn [expand_paths gate fingerprint_path gs_socket_path default_config default_gate] in Hc.
  rewrite (default_path_agrees h home Hh Hx) in Hc.
  apply identity_create_ok in Hc as (hash & json & ha & hb & Hhash & Hj & Hpp & Hw & -> & _ & ->).
  set (p := Sdk.default_fingerprint_path h) in *. set (h1 := put p (File 256 (as_bytes json)) hb).
  assert (same_world h h1) as Hworld.
  { pose proof (private_parent_world p h) as W1. rewrite Hpp in W1.
    destruct (fs_write_touches p (as_bytes json) ha) as [W2 _]. rewrite Hw in W2. by etrans. }
  assert (forall k, env_get k h1 = env_get k h) as Henv by (intros k; unfold env_get; by destruct Hworld as [-> _]).
  assert (Sdk.default_fingerprint_path h1 = p) as Hpath
    by (unfold p, Sdk.default_fingerprint_path; by rewrite !sh_env, !Henv).
  assert (fs_read_to_string p h1 = (h1, Ok json)) as Hr.
  { unfold fs_read_to_string. rewrite bind_eq. unfold fs_read, h1 at 1. cbn [put with_fs h_fs].
    rewrite lookup_insert_eq. unfold may. rewrite orb_true_r. cbn -[h1].
    rewrite bool_decide_eq_true_2 by (apply to_string_lossy_id; by eapply fp_utf8). by rewrite of_as_bytes_id. }
  pose proof (fp_roundtrip _ _ Hj) as Hfp. eexists. split; [|split_and!].
  - unfold Sdk.discover. rewrite sh_env, Henv, Hs, Hpath. cbv zeta. rewrite bind_eq. unfold map_errM at 1.
    rewrite sh_read. unfold map_errM. rewrite Hr. cbn. unfold lift, Sdk.sdk_wrap. rewrite Hfp. done.
  - done.
  - done.
  - done.
  - intros stream x pid Hpc. unfold Sdk.verify_gate. cbn [Sdk.gate_pid fingerprint_file ff_gate_pid].
    rewrite (proj2 (Z.eqb_neq _ _) Hp0), Hpc. destruct (pid mod U32 =? h_pid h) eqn:E; simpl; split; try done.
    + intros _. by apply Z.eqb_eq.
    + intros Heq. by apply Z.eqb_neq in E.
Qed.
End Discovered.

(** ** The socket over restarts *)

(** Unlike the fingerprint file, a socket left by a crash does not stop the
    next start: it is removed, and the new one is open to the owner only. *)
Lemma bind_over_stale h p d m :
  path_parent p = Some d -> dir_of p = d -> h_fs h !! p = Some (Socket m) -> h_fs h !! d = Some (Directory 448) ->
  h_privileged h = false ->
  exists h', bind p h = (h', Ok (mkListener p)) /\ h_fs h' !! p = Some (Socket 384).
Proof.
  intros Hp Hdir Hs Hd Hu. pose proof (path_parent_ne _ _ Hp) as Hdp.
  assert (forall h', h_fs h' !! d = Some (Directory 448) -> h_privileged h' = false -> check_dir h' p = Ok tt) as Hcd.
  { intros h' Hd' Hu'. unfold check_dir, may. by rewrite Hdir, Hd', Hu'. }
  set (h1 := with_fs h (delete p (h_fs h))).
  assert (h_fs h1 !! d = Some (Directory 448)) as H1d by (cbn [h1 with_fs h_fs]; by rewrite lookup_delete_ne).
  assert (h_fs h1 !! p = None) as H1p by (cbn [h1 with_fs h_fs]; by rewrite lookup_delete_eq).
  assert (fs_exists d h1 = true) as He by (apply bool_decide_eq_true_2; by eexists).
  eexists. unfold bind. rewrite bind_eq. unfold fs_remove_file at 1. rewrite Hs, Hcd by done. fold h1.
  rewrite bind_eq, Hp, He, bind_eq. unfold lis_err, map_errM at 1, fs_bind. rewrite H1p, Hcd by done.
  cbn [map_err]. rewrite bind_eq. unfold map_errM, fs_chmod. cbn [put with_fs h_fs]. rewrite lookup_insert_eq.
  split; [done|]. cbn [put with_fs h_fs]. by rewrite lookup_insert_eq.
Qed.

(** ** A host to evaluate *)

Definition demo_host : Host :=
  mkHost {["HOME" := "/home/u"; "XDG_RUNTIME_DIR" := "/run/u"]}
    {["/" := Directory 493; "/home" := Directory 493; "/home/u" := Directory 448; "/run" := Directory 493;
      "/run/u" := Directory 448]}
    false 18 77 (inl "/usr/bin/cdp-gate") 5.

Definition gate_os : AgentOs :=
  {| sys_pidfd_open := fun _ => inl 3; fd_try_clone := fun fd => inl fd; os_read_link := fun _ => inr "none";
     os_read := fun _ => inl (as_bytes "ELF"); os_read_to_string := fun _ => inr "none" |}.

Definition plain_base64 : Base64Std :=
  {| std_encode := bytes_to_hex; std_decode := fun s => inr "unused" |}.

Definition demo_key32 : list byte := repeat Byte.x07 32.
Definition demo_fp_path : string := "/home/u/.config/cdp/gate.fingerprint".

#[local] Existing Instances gate_os id_sha ProxyAuth.plain_addr plain_base64.

Definition demo_file : GateFingerprintFile :=
  mkGateFingerprintFile 77 ("sha256:" +:+ bytes_to_hex (as_bytes "ELF")) (bytes_to_hex demo_key32)
    "/run/u/cdp/gate.sock" "5".

(** Writes and reads the one file of this example. *)
#[local] Instance one_file : IdentityCrates :=
  {| verifying_key := id; to_rfc3339 := display_Z;
     fp_to_string_pretty := fun f => if bool_decide (f = demo_file) then inl "{gate}" else inr "other" |}.
#[local] Instance one_sdk : Sdk.SdkCodec :=
  {| Sdk.request_to_string := fun _ => inr "unused"; Sdk.response_from_str := fun _ => inr "unused";
     Sdk.register_from_value := fun _ => inr "unused"; Sdk.credential_from_value := fun _ => inr "unused";
     Sdk.renewal_from_value := fun _ => inr "unused";
     Sdk.fingerprint_from_str := fun s =>
       if bool_decide (s = "{gate}") then
         inl (Sdk.mkGateFingerprint 77 (ff_gate_binary_hash demo_file) (ff_public_key demo_file)
                (ff_socket_path demo_file) "5")
       else inr "other" |}.
#[local] Instance one_laws : FingerprintCodecLaws.
Proof.
  split; intros f s; cbn [fp_to_string_pretty one_file]; destruct (bool_decide_reflect (f = demo_file)) as [->|];
    [intros [= <-]; by vm_compute|done|intros [= <-]; by vm_compute|done].
Qed.
#[local] Instance host_sdk : Sdk.SdkOs Host unit :=
  {| Sdk.env_var := env_get; Sdk.sdk_read_to_string := fun p => map_errM display_io (fs_read_to_string p);
     Sdk.connect_blocking := fun _ => mret 3; Sdk.peer_cred_pid := fun _ h => inl (h_pid h);
     Sdk.connect_async := fun _ => mret tt |}.
#[local] Instance host_same : SameHost (C:=unit).
Proof. by split. Qed.
#[local] Instance no_toml : ConfigToml := {| config_from_str := fun h _ => inl (default_config h) |}.

Definition demo_started : Host := (identity_create demo_key32 demo_fp_path "/run/u/cdp/gate.sock" demo_host).1.

Lemma fingerprint_file_lifecycle_witness :
  (exists h2 e, identity_create demo_key32 demo_fp_path "/run/u/cdp/gate.sock" demo_started =
     (h2, Err (GateFingerprint e))) /\
  exists h2 h3, cleanup (mkGateIdentity demo_key32 demo_fp_path) demo_started = (h2, Ok tt) /\
    identity_create demo_key32 demo_fp_path "/run/u/cdp/gate.sock" h2 =
      (h3, Ok (mkGateIdentity demo_key32 demo_fp_path)).
Proof.
  destruct (fingerprint_file_lifecycle demo_key32 demo_fp_path "/run/u/cdp/gate.sock" "/home/u/.config/cdp"
    demo_host demo_started (mkGateIdentity demo_key32 demo_fp_path)) as (_ & Hb & h2 & h3 & Hc & _ & Hr).
  - vm_compute. reflexivity.
  - done.
  - vm_compute. reflexivity.
  - reflexivity.
  - vm_compute. reflexivity.
  - split.
    + destruct (Hb demo_key32 "/run/u/cdp/gate.sock") as (h2' & e & He & _). exists h2', e. exact He.
    + exists h2, h3. split; [exact Hc|exact Hr].
Defined.

Lemma fingerprint_is_discovered_witness :
  exists fp, Sdk.discover demo_started = (demo_started, Ok fp) /\ Sdk.gate_pid fp = 77 /\
    Sdk.socket_path fp = "/run/u/cdp/gate.sock".
Proof.
  destruct (fingerprint_is_discovered (C:=unit) demo_key32 "/home/u" (expand_paths demo_host (default_config demo_host))
    demo_host demo_started (mkGateIdentity demo_key32 demo_fp_path)) as (fp & Hd & Hs & Hp & _).
  1-4: vm_compute; reflexivity.
  - by vm_compute.
  - done.
  - vm_compute. reflexivity.
  - vm_compute. reflexivity.
  - exists fp. split; [exact Hd|]. split; [exact Hp|]. rewrite Hs. vm_compute. reflexivity.
Defined.
