(* ===== verification/GateMain.v ===== *)
(** * cdp-gate: start-up, shutdown and the credential providers

    [cdp-gate/src/main.rs]: the choice between gate and vault worker, the
    order in which the gate's parts are built and torn down, and the
    providers that hand vault secrets to the proxy.  Processes, entropy,
    signals and address parsing are classes over the host. *)

From S2P Require Import Prelude StateM RustStr Crypto PolicyTypes PolicyParser PolicyEvaluator PolicyEngine AuditLog.
From S2P Require Import LeaseTypes LeaseManager ProxyScope ProxyAuth ProxyHttp ProxyManager UnixHost GateAgent.
From S2P Require Import GateConfig GateRouter VaultProtocol VaultBitwarden VaultWorker VaultManager VaultFile GateFiles.

#[local] Arguments String.append !_ _ /.

(** ** Which process this is *)

(** [main]: the worker's arguments, or [None] for the gate; a descriptor that
    does not parse panics. *)
Definition worker_mode {E : Type} (args : list string) : result (option (Z * string * bool)) E :=
  match args with
  | _ :: flag :: fd :: path :: rest =>
      if bool_decide (flag = "--vault-worker") then
        match parse_i32 fd with
        | Some socket_fd =>
            Ok (Some (socket_fd, path, match rest with [] => true | s :: _ => bool_decide (s = "1") end))
        | None => Panic
        end
      else Ok None
  | _ => Ok None
  end.

(** ** Credential providers *)

(** [VaultBackend::fetch], as far as the provider uses the trait. *)
Class VaultBackend (V : Type) : Type := { vb_fetch : string -> M V VaultError EncryptedCredential }.

#[export] Instance manager_backend {C : Type} `{Read C} `{Write C} `{VaultCodec} `{Base64Std}
    : VaultBackend (SubprocessManager C) := {| vb_fetch := manager_fetch |}.

(** The file backend with the entropy its nonces come from. *)
#[export] Instance file_backend {X : Type} `{Aead} `{OsRng X} : VaultBackend (FileBackend * X) := {|
  vb_fetch := fun ref '(b, x) => let '(x', r) := file_fetch b ref x in ((b, x'), r)
|}.

Record VaultCredentialProvider (V : Type) : Type := mkVaultCredentialProvider {
  vcp_vault : V; vcp_ipc_key : list byte
}.
Arguments mkVaultCredentialProvider {V}.
Arguments vcp_vault {V}.
Arguments vcp_ipc_key {V}.

Definition noop_fetch_credential `{Fmt} (credential_ref : string) : result (list CredentialHeader) ProxyError :=
  Err (CredentialInjection ("vault not configured; cannot fetch credential " +:+ debug_str credential_ref +:+
         ". Configure the vault backend to enable credential injection.")).

Definition vault_fetch_credential {V : Type} `{VaultBackend V} `{Aead} (credential_ref : string)
    : M (VaultCredentialProvider V) ProxyError (list CredentialHeader) :=
  encrypted ← map_errM (fun e => CredentialInjection (vault_error_to_string e))
                (zoom vcp_vault (fun v p => mkVaultCredentialProvider v (vcp_ipc_key p)) (vb_fetch credential_ref));
  key ← gets vcp_ipc_key;
  plaintext ← lift (ok_or (aead_decrypt key (ec_nonce encrypted) (ec_data encrypted))
                      (CredentialInjection "failed to decrypt credential from vault"));
  mret [mkCredentialHeader "Authorization" plaintext].

(** The provider of a request, with the vault in its state at that time. *)
Definition provider_at {V : Type} `{VaultBackend V} `{Aead} (p : VaultCredentialProvider V) : CredentialProvider := {|
  fetch_credential := fun credential_ref _ => (vault_fetch_credential credential_ref p).2
|}.

(** [Arc<dyn CredentialProvider>] as the gate fills it. *)
Inductive Provider (X C : Type) : Type :=
| NoOpProvider
| FileProvider (p : VaultCredentialProvider FileBackend)
| ManagerProvider (p : VaultCredentialProvider (SubprocessManager C)).
Arguments NoOpProvider {X C}.
Arguments FileProvider {X C}.
Arguments ManagerProvider {X C}.

(** ** Start-up *)

#[export] Instance host_files : FileOs Host := {|
  read_file := fun p => map_errM display_io (fs_read p);
  VaultFile.create_dir_all := fun p => map_errM display_io (fs_create_dir_all p);
  write_file := fun p mode data => map_errM display_io (open_write p mode data)
|}.

(** System calls with no effect on files, [IpAddr]'s parser and serde's TOML
    for policy files. *)
Class GateSys : Type := {
  set_dumpable : bool -> M Host string unit;
  setrlimit_core : Z -> Z -> M Host string unit;
  signal_handlers : M Host string unit;
  ip_parse : string -> IpAddr + string;
  policy_toml : string -> PolicyFile + string
}.

Section Start.
Context `{Fmt} `{FmtAddr} `{AgentOs} `{Sha256} `{ConfigToml} `{IdentityCrates} `{Base64Std} `{GateSys}.
Context `{Argon2} `{Aead} `{DevVaultCodec} `{OsRng Host} {C : Type} `{SpawnOs Host C} `{Read C} `{Write C} `{VaultCodec}.
Context `{LruCache}.

(** [cdp_crypto::disable_core_dumps] *)
Definition disable_core_dumps_call : M Host CryptoError unit :=
  _ ← map_errM (fun e => SystemCall ("prctl set_dumpable: " +:+ e)) (set_dumpable false);
  map_errM (fun e => SystemCall ("setrlimit CORE: " +:+ e)) (setrlimit_core 0 0).

(** The policy directory as the parser reads it. *)
Definition policy_fs (h : Host) : PolicyFs := {|
  PolicyParser.path_exists := fun p => fs_exists p h;
  PolicyParser.path_is_dir := fun p => is_dir p h;
  PolicyParser.read_dir := fun d =>
    if is_dir d h then
      inl (map (fun kv => path_file_name kv.1)
             (List.filter (fun kv => bool_decide (path_parent kv.1 = Some d)) (map_to_list (h_fs h))))
    else inr (display_io ENOTDIR);
  PolicyParser.read_to_string := fun d name =>
    match (fs_read_to_string (path_join d name) h).2 with
    | Ok s => inl s
    | Err e => inr (display_io e)
    | Panic => inr EmptyString
    end;
  PolicyParser.toml_from_str := policy_toml
|}.

(** [PolicyEngine::new] on the host: [engine_new] with the host's files. *)
Definition engine_start (dir : string) (config : ApprovalConfig) : M Host PolicyError PolicyEngine := fun h =>
  ((if fs_exists dir h then h else (fs_create_dir_all dir h).1),
   engine_new (fun _ d => match fs_create_dir_all d h with
                          | (h', Err e) => inr (display_io e)
                          | (h', _) => inl (policy_fs h')
                          end) (policy_fs h) dir config).

(** Step 5: the directory of the audit log. *)
Definition prepare_audit_dir (path : string) : M Host string unit := fun h =>
  match path_parent path with
  | Some parent =>
      if fs_exists parent h then (h, Ok tt) else map_errM display_io (fs_create_dir_all parent) h
  | None => (h, Ok tt)
  end.

(** Step 9: the provider for the configured backend. *)
Definition select_provider (c : GateConfig) : M Host string (Provider Host C) := fun h =>
  if bool_decide (backend (vault c) = "file") then
    let vault_path := expand_tilde h (file_path (vs_file (vault c))) in
    if fs_exists vault_path h then
      (password ← lift (ok_or (env_get "CDP_DEV_VAULT_PASSWORD" h)
                          "file vault backend requires CDP_DEV_VAULT_PASSWORD environment variable");
       b ← map_errM (fun e => "failed to open dev vault: " +:+ vault_error_to_string e) (open vault_path password);
       mret (FileProvider (mkVaultCredentialProvider b (fb_ipc_key b)))) h
    else (h, Ok NoOpProvider)
  else if bool_decide (backend (vault c) = "bitwarden") then
    (r ← attempt (manager_spawn (cli_path (bitwarden (vault c))) (subprocess_sandbox (vault c)));
     mret (match r with
           | Ok m => ManagerProvider (mkVaultCredentialProvider m (ipc_key m))
           | _ => NoOpProvider
           end)) h
  else (h, Ok NoOpProvider).

Definition approval_of (a : ApprovalSection) : ApprovalConfig :=
  mkApprovalConfig (as_gui_command a) (as_timeout_seconds a) (as_show_binary_hash a)
    (as_label_reason_untrusted a) (as_max_reason_length a).

Record Gate : Type := mkGate {
  g_config : GateConfig; g_identity : GateIdentity; g_provider : Provider Host C; g_router : Router;
  g_listener : Listener
}.

(** Step 10: the proxy's configuration. *)
Definition proxy_config_of (p : ProxySection) : result ProxyConfig string :=
  let! range := map_err (fun e => "invalid proxy port range: " +:+ display_proxy_error e)
                  (parse_port_range (port_range p)) in
  let! addr := match ip_parse (ps_bind_address p) with
               | inl a => Ok a
               | inr e => Err ("invalid proxy bind address: " +:+ e)
               end in
  Ok (mkProxyConfig addr range.1 range.2).

(** An early return after the socket was bound drops the listener. *)
Definition dropping {A : Type} (l : Listener) (m : M Host string A) : M Host string A := fun h =>
  match m h with
  | (h', Ok a) => (h', Ok a)
  | (h', r) => (drop_listener l h', r)
  end.

(** Steps 5 to 14, which follow the writing of the fingerprint file. *)
Definition gate_parts (c : GateConfig) (identity : GateIdentity) (gate_key : list byte) : M Host string Gate := fun h =>
  (_ ← prepare_audit_dir (expand_tilde h (audit_log_path (gate c)));
   let lease_manager := manager_new gate_key true in
   engine ← map_errM (fun e => "failed to load policies: " +:+ display_policy_error e)
              (engine_start (expand_tilde h "~/.config/cdp/policies") (approval_of (approval c)));
   provider ← select_provider c;
   proxy_config ← lift (proxy_config_of (proxy c));
   let router := router_new gate_key (Z.to_nat (nonce_max_entries (security c))) lease_manager
                   (proxy_manager_new proxy_config) engine in
   listener ← map_errM display_gate_error (bind (gs_socket_path (gate c)));
   _ ← dropping listener signal_handlers;
   mret (mkGate c identity provider router listener)) h.

(** Steps 1 to 4. *)
Definition write_identity (identity_key : list byte) : M Host string (GateConfig * GateIdentity) :=
  config ← map_errM display_gate_error load_config;
  _ ← (if disable_core_dumps (security config) then map_errM display_crypto_error disable_core_dumps_call
       else mret tt);
  identity ← map_errM display_gate_error
               (identity_create identity_key (fingerprint_path (gate config)) (gs_socket_path (gate config)));
  mret (config, identity).

(** [gate_main] up to the accept loop.  The two keys are what was drawn. *)
Definition gate_start (identity_key gate_key : list byte) : M Host string Gate :=
  ci ← write_identity identity_key;
  gate_parts ci.1 ci.2 gate_key.

(** After the accept loop: the proxies, the fingerprint file, the socket.
    The listener is dropped also when [cleanup] fails. *)
Definition gate_shutdown (g : Gate) (h : Host) : Gate * Host * result unit string :=
  let rt := g_router g in
  let g' := mkGate (g_config g) (g_identity g) (g_provider g)
              (with_managers rt (rt_leases rt) (stop_all (rt_proxies rt))) (g_listener g) in
  let '(h1, r) := map_errM display_gate_error (cleanup (g_identity g)) h in
  (g', drop_listener (g_listener g) h1, r).
End Start.

(** ** What is relied on *)

(** A call that leaves files and process alone. *)
Definition quiet {E A : Type} (m : M Host E A) : Prop := forall h, h_fs (m h).1 = h_fs h /\ same_world h (m h).1.

(** Limits, signals, entropy, sockets and child processes are not files. *)
Class QuietSys `{GateSys} `{OsRng Host} {C : Type} `{SpawnOs Host C} : Prop := {
  q_dumpable : forall b, quiet (set_dumpable b);
  q_rlimit : forall a b, quiet (setrlimit_core a b);
  q_signal : quiet signal_handlers;
  q_entropy : forall n, quiet (draw (E:=VaultError) n);
  q_spawn : forall path sb, quiet (spawn_worker path sb)
}.

(** ** Lemmas *)

(** The file [n] at [p] of an unprivileged gate. *)
Definition file_kept (p : string) (n : Node) (h : Host) : Prop := h_fs h !! p = Some n /\ h_privileged h = false.

Lemma keeps_quiet {E A : Type} p n (m : M Host E A) : quiet m -> keeps (file_kept p n) m.
Proof. intros Hq h [Hf Hu]. destruct (Hq h) as [Hfs (_ & Hp & _)]. split; [by rewrite Hfs|by rewrite Hp]. Qed.

Lemma keeps_touches {A : Type} p n q (m : M Host IoErr A) :
  touches (eq q) m -> q <> p -> keeps (file_kept p n) m.
Proof.
  intros Ht Hne h [Hf Hu]. destruct (Ht h) as [(_ & Hp & _) Ho]. split; [by rewrite Ho|by rewrite Hp].
Qed.

Lemma keeps_create_dir_all p n q : keeps (file_kept p n) (fs_create_dir_all q).
Proof.
  intros h [Hf Hu]. pose proof (create_dir_all_grows q h) as Hg. split; [by eapply grows_keeps|].
  by destruct Hg as [(_ & -> & _) _].
Qed.

Lemma keeps_fs_read p n q : keeps (file_kept p n) (fs_read q).
Proof. intros h Hk. by rewrite fs_read_same. Qed.

#[export] Hint Resolve keeps_quiet keeps_create_dir_all keeps_fs_read : cdp.

Section StartLemmas.
Context `{Fmt} `{FmtAddr} `{AgentOs} `{Sha256} `{ConfigToml} `{IdentityCrates} `{Base64Std} `{GateSys}.
Context `{Argon2} `{Aead} `{DevVaultCodec} `{OsRng Host} {C : Type} `{SpawnOs Host C} `{Read C} `{Write C} `{VaultCodec}.
Context `{LruCache} `{!QuietSys}.

Lemma bind_keeps p n sock : sock <> p -> keeps (file_kept p n) (bind sock).
Proof.
  intros Hne. assert (forall q, h_fs q !! p = Some n -> fs_exists p q = true) as Hex
    by (intros q Hq; apply bool_decide_eq_true_2; by eexists).
  apply keeps_bind; [|intros []; apply keeps_bind; [|intros []; apply keeps_bind; [|intros []; apply keeps_bind]]].
  - intros h Hk. pose proof (keeps_touches p n sock (fs_remove_file sock) (fs_remove_touches sock) Hne h Hk) as Hr.
    by destruct (fs_remove_file sock h) as [h' [[]|[]|]].
  - intros h Hk. destruct (path_parent sock) as [d|]; [|done]. destruct (fs_exists d h) eqn:E; [done|].
    assert (d <> p) as Hd by (intros ->; destruct Hk as [Hf _]; by rewrite (Hex _ Hf) in E).
    apply keeps_bind; [by apply keeps_map_errM, keeps_create_dir_all| |done].
    intros []. by apply keeps_map_errM, (keeps_touches _ _ d); [apply fs_chmod_touches|].
  - by apply keeps_map_errM, (keeps_touches _ _ sock); [apply fs_bind_touches|].
  - by apply keeps_map_errM, (keeps_touches _ _ sock); [apply fs_chmod_touches|].
  - intros []. apply keeps_ret.
Qed.

Lemma drop_listener_keeps p n l h : l_socket_path l <> p -> file_kept p n h -> file_kept p n (drop_listener l h).
Proof. intros Hne Hk. apply (keeps_touches p n (l_socket_path l)); [apply fs_remove_touches|done|done]. Qed.

Lemma engine_start_keeps p n d cfg : keeps (file_kept p n) (engine_start d cfg).
Proof. intros h Hk. simpl. destruct (fs_exists d h); [done|by apply keeps_create_dir_all]. Qed.

Lemma prepare_audit_dir_keeps p n q : keeps (file_kept p n) (prepare_audit_dir q).
Proof.
  intros h Hk. unfold prepare_audit_dir. destruct (path_parent q) as [d|]; [|done].
  destruct (fs_exists d h); [done|]. by apply keeps_map_errM; [apply keeps_create_dir_all|].
Qed.

Lemma open_keeps p n path pw : keeps (file_kept p n) (open path pw).
Proof.
  unfold open. apply keeps_bind; [by apply keeps_map_errM, keeps_map_errM, keeps_fs_read|].
  intros bytes. destruct (_ <? _)%nat; [apply keeps_fail|]. cbv zeta.
  repeat (apply keeps_bind; [apply keeps_lift|intros ?]).
  apply keeps_bind; [apply keeps_quiet, q_entropy|intros ?; apply keeps_ret].
Qed.

Lemma select_provider_keeps p n c : keeps (file_kept p n) (select_provider c).
Proof.
  intros h Hk. unfold select_provider. destruct (bool_decide (backend (vault c) = "file")).
  - destruct (fs_exists _ h); [|done].
    apply keeps_bind; [apply keeps_lift|intros pw|done].
    apply keeps_bind; [apply keeps_map_errM, open_keeps|intros b; apply keeps_ret].
  - destruct (bool_decide _); [|done].
    apply keeps_bind; [|intros r; apply keeps_ret|done]. apply keeps_attempt.
    unfold manager_spawn. apply keeps_bind; [apply keeps_quiet, q_spawn|intros m; apply keeps_lift].
Qed.

Lemma gate_parts_keeps p n c id gk : gs_socket_path (gate c) <> p -> keeps (file_kept p n) (gate_parts c id gk).
Proof.
  intros Hne h Hk. unfold gate_parts.
  apply keeps_bind; [apply prepare_audit_dir_keeps|intros []|done].
  apply keeps_bind; [apply keeps_map_errM, engine_start_keeps|intros eng].
  apply keeps_bind; [apply select_provider_keeps|intros prov].
  apply keeps_bind; [apply keeps_lift|intros pc].
  intros h2 Hk2. rewrite bind_eq. unfold map_errM.
  pose proof (bind_keeps p n _ Hne h2 Hk2) as Hb.
  destruct (bind (gs_socket_path (gate c)) h2) as [h3 [l|e|]] eqn:El; simpl in Hb; [|done..]. cbn [map_err].
  rewrite bind_eq. unfold dropping. pose proof (keeps_quiet p n _ q_signal h3 Hb) as Hs.
  assert (l_socket_path l = gs_socket_path (gate c)) as Hl.
  { unfold bind in El. repeat (apply bind_ok in El as (? & ? & _ & El)). by injection El as _ <-. }
  destruct (signal_handlers h3) as [h4 [[]|e|]]; simpl in Hs; [done|..];
    apply drop_listener_keeps; congruence || done.
Qed.

(** Writing the identity leaves the file the gate's own permissions forbid to
    write again. *)
Lemma write_identity_file k h hi c id : h_privileged h = false -> write_identity k h = (hi, Ok (c, id)) ->
  id = mkGateIdentity k (fingerprint_path (gate c)) /\
  exists d, file_kept (fingerprint_path (gate c)) (File 256 d) hi.
Proof.
  intros Hu Hw. unfold write_identity in Hw.
  apply bind_ok in Hw as (h0 & c0 & Hc%map_errM_ok & Hw).
  pose proof (load_config_same h) as Hs. rewrite Hc in Hs. simpl in Hs. subst h0.
  apply bind_ok in Hw as (h1 & [] & Hd & Hw).
  apply bind_ok in Hw as (h2 & id0 & Hi%map_errM_ok & [= -> -> ->]).
  assert (h_privileged h1 = false) as Hu1.
  { destruct (disable_core_dumps (security c)); [|by injection Hd as <-]. apply map_errM_ok in Hd.
    unfold disable_core_dumps_call in Hd.
    apply bind_ok in Hd as (h1' & [] & Hd1%map_errM_ok & Hd2%map_errM_ok).
    destruct (q_dumpable false h) as [_ (_ & Hp1 & _)]. rewrite Hd1 in Hp1.
    destruct (q_rlimit 0 0 h1') as [_ (_ & Hp2 & _)]. rewrite Hd2 in Hp2. simpl in *. congruence. }
  apply identity_create_ok in Hi as (hash & json & ha & hb & _ & _ & Hpp & Hwr & -> & _ & ->).
  split; [done|]. exists (as_bytes json). split; [simpl; by rewrite lookup_insert_eq|].
  pose proof (private_parent_world (fingerprint_path (gate c)) h1) as (_ & Hp1 & _). rewrite Hpp in Hp1.
  destruct (fs_write_touches (fingerprint_path (gate c)) (as_bytes json) ha) as [(_ & Hp2 & _) _].
  rewrite Hwr in Hp2. simpl in *. congruence.
Qed.
End StartLemmas.

(** ** Properties *)

Section Lives.
Context `{Fmt} `{FmtAddr} `{AgentOs} `{Sha256} `{ConfigToml} `{IdentityCrates} `{Base64Std} `{GateSys}.
Context `{Argon2} `{Aead} `{DevVaultCodec} `{OsRng Host} {C : Type} `{SpawnOs Host C} `{Read C} `{Write C} `{VaultCodec}.
Context `{LruCache} `{!QuietSys}.

Lemma start_blocked k gk h c d : h_privileged h = false -> load_config h = (h, Ok c) ->
  h_fs h !! fingerprint_path (gate c) = Some (File 256 d) -> forall g, (gate_start k gk h).2 <> Ok g.
Proof.
  intros Hu Hc Hf g. unfold gate_start, write_identity. rewrite !bind_eq. unfold map_errM at 1. rewrite Hc.
  cbn [map_err]. rewrite bind_eq.
  assert (keeps (file_kept (fingerprint_path (gate c)) (File 256 d))
    (if disable_core_dumps (security c) then map_errM display_crypto_error disable_core_dumps_call else mret tt)) as Hk.
  { destruct (disable_core_dumps (security c)); [|apply keeps_ret]. apply keeps_map_errM.
    apply keeps_bind; [apply keeps_map_errM, keeps_quiet, q_dumpable|intros []].
    apply keeps_map_errM, keeps_quiet, q_rlimit. }
  specialize (Hk h (conj Hf Hu)). set (m := if disable_core_dumps (security c) then _ else _) in *.
  destruct (m h) as [h1 [[]|e|]]; simpl in Hk; [|done..]. destruct Hk as [Hf1 Hu1]. rewrite bind_eq. unfold map_errM.
  destruct (identity_create_blocked k (fingerprint_path (gate c)) (gs_socket_path (gate c)) h1 256 d)
    as (h2 & e & -> & _); done.
Qed.

(** A start that fails after the fingerprint file was written, for a bad
    policy file, port range, vault or socket, leaves that file behind; as
    long as it is there no later start of an unprivileged gate with that
    fingerprint path succeeds, also when the cause has been repaired. *)
Theorem failed_start_blocks_restart (k gk k' gk' : list byte) (h hi h2 : Host) (c c' : GateConfig)
    (id : GateIdentity) (e : string) :
  h_privileged h = false -> write_identity k h = (hi, Ok (c, id)) ->
  gs_socket_path (gate c) <> fingerprint_path (gate c) ->
  (gate_start k gk h).2 = Err e ->
  h_privileged h2 = false -> load_config h2 = (h2, Ok c') ->
  fingerprint_path (gate c') = fingerprint_path (gate c) ->
  h_fs h2 !! fingerprint_path (gate c) = h_fs (gate_start k gk h).1 !! fingerprint_path (gate c) ->
  (exists d, h_fs (gate_start k gk h).1 !! fingerprint_path (gate c) = Some (File 256 d)) /\
  forall g, (gate_start k' gk' h2).2 <> Ok g.
Proof.
  intros Hu Hw Hne He Hu2 Hc2 Hp Hf2.
  destruct (write_identity_file _ _ _ _ _ Hu Hw) as (-> & d & Hk).
  pose proof (gate_parts_keeps _ _ c (mkGateIdentity k (fingerprint_path (gate c))) gk Hne hi Hk) as [Hf _].
  assert (gate_start k gk h = gate_parts c (mkGateIdentity k (fingerprint_path (gate c))) gk hi) as Hs
    by (unfold gate_start; by rewrite (bind_run _ _ _ _ _ Hw)).
  rewrite Hs in *. split; [by exists d|]. apply (start_blocked _ _ _ c' d); [done|done|]. by rewrite Hp, Hf2.
Qed.

Lemma bind_socket sock h h' l : bind sock h = (h', Ok l) -> l = mkListener sock /\ h_fs h' !! sock = Some (Socket 384).
Proof.
  unfold bind. intros Hb. apply bind_ok in Hb as (h1 & [] & _ & Hb). apply bind_ok in Hb as (h2 & [] & _ & Hb).
  apply bind_ok in Hb as (h3 & [] & Hb3%map_errM_ok & Hb). apply bind_ok in Hb as (h4 & [] & Hm%map_errM_ok & [= <- <-]).
  split; [done|]. unfold fs_bind in Hb3. unfold fs_chmod in Hm. repeat case_match; simplify_eq.
  simpl in *. rewrite lookup_insert_eq in *. by simplify_eq.
Qed.

(** An orderly life leaves nothing behind: a gate that started owns its
    fingerprint file and its socket, readable and writable for its owner
    only, and [gate_shutdown], while the two directories are writable, stops
    every proxy listener and removes both. *)
Theorem shutdown_leaves_no_trace (k gk : list byte) (h h1 h2 : Host) (g : Gate) :
  h_privileged h = false -> gate_start k gk h = (h1, Ok g) ->
  let p := fingerprint_path (gate (g_config g)) in
  let sock := gs_socket_path (gate (g_config g)) in
  sock <> p -> check_dir h2 p = Ok tt -> check_dir h2 sock = Ok tt ->
  h_fs h2 !! p = h_fs h1 !! p -> h_fs h2 !! sock = h_fs h1 !! sock ->
  (exists d, h_fs h1 !! p = Some (File 256 d)) /\ h_fs h1 !! sock = Some (Socket 384) /\
  let '(g', h3, r) := gate_shutdown g h2 in
  r = Ok tt /\ h_fs h3 !! p = None /\ h_fs h3 !! sock = None /\ listeners (rt_proxies (g_router g')) = ∅.
Proof.
  intros Hu Hg p sock Hne Hdp Hds Hf Hsk.
  unfold gate_start in Hg. apply bind_ok in Hg as (hi & [c id] & Hw & Hg). cbn [fst snd] in Hg.
  destruct (write_identity_file _ _ _ _ _ Hu Hw) as (-> & d & Hk).
  assert (g_config g = c /\ g_identity g = mkGateIdentity k (fingerprint_path (gate c)) /\
          g_listener g = mkListener (gs_socket_path (gate c)) /\
          h_fs h1 !! gs_socket_path (gate c) = Some (Socket 384)) as (Hgc & Hgi & Hgl & Hs1).
  { unfold gate_parts in Hg. apply bind_ok in Hg as (? & [] & _ & Hg). apply bind_ok in Hg as (? & eng & _ & Hg).
    apply bind_ok in Hg as (? & prov & _ & Hg). apply bind_ok in Hg as (? & pc & _ & Hg).
    apply bind_ok in Hg as (hb & l & Hb%map_errM_ok & Hg). apply bind_ok in Hg as (hs & [] & Hsig & [= <- <-]).
    apply bind_socket in Hb as [-> Hb]. split_and!; try done.
    unfold dropping in Hsig. destruct (q_signal hb) as [Hq _].
    destruct (signal_handlers hb) as [hs' [[]|e|]]; [|done..]. injection Hsig as <-. simpl in Hq. by rewrite Hq. }
  subst p sock. rewrite Hgc in *.
  pose proof (gate_parts_keeps _ _ c (mkGateIdentity k (fingerprint_path (gate c))) gk Hne hi Hk) as [Hf1 _].
  rewrite Hg in Hf1. simpl in Hf1. split; [by exists d|]. split; [done|].
  unfold gate_shutdown, map_errM, cleanup, fs_remove_file. rewrite Hgi, Hgl. cbn [gi_fingerprint_path].
  rewrite Hf, Hf1, Hdp. cbn [map_err]. unfold drop_listener, fs_remove_file. cbn [l_socket_path h_fs with_fs].
  rewrite lookup_delete_ne by congruence. rewrite Hsk, Hs1.
  assert (check_dir (with_fs h2 (delete (fingerprint_path (gate c)) (h_fs h2))) (gs_socket_path (gate c)) = Ok tt) as ->.
  { unfold check_dir in *. cbn [h_fs with_fs].
    rewrite lookup_delete_ne by (intros Heq; rewrite <- Heq, Hf, Hf1 in Hds; done). exact Hds. }
  cbn. split_and!; [done| |by rewrite lookup_delete_eq|done].
  rewrite lookup_delete_ne by congruence. by rewrite lookup_delete_eq.
Qed.
End Lives.

(** ** A gate to start *)

#[local] Existing Instances plain_fmt plain_addr gate_os id_sha plain_base64.

(** Reads [bad] as a configuration whose port range is not one, and
    everything else as the defaults. *)
#[local] Instance two_tomls : ConfigToml :=
  {| config_from_str := fun h s =>
       let d := default_config h in
       inl (if bool_decide (s = "bad") then
              mkGateConfig (gate d) (vault d) (approval d) (security d) (mkProxySection "127.0.0.1" "high") (browser d)
            else d) |}.
#[local] Instance plain_identity : IdentityCrates :=
  {| verifying_key := id; to_rfc3339 := display_Z; fp_to_string_pretty := fun f => inl (ff_socket_path f) |}.
#[local] Instance calm_sys : GateSys :=
  {| set_dumpable := fun _ => mret tt; setrlimit_core := fun _ _ => mret tt; signal_handlers := mret tt;
     ip_parse := fun _ => inl (V4 [Byte.x7f; Byte.x00; Byte.x00; Byte.x01]); policy_toml := fun _ => inr "no" |}.
#[local] Instance no_argon : Argon2 :=
  {| ArgonParams := unit; params_new := fun _ _ _ _ => inl tt; hash_password_into := fun _ p s => inl p |}.
#[local] Instance no_aead : Aead :=
  {| aead_encrypt := fun _ _ p => inl p; aead_decrypt := fun _ _ c => Some c |}.
#[local] Instance no_dev_codec : DevVaultCodec :=
  {| vault_to_vec := fun _ => inr "no"; vault_from_slice := fun _ => inr "no" |}.
#[local] Instance still_rng : OsRng Host := {| gen_bytes := fun n h => (h, repeat Byte.x00 n) |}.
(** No worker can be spawned here: the provider is the empty one. *)
#[local] Instance no_spawn : SpawnOs Host (list byte) :=
  {| socketpair := fail "EMFILE"; fill_bytes := fun n h => (h, []); getfd_flags := fun _ _ => 0;
     setfd_flags := fun _ _ h => h; spawn_process := fun _ _ => mret tt; close_parent := fun _ h => h;
     set_nonblocking := fun _ => mret tt; stream_from_std := fun _ => fail "EBADF" |}.
#[local] Instance no_codec : VaultCodec :=
  {| command_to_vec := fun _ => inr "no"; command_from_slice := fun _ => inr "no";
     response_to_vec := fun _ => inr "no"; response_from_slice := fun _ => inr "no" |}.
#[local] Instance nil_write : Write (list byte) := {| write_all := fun b l => (l ++ b, Ok tt); flush := mret tt |}.
#[local] Instance any_lru : LruCache :=
  {| Lru := list string; lru_new := fun _ => []; lru_contains := fun c k => contains c k; lru_put := fun c k => k :: c |}.
#[local] Instance calm_quiet : QuietSys (C:=list byte).
Proof. split; intros; intros h; by split. Qed.

Definition repaired_host : Host :=
  put "/home/u/.config" (Directory 493) (put "/home/u/.config/cdp" (Directory 448) demo_host).
Definition broken_host : Host := put "/home/u/.config/cdp/gate.toml" (File 420 (as_bytes "bad")) repaired_host.

Definition first_try : Host * result (Gate (C:=list byte)) string := gate_start demo_key32 [Byte.x01] broken_host.
(** The configuration file is mended, the fingerprint file still there. *)
Definition mended_host : Host := with_fs first_try.1 (<["/home/u/.config/cdp/gate.toml" := File 420 []]> (h_fs first_try.1)).

Definition mended_config : GateConfig := expand_paths demo_host (default_config demo_host).
Definition bad_config : GateConfig :=
  expand_paths demo_host
    (mkGateConfig (default_gate demo_host) default_vault default_approval default_security
       (mkProxySection "127.0.0.1" "high") default_browser).

Lemma failed_start_blocks_restart_witness :
  forall g : Gate (C:=list byte), (gate_start demo_key32 [Byte.x02] mended_host).2 <> Ok g.
Proof.
  apply (failed_start_blocks_restart demo_key32 [Byte.x01] demo_key32 [Byte.x02] broken_host
    (write_identity demo_key32 broken_host).1 mended_host bad_config mended_config
    (mkGateIdentity demo_key32 demo_fp_path)
    (match first_try.2 with Err e => e | _ => EmptyString end)); vm_compute; try reflexivity. discriminate.
Defined.

Definition started : Host * result (Gate (C:=list byte)) string := gate_start demo_key32 [Byte.x01] repaired_host.

Definition started_gate : Gate (C:=list byte) :=
  mkGate mended_config (mkGateIdentity demo_key32 demo_fp_path) NoOpProvider
    (router_new [Byte.x01] (Z.to_nat 100000) (manager_new [Byte.x01] true)
       (proxy_manager_new (mkProxyConfig (V4 [Byte.x7f; Byte.x00; Byte.x00; Byte.x01]) 19000 19999))
       (mkPolicyEngine (mkPolicyEvaluator []) "/home/u/.config/cdp/policies" (approval_of default_approval)))
    (mkListener "/run/u/cdp/gate.sock").

Lemma shutdown_leaves_no_trace_witness :
  let '(_, h3, r) := gate_shutdown started_gate started.1 in
  r = Ok tt /\ h_fs h3 !! demo_fp_path = None /\ h_fs h3 !! "/run/u/cdp/gate.sock" = None.
Proof.
  pose proof (shutdown_leaves_no_trace demo_key32 [Byte.x01] repaired_host started.1 started.1 started_gate
    eq_refl) as Hs.
  destruct Hs as (_ & _ & Hs).
  - vm_compute. reflexivity.
  - vm_compute. discriminate.
  - vm_compute. reflexivity.
  - vm_compute. reflexivity.
  - reflexivity.
  - reflexivity.
  - destruct (gate_shutdown started_gate started.1) as [[g' h3] r]. destruct Hs as (Hr & Hp & Hk & _).
    split; [exact Hr|]. split; [exact Hp|exact Hk].
Defined.
