(* ===== verification/GateDaemon.v ===== *)
(** * The running gate

    [gate_main] of [cdp-gate/src/main.rs] from the accept loop on: the tasks
    it has spawned (death monitor, expiry sweep, policy watcher, one task per
    connection and per registered agent) beside the router they share, under
    connections, exits of agents, changes on disk and signals in any order.
    A signal ends the loop; [gate_main] then stops the proxies, cleans up and
    returns while the other tasks go on, until the process exits. *)

From S2P Require Import Prelude StateM RustStr Crypto PolicyTypes PolicyParser PolicyEvaluator PolicyEngine AuditLog.
From S2P Require Import LeaseTypes LeaseManager LeaseLemmas LeaseSteps LeaseSafety LeaseProps.
From S2P Require Import ProxyScope ProxyAuth PolicyWatcher ProxyHttp ProxyManager UnixHost GateAgent GateConfig.
From S2P Require Import GateRouter GateStages GateSystem GateDeaths VaultProtocol VaultBitwarden VaultWorker VaultManager VaultFile.
From S2P Require Import GateFiles GateMain.

(** ** Liveness monitors *)

(** The task [handle_register] spawns sends its notification when the pidfd
    is readable or waiting on it failed, and at once when the reactor does
    not take the descriptor. *)
Definition register_monitor_sends (async_fd readable : bool) : bool := if async_fd then readable else true.

(** [spawn_liveness_monitor], the variant of [agent_verify.rs] that nothing
    calls, sends nothing without a descriptor of its own. *)
Definition spawn_liveness_monitor (dup_fd async_fd readable : bool) (pid : Z) (fingerprint_hash : list byte)
    : option DeathNotification :=
  if negb dup_fd then None
  else if async_fd then if readable then Some (mkDeathNotification pid fingerprint_hash) else None
  else None.

(** [mpsc::channel::<DeathNotification>(256)] *)
Definition DEATH_CAPACITY : nat := 256.

(** ** Connections *)

(** The task of one connection: its id, its peer, the lines it has read, the
    responses it has written and the request it is handling. *)
Record ConnTask : Type := mkConnTask {
  ct_id : list byte; ct_peer : PeerInfo; ct_lines : list string; ct_written : list JsonRpcResponse;
  ct_request : option Pending; ct_open : bool
}.

Definition conn_new (cid : list byte) (peer : PeerInfo) : ConnTask := mkConnTask cid peer [] [] None true.

Section Connections.
Context `{Fmt} `{Gui} `{FmtAddr} `{AgentOs} `{Sha256} `{FmtParse} `{HmacSha256}.
Context `{Build} `{Chrono} `{Resolver} `{!RpcCodec} `{TextParse} `{LruCache} `{MapOrder}.

(** [read_line] returned a line. *)
Definition conn_read (line : string) (ct : ConnTask) : ConnTask :=
  let raw := as_bytes (trim_end line) in
  mkConnTask (ct_id ct) (ct_peer ct) (ct_lines ct ++ [line]) (ct_written ct)
    (Some (mkPending raw (ct_peer ct) (ct_id ct) (receive raw))) true.

Definition conn_at (p : Pending) (ct : ConnTask) : ConnTask :=
  mkConnTask (ct_id ct) (ct_peer ct) (ct_lines ct) (ct_written ct) (Some p) (ct_open ct).

Definition conn_end (ct : ConnTask) : ConnTask :=
  mkConnTask (ct_id ct) (ct_peer ct) (ct_lines ct) (ct_written ct) None false.

(** The response is written and the loop goes on, or it breaks. *)
Definition conn_write (written : bool) (resp : JsonRpcResponse) (ct : ConnTask) (rt : Router) : ConnTask * Router :=
  if written then (mkConnTask (ct_id ct) (ct_peer ct) (ct_lines ct) (ct_written ct ++ [resp]) None true, rt)
  else (conn_end ct, disconnect rt (ct_id ct)).

(** A turn of the loop of [handle_connection] that nothing interrupts; a
    panic ends the task without the purge. *)
Definition connection_turn (ev : ReadEvent) (ct : ConnTask) (rt : Router) : ConnTask * Router :=
  match ev with
  | Eof | ReadError => (conn_end ct, disconnect rt (ct_id ct))
  | Line line now draw written =>
      let ct := conn_read line ct in
      match run_stages 10 now draw (ct_peer ct) (ct_id ct) rt (receive (as_bytes (trim_end line))) with
      | (rt, StReply resp) => conn_write written resp ct rt
      | (rt, _) => (conn_end ct, rt)
      end
  end.

Fixpoint connection_run (events : list ReadEvent) (ct : ConnTask) (rt : Router) : ConnTask * Router :=
  match events with
  | [] => (ct, rt)
  | ev :: rest =>
      if ct_open ct then let '(ct, rt) := connection_turn ev ct rt in connection_run rest ct rt else (ct, rt)
  end.
End Connections.

(** Where [gate_main] is: in the accept loop, before [stop_all], before
    [cleanup], before the drop of the listener, or returned, which ends the
    process. *)
Inductive MainPhase : Type := Looping | Stopping | Cleaning | Dropping | Exited.

Section Daemon.
Context `{Fmt} `{FmtAddr} `{Sha256} `{FmtParse} `{HmacSha256}.
Context `{Build} `{Chrono} `{!RpcCodec} `{TextParse} `{LruCache}.
Context `{ConfigToml} `{IdentityCrates} `{Base64Std} `{GateSys} `{Argon2} `{Aead} `{DevVaultCodec} `{OsRng Host}.
Context {C : Type} `{SpawnOs Host C} `{Read C} `{Write C} `{VaultCodec}.

(** ** State *)

(** [dm_sent] are the monitors (by index) that have sent, [dm_deaths] the
    death channel, [dm_death] the notification being handled, [dm_exited] the
    processes that are gone, by fingerprint; [dm_phase] and [dm_reloads] are
    the watcher's, whose disk is the host. *)
Record Daemon : Type := mkDaemon {
  dm_gate : Gate (C:=C);
  dm_host : Host;
  dm_conns : list ConnTask;
  dm_sent : gset nat;
  dm_deaths : list DeathNotification;
  dm_death : option DeathStage;
  dm_exited : gset (list byte);
  dm_phase : Phase;
  dm_reloads : list (list PolicyEntry);
  dm_main : MainPhase
}.

(** The process is there, and its tasks run. *)
Definition dm_running (d : Daemon) : bool := match dm_main d with Exited => false | _ => true end.

Definition daemon_start (g : Gate (C:=C)) (h : Host) : Daemon := mkDaemon g h [] ∅ [] None ∅ Unarmed [] Looping.

Definition dm_router (d : Daemon) : Router := g_router (dm_gate d).

Definition set_router (g : Gate (C:=C)) (rt : Router) : Gate :=
  mkGate (g_config g) (g_identity g) (g_provider g) rt (g_listener g).

Definition with_router (d : Daemon) (rt : Router) : Daemon :=
  mkDaemon (set_router (dm_gate d) rt) (dm_host d) (dm_conns d) (dm_sent d) (dm_deaths d) (dm_death d) (dm_exited d)
    (dm_phase d) (dm_reloads d) (dm_main d).

Definition with_conns (d : Daemon) (cs : list ConnTask) : Daemon :=
  mkDaemon (dm_gate d) (dm_host d) cs (dm_sent d) (dm_deaths d) (dm_death d) (dm_exited d) (dm_phase d) (dm_reloads d)
    (dm_main d).

Definition with_conn (d : Daemon) (i : nat) (ct : ConnTask) (rt : Router) : Daemon :=
  with_conns (with_router d rt) (<[i := ct]> (dm_conns d)).

Definition with_sent (d : Daemon) (sent : gset nat) (deaths : list DeathNotification) : Daemon :=
  mkDaemon (dm_gate d) (dm_host d) (dm_conns d) sent deaths (dm_death d) (dm_exited d) (dm_phase d) (dm_reloads d)
    (dm_main d).

Definition with_death (d : Daemon) (rt : Router) (deaths : list DeathNotification) (de : option DeathStage) : Daemon :=
  mkDaemon (set_router (dm_gate d) rt) (dm_host d) (dm_conns d) (dm_sent d) deaths de (dm_exited d) (dm_phase d)
    (dm_reloads d) (dm_main d).

(** The watcher's state machine, seen in the daemon. *)
Definition watch_view (d : Daemon) : Watching :=
  mkWatching (policy_fs (dm_host d)) (dm_phase d) (dm_reloads d) (rt_engine (dm_router d)).

Definition with_watch (d : Daemon) (w : Watching) : Daemon :=
  mkDaemon (set_router (dm_gate d) (with_engine (dm_router d) (w_engine w))) (dm_host d) (dm_conns d) (dm_sent d)
    (dm_deaths d) (dm_death d) (dm_exited d) (w_phase w) (w_channel w) (dm_main d).

(** ** Steps *)

(** A turn of the accept loop: an error is logged, the loop goes on.  [cid]
    is what [handle_connection] draws. *)
Definition accept_turn {S : Type} (next : (S * ((Z * Z * Z) + string)) + string) (cid : list byte) (d : Daemon) : Daemon :=
  match accept next with
  | Ok (_, peer) => with_conns d (dm_conns d ++ [conn_new cid peer])
  | _ => d
  end.

(** [gate_main] after the accept loop, up to each point where another task may
    come in between. *)
Definition at_main (d : Daemon) (g : Gate (C:=C)) (h : Host) (ph : MainPhase) : Daemon :=
  mkDaemon g h (dm_conns d) (dm_sent d) (dm_deaths d) (dm_death d) (dm_exited d) (dm_phase d) (dm_reloads d) ph.

(** [proxy_manager.stop_all().await] *)
Definition stop_proxies (d : Daemon) : Daemon :=
  let rt := dm_router d in
  at_main d (set_router (dm_gate d) (with_managers rt (rt_leases rt) (stop_all (rt_proxies rt)))) (dm_host d) Cleaning.

(** [identity.cleanup()?]: an error returns, which drops the listener too. *)
Definition clean_up (d : Daemon) : Daemon :=
  at_main d (dm_gate d) (map_errM display_gate_error (cleanup (g_identity (dm_gate d))) (dm_host d)).1 Dropping.

(** [drop(gate_listener)], and the end of the process. *)
Definition leave (d : Daemon) : Daemon :=
  at_main d (dm_gate d) (drop_listener (g_listener (dm_gate d)) (dm_host d)) Exited.

(** The steps of [gate_main] itself, from SIGTERM or SIGINT on. *)
Inductive dmain : Daemon -> Daemon -> Prop :=
| m_signal d : dm_main d = Looping -> dmain d (at_main d (dm_gate d) (dm_host d) Stopping)
| m_stop d : dm_main d = Stopping -> dmain d (stop_proxies d)
| m_cleanup d : dm_main d = Cleaning -> dmain d (clean_up d)
| m_leave d : dm_main d = Dropping -> dmain d (leave d).

(** A turn of the loop of [start_expiry_sweep]. *)
Definition sweep_tick (now : Z) (rt : Router) : Router :=
  with_managers rt (sweep_expired (rt_leases rt) now) (rt_proxies rt).

(** The gate's own tasks. *)
Inductive dtask : Daemon -> Daemon -> Prop :=
| t_monitor d n notice async_fd : dm_running d = true ->
    rt_monitors (dm_router d) !! n = Some notice -> n ∉ dm_sent d ->
    register_monitor_sends async_fd (bool_decide (death_fingerprint notice ∈ dm_exited d)) = true ->
    (length (dm_deaths d) < DEATH_CAPACITY)%nat ->
    dtask d (with_sent d ({[n]} ∪ dm_sent d) (dm_deaths d ++ [notice]))
(** [while let Some(notification) = death_rx.recv().await] *)
| t_death d notice rest rt de : dm_running d = true -> dm_death d = None -> dm_deaths d = notice :: rest ->
    begin_death (dm_router d) notice = (rt, de) -> dtask d (with_death d rt rest de)
| t_death_section d st rt de : dm_running d = true -> dm_death d = Some st ->
    advance_death (dm_router d) st = Some (rt, de) -> dtask d (with_death d rt (dm_deaths d) de)
(** [start_expiry_sweep], every five seconds. *)
| t_sweep d now : dm_running d = true ->
    dtask d (with_router d (sweep_tick now (dm_router d)))
| t_watch d w : dm_running d = true -> wtask (watch_view d) w -> dtask d (with_watch d w).

Inductive dstep : Daemon -> Daemon -> Prop :=
| d_task d d' : dtask d d' -> dstep d d'
| d_accept {S : Type} d (next : (S * ((Z * Z * Z) + string)) + string) cid : dm_main d = Looping ->
    dstep d (accept_turn next cid d)
(** [read_line]: a line, or the end of the input or an error. *)
| d_line d i ct line : dm_running d = true -> dm_conns d !! i = Some ct -> ct_open ct = true -> ct_request ct = None ->
    dstep d (with_conn d i (conn_read line ct) (dm_router d))
| d_close d i ct : dm_running d = true -> dm_conns d !! i = Some ct -> ct_open ct = true -> ct_request ct = None ->
    dstep d (with_conn d i (conn_end ct) (disconnect (dm_router d) (ct_id ct)))
(** A section of the request. *)
| d_section `{Gui} `{AgentOs} `{Resolver} `{MapOrder} `{!MapOrderLaws} d i ct p now draw rt st :
    dm_running d = true -> dm_conns d !! i = Some ct -> ct_request ct = Some p ->
    draw_fits (dm_router d) draw (pd_stage p) ->
    advance (dm_router d) now draw (pd_peer p) (pd_connection_id p) (pd_stage p) = (rt, st) ->
    dstep d (with_conn d i (conn_at (at_stage p st) ct) rt)
(** [write_all] and [flush], or an unwinding. *)
| d_write d i ct p resp written ct' rt : dm_running d = true -> dm_conns d !! i = Some ct -> ct_request ct = Some p ->
    pd_stage p = StReply resp -> conn_write written resp ct (dm_router d) = (ct', rt) ->
    dstep d (with_conn d i ct' rt)
| d_unwind d i ct p : dm_running d = true -> dm_conns d !! i = Some ct -> ct_request ct = Some p ->
    pd_stage p = StPanicked -> dstep d (with_conn d i (conn_end ct) (dm_router d))
(** The proxies' uses of leases and the other callers of the manager. *)
| d_lease d m : dm_running d = true -> lstep (rt_leases (dm_router d)) m ->
    dstep d (with_router d (with_managers (dm_router d) m (rt_proxies (dm_router d))))
| d_exit d fp : dm_running d = true ->
    dstep d (mkDaemon (dm_gate d) (dm_host d) (dm_conns d) (dm_sent d) (dm_deaths d) (dm_death d)
               ({[fp]} ∪ dm_exited d) (dm_phase d) (dm_reloads d) (dm_main d))
(** Anything on the host; a change in the policy directory is queued by an
    open watch. *)
| d_host d h (change : option (option string)) : dm_running d = true ->
    dstep d (mkDaemon (dm_gate d) h (dm_conns d) (dm_sent d) (dm_deaths d) (dm_death d) (dm_exited d)
               (match change, dm_phase d with Some name, Armed q => Armed (q ++ [name]) | _, p => p end)
               (dm_reloads d) (dm_main d))
| d_main d d' : dmain d d' -> dstep d d'.

(** ** The system behind it *)

Definition pendings (cs : list ConnTask) : gmap nat Pending := omap ct_request (map_seq 0 cs).

Definition system_of (d : Daemon) : System := mkSystem (dm_router d) (pendings (dm_conns d)) (dm_death d).
End Daemon.
Arguments Daemon {_} _.
#[local] Arguments pendings : simpl never.

(** ** Lemmas *)

(** What is expected of serde's TOML: numbers of the width of their fields. *)
Class PolicyTyped `{GateSys} : Prop := {
  policy_typed : forall s f, policy_toml s = inl f -> Forall entry_fits (policies f)
}.

(** *** Requests of connections *)

Lemma pendings_lookup cs i : pendings cs !! i = cs !! i ≫= ct_request.
Proof. unfold pendings. by rewrite lookup_omap, lookup_map_seq_0. Qed.

Lemma pendings_insert cs i ct ct' : cs !! i = Some ct ->
  pendings (<[i := ct']> cs) =
  match ct_request ct' with Some p => <[i := p]> (pendings cs) | None => delete i (pendings cs) end.
Proof.
  intros Hi. apply map_eq. intros j. rewrite pendings_lookup. destruct (decide (i = j)) as [<-|Hne].
  - rewrite list_lookup_insert_eq by (by eapply lookup_lt_Some). cbn.
    destruct (ct_request ct'); [by rewrite lookup_insert_eq|by rewrite lookup_delete_eq].
  - rewrite list_lookup_insert_ne by done. rewrite <- pendings_lookup.
    destruct (ct_request ct'); [by rewrite lookup_insert_ne|by rewrite lookup_delete_ne].
Qed.

Lemma pendings_same cs i ct ct' : cs !! i = Some ct -> ct_request ct = None -> ct_request ct' = None ->
  pendings (<[i := ct']> cs) = pendings cs.
Proof.
  intros Hi Hn Hn'. rewrite (pendings_insert _ _ _ _ Hi), Hn'. apply delete_id. by rewrite pendings_lookup, Hi.
Qed.

Lemma pendings_accept cs cid peer : pendings (cs ++ [conn_new cid peer]) = pendings cs.
Proof.
  apply map_eq. intros j. rewrite !pendings_lookup. destruct (decide (j < length cs)%nat) as [Hj|Hj].
  - by rewrite lookup_app_l.
  - rewrite (lookup_ge_None_2 cs) by lia. rewrite lookup_app_r by lia.
    destruct (j - length cs)%nat as [|n]; [done|]. by destruct n.
Qed.

(** The id a response to the line must carry. *)
Definition line_id `{RpcCodec} (raw : list byte) : Json :=
  match parse_request raw with inl req => rq_id req | inr _ => JNull end.

(** The answer a line is owed: one that carries the id of its request. *)
Definition answers `{RpcCodec} (line : string) (resp : JsonRpcResponse) : Prop :=
  rp_id resp = line_id (as_bytes (trim_end line)).

(** The id a request in progress will answer with. *)
Definition stage_id (st : Stage) : option Json :=
  match st with
  | StRegister id _ | StVerify id _ | StEnroll id _ _ | StFresh id _ | StLookup id _ | StEvaluate id _ _
  | StPrompt id _ _ _ _ _ | StPrepare id _ _ _ _ _ | StInsert id _ _ _ | StIndex id _ _ _ | StAnnounce id _ _ _
  | StListen id _ _ => Some id
  | StSession req _ => Some (rq_id req)
  | StReply resp => Some (rp_id resp)
  | StPanicked => None
  end.

(** All lines but possibly the last have theirs; the last one is being
    handled, or the connection is over. *)
Definition conn_ok `{RpcCodec} (ct : ConnTask) : Prop :=
  exists done rest, ct_lines ct = done ++ rest /\ Forall2 answers done (ct_written ct) /\ (length rest <= 1)%nat /\
    match ct_request ct with
    | Some p => exists line, rest = [line] /\ pd_raw p = as_bytes (trim_end line) /\
                  forall id, stage_id (pd_stage p) = Some id -> id = line_id (pd_raw p)
    | None => ct_open ct = true -> rest = []
    end.

Definition notice_of (reg : AgentRegistration) : DeathNotification :=
  mkDeathNotification (fp_pid (ar_fingerprint reg)) (fp_hash (ar_fingerprint reg)).

Lemma error_id `{FmtAddr} id e : rp_id (gate_error_to_response id e) = id.
Proof. by destruct e. Qed.

Section ConnLemmas.
Context `{Fmt} `{Gui} `{FmtAddr} `{AgentOs} `{Sha256} `{FmtParse} `{HmacSha256}.
Context `{Build} `{Chrono} `{Resolver} `{!RpcCodec} `{TextParse} `{LruCache} `{MapOrder}.

Lemma receive_id raw id : stage_id (receive raw) = Some id -> id = line_id raw.
Proof.
  unfold receive, line_id. destruct (parse_request raw) as [req|e]; cbv zeta; [|by intros [= <-]].
  repeat case_match; by intros [= <-].
Qed.

Lemma advance_id rt now draw peer cid st rt' st' id :
  advance rt now draw peer cid st = (rt', st') -> stage_id st' = Some id -> stage_id st = Some id.
Proof.
  intros Ha. destruct st; cbn [advance register_section credential_section grant_section] in Ha.
  all: repeat match type of Ha with
    | context [match ?x with _ => _ end] =>
        lazymatch x with context [match _ with _ => _ end] => fail | _ => destruct x end
    end; injection Ha as _ <-; cbn; rewrite ?error_id; done.
Qed.

Lemma read_conn_ok line ct : ct_open ct = true -> ct_request ct = None -> conn_ok ct -> conn_ok (conn_read line ct).
Proof.
  intros Ho Hn (done & rest & Hl & Hf & _ & Hrest). rewrite Hn in Hrest. specialize (Hrest Ho) as ->.
  rewrite app_nil_r in Hl. exists done, [line]. cbn. rewrite Hl. split_and!; [done|done|lia|]. exists line.
  split_and!; [done|done|]. apply receive_id.
Qed.

Lemma advance_conn_ok rt now draw p ct rt' st' : ct_request ct = Some p ->
  advance rt now draw (pd_peer p) (pd_connection_id p) (pd_stage p) = (rt', st') ->
  conn_ok ct -> conn_ok (conn_at (at_stage p st') ct).
Proof.
  intros Hp Ha (done & rest & Hl & Hf & Hle & Hrest). rewrite Hp in Hrest. destruct Hrest as (line & -> & Hraw & Hid).
  exists done, [line]. split_and!; [done|done|cbn; lia|]. exists line. split_and!; [done|done|]. cbn.
  intros id Hs. by apply Hid, (advance_id _ _ _ _ _ _ _ _ _ Ha).
Qed.

Lemma end_conn_ok ct : conn_ok ct -> conn_ok (conn_end ct).
Proof. intros (done & rest & Hl & Hf & Hle & _). by exists done, rest. Qed.

Lemma write_conn_ok written resp ct p rt ct' rt' : ct_request ct = Some p -> pd_stage p = StReply resp ->
  conn_write written resp ct rt = (ct', rt') -> conn_ok ct -> conn_ok ct'.
Proof.
  intros Hp Hs Hw Hc. unfold conn_write in Hw. destruct written; injection Hw as <- _; [|by apply end_conn_ok].
  destruct Hc as (done & rest & Hl & Hf & Hle & Hrest). rewrite Hp in Hrest. destruct Hrest as (line & -> & Hraw & Hid).
  exists (done ++ [line]), []. cbn. rewrite app_nil_r. split_and!; [done| |lia|done].
  apply Forall2_app; [done|]. constructor; [|constructor]. unfold answers. rewrite <- Hraw. apply Hid. by rewrite Hs.
Qed.

(** Without interleaving, the turns are [handle_connection]. *)
Lemma turns_are_connection events : forall ct rt, ct_open ct = true ->
  let '(ct', rt') := connection_run (events ++ [Eof]) ct rt in
  exists out ended, connection_loop rt (ct_peer ct) (ct_id ct) events (ct_written ct) = (out, ct_written ct', ended) /\
    rt' = (if ended then disconnect out (ct_id ct) else out).
Proof.
  induction events as [|ev events IH]; intros ct rt Hopen; cbn [app connection_run].
  { rewrite Hopen. cbn. by eexists _, true. }
  assert (forall l c r, ct_open c = false -> connection_run l c r = (c, r)) as Hstop
    by (intros [|e l] c r Hc; cbn; by rewrite ?Hc).
  rewrite Hopen. destruct ev as [|line now draw written|]; cbn [connection_turn connection_loop].
  - rewrite Hstop by done. by eexists _, true.
  - cbn [conn_read ct_peer ct_id]. rewrite sections_are_handle_request.
    destruct (handle_request _ _ _ _ _ _) as [rt1 [resp|e|]]; cbn [outcome];
      [|rewrite Hstop by done; by eexists _, false..].
    unfold conn_write. destruct written; [|rewrite Hstop by done; by eexists _, true].
    exact (IH (mkConnTask (ct_id ct) (ct_peer ct) (ct_lines ct ++ [line]) (ct_written ct ++ [resp]) None true) rt1 eq_refl).
  - rewrite Hstop by done. by eexists _, true.
Qed.
End ConnLemmas.

Section DaemonLemmas.
Context `{Fmt} `{FmtAddr} `{AgentOs} `{Sha256} `{FmtParse} `{HmacSha256}.
Context `{Build} `{Chrono} `{!ChronoLaws} `{!RpcCodec} `{!RpcTyped} `{TextParse} `{LruCache}.
Context `{ConfigToml} `{IdentityCrates} `{Base64Std} `{GateSys} `{!PolicyTyped} `{Argon2} `{Aead} `{DevVaultCodec}.
Context `{OsRng Host} {C : Type} `{SpawnOs Host C} `{Read C} `{Write C} `{VaultCodec}.

(** *** Policies *)

Lemma load_fits (h : Host) dir es : load_policies_from_dir (H0:=policy_fs h) dir = Ok es -> Forall entry_fits es.
Proof.
  unfold load_policies_from_dir. destruct (negb _); [done|]. destruct (negb _); [done|].
  destruct (PolicyParser.read_dir dir); [|done]. intros (pss & Hf & _ & ->)%load_files_ok. cbn [app].
  apply Forall_concat. induction Hf as [|name ps names pss (content & _ & Ht) _ IH]; constructor; [|done].
  exact (policy_typed _ _ Ht).
Qed.

Lemma start_router k gk h h1 g : gate_start k gk h = (h1, Ok g) ->
  exists n pc eng, g_router g = router_new gk n (manager_new gk true) (proxy_manager_new pc) eng /\
    Forall entry_fits (loaded (evaluator eng)).
Proof.
  unfold gate_start. intros (hi & [c id] & _ & Hg)%bind_ok. unfold gate_parts in Hg.
  apply bind_ok in Hg as (? & [] & _ & Hg). apply bind_ok in Hg as (? & eng & He%map_errM_ok & Hg).
  apply bind_ok in Hg as (? & prov & _ & Hg). apply bind_ok in Hg as (? & pc & _ & Hg).
  apply bind_ok in Hg as (? & l & _ & Hg). apply bind_ok in Hg as (? & [] & _ & [= _ <-]).
  eexists _, pc, eng. split; [done|]. unfold engine_start in He. injection He as _ He. unfold engine_new in He.
  apply rbind_ok in He as (fs & Hfs & (ps & Hps & [= <-])%rbind_ok). cbn [evaluator loaded].
  assert (exists h', fs = policy_fs h') as [h' ->]; [|by eapply load_fits].
  revert Hfs. destruct (negb _); [|intros [= <-]; by eexists].
  destruct (fs_create_dir_all _ _) as [h2 [[]|e|]]; intros [= <-]; by eexists.
Qed.

(** *** Steps *)

Record daemon_ok (d : Daemon C) : Prop := {
  do_system : system_ok (system_of d);
  do_reloads : Forall (Forall entry_fits) (dm_reloads d);
  do_sending : forall es, dm_phase d = Sending es -> Forall entry_fits es;
  do_sent : forall n, n ∈ dm_sent d -> (n < length (rt_monitors (dm_router d)))%nat;
  do_conns : Forall conn_ok (dm_conns d)
}.

Lemma do_gate d : daemon_ok d -> gate_ok (dm_router d).
Proof. intros Hok. exact (so_gate _ (do_system _ Hok)). Qed.

Lemma with_same_engine (rt : Router) : with_engine rt (rt_engine rt) = rt.
Proof. by destruct rt. Qed.

(** The watcher's tasks: the router takes a reload or nothing. *)
Lemma watch_task (d : Daemon C) w : wtask (watch_view d) w -> Forall (Forall entry_fits) (dm_reloads d) ->
  (forall es, dm_phase d = Sending es -> Forall entry_fits es) ->
  rtc gstep (system_of d) (with_sy_router (system_of d) (with_engine (dm_router d) (w_engine w))) /\
  Forall (Forall entry_fits) (w_channel w) /\ (forall es, w_phase w = Sending es -> Forall entry_fits es).
Proof.
  intros Ht Hf Hs. assert (forall eng, eng = rt_engine (dm_router d) ->
    rtc gstep (system_of d) (with_sy_router (system_of d) (with_engine (dm_router d) eng))) as Hsame
    by (intros ? ->; by rewrite with_same_engine).
  inversion Ht as [? _ E|? _ E|? ? _ _ E|? ? _ E|? q _ E|? es Hph _ E|? es _ E|? ps rest Hch E]; subst; cbn;
    try (by split_and!; [apply Hsame|..]).
  - unfold reload_round. cbn [watch_view w_disk w_engine].
    destruct (load_policies_from_dir _) as [es|e|] eqn:El; cbn; [|by split_and!; [apply Hsame|..]..].
    split_and!; [by apply Hsame|done|]. intros ? [= <-]. by eapply load_fits.
  - split_and!; [by apply Hsame| |done]. apply Forall_app. split; [done|]. constructor; [by apply Hs|constructor].
  - cbn in Hch. rewrite Hch in Hf. apply Forall_cons in Hf as [Hps Hrest]. split_and!; [|done|exact Hs].
    exact (rtc_once _ _ (g_reload (system_of d) ps Hps)).
Qed.

Lemma dtask_gsteps (d d' : Daemon C) : dtask d d' -> Forall (Forall entry_fits) (dm_reloads d) ->
  (forall es, dm_phase d = Sending es -> Forall entry_fits es) ->
  rtc gstep (system_of d) (system_of d').
Proof.
  intros [d0 n notice fd _ _ _ _ _|d0 notice rest rt de _ Hde _ Hb|d0 st rt de _ Hde Ha|d0 now _|d0 w _ Hw] Hf Hs; [done|..].
  - apply rtc_once. by apply (g_death (system_of d0) notice).
  - apply rtc_once. by apply (g_death_section (system_of d0) st).
  - apply rtc_once. exact (g_lease (system_of d0) _ (step_sweep _ now)).
  - by apply watch_task.
Qed.

(** The daemon's steps are steps of the gate. *)
Lemma dstep_gsteps (d d' : Daemon C) : dstep d d' -> Forall (Forall entry_fits) (dm_reloads d) ->
  (forall es, dm_phase d = Sending es -> Forall entry_fits es) ->
  rtc gstep (system_of d) (system_of d').
Proof.
  intros [d0 d1 Ht|S d0 next cid _|d0 i ct line _ Hi _ Hn|d0 i ct _ Hi _ Hn|gui os dns ord laws d0 i ct p now draw rt st _ Hi Hp Hd Ha|
    d0 i ct p resp written ct' rt _ Hi Hp Hs Hw|d0 i ct p _ Hi Hp Hs|d0 m _ Hl|d0 fp _|d0 h change _|d0 d1 Hm] Hf Hsend; try done.
  - by apply dtask_gsteps.
  - unfold accept_turn. destruct (accept next) as [[st peer]| |]; [|done..]. unfold system_of. cbn. by rewrite pendings_accept.
  - unfold system_of. cbn. rewrite (pendings_insert _ _ _ _ Hi). cbn. apply rtc_once.
    apply (g_receive (system_of d0) i). cbn. by rewrite pendings_lookup, Hi.
  - unfold system_of. cbn. rewrite (pendings_same _ _ _ _ Hi Hn) by done. apply rtc_once.
    exact (g_disconnect (system_of d0) (ct_id ct)).
  - unfold system_of. cbn. rewrite (pendings_insert _ _ _ _ Hi). cbn. apply rtc_once.
    apply (g_section (system_of d0) i p now draw); [|done|done]. cbn. by rewrite pendings_lookup, Hi.
  - assert (sy_requests (system_of d0) !! i = Some p) as Hr by (cbn; by rewrite pendings_lookup, Hi).
    eapply rtc_l; [apply (g_done _ _ _ Hr); by rewrite Hs|]. unfold system_of, conn_write in *. cbn.
    rewrite (pendings_insert _ _ _ _ Hi). destruct written; injection Hw as <- <-; cbn; [done|]. apply rtc_once.
    exact (g_disconnect (mkSystem (dm_router d0) (delete i (pendings (dm_conns d0))) (dm_death d0)) (ct_id ct)).
  - assert (sy_requests (system_of d0) !! i = Some p) as Hr by (cbn; by rewrite pendings_lookup, Hi).
    unfold system_of. cbn. rewrite (pendings_insert _ _ _ _ Hi). cbn. apply rtc_once, (g_done _ _ _ Hr). by rewrite Hs.
  - apply rtc_once. exact (g_lease (system_of d0) _ Hl).
  - destruct Hm; try done. apply rtc_once. exact (g_stop (system_of d0)).
Qed.

Lemma run_grows s s' : rtc gstep s s' -> system_ok s ->
  rt_monitors (sy_router s) `prefix_of` rt_monitors (sy_router s') /\
  rtc lstep (rt_leases (sy_router s)) (rt_leases (sy_router s')).
Proof.
  induction 1 as [|x y z Hs _ IH]; [done|]. intros Hok. destruct (IH (system_ok_step _ _ Hs Hok)) as [Hm Hl].
  destruct (gstep_router _ _ Hs (so_gate _ Hok) (so_requests _ Hok)) as [_ [Hm' _ Hl']]. split; by etrans.
Qed.

Lemma dstep_ok (d d' : Daemon C) : dstep d d' -> daemon_ok d -> daemon_ok d'.
Proof.
  intros Hstep [Hsys Hrel Hsend Hsent Hconns]. pose proof (dstep_gsteps _ _ Hstep Hrel Hsend) as Hrun.
  pose proof (system_ok_run _ _ Hrun Hsys) as Hsys'. destruct (run_grows _ _ Hrun Hsys) as [[new Hmon] _].
  assert (forall n, n ∈ dm_sent d -> (n < length (rt_monitors (dm_router d')))%nat) as Hsent'.
  { intros n Hn%Hsent. change (rt_monitors (dm_router d')) with (rt_monitors (sy_router (system_of d'))).
    rewrite Hmon, length_app. cbn. lia. }
  clear Hrun Hmon.
  destruct Hstep as [d0 d1 Ht|S d0 next cid Hr|d0 i ct line Hr Hi Ho Hn|d0 i ct Hr Hi Ho Hn|
    gui os dns ord laws d0 i ct p now draw rt st Hr Hi Hp Hd Ha|d0 i ct p resp written ct' rt Hr Hi Hp Hs Hw|
    d0 i ct p Hr Hi Hp Hs|d0 m Hr Hl|d0 fp Hr|d0 h change Hr|d0 d1 Hm].
  - destruct Ht as [d0 n notice fd Hr Hm _ _ _|d0 notice rest rt de Hr _ _ _|d0 st rt de Hr _ _|d0 now Hr|d0 w Hr Hw];
      split; cbn in *; try done.
    + intros n' [->%elem_of_singleton|Hn']%elem_of_union; [by eapply lookup_lt_Some|by apply Hsent'].
    + by apply watch_task in Hw as (_ & ? & _).
    + by apply watch_task in Hw as (_ & _ & ?).
  - unfold accept_turn in *. destruct (accept next) as [[st peer]|e|]; [|by split..]. split; try done. cbn.
    apply Forall_app. split; [done|]. constructor; [|constructor]. exists [], []. by split_and!; [..|simpl; lia|].
  - split; [done..|]. apply Forall_insert; [done|]. apply read_conn_ok; [done..|].
    by eapply Forall_lookup_1.
  - split; [done..|]. apply Forall_insert; [done|]. apply end_conn_ok.
    by eapply Forall_lookup_1.
  - split; [done..|]. apply Forall_insert; [done|].
    eapply advance_conn_ok; [done..|]. by eapply Forall_lookup_1.
  - split; [done..|]. apply Forall_insert; [done|].
    eapply write_conn_ok; [done..|]. by eapply Forall_lookup_1.
  - split; [done..|]. apply Forall_insert; [done|]. apply end_conn_ok.
    by eapply Forall_lookup_1.
  - by split.
  - by split.
  - split; try done. intros es E. apply Hsend. cbn in E. by destruct change, (dm_phase d0).
  - by destruct Hm.
Qed.

Lemma dtask_ok (d d' : Daemon C) : dtask d d' -> daemon_ok d -> daemon_ok d'.
Proof. intros Ht. by apply dstep_ok, d_task. Qed.

Lemma daemon_ok_start k gk h h1 g : gate_start k gk h = (h1, Ok g) -> daemon_ok (daemon_start g h1).
Proof.
  intros (n & pc & eng & Hr & He)%start_router. split; cbn; [|constructor|done| |constructor].
  - apply system_ok_new. unfold dm_router. cbn. rewrite Hr. by apply gate_ok_new.
  - intros m Hm. set_solver.
Qed.

Lemma daemon_ok_run (d d' : Daemon C) : rtc dstep d d' -> daemon_ok d -> daemon_ok d'.
Proof. induction 1 as [|x y z Hs _ IH]; [done|]. intros Hx. by apply IH, (dstep_ok x). Qed.
End DaemonLemmas.

(** ** Properties *)

Section DaemonProps.
Context `{Fmt} `{FmtAddr} `{AgentOs} `{Sha256} `{FmtParse} `{HmacSha256}.
Context `{Build} `{Chrono} `{!ChronoLaws} `{!RpcCodec} `{!RpcTyped} `{TextParse} `{LruCache}.
Context `{ConfigToml} `{IdentityCrates} `{Base64Std} `{GateSys} `{!PolicyTyped} `{Argon2} `{Aead} `{DevVaultCodec}.
Context `{OsRng Host} {C : Type} `{SpawnOs Host C} `{Read C} `{Write C} `{VaultCodec}.

(** *** Listeners *)

(** Only the last section of a request starts a listener. *)
Lemma advance_listener `{Gui} `{AgentOs} `{Resolver} `{MapOrder} rt now draw peer cid st rt' st' id v :
  advance rt now draw peer cid st = (rt', st') -> listeners (rt_proxies rt') !! id = Some v ->
  listeners (rt_proxies rt) !! id = Some v \/ exists jid granted lease, st = StListen jid granted lease /\ lease_id lease = id.
Proof.
  destruct st as [| | |req o| | | | | | | |jid ag g l|jid g l| |]; cbn [advance register_section credential_section grant_section]; intros Ha Hl;
    try (left; repeat case_match; by simplify_eq).
  unfold start_proxy in Ha. destruct (find_free_port _) as [port|]; injection Ha as <- _; [|by left].
  cbn in Hl. apply lookup_insert_Some in Hl as [[<- _]|[_ Hl]]; [right|by left]. by exists jid, g, l.
Qed.

Lemma death_listener rt st rt' de id v : advance_death rt st = Some (rt', de) ->
  listeners (rt_proxies rt') !! id = Some v -> listeners (rt_proxies rt) !! id = Some v.
Proof.
  destruct st as [fp|fp [|y rest] revoked|fp y rest revoked|fp y rest revoked|fp revoked|[|y rest]];
    cbn [advance_death]; try (by intros [= <- _]).
  - by intros (ds & _ & [= <- _])%bind_Some.
  - by intros ([m r] & _ & [= <- _])%bind_Some.
  - intros [= <- _]. cbn. unfold release_lease. destruct (listeners _ !! y) as [[]|]; [|done]. cbn. by intros [_ ?]%lookup_delete_Some.
Qed.

(** A request is about to start the listener of the lease. *)
Definition about_to_listen (id : string) (d : Daemon C) : Prop :=
  exists i ct p jid granted lease, dm_conns d !! i = Some ct /\ ct_request ct = Some p /\
    pd_stage p = StListen jid granted lease /\ lease_id lease = id.

Lemma dstep_listener (d d' : Daemon C) id v : dstep d d' -> listeners (rt_proxies (dm_router d')) !! id = Some v ->
  listeners (rt_proxies (dm_router d)) !! id = Some v \/ about_to_listen id d.
Proof.
  intros Hs Hl. destruct Hs as [d0 d1 Ht|S d0 next cid _|d0 i ct line _ _ _ _|d0 i ct _ _ _ _|gui os dns ord laws d0 i ct p now draw rt st _ Hi Hp _ Ha|
    d0 i ct p resp written ct' rt _ _ _ _ Hw|d0 i ct p _ _ _ _|d0 m _ _|d0 fp _|d0 h change _|d0 d1 Hm]; try (by left).
  - left. destruct Ht as [d0 n notice fd _ _ _ _ _|d0 notice rest rt de _ _ _ Hb|d0 st rt de _ _ Ha|d0 now _|d0 w _ _]; try done.
    + unfold begin_death in Hb. destruct (rt_registry _ !! _); by injection Hb as <- _.
    + by eapply death_listener.
  - left. unfold accept_turn in Hl. by destruct (accept next) as [[]| |].
  - destruct (advance_listener _ _ _ _ _ _ _ _ _ _ Ha Hl) as [?|(jid & g & l & Hst & Hid)]; [by left|].
    right. by exists i, ct, p, jid, g, l.
  - left. unfold conn_write in Hw. destruct written; by injection Hw as _ <-.
  - left. by destruct Hm.
Qed.

(** A listener that appears along a run was started in it. *)
Lemma run_listener (d d' : Daemon C) id v : rtc dstep d d' -> listeners (rt_proxies (dm_router d)) !! id = None ->
  listeners (rt_proxies (dm_router d')) !! id = Some v ->
  exists da db, rtc dstep d da /\ dstep da db /\ rtc dstep db d' /\ about_to_listen id da.
Proof.
  induction 1 as [d|d d1 d' Hs Hr IH]; intros Hn Hv; [congruence|].
  destruct (listeners (rt_proxies (dm_router d1)) !! id) as [v1|] eqn:E.
  - destruct (dstep_listener _ _ _ _ Hs E) as [E'|Ha]; [congruence|]. by exists d, d1.
  - destruct (IH eq_refl Hv) as (da & db & Ha & ?). exists da, db. split; [by eapply rtc_l|done].
Qed.

(** [gate_main] comes to its end by itself, as [gate_shutdown] does. *)
Lemma main_exits (d : Daemon C) : dm_main d = Stopping ->
  let '(g, h, _) := gate_shutdown (dm_gate d) (dm_host d) in rtc dmain d (at_main d g h Exited).
Proof.
  intros Hm. unfold gate_shutdown. destruct (map_errM _ _ _) as [h1 r] eqn:Hc.
  eapply rtc_l; [by apply m_stop|]. eapply rtc_l; [by apply m_cleanup|]. eapply rtc_l; [by apply m_leave|].
  unfold leave, clean_up, stop_proxies. cbn. by rewrite Hc.
Qed.

(** C9. From start to stop: a gate that started runs as the gate's abstract steps
    allow, however its tasks and the sections of the requests of its clients
    interleave and whatever the processes and the disk do meanwhile, the
    shutdown after a signal included, and stays well-formed.  Once signalled,
    [gate_main] comes to its end by itself, with the state and the files
    [gate_shutdown] leaves when nothing comes between its sections; its first
    section leaves no proxy listener, and one that is there later was started
    by a request that was at its last section after that. *)
Theorem running_gate_refines_steps (k gk : list byte) (h h1 : Host) (g : Gate (C:=C)) (d : Daemon C) :
  gate_start k gk h = (h1, Ok g) -> rtc dstep (daemon_start g h1) d ->
  rtc gstep (system_new (g_router g)) (system_of d) /\ system_ok (system_of d) /\
  (dm_main d = Stopping ->
     listeners (rt_proxies (dm_router (stop_proxies d))) = ∅ /\
     (forall d' id v, rtc dstep (stop_proxies d) d' -> listeners (rt_proxies (dm_router d')) !! id = Some v ->
        exists da db, rtc dstep (stop_proxies d) da /\ dstep da db /\ rtc dstep db d' /\ about_to_listen id da) /\
     let '(g', h', _) := gate_shutdown (dm_gate d) (dm_host d) in rtc dmain d (at_main d g' h' Exited)).
Proof.
  intros Hs%daemon_ok_start Hrun. split; [|split].
  - assert (system_of (daemon_start g h1) = system_new (g_router g)) as <- by done.
    revert Hs. induction Hrun as [|x y z Hxy _ IH]; [done|].
    intros Hx. etrans; [exact (dstep_gsteps _ _ Hxy (do_reloads _ Hx) (do_sending _ Hx))|]. by apply IH, (dstep_ok x).
  - by apply do_system, (daemon_ok_run (daemon_start g h1)).
  - intros Hm. split; [done|]. split; [|by apply main_exits].
    intros d' id v Hr Hv. by eapply run_listener.
Qed.

(** A request that gets to its last section after [stop_all] starts a listener
    all the same, and the gate exits with it open. *)
Theorem listener_outlives_stop_all `{Gui} `{Resolver} `{MapOrder} `{!MapOrderLaws} (d : Daemon C) (i : nat) (ct : ConnTask)
    (p : Pending) (jid : Json) (granted : Scope) (lease : Lease) :
  dm_main d = Cleaning -> dm_conns d !! i = Some ct -> ct_request ct = Some p -> pd_stage p = StListen jid granted lease ->
  is_Some (find_free_port (rt_proxies (dm_router d))) ->
  exists d', rtc dstep d d' /\ dm_main d' = Exited /\ is_Some (port_for_lease (rt_proxies (dm_router d')) (lease_id lease)).
Proof.
  intros Hm Hi Hp Hst [port Hport]. destruct (advance (dm_router d) 0 (mkDraw [] [] 0) (pd_peer p) (pd_connection_id p)
    (pd_stage p)) as [rt st] eqn:Ha. set (d1 := with_conn d i (conn_at (at_stage p st) ct) rt).
  exists (leave (clean_up d1)). split_and!; [|done|].
  - eapply rtc_l; [eapply (d_section d i ct p 0 (mkDraw [] [] 0)); [unfold dm_running; by rewrite Hm|done|done|by rewrite Hst|exact Ha]|].
    eapply rtc_l; [by apply d_main, (m_cleanup d1)|]. by apply rtc_once, d_main, m_leave.
  - rewrite Hst in Ha. cbn [advance grant_section] in Ha. unfold start_proxy in Ha. rewrite Hport in Ha.
    injection Ha as <- _. exists port. unfold port_for_lease. cbn. by rewrite lookup_insert_eq.
Qed.

(** C34. Every request is answered once, in order: on each connection the gate has
    accepted, the responses written are those of its lines, one each, in
    their order and with the id the line carries (null when it does not
    parse), however the connections interleave; at most the last line has none
    yet, while it is being handled or when the connection is over. *)
Theorem requests_answered_in_order (k gk : list byte) (h h1 : Host) (g : Gate (C:=C)) (d : Daemon C) (ct : ConnTask) :
  gate_start k gk h = (h1, Ok g) -> rtc dstep (daemon_start g h1) d -> ct ∈ dm_conns d ->
  exists done rest, ct_lines ct = done ++ rest /\ Forall2 answers done (ct_written ct) /\
    (length rest <= 1)%nat /\ (ct_open ct = true -> ct_request ct = None -> rest = []).
Proof.
  intros Hs%daemon_ok_start Hrun Hct. pose proof (do_conns _ (daemon_ok_run _ _ Hrun Hs)) as Hc.
  rewrite Forall_forall in Hc. destruct (Hc _ Hct) as (done & rest & Hl & Hf & Hle & Hrest).
  exists done, rest. split_and!; [done..|]. intros Ho Hn. rewrite Hn in Hrest. by apply Hrest.
Qed.

(** *** The death task *)

Lemma same_death (d : Daemon C) : with_death d (dm_router d) (dm_deaths d) (dm_death d) = d.
Proof. by destruct d as [[] ? ? ? ? ? ? ? ? ?]. Qed.

(** The sections of a death are steps of the task. *)
Lemma sections_are_tasks x y : rtc death_section x y -> forall d : Daemon C, dm_running d = true ->
  x = (dm_router d, dm_death d) -> rtc dtask d (with_death d y.1 (dm_deaths d) y.2).
Proof.
  induction 1 as [x|x [rt1 de1] y (st & Hst & Ha) _ IH]; intros d Hr ->; [by rewrite same_death|].
  eapply rtc_l; [by eapply (t_death_section d st)|].
  exact (IH (with_death d rt1 (dm_deaths d) de1) Hr eq_refl).
Qed.

(** The sections of a death end. *)
Lemma death_sections_end (rt : Router) st : inv (rt_leases rt) -> exists rt', rtc death_section (rt, Some st) (rt', None).
Proof.
  assert (forall rt ids, exists rt', rtc death_section (rt, Some (DeRelease ids)) (rt', None)) as Hrel
    by (intros; eexists; apply death_releases).
  assert (forall rt fp revoked, exists rt', rtc death_section (rt, Some (DeDrop fp revoked)) (rt', None)) as Hdrop.
  { intros rt0 fp revoked. destruct (Hrel (with_managers rt0 (with_index (rt_leases rt0) (delete fp (agent_leases (rt_leases rt0))))
      (rt_proxies rt0)) revoked) as [rt' Hr]. exists rt'. eapply rtc_l; [by apply death_step|exact Hr]. }
  assert (forall rt fp ids revoked, inv (rt_leases rt) ->
    exists rt', rtc death_section (rt, Some (DeRoot fp ids revoked)) (rt', None)) as Hroot.
  { intros rt0 fp ids revoked Hinv. destruct (revoke_roots_ok "agent process exited" ids (rt_leases rt0) revoked Hinv)
      as (m & rv & Hr & _). destruct (Hdrop (with_managers rt0 m (rt_proxies rt0)) fp rv) as [rt' Hd].
    exists rt'. etrans; [exact (death_roots fp _ _ _ _ _ Hr)|exact Hd]. }
  assert (forall rt fp id rest revoked, inv (rt_leases rt) ->
    exists rt', rtc death_section (rt, Some (DeRevoke fp id rest revoked)) (rt', None)) as Hrev.
  { intros rt0 fp id rest revoked Hinv. destruct (leases (rt_leases rt0) !! id) as [l|] eqn:Hl.
    - destruct (revoke_lease_ok _ id "agent process exited" l (inv_forest _ Hinv) Hl) as (m & _ & Hr & _).
      destruct (Hroot (with_managers rt0 m (rt_proxies rt0)) fp rest revoked) as [rt' Hrt];
        [exact (inv_step _ _ (step_revoke _ _ _ _ _ Hr) Hinv)|].
      exists rt'. eapply rtc_l; [apply death_step; cbn [advance_death]; by rewrite Hr|exact Hrt].
    - eexists. apply rtc_once, death_step. cbn [advance_death]. unfold revoke_lease. by rewrite Hl. }
  intros Hinv. destruct st as [fp|fp ids revoked|fp id rest revoked|fp id rest revoked|fp revoked|ids]; try by auto.
  - destruct (Hroot rt fp (default [] (agent_leases (rt_leases rt) !! fp)) [] Hinv) as [rt' Hr].
    exists rt'. eapply rtc_l; [by apply death_step|exact Hr].
  - assert (exists ds, collect_descendants (leases (rt_leases rt)) id = Some ds) as [ds Hds].
    { destruct (leases (rt_leases rt) !! id) as [l|] eqn:Hl.
      - destruct (collect_descendants_exact _ (inv_forest _ Hinv) id l Hl) as (ds & ? & _). by exists ds.
      - exists []. unfold collect_descendants. by rewrite Hl. }
    destruct (Hrev rt fp id rest ((revoked ++ [id]) ++ ds) Hinv) as [rt' Hr].
    exists rt'. eapply rtc_l; [apply death_step; cbn [advance_death]; by rewrite Hds|exact Hr].
Qed.

(** A notification being handled never blocks the channel: the task's own
    sections lead to a state in which it takes the next one. *)
Theorem death_handling_ends (k gk : list byte) (h h1 : Host) (g : Gate (C:=C)) (d : Daemon C) :
  gate_start k gk h = (h1, Ok g) -> rtc dstep (daemon_start g h1) d -> dm_running d = true ->
  exists rt, rtc dtask d (with_death d rt (dm_deaths d) None).
Proof.
  intros Hs%daemon_ok_start Hrun Hr. pose proof (daemon_ok_run _ _ Hrun Hs) as Hok.
  destruct (dm_death d) as [st|] eqn:Hde.
  - destruct (death_sections_end (dm_router d) st) as [rt Hsec]; [apply reachable_inv, go_leases, do_gate, Hok|].
    exists rt. rewrite <- Hde in Hsec. exact (sections_are_tasks _ _ Hsec d Hr eq_refl).
  - exists (dm_router d). rewrite <- Hde, same_death. done.
Qed.

(** An idle death task empties the channel. *)
Lemma drain_deaths (d : Daemon C) : daemon_ok d -> dm_running d = true -> dm_death d = None ->
  exists rt, rtc dtask d (with_death d rt [] None) /\ handle_deaths (dm_router d) (dm_deaths d) = Some rt /\
    daemon_ok (with_death d rt [] None) /\ rt_monitors rt = rt_monitors (dm_router d).
Proof.
  remember (dm_deaths d) as ns eqn:Hns. revert d Hns. induction ns as [|n ns IH]; intros d Hns Hok Hrun Hde.
  { exists (dm_router d). assert (with_death d (dm_router d) [] None = d) as -> by (rewrite Hns, <- Hde; apply same_death).
    by split_and!. }
  destruct (handle_death_total (dm_router d) n (go_leases _ (do_gate _ Hok))) as (rt & Hd & _ & _ & _ & Hm & _).
  pose proof (sections_are_handle_death _ _ _ Hd) as Hsec.
  destruct (begin_death (dm_router d) n) as [rt0 de] eqn:Hb.
  set (d0 := with_death d rt0 ns de). assert (dtask d d0) as Ht by (by apply (t_death d n ns rt0 de)).
  pose proof (sections_are_tasks _ _ Hsec d0 Hrun eq_refl) as Hts. cbn in Hts.
  assert (daemon_ok (with_death d0 rt ns None)) as Hok1.
  { eapply daemon_ok_run; [|exact Hok]. eapply rtc_l; [exact (d_task _ _ Ht)|].
    clear -Hts. induction Hts as [|? ? ? Ht _ IHts]; [done|]. eapply rtc_l; [by apply d_task|exact IHts]. }
  destruct (IH (with_death d0 rt ns None) eq_refl Hok1 Hrun eq_refl) as (rt' & Hr & Hh & Hok' & Hm').
  exists rt'. split_and!; [|cbn [handle_deaths]; rewrite Hd; exact Hh|exact Hok'|by rewrite Hm'].
  eapply rtc_l; [exact Ht|]. etrans; [exact Hts|exact Hr].
Qed.

(** The death of the agent is still going to be noticed: a monitor of it has
    not sent yet, or what it sent is in the channel. *)
Definition watched (d : Daemon C) (reg : AgentRegistration) : Prop :=
  exists n, rt_monitors (dm_router d) !! n = Some (notice_of reg) /\ (n ∉ dm_sent d \/ notice_of reg ∈ dm_deaths d).

(** An agent that lives can be torn down as well: when the reactor does not
    take the pidfd, its monitor reports its death at once. *)
Theorem unwatchable_agent_is_reported_dead (d : Daemon C) (n : nat) (reg : AgentRegistration) :
  dm_running d = true -> rt_monitors (dm_router d) !! n = Some (notice_of reg) -> n ∉ dm_sent d ->
  (length (dm_deaths d) < DEATH_CAPACITY)%nat -> fp_hash (ar_fingerprint reg) ∉ dm_exited d ->
  exists d', dtask d d' /\ notice_of reg ∈ dm_deaths d' /\ fp_hash (ar_fingerprint reg) ∉ dm_exited d'.
Proof.
  intros Hr Hm Hn Hc He. eexists. split; [by eapply (t_monitor d n (notice_of reg) false)|].
  split; [cbn; set_solver|done].
Qed.

(** A connection that nothing interleaves with, taken turn by turn up to the
    end of its input, is [handle_connection]: the same router and the same
    responses. *)
Theorem turns_are_handle_connection `{Gui} `{Resolver} `{MapOrder} (rt : Router) (peer : PeerInfo) (cid : list byte)
    (events : list ReadEvent) :
  let '(ct, rt') := connection_run (events ++ [Eof]) (conn_new cid peer) rt in
  handle_connection rt peer cid events = (rt', ct_written ct).
Proof.
  pose proof (turns_are_connection events (conn_new cid peer) rt eq_refl) as Ht.
  destruct (connection_run _ _ _) as [ct rt']. destruct Ht as (out & ended & Hl & ->).
  unfold handle_connection. cbn in Hl. by rewrite Hl.
Qed.
End DaemonProps.

(** ** A gate to run *)

#[local] Existing Instances plain_fmt timed_gui plain_addr stat_os id_sha plain_parse demo_mac release_build
  chrono_range demo_dns plain_base64 two_tomls plain_identity calm_sys no_argon no_aead no_dev_codec still_rng no_spawn
  no_codec nil_write any_lru.

#[local] Instance daemon_chrono_laws : ChronoLaws (H:=chrono_range).
Proof. split; reflexivity. Qed.
#[local] Instance daemon_text : TextParse := {| uuid_version := fun _ => Some 4; parse_rfc3339 := fun _ => Some 0 |}.
#[local] Instance daemon_order : MapOrder := {| values_order := fun m => map snd (map_to_list m) |}.
#[local] Instance daemon_order_laws : MapOrderLaws.
Proof. split. intros m reg ([k r] & -> & Hin)%list_elem_of_fmap. exists k. by apply elem_of_map_to_list. Qed.
(** One line registers, every other does not parse. *)
#[local] Instance daemon_codec : RpcCodec :=
  {| parse_request := fun raw =>
       if bool_decide (raw = as_bytes "R") then inl (mkJsonRpcRequest "2.0" "cdp.register" JNull (JNumber (PosInt 7)))
       else inr "EOF";
     parse_register := fun _ => inl (mkRegisterParams "agent" "1" [] None "nonce-1" "t0");
     parse_credential := fun _ => inr "no";
     register_to_value := fun r => JString (rr_agent_fingerprint r); credential_to_value := fun _ => JNull |}.
#[local] Instance daemon_typed : RpcTyped.
Proof. split. intros v p. done. Qed.
#[local] Instance daemon_policies : PolicyTyped.
Proof. split. intros s f. done. Qed.

(** The first connection's request takes one section. *)
Definition section_turn (d : Daemon (list byte)) : Daemon (list byte) :=
  match dm_conns d !! 0%nat with
  | Some ct =>
      match ct_request ct with
      | Some p =>
          let '(rt, st) := advance (dm_router d) 0 demo_draw (pd_peer p) (pd_connection_id p) (pd_stage p) in
          with_conn d 0 (conn_at (at_stage p st) ct) rt
      | None => d
      end
  | None => d
  end.

Definition write_turn (d : Daemon (list byte)) : Daemon (list byte) :=
  match dm_conns d !! 0%nat with
  | Some ct =>
      match pd_stage <$> ct_request ct with
      | Some (StReply resp) => let '(ct, rt) := conn_write true resp ct (dm_router d) in with_conn d 0 ct rt
      | _ => d
      end
  | None => d
  end.

Lemma section_turn_step (d : Daemon (list byte)) :
  dm_running d = true -> match dm_conns d !! 0%nat ≫= ct_request with
                         | Some p => draw_fits (dm_router d) demo_draw (pd_stage p) | None => False end ->
  dstep d (section_turn d).
Proof.
  unfold section_turn. intros Hr Hd. destruct (dm_conns d !! 0%nat) as [ct|] eqn:Hc; [|done]. cbn in Hd.
  destruct (ct_request ct) as [p|] eqn:Hp; [|done]. destruct (advance _ _ _ _ _ _) as [rt st] eqn:Ha.
  by apply (d_section d 0 ct p 0 demo_draw).
Qed.

Lemma write_turn_step (d : Daemon (list byte)) :
  dm_running d = true -> match pd_stage <$> (dm_conns d !! 0%nat ≫= ct_request) with Some (StReply _) => true | _ => false end = true ->
  dstep d (write_turn d).
Proof.
  unfold write_turn. intros Hr Hd. destruct (dm_conns d !! 0%nat) as [ct|] eqn:Hc; [|done]. cbn in Hd.
  destruct (ct_request ct) as [p|] eqn:Hp; [|done]. cbn [fmap option_fmap option_map] in *. destruct (pd_stage p) as [| | | | | | | | | | | | |resp|] eqn:Hs; try done.
  destruct (conn_write _ _ _ _) as [ct' rt] eqn:Hw. by apply (d_write d 0 ct p resp true).
Qed.

Definition daemon_peer : PeerInfo := mkPeerInfo 41 1000 1000.
Definition daemon_d0 : Daemon (list byte) := daemon_start started_gate (gate_start (C:=list byte) demo_key32 [Byte.x01] repaired_host).1.
Definition daemon_d1 : Daemon (list byte) := accept_turn (inl (tt, inl (41, 1000, 1000))) [Byte.x09] daemon_d0.
(** An agent registers: its line, the three sections, the response. *)
Definition daemon_d2 : Daemon (list byte) :=
  with_conn daemon_d1 0 (conn_read ("R" +:+ String newline EmptyString) (conn_new [Byte.x09] daemon_peer)) (dm_router daemon_d1).
Definition daemon_d3 : Daemon (list byte) := section_turn (section_turn (section_turn daemon_d2)).
Definition daemon_d4 : Daemon (list byte) := write_turn daemon_d3.
(** Then it exits. *)
Definition daemon_fp : list byte := compute_fingerprint 1000 41 (sha256 []) 777.
Definition daemon_d5 : Daemon (list byte) :=
  mkDaemon (dm_gate daemon_d4) (dm_host daemon_d4) (dm_conns daemon_d4) (dm_sent daemon_d4) (dm_deaths daemon_d4)
    (dm_death daemon_d4) ({[daemon_fp]} ∪ dm_exited daemon_d4) (dm_phase daemon_d4) (dm_reloads daemon_d4)
    (dm_main daemon_d4).
Definition daemon_reg : AgentRegistration :=
  mkAgentRegistration (mkAgentFingerprint 1000 41 "/usr/bin/agent" [] 777 daemon_fp 3) "agent" "1" [] [Byte.x09] 0.

Lemma daemon_started : gate_start (C:=list byte) demo_key32 [Byte.x01] repaired_host =
  ((gate_start (C:=list byte) demo_key32 [Byte.x01] repaired_host).1, Ok started_gate).
Proof. vm_compute. reflexivity. Qed.

Lemma daemon_run4 : rtc dstep daemon_d0 daemon_d4.
Proof.
  eapply rtc_l; [apply (d_accept daemon_d0 (inl (tt, inl (41, 1000, 1000))) [Byte.x09]); reflexivity|].
  eapply rtc_l; [apply (d_line daemon_d1 0 (conn_new [Byte.x09] daemon_peer) ("R" +:+ String newline EmptyString)); reflexivity|].
  do 3 (eapply rtc_l; [apply section_turn_step; [vm_compute; reflexivity|vm_compute; exact I]|]).
  apply rtc_once. apply write_turn_step; vm_compute; reflexivity.
Qed.

Lemma daemon_run5 : rtc dstep daemon_d0 daemon_d5.
Proof. eapply rtc_r; [exact daemon_run4|]. by apply (d_exit daemon_d4 daemon_fp). Qed.

(** SIGTERM comes. *)
Definition daemon_d6 : Daemon (list byte) := at_main daemon_d5 (dm_gate daemon_d5) (dm_host daemon_d5) Stopping.

Lemma daemon_run6 : rtc dstep daemon_d0 daemon_d6.
Proof. eapply rtc_r; [exact daemon_run5|]. by apply d_main, m_signal. Qed.

Lemma running_gate_refines_steps_witness :
  system_ok (system_of daemon_d6) /\
  let '(g', h', _) := gate_shutdown (dm_gate daemon_d6) (dm_host daemon_d6) in
  rtc dmain daemon_d6 (at_main daemon_d6 g' h' Exited).
Proof.
  destruct (running_gate_refines_steps demo_key32 [Byte.x01] repaired_host _ _ daemon_d6 daemon_started daemon_run6)
    as (_ & Hok & Hstop).
  split; [exact Hok|]. destruct Hstop as (_ & _ & Hend); [reflexivity|exact Hend].
Defined.

Definition daemon_conn : ConnTask := default (conn_new [] daemon_peer) (dm_conns daemon_d5 !! 0%nat).

Lemma requests_answered_in_order_witness :
  map rp_id (ct_written daemon_conn) = [JNumber (PosInt 7)] /\
  exists done rest, ct_lines daemon_conn = done ++ rest /\ Forall2 answers done (ct_written daemon_conn).
Proof.
  split; [vm_compute; reflexivity|].
  destruct (requests_answered_in_order demo_key32 [Byte.x01] repaired_host _ _ daemon_d5 daemon_conn daemon_started
    daemon_run5) as (done & rest & Hl & Hf & _).
  - left.
  - exists done, rest. split; [exact Hl|exact Hf].
Defined.

Lemma death_handling_ends_witness : exists rt, rtc dtask daemon_d5 (with_death daemon_d5 rt [] None).
Proof.
  destruct (death_handling_ends demo_key32 [Byte.x01] repaired_host _ _ daemon_d5 daemon_started daemon_run5)
    as (rt & Hr); [reflexivity|]. exists rt. exact Hr.
Defined.

Lemma unwatchable_agent_is_reported_dead_witness :
  exists d', dtask daemon_d4 d' /\ notice_of daemon_reg ∈ dm_deaths d'.
Proof.
  destruct (unwatchable_agent_is_reported_dead daemon_d4 0 daemon_reg) as (d' & Ht & Hin & _).
  - reflexivity.
  - vm_compute. reflexivity.
  - apply not_elem_of_empty.
  - vm_compute. lia.
  - apply not_elem_of_empty.
  - exists d'. split; [exact Ht|exact Hin].
Defined.
