(* ===== verification/GateRaces.v ===== *)
(** * What interleaving does to requests and deaths

    The sections of [GateStages] let other tasks in between.  What the death
    task promises holds nevertheless for what it has read
    ([death_revokes_what_it_read]), and the gate's tasks alone always get an
    exited agent they watch torn down ([exited_agent_is_torn_down]); what
    happens after the death task has read, or before the registry knows the
    agent, escapes it: a credential approved after the agent's death, an agent
    that exits while it is being registered, and a lease revoked before its
    listener starts. *)

From S2P Require Import Prelude StateM RustStr Crypto PolicyTypes PolicyParser PolicyEvaluator PolicyEngine AuditLog.
From S2P Require Import VaultProtocol VaultBitwarden VaultWorker VaultManager VaultFile UnixHost PolicyWatcher.
From S2P Require Import LeaseTypes LeaseManager LeaseLemmas LeaseSteps LeaseSafety LeaseProps.
From S2P Require Import ProxyScope ProxyAuth ProxyManager GateAgent GateConfig GateRouter GateStages GateSystem.
From S2P Require Import GateVetting GateDeaths GateFiles GateMain GateDaemon.

Section Races.
Context `{Fmt} `{FmtAddr} `{Sha256} `{FmtParse} `{HmacSha256}.
Context `{Build} `{Chrono} `{!ChronoLaws}.
Context `{!RpcCodec} `{!RpcTyped} `{TextParse} `{LruCache}.

(** ** What the death task has read *)

(** Any step of the gate while a death is being handled. *)
Definition busy_step (s s' : System) : Prop := gstep s s' /\ sy_death s <> None.

Definition revoked_in (m : LeaseManager) (id : string) : Prop :=
  exists l, leases m !! id = Some l /\ is_revoked (status l) = true.

(** The lease the task is about to revoke is a root lease. *)
Definition next_is_root (s : System) : Prop :=
  match sy_death s with
  | Some (DeCollect _ y _ _) | Some (DeRevoke _ y _ _) => is_root_lease (leases (rt_leases (sy_router s))) y = true
  | _ => True
  end.

(** Where a root lease stands that the task has read. *)
Definition passed (s : System) (id : string) : Prop :=
  let m := rt_leases (sy_router s) in
  match sy_death s with
  | Some (DeIndex _) => False
  | Some (DeRoot _ rest _) => id ∈ rest \/ revoked_in m id
  | Some (DeCollect _ y rest _) | Some (DeRevoke _ y rest _) => id = y \/ id ∈ rest \/ revoked_in m id
  | Some (DeDrop _ _) | Some (DeRelease _) | None => revoked_in m id
  end.

Record task_ok (id : string) (s : System) : Prop := {
  to_next : next_is_root s;
  to_root : is_root_lease (leases (rt_leases (sy_router s))) id = true;
  to_passed : passed s id
}.

Lemma revoked_in_run m m' id : rtc lstep m m' -> revoked_in m id -> revoked_in m' id.
Proof.
  intros Hr (l & Hl & Hrev). destruct (run_later _ _ _ _ Hr Hl) as (l' & Hl' & Hlat). exists l'. split; [done|].
  by apply (later_revoked _ _ Hlat).
Qed.

(** A section of another task leaves things where they stand. *)
Lemma task_ok_grows id s s' : grows (sy_router s) (sy_router s') -> sy_death s' = sy_death s -> task_ok id s -> task_ok id s'.
Proof.
  intros [_ _ Hr] Hde [Hn Hroot Hp]. split; [|by eapply root_run|].
  - unfold next_is_root in *. rewrite Hde. destruct (sy_death s) as [[]|]; try done; by eapply root_run.
  - unfold passed in *. rewrite Hde. pose proof (revoked_in_run _ _ id Hr) as Hrev.
    destruct (sy_death s) as [[]|]; naive_solver.
Qed.

(** A revocation of a stored lease succeeds. *)
Lemma revoke_root m y reason m' r : inv m -> is_root_lease (leases m) y = true -> revoke_lease m y reason = Some (m', r) ->
  revoked_in m' y /\ r = Ok tt.
Proof.
  intros Hinv (l & Hl & _)%is_root_lease_spec Hr.
  destruct (revoke_lease_ok _ y reason l (inv_forest _ Hinv) Hl) as (m1 & ds & Hr1 & _ & _ & _ & _ & Hls).
  assert (m1 = m' /\ r = Ok tt) as [-> ->] by (split; congruence). split; [|done].
  unfold revoked_in. rewrite Hls, lookup_update_named, Hl. cbn. rewrite bool_decide_eq_true_2 by set_solver. by eexists.
Qed.

(** Its own sections move it on. *)
Lemma task_ok_section id s st rt de : gate_ok (sy_router s) -> sy_death s = Some st ->
  advance_death (sy_router s) st = Some (rt, de) -> task_ok id s -> task_ok id (mkSystem rt (sy_requests s) de).
Proof.
  intros Hok Hde Ha [Hn Hroot Hp]. destruct (death_section_ok _ _ _ _ Hok Ha) as [_ [_ _ Hr]].
  pose proof (reachable_inv _ (go_leases _ Hok)) as Hinv. pose proof (revoked_in_run _ _ id Hr) as Hrev.
  unfold next_is_root in Hn. unfold passed in Hp. rewrite Hde in Hn, Hp.
  assert (next_is_root (mkSystem rt (sy_requests s) de) /\ passed (mkSystem rt (sy_requests s) de) id) as [Hn' Hp'];
    [|split; [exact Hn'|exact (root_run _ _ _ Hr Hroot)|exact Hp']].
  unfold next_is_root, passed. cbn [sy_death sy_router].
  destruct st as [fp|fp [|y rest] revoked|fp y rest revoked|fp y rest revoked|fp revoked|[|y rest]];
    cbn [advance_death] in Ha; try done.
  - injection Ha as <- <-. split; [done|]. by destruct Hp as [?%elem_of_nil|].
  - injection Ha as <- <-. destruct (is_root_lease (leases (rt_leases (sy_router s))) y) eqn:Hy; (split; [done|]);
      destruct Hp as [[->|?]%elem_of_cons|?]; auto. congruence.
  - apply bind_Some in Ha as (ds & _ & [= <- <-]). done.
  - apply bind_Some in Ha as ([m r] & Hrl & [= <- <-]). cbn [rt_leases with_managers] in *.
    destruct (revoke_root _ _ _ _ _ Hinv Hn Hrl) as [Hy ->]. split; [done|]. destruct Hp as [->|[?|?]]; auto.
  - injection Ha as <- <-. auto.
  - injection Ha as <- <-. auto.
  - injection Ha as <- <-. auto.
Qed.

Lemma busy_step_ok id s s' : busy_step s s' -> system_ok s -> task_ok id s -> task_ok id s'.
Proof.
  intros [Hs Hbusy] [Hok Hreq] Ht. destruct (gstep_router _ _ Hs Hok Hreq) as [_ Hgr].
  destruct Hs as [| | |s n rt de Hidle _|s st rt de Hde Ha| | | |]; try by eapply task_ok_grows.
  by eapply task_ok_section.
Qed.

Lemma death_revokes_roots (s s' : System) (fp : list byte) (ids : list string) (id : string) :
  system_ok s -> sy_death s = Some (DeRoot fp ids []) -> id ∈ ids ->
  is_root_lease (leases (rt_leases (sy_router s))) id = true ->
  rtc busy_step s s' -> sy_death s' = None -> system_ok s' /\ revoked_in (rt_leases (sy_router s')) id.
Proof.
  intros Hok Hde Hid Hroot Hrun Hend.
  assert (task_ok id s) as Ht by (split; [by unfold next_is_root; rewrite Hde|done|unfold passed; rewrite Hde; by left]).
  assert (system_ok s' /\ task_ok id s') as [Hok' [_ _ Hp]].
  { clear Hde Hend Hroot. revert Hok Ht. induction Hrun as [|s1 s2 s3 Hs _ IH]; [done|]. intros Hok Ht.
    apply IH; [exact (system_ok_step _ _ (proj1 Hs) Hok)|by eapply busy_step_ok]. }
  unfold passed in Hp. rewrite Hend in Hp. done.
Qed.

(** Interleaving does not weaken what the death of an agent does to the
    leases the task has read from the index: when it is done with the
    notification, whatever requests, uses, delegations and reloads came
    between its sections, every root lease among them is revoked, with
    everything delegated from it by then. *)
Theorem death_revokes_what_it_read (s s' : System) (fp : list byte) (ids : list string) (id x : string) :
  system_ok s -> sy_death s = Some (DeRoot fp ids []) -> id ∈ ids ->
  is_root_lease (leases (rt_leases (sy_router s))) id = true ->
  rtc busy_step s s' -> sy_death s' = None -> within (leases (rt_leases (sy_router s'))) id x ->
  revoked_in (rt_leases (sy_router s')) x.
Proof.
  intros Hok Hde Hid Hroot Hrun Hend Hx.
  destruct (death_revokes_roots _ _ _ _ _ Hok Hde Hid Hroot Hrun Hend) as [Hok' (l & Hl & Hrev)].
  exact (revoked_stays _ _ id x l (go_leases _ (so_gate _ Hok')) Hl Hrev (rtc_refl _ _) Hx).
Qed.

(** ** What escapes it *)

(** A credential approved after its agent's death is granted all the same:
    the registration is gone, its leases have been revoked, but the request
    goes on to an active lease with a listener, which no death notice will
    find any more. *)
Theorem credential_granted_after_death `{Gui} `{AgentOs} `{Resolver} `{MapOrder} `{!MapOrderLaws} (s : System) (i : nat)
    (p : Pending) (id : Json) (params : RequestCredentialParams) (agent : AgentInfo) (granted : Scope) (pname : string)
    (constraints : PolicyConstraints) (draw : Draw) (lease : Lease) :
  sy_requests s !! i = Some p -> pd_stage p = StPrepare id params agent granted pname constraints ->
  rt_registry (sy_router s) = ∅ -> valid_time (d_now draw) ->
  prepare_lease (gate_key (rt_leases (sy_router s))) (d_id draw) (d_nonce draw) (d_now draw) agent
    (rc_credential_ref params) granted constraints pname "auto" = Ok lease ->
  leases (rt_leases (sy_router s)) !! lease_id_of (d_id draw) = None -> is_Some (find_free_port (rt_proxies (sy_router s))) ->
  exists s', rtc gstep s s' /\ sy_death s' = sy_death s /\ rt_registry (sy_router s') = ∅ /\
    rt_monitors (sy_router s') = rt_monitors (sy_router s) /\
    leases (rt_leases (sy_router s')) !! lease_id lease = Some lease /\ status lease = Active /\
    agent_fingerprint_hash lease = ai_fingerprint_hash agent /\
    is_Some (port_for_lease (rt_proxies (sy_router s')) (lease_id lease)).
Proof.
  intros Hp Hst Hreg Hv Hprep Hfresh [port Hport].
  destruct (prepare_lease_fields _ _ _ _ _ _ _ _ _ _ _ Hprep) as (_ & Hfp & _ & _ & Hact & _).
  assert (finished (pd_stage p) = true \/ still_fresh (sy_router s) draw (pd_stage p)) as Hf by (right; by rewrite Hst).
  pose proof (run_grant 0 0 draw (pd_peer p) (pd_connection_id p) (sy_router s) id params agent granted pname constraints) as Hrun.
  cbn [Nat.add] in Hrun. rewrite <- Hst in Hrun. unfold create_lease in Hrun. rewrite Hprep in Hrun. cbv zeta in Hrun.
  cbn [grant_section rt_proxies with_managers] in Hrun. unfold start_proxy in Hrun. rewrite Hport in Hrun.
  pose proof (stages_are_gsteps i _ _ _ _ _ _ _ Hp Hv Hf Hrun) as Hsteps.
  eexists. split; [exact Hsteps|]. cbn. autorewrite with cdp. cbn. split_and!; try done.
  - apply lookup_insert_eq.
  - exists port. unfold port_for_lease. cbn. by rewrite lookup_insert_eq.
Qed.

(** A lease that was revoked before its listener was started still gets one:
    its port is taken, and it serves nothing. *)
Theorem revoked_lease_gets_listener `{Gui} `{AgentOs} `{Resolver} `{MapOrder} `{!MapOrderLaws} (s : System) (i : nat)
    (p : Pending) (id : Json) (granted : Scope) (lease l : Lease) :
  sy_requests s !! i = Some p -> pd_stage p = StListen id granted lease ->
  leases (rt_leases (sy_router s)) !! lease_id lease = Some l -> is_revoked (status l) = true ->
  is_Some (find_free_port (rt_proxies (sy_router s))) ->
  exists s', gstep s s' /\ leases (rt_leases (sy_router s')) !! lease_id lease = Some l /\
    is_Some (port_for_lease (rt_proxies (sy_router s')) (lease_id lease)).
Proof.
  intros Hp Hst Hl Hrev [port Hport]. destruct (advance (sy_router s) 0 (mkDraw [] [] 0) (pd_peer p) (pd_connection_id p)
    (pd_stage p)) as [rt st] eqn:Ha. eexists. split.
  { apply (g_section s i p 0 (mkDraw [] [] 0) rt st Hp); [by rewrite Hst|exact Ha]. }
  rewrite Hst in Ha. cbn [advance grant_section] in Ha. unfold start_proxy in Ha. rewrite Hport in Ha.
  injection Ha as <- _. cbn. split; [done|]. exists port. unfold port_for_lease. cbn. by rewrite lookup_insert_eq.
Qed.
End Races.

(** ** An agent that exits *)

Section Teardown.
Context `{Fmt} `{FmtAddr} `{AgentOs} `{Sha256} `{FmtParse} `{HmacSha256}.
Context `{Build} `{Chrono} `{!ChronoLaws} `{!RpcCodec} `{!RpcTyped} `{TextParse} `{LruCache}.
Context `{ConfigToml} `{IdentityCrates} `{Base64Std} `{GateSys} `{!PolicyTyped} `{Argon2} `{Aead} `{DevVaultCodec}.
Context `{OsRng Host} {C : Type} `{SpawnOs Host C} `{Read C} `{Write C} `{VaultCodec}.

(** Lease [x] below the root lease [r] is torn down, or the sections the death
    task still has to go through will see to it. *)
Definition doomed (rt : Router) (de : option DeathStage) (r x : string) : Prop :=
  let m := rt_leases rt in
  torn_down rt x \/
  match de with
  | None => False
  | Some (DeIndex fp) => indexed m fp r
  | Some (DeRoot _ ids revoked) => r ∈ ids \/ x ∈ revoked /\ revoked_in m x
  | Some (DeCollect _ y rest revoked) => r = y \/ r ∈ rest \/ x ∈ revoked /\ revoked_in m x
  | Some (DeRevoke _ y rest revoked) => r = y /\ x ∈ revoked \/ r ∈ rest \/ x ∈ revoked /\ revoked_in m x
  | Some (DeDrop _ revoked) | Some (DeRelease revoked) => x ∈ revoked /\ revoked_in m x
  end.

(** The death being handled is another agent's and does not touch [r]. *)
Definition away (de : option DeathStage) (fp : list byte) (r : string) : Prop :=
  match de with
  | None | Some (DeRelease _) => True
  | Some (DeIndex fp') | Some (DeDrop fp' _) => fp' <> fp
  | Some (DeRoot fp' ids _) => fp' <> fp /\ r ∉ ids
  | Some (DeCollect fp' y rest _) | Some (DeRevoke fp' y rest _) => fp' <> fp /\ r <> y /\ r ∉ rest
  end.

(** The agent's death has not been taken up yet, and its index has [r]. *)
Definition pending (rt : Router) (de : option DeathStage) (reg : AgentRegistration) (r : string) : Prop :=
  rt_registry rt !! bytes_to_hex (fp_hash (ar_fingerprint reg)) = Some reg /\
  indexed (rt_leases rt) (fp_hash (ar_fingerprint reg)) r /\ away de (fp_hash (ar_fingerprint reg)) r.

Definition expired_in (m : LeaseManager) (id : string) : Prop :=
  exists l, leases m !! id = Some l /\ status l = Expired.

(** The sweep takes a lease out of the index only with its expiry. *)
Lemma sweep_indexed m now fp id : indexed m fp id -> is_Some (leases m !! id) ->
  indexed (sweep_expired m now) fp id \/ expired_in (sweep_expired m now) id.
Proof.
  intros Hin [l Hl]. destruct (sweep_due now l) eqn:Hdue.
  { right. unfold expired_in. rewrite leases_sweep, Hl. cbn. rewrite Hdue. by eexists. }
  left. unfold sweep_expired.
  assert (id ∉ map fst (List.filter (fun kv => sweep_due now kv.2) (map_to_list (leases m)))) as Hni.
  { intros ([y ly] & Hy & [Hy' Hd]%filter_In)%list_elem_of_In%in_map_iff. cbn in Hy, Hd. subst y.
    apply list_elem_of_In, elem_of_map_to_list in Hy'. congruence. }
  revert Hni. generalize (map fst (List.filter (fun kv => sweep_due now kv.2) (map_to_list (leases m)))). intros ids.
  clear Hl. revert m Hin. induction ids as [|y ids IH]; intros m Hin Hni; cbn; [done|]. apply IH; [|set_solver].
  unfold indexed, expire_one. destruct (leases m !! y); [|done]. rewrite ?index_emit.
  cbn [agent_leases with_index with_leases]. apply remove_index_other; [done|set_solver].
Qed.

Lemma root_within ls r y : wf_store ls -> is_root_lease ls r = true -> within ls y r -> y = r.
Proof.
  intros Hwf (l & Hl & Hp)%is_root_lease_spec [->|Hd]; [done|]. exfalso.
  assert (exists p, child_of ls p r) as (p & lp & Hlp & Hc).
  { clear -Hd. induction Hd as [y z Hyz|y z w _ _ IH]; [by exists y|done]. }
  destruct (wf_child _ Hwf _ _ _ Hlp Hc) as (lc & Hlc & Hpar & _). congruence.
Qed.

Lemma section_ports (rt : Router) st rt' de x : advance_death rt st = Some (rt', de) ->
  port_for_lease (rt_proxies rt') x = None \/ port_for_lease (rt_proxies rt') x = port_for_lease (rt_proxies rt) x.
Proof.
  intros Ha. unfold port_for_lease. destruct (listeners (rt_proxies rt') !! x) as [v|] eqn:E; [right|by left].
  by rewrite (death_listener _ _ _ _ _ _ Ha E).
Qed.

(** A section of the death task. *)
Lemma section_doomed (rt : Router) st rt' de r x : gate_ok rt -> is_root_lease (leases (rt_leases rt)) r = true ->
  within (leases (rt_leases rt)) r x -> next_is_root (mkSystem rt ∅ (Some st)) -> advance_death rt st = Some (rt', de) ->
  doomed rt (Some st) r x -> doomed rt' de r x.
Proof.
  intros Hok Hroot Hw Hnext Ha Hd. destruct (death_section_ok _ _ _ _ Hok Ha) as [_ [_ _ Hrun]].
  pose proof (reachable_inv _ (go_leases _ Hok)) as Hinv. pose proof (revoked_in_run _ _ x Hrun) as Hrev.
  destruct Hd as [Ht|Hd].
  { left. eapply torn_down_stays; [apply go_leases, Hok|exact Hrun| |exact Ht]. by eapply section_ports. }
  destruct st as [fp|fp [|y rest] revoked|fp y rest revoked|fp y rest revoked|fp revoked|[|y rest]]; cbn [advance_death] in Ha.
  - injection Ha as <- <-. right. by left.
  - injection Ha as <- <-. right. by destruct Hd as [?%elem_of_nil|].
  - injection Ha as <- <-. right. destruct (is_root_lease (leases (rt_leases rt)) y) eqn:Hy;
      destruct Hd as [[->|?]%elem_of_cons|?]; cbn; auto. congruence.
  - apply bind_Some in Ha as (ds & Hds & [= <- <-]). right. cbn.
    destruct Hd as [->|[?|[Hx ?]]]; [left|auto|right; right; split; [set_solver|done]]. split; [done|].
    apply is_root_lease_spec in Hroot as (l & Hl & _).
    destruct (collect_descendants_exact _ (inv_forest _ Hinv) y l Hl) as (ds' & Hds' & _ & Hex).
    assert (ds' = ds) as -> by congruence. destruct Hw as [->|Hw%Hex]; set_solver.
  - apply bind_Some in Ha as ([m rr] & Hrl & [= <- <-]). cbn [rt_leases with_managers] in *.
    destruct (revoke_root _ _ _ _ _ Hinv Hnext Hrl) as [(ly & Hly & Hyr) ->]. right. cbn.
    destruct Hd as [[-> Hx]|[?|[Hx ?]]]; [|auto|auto]. right. split; [done|].
    exact (revoked_stays m m y x ly (reachable_run _ _ (go_leases _ Hok) Hrun) Hly Hyr (rtc_refl _ _) (within_run _ _ _ _ Hrun Hw)).
  - injection Ha as <- <-. right. cbn in *. naive_solver.
  - destruct Hd as [Hd _]. by apply elem_of_nil in Hd.
  - injection Ha as <- <-. destruct Hd as [Hx Hr]. destruct (decide (x = y)) as [->|Hne].
    + left. split; [|exact Hr]. cbn. unfold port_for_lease, release_lease.
      destruct (listeners (rt_proxies rt) !! y) as [[]|] eqn:E; cbn; [by rewrite lookup_delete_eq|by rewrite E].
    + right. cbn. split; [set_solver|exact Hr].
Qed.

Lemma section_pending (rt : Router) st rt' de reg r x : gate_ok rt -> is_root_lease (leases (rt_leases rt)) r = true ->
  next_is_root (mkSystem rt ∅ (Some st)) -> advance_death rt st = Some (rt', de) ->
  pending rt (Some st) reg r -> doomed rt' de r x \/ pending rt' de reg r.
Proof.
  intros Hok Hroot Hnext Ha (Hreg & Hix & Haw). pose proof (reachable_inv _ (go_leases _ Hok)) as Hinv.
  unfold pending. destruct st as [fp|fp [|y rest] revoked|fp y rest revoked|fp y rest revoked|fp revoked|[|y rest]];
    cbn [advance_death] in Ha; cbn in Haw.
  - injection Ha as <- <-. destruct (decide (r ∈ default [] (agent_leases (rt_leases rt) !! fp))) as [Hin|Hni].
    + left. right. by left.
    + by right.
  - injection Ha as <- <-. right. naive_solver.
  - injection Ha as <- <-. right. destruct Haw as [? Hni]. destruct (is_root_lease _ y); cbn; split_and!; try done; set_solver.
  - apply bind_Some in Ha as (ds & Hds & [= <- <-]). by right.
  - apply bind_Some in Ha as ([m rr] & Hrl & [= <- <-]). right. cbn [rt_leases rt_registry with_managers].
    destruct (revoke_root _ _ _ _ _ Hinv Hnext Hrl) as [_ ->]. destruct Haw as (? & Hne & ?). split_and!; [done| |done].
    apply is_root_lease_spec in Hnext as (ly & Hly & _).
    destruct (revoke_lease_ok _ y "agent process exited" ly (inv_forest _ Hinv) Hly) as (m1 & ds & Hr1 & Hds & _ & Hex & _).
    eapply revoke_lease_indexed; [exact Hrl|exact Hds|exact Hix|]. intros [->|Hd%Hex]%elem_of_cons; [done|].
    apply Hne. symmetry. apply (root_within _ _ _ (inv_forest _ Hinv) Hroot). by right.
  - injection Ha as <- <-. right. split_and!; [done| |done]. unfold indexed. cbn. by rewrite lookup_delete_ne.
  - injection Ha as <- <-. by right.
  - injection Ha as <- <-. by right.
Qed.

Lemma advance_death_keeps (rt : Router) st rt' de : advance_death rt st = Some (rt', de) ->
  rt_registry rt' = rt_registry rt /\ rt_monitors rt' = rt_monitors rt.
Proof.
  destruct st as [fp|fp [|id rest] revoked|fp id rest revoked|fp id rest revoked|fp revoked|[|id rest]];
    cbn [advance_death]; try (by intros [= <- _]).
  - by intros (ds & _ & [= <- _])%bind_Some.
  - by intros ([m r] & _ & [= <- _])%bind_Some.
Qed.

(** Where the run [d] stands with the root lease [r] of an agent. *)
Record on_course (reg : AgentRegistration) (r x : string) (d : Daemon C) : Prop := {
  oc_ok : daemon_ok d;
  oc_next : next_is_root (system_of d);
  oc_root : is_root_lease (leases (rt_leases (dm_router d))) r = true;
  oc_within : within (leases (rt_leases (dm_router d))) r x;
  oc_state : doomed (dm_router d) (dm_death d) r x \/ pending (dm_router d) (dm_death d) reg r
}.

Lemma next_root_task (d d' : Daemon C) : dtask d d' -> daemon_ok d -> next_is_root (system_of d) -> next_is_root (system_of d').
Proof.
  intros Ht Hok Hn. pose proof (dtask_gsteps _ _ Ht (do_reloads _ Hok) (do_sending _ Hok)) as Hg.
  destruct (run_grows _ _ Hg (do_system _ Hok)) as [_ Hrun].
  assert (dm_death d' = dm_death d -> next_is_root (system_of d')) as Hsame.
  { intros E. unfold next_is_root in *. cbn in *. rewrite E. destruct (dm_death d) as [[]|]; try done; by eapply root_run. }
  destruct Ht as [d n notice fd _ _ _ _ _|d notice rest rt de _ _ _ Hb|d st rt de _ Hde Ha|d now _|d w _ _]; try (by apply Hsame).
  - unfold begin_death in Hb. destruct (rt_registry _ !! _); by injection Hb as _ <-.
  - unfold next_is_root in *. cbn in *. rewrite Hde in Hn.
    destruct st as [fp|fp [|y rest] revoked|fp y rest revoked|fp y rest revoked|fp revoked|[|y rest]]; cbn [advance_death] in Ha;
      try (by injection Ha as <- <-).
    + injection Ha as <- <-. by destruct (is_root_lease _ y) eqn:Hy.
    + apply bind_Some in Ha as (ds & _ & [= <- <-]). done.
    + apply bind_Some in Ha as ([m r] & _ & [= <- <-]). by destruct r.
Qed.

Lemma sweep_doomed (rt : Router) now de r x : reachable (rt_leases rt) -> is_root_lease (leases (rt_leases rt)) r = true ->
  doomed rt de r x -> doomed (sweep_tick now rt) de r x \/ expired_in (rt_leases (sweep_tick now rt)) r.
Proof.
  intros Hr (l & Hl & _)%is_root_lease_spec [Ht|Hd].
  { left. left. eapply torn_down_stays; [exact Hr|exact (rtc_once _ _ (step_sweep _ now))|by right|exact Ht]. }
  pose proof (revoked_in_run _ _ x (rtc_once _ _ (step_sweep (rt_leases rt) now))) as Hrev.
  destruct de as [[fp| | | | |]|]; [|left; right; cbn in *; naive_solver..].
  destruct (sweep_indexed _ now _ _ Hd) as [?|?]; [by exists l|left; by right|by right].
Qed.

(** Every step of the gate's tasks keeps the course, unless the sweep takes
    the root lease. *)
Lemma task_on_course reg r x (d d' : Daemon C) : dtask d d' -> on_course reg r x d ->
  on_course reg r x d' \/ expired_in (rt_leases (dm_router d')) r.
Proof.
  intros Ht [Hok Hnext Hroot Hw Hst]. pose proof (dtask_ok _ _ Ht Hok) as Hok'. pose proof (next_root_task _ _ Ht Hok Hnext) as Hnext'.
  destruct (run_grows _ _ (dtask_gsteps _ _ Ht (do_reloads _ Hok) (do_sending _ Hok)) (do_system _ Hok)) as [_ Hrun].
  pose proof (root_run _ _ _ Hrun Hroot) as Hroot'. pose proof (within_run _ _ _ _ Hrun Hw) as Hw'.
  assert (doomed (dm_router d') (dm_death d') r x \/ pending (dm_router d') (dm_death d') reg r -> on_course reg r x d') as Hgo
    by (by intros ?; split).
  destruct Ht as [d n notice fd _ _ _ _ _|d notice rest rt de _ Hde _ Hb|d st rt de _ Hde Ha|d now _|d w _ _].
  - left. by apply Hgo.
  - left. apply Hgo. cbn. rewrite Hde in Hst. destruct Hst as [[Ht|[]]|(Hreg & Hix & _)].
    + left. left. unfold begin_death in Hb. destruct (rt_registry _ !! _); by injection Hb as <- _.
    + unfold begin_death in Hb. destruct (decide (death_fingerprint notice = fp_hash (ar_fingerprint reg))) as [E|Hne].
      * rewrite E, Hreg in Hb. injection Hb as <- <-. left. by right.
      * right. destruct (rt_registry (dm_router d) !! bytes_to_hex (death_fingerprint notice));
          injection Hb as <- <-; split_and!; try done. cbn. rewrite lookup_delete_ne; [done|]. by intros E%hex_inj.
  - left. apply Hgo. cbn. rewrite Hde in Hst.
    assert (next_is_root (mkSystem (dm_router d) ∅ (Some st))) as Hn by (unfold next_is_root in *; cbn in *; by rewrite Hde in Hnext).
    destruct Hst as [Hd|Hp].
    + left. exact (section_doomed _ _ _ _ _ _ (do_gate _ Hok) Hroot Hw Hn Ha Hd).
    + exact (section_pending _ _ _ _ _ _ x (do_gate _ Hok) Hroot Hn Ha Hp).
  - destruct Hst as [Hd|(Hreg & Hix & Haw)].
    + destruct (sweep_doomed _ now _ _ _ (go_leases _ (do_gate _ Hok)) Hroot Hd) as [Hd'|He]; [left; apply Hgo; by left|by right].
    + destruct (sweep_indexed _ now _ _ Hix) as [Hix'|He]; [|left; apply Hgo; right; by split_and!|by right].
      apply is_root_lease_spec in Hroot as (l & ? & _). by exists l.
  - left. apply Hgo. exact Hst.
Qed.

(** The sweep has expired the lease somewhere on the way. *)
Definition swept (d0 d : Daemon C) (id : string) : Prop :=
  exists d1, rtc dtask d0 d1 /\ rtc dtask d1 d /\ expired_in (rt_leases (dm_router d1)) id.

Lemma tasks_on_course reg r x (d0 d : Daemon C) : rtc dtask d0 d -> on_course reg r x d0 ->
  on_course reg r x d \/ swept d0 d r.
Proof.
  intros Hr Hc. revert d Hr. apply (rtc_ind_r (fun d => on_course reg r x d \/ swept d0 d r)); [by left|].
  intros d d' Hr Ht [Hd|(d1 & ? & ? & ?)].
  - destruct (task_on_course _ _ _ _ _ Ht Hd) as [?|He]; [by left|right]. exists d'. by split_and!; [eapply rtc_r|..].
  - right. exists d1. by split_and!; [|eapply rtc_r|].
Qed.

(** Whatever the tasks have done, the agent is gone from the registry or they
    are still going to hear of its death. *)
Definition noticed (reg : AgentRegistration) (d : Daemon C) : Prop :=
  let k := bytes_to_hex (fp_hash (ar_fingerprint reg)) in
  rt_registry (dm_router d) !! k = None \/ rt_registry (dm_router d) !! k = Some reg /\ watched d reg.

Lemma tasks_notice reg (d d' : Daemon C) : rtc dtask d d' -> noticed reg d -> noticed reg d' /\ dm_exited d' = dm_exited d /\ dm_running d' = dm_running d.
Proof.
  induction 1 as [|d d1 d2 Ht _ IH]; [done|]. intros Hn.
  assert (noticed reg d1 /\ dm_exited d1 = dm_exited d /\ dm_running d1 = dm_running d) as (Hn1 & <- & <-); [|by apply IH].
  clear IH. destruct Ht as [d n notice fd _ Hm _ _ _|d notice rest rt de _ _ Hq Hb|d st rt de _ _ Ha|d now _|d w _ _]; try done.
  - split; [|done]. destruct Hn as [?|[Hreg (k & Hk & Hor)]]; [by left|right]. split; [done|]. exists k. split; [done|].
    cbn in *. destruct Hor as [Hk'|?]; [|right; set_solver]. destruct (decide (k = n)) as [->|Hne]; [right|left; set_solver].
    assert (notice = notice_of reg) as -> by congruence. set_solver.
  - split; [|done]. unfold noticed. cbn. unfold begin_death in Hb. destruct Hn as [Hn|[Hreg (k & Hk & Hor)]].
    { left. destruct (rt_registry (dm_router d) !! bytes_to_hex (death_fingerprint notice)); injection Hb as <- _; [|done].
      cbn. by apply lookup_delete_None; right. }
    destruct (decide (death_fingerprint notice = fp_hash (ar_fingerprint reg))) as [E|Hne].
    + left. rewrite E, Hreg in Hb. injection Hb as <- _. cbn. apply lookup_delete_eq.
    + right. assert (rt_registry rt !! bytes_to_hex (fp_hash (ar_fingerprint reg)) = Some reg /\ rt_monitors rt = rt_monitors (dm_router d)) as [Hr Hm].
      { destruct (rt_registry (dm_router d) !! bytes_to_hex (death_fingerprint notice)); injection Hb as <- _; [|done]. cbn.
        split; [|done]. rewrite lookup_delete_ne; [done|]. by intros E%hex_inj. }
      split; [done|]. exists k. cbn. rewrite Hm. split; [done|]. destruct Hor as [?|Hin]; [by left|right].
      rewrite Hq in Hin. apply elem_of_cons in Hin as [<-|?]; [done|done].
  - apply advance_death_keeps in Ha as [Hr Hm]. split; [|done]. destruct Hn as [Hn|[Hreg (k & Hk & Hor)]]; [left; cbn; by rewrite Hr|].
    right. cbn. rewrite Hr. split; [done|]. exists k. cbn. by rewrite Hm.
Qed.

(** The tasks register nobody and start no listener. *)
Lemma tasks_unregistered (d d' : Daemon C) key : rtc dtask d d' -> rt_registry (dm_router d) !! key = None ->
  rt_registry (dm_router d') !! key = None.
Proof.
  induction 1 as [|d d1 d2 Ht _ IH]; [done|]. intros Hn. apply IH. clear IH.
  destruct Ht as [d n notice fd _ _ _ _ _|d notice rest rt de _ _ _ Hb|d st rt de _ _ Ha|d now _|d w _ _]; try done.
  - unfold begin_death in Hb. destruct (rt_registry (dm_router d) !! _); injection Hb as <- _; [|done]. cbn. by apply lookup_delete_None; right.
  - apply advance_death_keeps in Ha as [Hr _]. cbn. by rewrite Hr.
Qed.

Lemma tasks_torn_down (d d' : Daemon C) x : rtc dtask d d' -> daemon_ok d -> torn_down (dm_router d) x -> torn_down (dm_router d') x.
Proof.
  induction 1 as [|d d1 d2 Ht _ IH]; [done|]. intros Hok Htd. apply IH; [by eapply dtask_ok|].
  destruct (run_grows _ _ (dtask_gsteps _ _ Ht (do_reloads _ Hok) (do_sending _ Hok)) (do_system _ Hok)) as [_ Hrun].
  eapply torn_down_stays; [exact (go_leases _ (do_gate _ Hok))|exact Hrun| |exact Htd].
  destruct Ht as [d n notice fd _ _ _ _ _|d notice rest rt de _ _ _ Hb|d st rt de _ _ Ha|d now _|d w _ _]; try (by right).
  - unfold begin_death in Hb. destruct (rt_registry (dm_router d) !! _); injection Hb as <- _; by right.
  - by eapply section_ports.
Qed.

(** An idle death task with a notification to take empties the channel of it. *)
Lemma tasks_unregister reg (d : Daemon C) : daemon_ok d -> dm_running d = true -> noticed reg d ->
  fp_hash (ar_fingerprint reg) ∈ dm_exited d ->
  exists d', rtc dtask d d' /\ dm_death d' = None /\
    rt_registry (dm_router d') !! bytes_to_hex (fp_hash (ar_fingerprint reg)) = None.
Proof.
  intros Hok Hr Hn Hex. set (k := bytes_to_hex (fp_hash (ar_fingerprint reg))) in *.
  assert (exists d0, rtc dtask d d0 /\ dm_death d0 = None) as (d0 & Hr0 & Hde0).
  { destruct (dm_death d) as [st|] eqn:Hde; [|by exists d].
    destruct (death_sections_end (dm_router d) st) as [rt Hsec]; [exact (reachable_inv _ (go_leases _ (do_gate _ Hok)))|].
    rewrite <- Hde in Hsec. eexists. split; [exact (sections_are_tasks _ _ Hsec d Hr eq_refl)|done]. }
  assert (forall d d' : Daemon C, rtc dtask d d' -> daemon_ok d -> daemon_ok d') as Htok.
  { induction 1; [done|]. eauto using dtask_ok. }
  pose proof (Htok _ _ Hr0 Hok) as Hok0. destruct (tasks_notice _ _ _ Hr0 Hn) as (Hn0 & Hex0 & Hrun0).
  rewrite Hr in Hrun0. rewrite <- Hex0 in Hex. clear Hn Hex0 Hr.
  destruct (drain_deaths d0 Hok0 Hrun0 Hde0) as (rt1 & Hr1 & Hh1 & Hok1 & Hm1).
  set (d1 := with_death d0 rt1 [] None) in *. destruct (tasks_notice _ _ _ Hr1 Hn0) as (Hn1 & _ & _).
  destruct Hn1 as [Hnone|[Hreg1 (n & Hmn & Hor)]]; [exists d1; split; [by etrans|done]|].
  destruct Hor as [Hns|Hin]; [|by apply elem_of_nil in Hin].
  set (d2 := with_sent d1 ({[n]} ∪ dm_sent d1) [notice_of reg]).
  assert (dtask d1 d2) as Ht.
  { apply (t_monitor d1 n (notice_of reg) true); [done|done|done| |unfold DEATH_CAPACITY; cbn; lia].
    cbn. by apply bool_decide_eq_true_2. }
  destruct (drain_deaths d2 (dtask_ok _ _ Ht Hok1) Hrun0 eq_refl) as (rt3 & Hr3 & Hh3 & _).
  exists (with_death d2 rt3 [] None). split; [|split; [done|]].
  - etrans; [exact Hr0|]. etrans; [exact Hr1|]. eapply rtc_l; [exact Ht|exact Hr3].
  - destruct (handle_deaths_total [notice_of reg] rt1 (go_leases _ (do_gate _ Hok1))) as (rt' & E & _ & _ & _ & _ & Hgone).
    change (dm_router d2) with rt1 in Hh3. cbn in Hh3. cbn [handle_deaths] in E. cbn. rewrite Hh3 in E. injection E as ->.
    apply (Hgone (notice_of reg)). by left.
Qed.

(** C35. A registered agent that exits while it is being watched is torn down,
    however many other deaths are waiting: when the death task is ready for
    the next notification, then whatever the gate's tasks do from there, in
    whatever order, they can always still get to a state in which the agent is
    not registered, and for every root lease that was indexed for it, unless
    the sweep has expired that lease on the way, the lease and everything
    below it is revoked and nobody listens for it; and from there they stay
    there.  Watched means that a monitor of the agent has not reported yet or
    that its report waits in the channel: a report handled before the
    registration was written is lost ([death_before_enrolment_is_lost]). *)
Theorem exited_agent_is_torn_down (k gk : list byte) (h h1 : Host) (g : Gate (C:=C)) (d d1 : Daemon C)
    (key : string) (reg : AgentRegistration) :
  gate_start k gk h = (h1, Ok g) -> rtc dstep (daemon_start g h1) d -> dm_running d = true -> dm_death d = None ->
  rt_registry (dm_router d) !! key = Some reg -> fp_hash (ar_fingerprint reg) ∈ dm_exited d -> watched d reg ->
  rtc dtask d d1 ->
  exists d2, rtc dtask d1 d2 /\ forall d3, rtc dtask d2 d3 ->
    rt_registry (dm_router d3) !! key = None /\
    forall r x, indexed (rt_leases (dm_router d)) (fp_hash (ar_fingerprint reg)) r ->
      is_root_lease (leases (rt_leases (dm_router d))) r = true -> within (leases (rt_leases (dm_router d))) r x ->
      torn_down (dm_router d3) x \/ swept d d2 r.
Proof.
  intros Hs%daemon_ok_start Hrun Hr Hde Hreg Hex Hw Hd1. pose proof (daemon_ok_run _ _ Hrun Hs) as Hok.
  destruct (go_registry _ (do_gate _ Hok) _ _ Hreg) as [-> _].
  assert (noticed reg d) as Hn by (by right). destruct (tasks_notice _ _ _ Hd1 Hn) as (Hn1 & Hex1 & Hr1).
  assert (forall d d' : Daemon C, rtc dtask d d' -> daemon_ok d -> daemon_ok d') as Htok.
  { induction 1; [done|]. eauto using dtask_ok. }
  destruct (tasks_unregister reg d1 (Htok _ _ Hd1 Hok)) as (d2 & Hd2 & Hde2 & Hnone); [congruence|done|congruence|].
  exists d2. split; [done|]. intros d3 Hd3. split; [by eapply tasks_unregistered|].
  intros r x Hix Hroot Hwx.
  assert (on_course reg r x d) as Hc by (split; try done; [unfold next_is_root; cbn; by rewrite Hde|right; rewrite Hde; by split_and!]).
  assert (rtc dtask d d2) as Hd12 by (by etrans).
  destruct (tasks_on_course _ _ _ _ _ Hd12 Hc) as [[_ _ _ _ [Hdo|(Hreg2 & _)]]|?]; [|congruence|by right].
  left. rewrite Hde2 in Hdo. destruct Hdo as [Ht|[]]. by eapply tasks_torn_down; [exact Hd3|apply (Htok d1); [done|by apply (Htok d)]|].
Qed.
End Teardown.

Section Enrolment.
Context `{Fmt} `{FmtAddr} `{AgentOs} `{Sha256} `{FmtParse} `{HmacSha256}.
Context `{Build} `{Chrono} `{!ChronoLaws} `{!RpcCodec} `{TextParse} `{LruCache} `{GateSys} {C : Type}.

(** Nothing is left that would report the death of the agent. *)
Definition unreported (d : Daemon C) (reg : AgentRegistration) : Prop :=
  (forall n notice, rt_monitors (dm_router d) !! n = Some notice ->
     death_fingerprint notice = fp_hash (ar_fingerprint reg) -> n ∈ dm_sent d) /\
  (forall notice, notice ∈ dm_deaths d -> death_fingerprint notice <> fp_hash (ar_fingerprint reg)).

Definition registered_unreported (d : Daemon C) (reg : AgentRegistration) : Prop :=
  rt_registry (dm_router d) !! bytes_to_hex (fp_hash (ar_fingerprint reg)) = Some reg /\ unreported d reg.

Lemma task_unreported (d d' : Daemon C) reg : dtask d d' -> registered_unreported d reg -> registered_unreported d' reg.
Proof.
  intros Ht (Hreg & Hmon & Hq).
  destruct Ht as [d n notice fd _ Hn Hns _ _|d notice rest rt de _ _ Hde Hb|d st rt de _ _ Ha|d now _|d w _ _]; try done.
  - assert (death_fingerprint notice <> fp_hash (ar_fingerprint reg)) as Hne by (intros E; by apply Hns, (Hmon n notice)).
    split; [done|]. split; cbn.
    + intros m notice' Hm E. apply elem_of_union. right. by eapply Hmon.
    + intros notice' [Hin| ->%list_elem_of_singleton]%elem_of_app; [by apply Hq|done].
  - assert (death_fingerprint notice <> fp_hash (ar_fingerprint reg)) as Hne by (apply Hq; rewrite Hde; by left).
    assert (rt_registry rt !! bytes_to_hex (fp_hash (ar_fingerprint reg)) = Some reg /\ rt_monitors rt = rt_monitors (dm_router d)) as [Hr Hm].
    { unfold begin_death in Hb. destruct (rt_registry (dm_router d) !! bytes_to_hex (death_fingerprint notice));
        injection Hb as <- _; [|done]. cbn. split; [|done]. rewrite lookup_delete_ne; [done|]. by intros E%hex_inj. }
    split; [exact Hr|]. split; cbn; [by rewrite Hm|]. intros notice' Hin. apply Hq. rewrite Hde. by right.
  - apply advance_death_keeps in Ha as [Hr Hm]. split; cbn; [by rewrite Hr|]. split; cbn; [by rewrite Hm|done].
Qed.

(** An agent that exits while it is being registered is never noticed: its
    monitor is started before the registry knows it, so a notification that
    is handled in between finds nobody; the registration then stays whatever
    the gate's tasks do, until the connection ends. *)
Theorem death_before_enrolment_is_lost `{Gui} `{Resolver} `{MapOrder} `{!MapOrderLaws} (d : Daemon C) (i : nat)
    (ct : ConnTask) (p : Pending) (id : Json) (reg : AgentRegistration) (res : RegisterResult) :
  dm_running d = true -> dm_conns d !! i = Some ct -> ct_request ct = Some p -> pd_stage p = StEnroll id reg res ->
  rr_agent_fingerprint res = bytes_to_hex (fp_hash (ar_fingerprint reg)) -> unreported d reg ->
  exists d1, dstep d d1 /\ forall d2, rtc dtask d1 d2 ->
    rt_registry (dm_router d2) !! bytes_to_hex (fp_hash (ar_fingerprint reg)) = Some reg.
Proof.
  intros Hr Hi Hp Hst Hhex Hun. eexists. split.
  { eapply (d_section d i ct p 0 (mkDraw [] [] 0)); [done..|by rewrite Hst|by rewrite Hst]. }
  intros d2 Hrun. match type of Hrun with rtc _ ?d1 _ => assert (registered_unreported d1 reg) as Hd1 end.
  { split; [cbn; rewrite Hhex; apply lookup_insert_eq|exact Hun]. }
  revert Hd1. induction Hrun as [|x y z Ht _ IH]; [by intros []|]. intros Hx. by apply IH, (task_unreported x).
Qed.
End Enrolment.

(** ** Runs to look at *)

Module SystemDemo.
#[local] Existing Instances plain_fmt timed_gui plain_addr stat_os id_sha plain_parse demo_mac release_build
  chrono_range demo_dns system_chrono_laws system_codec system_typed system_text set_lru system_order system_order_laws.

(** The death of the registered agent: its first section, and the next one. *)
Definition death_begins (s : System) : System :=
  let '(rt, de) := begin_death (sy_router s) (mkDeathNotification 41 [Byte.xaa]) in mkSystem rt (sy_requests s) de.

Definition death_turn (s : System) : System :=
  match sy_death s with
  | Some st =>
      match advance_death (sy_router s) st with
      | Some (rt, de) => mkSystem rt (sy_requests s) de
      | None => s
      end
  | None => s
  end.

Lemma death_begins_step s : sy_death s = None -> gstep s (death_begins s).
Proof. unfold death_begins. intros Hd. destruct (begin_death _ _) as [rt de] eqn:Hb. by eapply g_death. Qed.

Definition death_moves (s : System) : bool :=
  match sy_death s with
  | Some st => match advance_death (sy_router s) st with Some _ => true | None => false end
  | None => false
  end.

Lemma death_turn_busy s : death_moves s = true -> busy_step s (death_turn s).
Proof.
  unfold death_moves, death_turn. destruct (sy_death s) as [st|] eqn:Hd; [|done].
  destruct (advance_death (sy_router s) st) as [[rt de]|] eqn:Ha; [|done]. intros _. split; [by eapply g_death_section|].
  by rewrite Hd.
Qed.

Lemma death_turn_step s : death_moves s = true -> gstep s (death_turn s).
Proof. intros Hm. by apply death_turn_busy. Qed.

(** The agent has its lease, and dies. *)
Definition dying : System := death_turn (death_begins (vetted_turn 10)).
Definition dead : System := Nat.iter 7 death_turn dying.

Lemma dying_run : rtc gstep (system_new system_gate) dying.
Proof.
  etrans; [exact vetted_run|]. eapply rtc_l; [apply death_begins_step; by vm_compute|].
  apply rtc_once, death_turn_step. vm_compute. reflexivity.
Qed.

Lemma dead_run : rtc busy_step dying dead.
Proof.
  do 7 (eapply rtc_l; [apply death_turn_busy; vm_compute; reflexivity|]). vm_compute. reflexivity.
Qed.

Lemma death_revokes_what_it_read_witness : revoked_in (rt_leases (sy_router dead)) "01".
Proof.
  apply (death_revokes_what_it_read dying dead [Byte.xaa] ["01"] "01" "01").
  - exact (system_ok_run _ _ dying_run (system_ok_new _ system_gate_ok)).
  - vm_compute. reflexivity.
  - left.
  - vm_compute. reflexivity.
  - exact dead_run.
  - vm_compute. reflexivity.
  - left. reflexivity.
Defined.

(** The request is being approved when the agent dies. *)
Definition approved_late : System := Nat.iter 4 death_turn (death_begins (vetted_turn 4)).

Lemma approved_late_run : rtc gstep (system_new system_gate) approved_late.
Proof.
  eapply rtc_l; [apply system_receives|].
  do 4 (eapply rtc_l; [apply system_turn_step; vm_compute; exact I|]).
  eapply rtc_l; [apply death_begins_step; by vm_compute|].
  do 4 (eapply rtc_l; [apply death_turn_step; vm_compute; reflexivity|]). vm_compute. reflexivity.
Qed.

Definition late_lease : Lease :=
  match prepare_lease [Byte.x01] (d_id demo_draw) (d_nonce demo_draw) 0 (agent_info_of demo_reg) "github_api"
          (mkScope ["api.github.com"] ["GET"] ["/repos/a/b"] [] (Some 3600) None None None) demo_limits "github" "auto" with
  | Ok l => l
  | _ => lease_in m_lead "01"
  end.

Lemma credential_granted_after_death_witness :
  rtc gstep (system_new system_gate) approved_late /\
  exists s', rtc gstep approved_late s' /\ rt_registry (sy_router s') = ∅ /\
    leases (rt_leases (sy_router s')) !! "01" = Some late_lease /\ status late_lease = Active.
Proof.
  split; [exact approved_late_run|].
  destruct (credential_granted_after_death approved_late 0
    (mkPending [] demo_peer_info [Byte.x09] (StPrepare JNull demo_params (agent_info_of demo_reg)
       (mkScope ["api.github.com"] ["GET"] ["/repos/a/b"] [] (Some 3600) None None None) "github" demo_limits))
    JNull demo_params (agent_info_of demo_reg)
    (mkScope ["api.github.com"] ["GET"] ["/repos/a/b"] [] (Some 3600) None None None) "github" demo_limits demo_draw
    late_lease) as (s' & Hr & _ & Hreg & _ & Hl & Ha & _).
  - vm_compute. reflexivity.
  - reflexivity.
  - vm_compute. reflexivity.
  - vm_compute. split; discriminate.
  - vm_compute. reflexivity.
  - vm_compute. reflexivity.
  - exists 19000. vm_compute. reflexivity.
  - exists s'. split; [exact Hr|]. split; [exact Hreg|]. split; [exact Hl|exact Ha].
Defined.

(** The agent dies when the lease is stored but nobody listens yet. *)
Definition revoked_early : System := Nat.iter 8 death_turn (death_begins (vetted_turn 8)).

Lemma revoked_lease_gets_listener_witness :
  exists s', gstep revoked_early s' /\ is_Some (port_for_lease (rt_proxies (sy_router s')) "01").
Proof.
  destruct (revoked_lease_gets_listener revoked_early 0
    (mkPending [] demo_peer_info [Byte.x09] (StListen JNull
       (mkScope ["api.github.com"] ["GET"] ["/repos/a/b"] [] (Some 3600) None None None) late_lease))
    JNull (mkScope ["api.github.com"] ["GET"] ["/repos/a/b"] [] (Some 3600) None None None) late_lease
    (set_status (Revoked "agent process exited") late_lease)) as (s' & Hs & _ & Hp).
  - vm_compute. reflexivity.
  - reflexivity.
  - vm_compute. reflexivity.
  - reflexivity.
  - exists 19000. vm_compute. reflexivity.
  - exists s'. split; [exact Hs|exact Hp].
Defined.
End SystemDemo.

Module DaemonDemo.
#[local] Existing Instances plain_fmt timed_gui plain_addr stat_os id_sha plain_parse demo_mac release_build
  chrono_range demo_dns plain_base64 two_tomls plain_identity calm_sys no_argon no_aead no_dev_codec still_rng no_spawn
  no_codec nil_write any_lru daemon_chrono_laws daemon_text daemon_order daemon_order_laws daemon_codec daemon_typed
  daemon_policies.

(** The agent's monitor runs, the agent exits, its death is sent and handled,
    and only then the registry is written. *)
Definition enrolling : Daemon (list byte) := section_turn (section_turn daemon_d2).
Definition exiting : Daemon (list byte) :=
  mkDaemon (dm_gate enrolling) (dm_host enrolling) (dm_conns enrolling) (dm_sent enrolling) (dm_deaths enrolling)
    (dm_death enrolling) ({[daemon_fp]} ∪ dm_exited enrolling) (dm_phase enrolling) (dm_reloads enrolling)
    (dm_main enrolling).
Definition notified : Daemon (list byte) :=
  with_sent exiting ({[0%nat]} ∪ dm_sent exiting) (dm_deaths exiting ++ [notice_of daemon_reg]).
Definition overlooked : Daemon (list byte) := with_death notified (dm_router notified) [] None.

Lemma overlooked_run : rtc dstep daemon_d0 overlooked.
Proof.
  eapply rtc_l; [apply (d_accept daemon_d0 (inl (tt, inl (41, 1000, 1000))) [Byte.x09]); reflexivity|].
  eapply rtc_l; [apply (d_line daemon_d1 0 (conn_new [Byte.x09] daemon_peer) ("R" +:+ String newline EmptyString)); reflexivity|].
  do 2 (eapply rtc_l; [apply section_turn_step; [vm_compute; reflexivity|vm_compute; exact I]|]).
  eapply rtc_l; [by apply (d_exit enrolling daemon_fp)|].
  eapply rtc_l.
  { apply d_task, (t_monitor exiting 0 (notice_of daemon_reg) true); [done|vm_compute; reflexivity|apply not_elem_of_empty| |].
    - vm_compute. reflexivity.
    - vm_compute. lia. }
  apply rtc_once, d_task, (t_death notified (notice_of daemon_reg) []); vm_compute; reflexivity.
Qed.

Definition overlooked_request : Pending :=
  match dm_conns overlooked !! 0%nat ≫= ct_request with
  | Some p => p
  | None => mkPending [] daemon_peer [] StPanicked
  end.

Lemma death_before_enrolment_is_lost_witness :
  rtc dstep daemon_d0 overlooked /\
  exists d1, dstep overlooked d1 /\ forall d2, rtc dtask d1 d2 ->
    rt_registry (dm_router d2) !! bytes_to_hex daemon_fp = Some daemon_reg.
Proof.
  split; [exact overlooked_run|].
  apply (death_before_enrolment_is_lost overlooked 0 (default (conn_new [] daemon_peer) (dm_conns overlooked !! 0%nat))
    overlooked_request (JNumber (PosInt 7)) daemon_reg
    (mkRegisterResult "registered" (bytes_to_hex daemon_fp)
       ("cdp_sess_" +:+ generate_session_token (rt_gate_key (dm_router overlooked)) daemon_fp [Byte.x09]) [])).
  - reflexivity.
  - vm_compute. reflexivity.
  - vm_compute. reflexivity.
  - vm_compute. reflexivity.
  - reflexivity.
  - split.
    + intros [|n] notice Hn _; [set_solver|]. vm_compute in Hn. destruct n; discriminate.
    + intros notice Hin. by apply not_elem_of_nil in Hin.
Defined.

(** The agent of the first connection is registered, gets a lease, and exits. *)
Definition agent_lease : Lease :=
  match prepare_lease [Byte.x01] (d_id demo_draw) (d_nonce demo_draw) 0 (agent_info_of daemon_reg) "github_api"
          (mkScope ["api.github.com"] ["GET"] ["/repos/a/b"] [] (Some 3600) None None None) demo_limits "github" "auto" with
  | Ok l => l
  | _ => lease_in m_lead "01"
  end.
Definition with_manager (d : Daemon (list byte)) (m : LeaseManager) : Daemon (list byte) :=
  with_router d (with_managers (dm_router d) m (rt_proxies (dm_router d))).
Definition leased : Daemon (list byte) := with_manager daemon_d4 (insert_lease (rt_leases (dm_router daemon_d4)) agent_lease).
Definition indexed_lease : Daemon (list byte) := with_manager leased (index_lease (rt_leases (dm_router leased)) daemon_fp "01").
Definition agent_exited : Daemon (list byte) :=
  mkDaemon (dm_gate indexed_lease) (dm_host indexed_lease) (dm_conns indexed_lease) (dm_sent indexed_lease)
    (dm_deaths indexed_lease) (dm_death indexed_lease) ({[daemon_fp]} ∪ dm_exited indexed_lease) (dm_phase indexed_lease)
    (dm_reloads indexed_lease) (dm_main indexed_lease).

Lemma agent_exited_run : rtc dstep daemon_d0 agent_exited.
Proof.
  etrans; [exact daemon_run4|].
  eapply rtc_l; [apply (d_lease daemon_d4 (insert_lease (rt_leases (dm_router daemon_d4)) agent_lease)); [reflexivity|]|].
  { apply (step_insert _ (d_id demo_draw) (d_nonce demo_draw) 0 (agent_info_of daemon_reg) "github_api"
      (mkScope ["api.github.com"] ["GET"] ["/repos/a/b"] [] (Some 3600) None None None) demo_limits "github" "auto").
    - vm_compute. split; discriminate.
    - split; intros x [= <-]; by vm_compute.
    - split; intros x [= <-]; by vm_compute.
    - vm_compute. reflexivity.
    - vm_compute. reflexivity. }
  eapply rtc_l; [apply (d_lease leased (index_lease (rt_leases (dm_router leased)) daemon_fp "01")); [reflexivity|]|].
  { apply (step_index _ daemon_fp "01" agent_lease); vm_compute; reflexivity. }
  apply rtc_once. by apply (d_exit indexed_lease daemon_fp).
Qed.

(** The sweep runs once before the death is noticed. *)
Definition agent_swept : Daemon (list byte) := with_router agent_exited (sweep_tick 0 (dm_router agent_exited)).

Lemma exited_agent_is_torn_down_witness :
  exists d2, rtc dtask agent_swept d2 /\ rt_registry (dm_router d2) !! bytes_to_hex daemon_fp = None /\
    (torn_down (dm_router d2) "01" \/ swept agent_exited d2 "01").
Proof.
  destruct (exited_agent_is_torn_down demo_key32 [Byte.x01] repaired_host _ _ agent_exited agent_swept (bytes_to_hex daemon_fp)
    daemon_reg daemon_started agent_exited_run) as (d2 & Hr & Hall).
  - reflexivity.
  - reflexivity.
  - vm_compute. reflexivity.
  - apply (bool_decide_unpack _). vm_compute. exact I.
  - exists 0%nat. split; [vm_compute; reflexivity|left; apply not_elem_of_empty].
  - apply rtc_once. by apply t_sweep.
  - destruct (Hall d2 (rtc_refl _ _)) as [Hn Ht]. exists d2. split; [exact Hr|]. split; [exact Hn|]. apply Ht.
    + unfold indexed. apply (bool_decide_unpack _). vm_compute. exact I.
    + vm_compute. reflexivity.
    + left. reflexivity.
Defined.

(** A request at its last section when [stop_all] has run. *)
Definition late_conn : ConnTask :=
  mkConnTask [Byte.x09] daemon_peer [] [] (Some (mkPending [] daemon_peer [Byte.x09] (StListen JNull (granted_scope agent_lease) agent_lease))) true.
Definition late_daemon : Daemon (list byte) := stop_proxies (with_conns indexed_lease [late_conn]).

Lemma listener_outlives_stop_all_witness :
  exists d', rtc dstep late_daemon d' /\ dm_main d' = Exited /\ is_Some (port_for_lease (rt_proxies (dm_router d')) "01").
Proof.
  apply (listener_outlives_stop_all late_daemon 0 late_conn
    (mkPending [] daemon_peer [Byte.x09] (StListen JNull (granted_scope agent_lease) agent_lease)) JNull
    (granted_scope agent_lease) agent_lease); [reflexivity|reflexivity|reflexivity|reflexivity|].
  eexists. vm_compute. reflexivity.
Defined.
End DaemonDemo.
