(* ===== verification/GateSite.v ===== *)
(** * The gate with its proxies

    [GateSystem] has the gate's requests and deaths, [ProxyServer] the listener
    tasks and what they send; in the process they share the lease manager and
    the listener pool.  Here they run together: a section of the gate that
    starts or releases a listener spawns the task or drops its handle, and a
    proxied request uses the gate's leases under the gate's key.  Runs project
    to runs of both parts, so that what holds of either holds of the whole. *)

From S2P Require Import Prelude RustStr Crypto PolicyTypes PolicyParser PolicyEvaluator PolicyEngine AuditLog.
From S2P Require Import LeaseTypes LeaseManager LeaseLemmas LeaseSteps LeaseSafety LeaseProps.
From S2P Require Import ProxyScope ProxyAuth ProxyHttp ProxyManager ProxyServer GateAgent GateRouter GateStages GateSystem.
From S2P Require Import GateVetting GateRaces.

Section Site.
Context `{Fmt} `{FmtAddr} `{Sha256} `{FmtParse} `{HmacSha256}.
Context `{Build} `{Chrono} `{!ChronoLaws} `{!RpcCodec} `{!RpcTyped} `{TextParse} `{LruCache}.
Context `{HttpCrate} `{Globset} `{JsonParse}.

(** ** State *)

(** A proxied request: the processes and the credential provider of that
    moment, the request itself and the connections it opened. *)
Record Served : Type := mkServed {
  sd_proc : ProcFs;
  sd_provider : CredentialProvider;
  sd_lease : string;
  sd_parts : Parts;
  sd_body : list byte + string;
  sd_remote : SocketAddr;
  sd_conns : list (IpAddr * Z * Outbound)
}.

(** The gate, and of its proxies what [Serving] adds to leases and pool;
    [si_served] are the requests handled so far, from which follows what was
    sent. *)
Record Site : Type := mkSite {
  si_gate : System;
  si_tasks : list ServerTask;
  si_handles : gmap string nat;
  si_conns : list (string * SocketAddr);
  si_served : list Served
}.

Definition sent_by (sv : Served) : list (string * (IpAddr * Z * Outbound)) := map (fun c => (sd_lease sv, c)) (sd_conns sv).
Definition si_sent (s : Site) : list (string * (IpAddr * Z * Outbound)) := concat (map sent_by (si_served s)).

Definition site_new (rt : Router) : Site := mkSite (system_new rt) [] ∅ [] [].

Definition site_leases (s : Site) : LeaseManager := rt_leases (sy_router (si_gate s)).

Definition serving (s : Site) : Serving :=
  mkServing (site_leases s) (rt_proxies (sy_router (si_gate s))) (si_tasks s) (si_handles s) (si_conns s) (si_sent s).

(** The gate's state and that of the listener tasks change, no request is
    handled. *)
Definition at_serving (s : Site) (g : System) (v : Serving) : Site :=
  mkSite g (sp_tasks v) (sp_handles v) (sp_conns v) (si_served s).

Definition with_leases (g : System) (m : LeaseManager) : System :=
  with_sy_router g (with_managers (sy_router g) m (rt_proxies (sy_router g))).

(** ** Steps *)

Inductive site_step : Site -> Site -> Prop :=
(** A step of the gate that leaves the pool alone. *)
| st_gate s g : gstep (si_gate s) g -> rt_proxies (sy_router g) = rt_proxies (sy_router (si_gate s)) ->
    site_step s (at_serving s g (serving s))
(** [start_proxy] of a request. *)
| st_start `{Gui} `{AgentOs} `{Resolver} `{MapOrder} `{!MapOrderLaws} s i p id granted lease now draw rt st :
    sy_requests (si_gate s) !! i = Some p -> pd_stage p = StListen id granted lease ->
    advance (sy_router (si_gate s)) now draw (pd_peer p) (pd_connection_id p) (pd_stage p) = (rt, st) ->
    site_step s (at_serving s (mkSystem rt (<[i := at_stage p st]> (sy_requests (si_gate s))) (sy_death (si_gate s)))
                   (spawn_server (lease_id lease) (serving s)).1)
(** [release_lease] of a death. *)
| st_release s id rest rt de : sy_death (si_gate s) = Some (DeRelease (id :: rest)) ->
    advance_death (sy_router (si_gate s)) (DeRelease (id :: rest)) = Some (rt, de) ->
    site_step s (at_serving s (mkSystem rt (sy_requests (si_gate s)) de) (release_server id (serving s)))
(** [stop_all] at shutdown. *)
| st_stop s rt : rt = sy_router (si_gate s) ->
    site_step s (at_serving s (with_sy_router (si_gate s) (with_managers rt (rt_leases rt) (stop_all (rt_proxies rt))))
                   (stop_servers (serving s)))
(** A listener task binds, accepts or ends. *)
| st_task s v : sstep (serving s) v -> sp_leases v = sp_leases (serving s) -> sp_pool v = sp_pool (serving s) ->
    sp_handles v = sp_handles (serving s) -> sp_sent v = sp_sent (serving s) ->
    site_step s (at_serving s (si_gate s) v)
(** A request on a connection of a proxy, under the gate's key. *)
| st_request `{!Network} `{CredentialProvider} `{ProcFs} s empty m_read now parts body remote lid audit m r fx :
    (lid, remote) ∈ si_conns s -> rtc lstep m_read (site_leases s) ->
    ProxyHttp.handle_request empty m_read (site_leases s) now parts body remote lid
      (rt_gate_key (sy_router (si_gate s))) audit = (m, r, fx) ->
    site_step s (mkSite (with_leases (si_gate s) m) (si_tasks s) (si_handles s) (si_conns s)
                   (si_served s ++ [mkServed _ _ lid parts body remote (fx_sent fx)])).

(** ** Projections *)

Lemma lease_run_serving (m m' : LeaseManager) pool tasks handles conns sent : rtc lstep m m' ->
  rtc sstep (mkServing m pool tasks handles conns sent) (mkServing m' pool tasks handles conns sent).
Proof.
  induction 1 as [|m1 m2 m3 Hs _ IH]; [done|]. eapply rtc_l; [|exact IH].
  by apply (s_lease m2 (mkServing m1 pool tasks handles conns sent)).
Qed.

(** The projection of a step to the gate. *)
Lemma site_step_gate s s' : site_step s s' -> si_gate s' = si_gate s \/ gstep (si_gate s) (si_gate s').
Proof.
  destruct 1 as [s g Hg _|gui os dns ord ordl s i p id granted lease now draw rt st Hi Hst Ha|s id rest rt de Hde Ha|s rt ->|
    s v _ _ _ _ _|net cp pf s empty m_read now parts body remote lid audit m r fx _ _ Eh]; cbn; auto.
  - right. eapply g_section; [exact Hi|by rewrite Hst|exact Ha].
  - right. by eapply g_death_section.
  - right. apply g_stop.
  - apply handle_request_leases in Eh as [-> | ->]; [left; by destruct s as [[[] ? ?] ? ? ? ?]|right; apply g_lease, step_use].
Qed.

Ltac step_to v := match goal with |- sstep _ ?x => replace x with v end.

(** And to the proxies. *)
Lemma site_step_serving s s' : system_ok (si_gate s) -> site_step s s' -> rtc sstep (serving s) (serving s').
Proof.
  intros Hok Hs. destruct Hs as [s g Hg Hp|gui os dns ord ordl s i p id granted lease now draw rt st Hi Hst Ha|
    s id rest rt de Hde Ha|s rt ->|s v Hv Hl Hpool Hh Hsent|net cp pf s empty m_read now parts body remote lid audit m r fx Hc Hm Eh].
  - destruct (gstep_router _ _ Hg (so_gate _ Hok) (so_requests _ Hok)) as [_ [_ _ Hl]].
    unfold serving at 2, site_leases. cbn. rewrite Hp. by apply lease_run_serving.
  - apply rtc_once. rewrite Hst in Ha. cbn [advance grant_section] in Ha.
    step_to (spawn_server (lease_id lease) (serving s)).1; [apply s_start|].
    unfold spawn_server, serving, site_leases, at_serving in *. cbn in *.
    destruct (start_proxy _ _) as [pm [port|e|]]; by injection Ha as <- _.
  - apply rtc_once. cbn in Ha. injection Ha as <- <-. exact (s_release id (serving s)).
  - apply rtc_once. exact (s_stop (serving s)).
  - apply rtc_once. step_to v; [done|]. destruct v. unfold serving, site_leases in *. cbn in *. by subst.
  - apply rtc_once. step_to (serve empty m_read now parts body remote lid (rt_gate_key (sy_router (si_gate s))) audit (serving s)).1;
      [by apply s_request|].
    unfold serve. cbn [sp_leases serving]. rewrite Eh. unfold serving, si_sent. cbn. rewrite map_app, concat_app. cbn. by rewrite app_nil_r.
Qed.

(** Sections other than those of [st_start] and [st_release] leave the pool
    alone. *)
Lemma advance_pool `{Gui} `{AgentOs} `{Resolver} `{MapOrder} rt now draw peer cid st rt' st' :
  advance rt now draw peer cid st = (rt', st') ->
  rt_proxies rt' = rt_proxies rt \/ exists id granted lease, st = StListen id granted lease.
Proof.
  destruct st as [id params|id params|id reg res|req o|id params|id params|id params ag|id params ag g pn c|
    id params ag g pn c|id ag g l|id ag g l|id ag g l|id g l|resp|]; cbn [advance register_section credential_section grant_section]; intros Ha.
  all: try (right; by eexists _, _, _).
  all: left; try (by injection Ha as <- _).
  - destruct (validate_replay _ _ _ _). by injection Ha as <- _.
  - repeat case_match; by injection Ha as <- _.
  - destruct (validate_replay _ _ _ _). by injection Ha as <- _.
Qed.

Lemma death_pool rt st rt' de : advance_death rt st = Some (rt', de) ->
  rt_proxies rt' = rt_proxies rt \/ exists id rest, st = DeRelease (id :: rest).
Proof.
  destruct st as [fp|fp [|id rest] revoked|fp id rest revoked|fp id rest revoked|fp revoked|[|id rest]];
    cbn [advance_death]; intros Ha; try (right; by eexists _, _); left; try (by injection Ha as <- _).
  - by apply bind_Some in Ha as (ds & _ & [= <- _]).
  - by apply bind_Some in Ha as ([m r] & _ & [= <- _]).
Qed.

(** No step of the gate is lost: each has a step of the whole. *)
Lemma gstep_site_step s g : gstep (si_gate s) g -> exists s', site_step s s' /\ si_gate s' = g.
Proof.
  intros Hg.
  assert (rt_proxies (sy_router g) = rt_proxies (sy_router (si_gate s)) -> exists s', site_step s s' /\ si_gate s' = g) as Hsame.
  { intros E. eexists. split; [by apply st_gate|done]. }
  remember (si_gate s) as g0 eqn:E. revert Hsame.
  destruct Hg as [g0 i raw peer cid _|gui os dns ord ordl g0 i p now draw rt st Hi Hd Ha|g0 i p _ _|g0 n rt de _ Hb|g0 st rt de Hde Ha|
    g0 cid|g0 m Hl|g0|g0 ps Hps]; cbn; subst g0; intros Hsame; try (by apply Hsame).
  - destruct (advance_pool _ _ _ _ _ _ _ _ Ha) as [Hp|(id & granted & lease & Hst)]; [by apply Hsame|].
    eexists. split; [by eapply st_start|done].
  - apply Hsame. unfold begin_death in Hb. destruct (rt_registry _ !! _); by injection Hb as <- _.
  - destruct (death_pool _ _ _ _ Ha) as [Hp|(id & rest & ->)]; [by apply Hsame|].
    eexists. split; [by eapply st_release|done].
  - eexists. split; [by eapply st_stop|done].
Qed.

(** ** What has left the gate *)

(** The three factors, for a lease: the request carried its token and a binding
    nonce that matches its own, and came from its process and user. *)
Definition presented (pf : ProcFs) (l : Lease) (parts : Parts) (remote : SocketAddr) : Prop :=
  exists tok cb nonce,
    extract_header (p_headers parts) HEADER_LEASE_TOKEN = Some tok /\
    hex_to_bytes (E:=ProxyError) tok = hex_to_bytes (E:=ProxyError) (lease_token l) /\
    extract_header (p_headers parts) HEADER_CHANNEL_BINDING = Some cb /\
    hex_to_bytes (E:=ProxyError) cb = Ok (Some nonce) /\ verify_binding (channel_binding_nonce l) nonce = true /\
    resolve_tcp_peer remote = Ok (agent_pid l, agent_uid l).

(** The lease covers the request: by the processes of its moment it presented
    the lease's factors, its method, target and whole body are in the lease's
    scope, the credential is the lease's, and its connections stay within the
    lease and carry that body. *)
Definition served_within (l : Lease) (sv : Served) : Prop :=
  exists host bytes creds,
    presented (sd_proc sv) l (sd_parts sv) (sd_remote sv) /\
    collect_body (sd_body sv) GLOBAL_MAX_BODY_BYTES = Ok bytes /\
    extract_host (p_headers (sd_parts sv)) (p_uri (sd_parts sv)) = Some host /\
    validate_request (p_method (sd_parts sv)) host (uri_path (p_uri (sd_parts sv)))
      (v ← hm_get (p_headers (sd_parts sv)) "content-type"; header_value_to_str v)
      (if bool_decide (bytes = []) then None else Some bytes) (granted_scope l) = Ok tt /\
    fetch_credential (CredentialProvider:=sd_provider sv) (credential_ref l) (sd_lease sv) = Ok creds /\
    (length (sd_conns sv) <= 6)%nat /\
    Forall (fun c => confined l (sd_parts sv) creds c /\ o_body c.2 = bytes) (sd_conns sv).

(** The requests that opened connections under a lease. *)
Definition forwarded (id : string) (served : list Served) : list Served :=
  List.filter (fun sv => bool_decide (sd_lease sv = id) && negb (bool_decide (length (sd_conns sv) = 0%nat))) served.

(** Everything went out under a stored lease and within it, and for a lease
    with a quota there were no more such requests than uses. *)
Record traffic_ok (m : LeaseManager) (served : list Served) : Prop := {
  tr_lease : forall sv, sv ∈ served -> sd_conns sv <> [] ->
    exists l, leases m !! sd_lease sv = Some l /\ served_within l sv;
  tr_count : forall id l k, leases m !! id = Some l -> max_requests l = Some k ->
    Z.of_nat (length (forwarded id served)) <= requests_used l
}.

Lemma served_later l l' sv : later l l' -> served_within l sv -> served_within l' sv.
Proof.
  intros Hl (host & bytes & creds & (tok & cb & nonce & Hp) & Hb & Hh & Hv & Hf & Hlen & Hc). exists host, bytes, creds.
  rewrite (later_scope _ _ Hl), (later_cred _ _ Hl). split_and!; try done.
  - exists tok, cb, nonce. by rewrite (later_token _ _ Hl), (later_nonce _ _ Hl), (later_pid _ _ Hl), (later_uid _ _ Hl).
  - eapply Forall_impl; [exact Hc|]. intros [[ip port] req] [Hc1 Hc2]. split; [|done].
    unfold confined in *. by rewrite (later_scope _ _ Hl), (later_pins _ _ Hl).
Qed.

Lemma forwarded_app id a b : forwarded id (a ++ b) = forwarded id a ++ forwarded id b.
Proof. apply List.filter_app. Qed.

Lemma forwarded_none id served : (forall sv, sv ∈ served -> sd_conns sv <> [] -> sd_lease sv <> id) -> forwarded id served = [].
Proof.
  intros Hn. unfold forwarded. destruct (List.filter _ served) as [|sv rest] eqn:E; [done|].
  assert (sv ∈ sv :: rest) as Hin by left. rewrite <- E in Hin. apply list_elem_of_In, List.filter_In in Hin as [Hin Hx].
  apply list_elem_of_In in Hin. apply andb_true_iff in Hx as [Hx1%bool_decide_eq_true Hx2].
  destruct (Hn sv Hin); [|done]. intros E'. by rewrite E' in Hx2.
Qed.

Lemma traffic_step m m' served : lstep m m' -> inv m -> traffic_ok m served -> traffic_ok m' served.
Proof.
  intros Hs Hinv [Hl Hc]. split.
  - intros sv Hin Hne. destruct (Hl sv Hin Hne) as (l & Hid & Hf).
    destruct (lstep_moves _ _ _ _ Hs Hid) as (l' & ? & Hm%moves_later). exists l'. split; [done|by eapply served_later].
  - intros id l' k Hid Hk. destruct (leases m !! id) as [l|] eqn:E.
    + destruct (lstep_moves _ _ _ _ Hs E) as (l2 & E2 & Hm). simplify_eq.
      rewrite (later_quota _ _ (moves_later _ _ Hm)) in Hk.
      destruct (moves_requests _ _ _ _ Hm (inv_leases _ Hinv _ _ E) Hk). specialize (Hc id l k E Hk). lia.
    + rewrite (forwarded_none id served) by (intros sv Hin (l & Hl' & _)%Hl E'; [congruence|done]).
      pose proof (ok_requests _ _ (inv_leases _ (inv_step _ _ Hs Hinv) _ _ Hid)). cbn. lia.
Qed.

Lemma traffic_run m m' served : rtc lstep m m' -> inv m -> traffic_ok m served -> traffic_ok m' served.
Proof.
  induction 1 as [|m m1 m' Hs _ IH]; [done|]. intros Hinv Ht. apply IH; [by eapply inv_step|by eapply traffic_step].
Qed.

Lemma forwarded_one id sv : (length (forwarded id [sv]) <= 1)%nat.
Proof. unfold forwarded. cbn. destruct (_ && _); cbn; lia. Qed.

Lemma traffic_silent m served sv : sd_conns sv = [] -> traffic_ok m served -> traffic_ok m (served ++ [sv]).
Proof.
  intros E [Hl Hc]. split.
  - intros sv' [Hin| ->%list_elem_of_singleton]%elem_of_app Hne; [by apply Hl|done].
  - intros id l k Hid Hk. rewrite forwarded_app, (forwarded_none id [sv]), app_nil_r; [by eapply Hc|].
    by intros sv' ->%list_elem_of_singleton.
Qed.

Lemma authenticated_presents `{!HeaderMapLaws} `{ProcFs} parts remote id l gkey :
  authenticate remote (p_headers parts) id l gkey = Ok tt ->
  lease_token l = generate_lease_token gkey id (agent_fingerprint_hash l) (channel_binding_nonce l) ->
  presented _ l parts remote.
Proof.
  unfold authenticate. intros (tok & Htok%ok_or_ok & (cb & Hcb%ok_or_ok & (dec & Hdec & (nonce & ->%ok_or_ok & (ok & Hok & Hk)%rbind_ok)%rbind_ok)%rbind_ok)%rbind_ok)%rbind_ok Ht.
  rewrite !guard_ok, peer_check_ok, !negb_false_iff in Hk. destruct Hk as (-> & Hb & Hp).
  apply verify_lease_token_true in Hok. exists tok, cb, nonce. split_and!; try done.
  rewrite Hok, Ht. unfold generate_lease_token. by rewrite hex_roundtrip.
Qed.

(** One proxied request. *)
Lemma request_traffic `{!HeaderMapLaws} `{!Network} `{!CredentialProvider} `{!ProcFs} empty m_read m now parts body remote lid audit m' r fx served :
  reachable m -> rtc lstep m_read m -> traffic_ok m served ->
  ProxyHttp.handle_request empty m_read m now parts body remote lid (gate_key m) audit = (m', r, fx) ->
  traffic_ok m' (served ++ [mkServed _ _ lid parts body remote (fx_sent fx)]).
Proof.
  intros Hreach Hread Htr Hh. assert (rtc lstep m m') as Hrun.
  { destruct (handle_request_leases _ _ _ _ _ _ _ _ _ _ _ _ _ Hh) as [-> | ->]; [done|]. apply rtc_once, step_use. }
  pose proof (reachable_inv _ Hreach) as Hinv. pose proof (reachable_inv _ (reachable_run _ _ Hreach Hrun)) as Hinv'.
  pose proof (traffic_run _ _ _ Hrun Hinv Htr) as Htr'.
  unfold ProxyHttp.handle_request in Hh. destruct (handle_request_inner _ _ _ _ _ _ _ _ _) as [[m1 r1] fx1] eqn:Hi.
  assert (m1 = m' /\ fx1 = fx) as [-> ->] by (destruct r1; [|destruct (proxy_error_to_response _)|]; by simplify_eq).
  clear Hh. apply handle_request_inner_outcome in Hi as [[E _]|(bytes & lease & creds & Hlt & (new & Hnew & Hlen & Hconf) & _)].
  { rewrite E. apply traffic_silent; [done|done]. }
  cbn in Hnew. rewrite Hnew. clear Hnew. destruct Hlt as (read & host & Hb & Hget & Hauth & Huse & Hhost & Hval & Hcr).
  apply ok_or_ok in Hget. destruct (run_later _ _ _ _ Hread Hget) as (l0 & Hl0 & Hlat0).
  destruct (run_later _ _ _ _ Hrun Hl0) as (l1 & Hl1 & Hlat1).
  destruct (use_lease_ok _ _ _ _ _ Huse) as (l0' & Hl0' & Hchk & Hm'). simplify_eq.
  assert (l1 = lease) as -> by (rewrite Hm', lookup_insert_eq in Hl1; by simplify_eq).
  pose proof (later_trans _ _ _ Hlat0 Hlat1) as Hlat.
  assert (presented _ lease parts remote) as Hpres.
  { apply (authenticated_presents parts remote lid lease (gate_key m)).
    - unfold authenticate in *. by rewrite (later_agent _ _ Hlat), (later_nonce _ _ Hlat), (later_pid _ _ Hlat), (later_uid _ _ Hlat).
    - rewrite (ok_token _ _ (inv_leases _ Hinv' _ _ Hl1)). by rewrite (wf_id _ (inv_forest _ Hinv') _ _ Hl1), (run_key _ _ Hrun). }
  split.
  - intros sv [Hin| ->%list_elem_of_singleton]%elem_of_app Hne; [by apply (tr_lease _ _ Htr')|].
    exists lease. split; [done|]. exists host, bytes, creds. by split_and!.
  - intros id l k Hid Hk. rewrite forwarded_app, length_app. destruct (decide (id = lid)) as [->|Hne].
    + simplify_eq. apply use_checked_ok in Hchk as (_ & _ & Hlim & n & Hadd & ->). cbn in Hk.
      specialize (Hlim k Hk). pose proof (ok_quota _ _ (inv_leases _ Hinv _ _ Hl0) k Hk).
      rewrite add_u_ok in Hadd by lia. injection Hadd as <-. cbn [requests_used].
      pose proof (tr_count _ _ Htr lid l0 k Hl0 Hk).
      match goal with |- context [forwarded lid [?sv]] => pose proof (forwarded_one lid sv) end. cbn in *. lia.
    + rewrite (forwarded_none id [_]) by (intros sv ->%list_elem_of_singleton _; cbn; congruence).
      pose proof (tr_count _ _ Htr' id l k Hid Hk). cbn. lia.
Qed.

Record site_ok (s : Site) : Prop := {
  sk_gate : system_ok (si_gate s);
  sk_traffic : traffic_ok (site_leases s) (si_served s)
}.

Lemma site_ok_new rt : gate_ok rt -> site_ok (site_new rt).
Proof.
  intros Hok. split; [by apply system_ok_new|]. split; cbn; [set_solver|]. intros id l k Hl Hk.
  pose proof (ok_requests _ _ (inv_leases _ (reachable_inv _ (go_leases _ Hok)) _ _ Hl)). cbn. lia.
Qed.

Context `{!HeaderMapLaws}.

Lemma site_ok_step s s' : site_step s s' -> site_ok s -> site_ok s'.
Proof.
  intros Hs [Hok Htr]. pose proof (site_step_gate _ _ Hs) as Hg.
  split; [destruct Hg as [-> |Hg]; [done|by eapply system_ok_step]|]. pose proof (go_leases _ (so_gate _ Hok)) as Hr. pose proof (reachable_inv _ Hr) as Hinv.
  assert (si_served s' = si_served s -> traffic_ok (site_leases s') (si_served s')) as Hsame.
  { intros ->. eapply traffic_run; [|exact Hinv|exact Htr].
    unfold site_leases. destruct Hg as [-> |Hg]; [done|].
    by destruct (gstep_router _ _ Hg (so_gate _ Hok) (so_requests _ Hok)) as [_ [_ _ Hl]]. }
  destruct Hs as [| | | | |net cp pf s empty m_read now parts body remote lid audit m r fx Hc Hm Eh]; try (by apply Hsame).
  rewrite <- (go_key _ (so_gate _ Hok)) in Eh. cbn. by eapply request_traffic.
Qed.

Lemma site_ok_run s s' : rtc site_step s s' -> site_ok s -> site_ok s'.
Proof. induction 1 as [|x y z Hs _ IH]; [done|]. intros Hx. by apply IH, (site_ok_step x). Qed.

Lemma site_run_serving s s' : rtc site_step s s' -> site_ok s -> rtc sstep (serving s) (serving s').
Proof.
  induction 1 as [|x y z Hs _ IH]; [done|]. intros Hx. etrans; [by apply site_step_serving; [apply sk_gate|]|].
  by apply IH, (site_ok_step x).
Qed.

Lemma site_run_gate s s' : rtc site_step s s' -> rtc gstep (si_gate s) (si_gate s').
Proof.
  induction 1 as [|x y z Hs _ IH]; [done|]. destruct (site_step_gate _ _ Hs) as [<- |Hg]; [exact IH|by eapply rtc_l].
Qed.

Lemma sent_served s id c : (id, c) ∈ si_sent s -> exists sv, sv ∈ si_served s /\ sd_lease sv = id /\ c ∈ sd_conns sv.
Proof.
  unfold si_sent. intros (es & (sv & <- & Hsv)%in_map_iff & (c' & [= <- <-] & Hc)%in_map_iff)%list_elem_of_In%in_concat.
  exists sv. by rewrite !list_elem_of_In.
Qed.

(** Any step while a death is being handled. *)
Definition busy_site (s s' : Site) : Prop := site_step s s' /\ sy_death (si_gate s) <> None.

Lemma busy_site_gate s s' : rtc busy_site s s' -> rtc busy_step (si_gate s) (si_gate s').
Proof.
  induction 1 as [|x y z [Hs Hd] _ IH]; [done|]. destruct (site_step_gate _ _ Hs) as [<- |Hg]; [exact IH|].
  eapply rtc_l; [by split|exact IH].
Qed.

Lemma busy_site_run s s' : rtc busy_site s s' -> rtc site_step s s'.
Proof. apply rtc_subrel. by intros x y []. Qed.

(** ** Properties *)

(** The whole process refines both of its parts: a run of the gate with its
    proxies is a run of the gate's steps and a run of the listener tasks'
    steps, which share leases and listeners; the gate's state stays
    well-formed, and whatever step the gate can take, the whole can take. *)
Theorem site_refines_gate_and_proxies (rt : Router) (s : Site) :
  gate_ok rt -> rtc site_step (site_new rt) s ->
  rtc gstep (system_new rt) (si_gate s) /\ rtc sstep (serving (site_new rt)) (serving s) /\ system_ok (si_gate s) /\
  forall g, gstep (si_gate s) g -> exists s', site_step s s' /\ si_gate s' = g.
Proof.
  intros Hok Hrun. pose proof (site_ok_new _ Hok) as Hnew. split_and!.
  - exact (site_run_gate _ _ Hrun).
  - by apply site_run_serving.
  - by apply sk_gate, (site_ok_run _ _ Hrun).
  - apply gstep_site_step.
Qed.

(** C4. End to end, whatever has ever left a gate through its proxies was sent
    for a request it handled under a lease it stores.  That request presented
    the lease's own token and nonce from the lease's process and user, its
    method, target and whole body are in the lease's scope, it opened at most
    six connections, each to an address pinned for a host of the scope and
    with the request's own body, and under a lease with a request limit no more
    requests were forwarded than the limit allows, over the whole life of the
    gate. *)
Theorem upstream_traffic_is_granted (rt : Router) (s : Site) (id : string) (c : IpAddr * Z * Outbound) :
  gate_ok rt -> rtc site_step (site_new rt) s -> (id, c) ∈ si_sent s ->
  exists l sv, leases (site_leases s) !! id = Some l /\ sv ∈ si_served s /\ sd_lease sv = id /\ c ∈ sd_conns sv /\
    served_within l sv /\
    forall k, max_requests l = Some k -> Z.of_nat (length (forwarded id (si_served s))) <= k.
Proof.
  intros Hok Hrun Hin. destruct (site_ok_run _ _ Hrun (site_ok_new _ Hok)) as [Hg Htr].
  destruct (sent_served _ _ _ Hin) as (sv & Hsv & <- & Hc).
  destruct (tr_lease _ _ Htr sv Hsv) as (l & Hl & Hf); [by intros E; rewrite E in Hc; apply elem_of_nil in Hc|].
  exists l, sv. split_and!; [done..|]. intros k Hk. pose proof (tr_count _ _ Htr _ l k Hl Hk).
  pose proof (ok_quota _ _ (inv_leases _ (reachable_inv _ (go_leases _ (so_gate _ Hg))) _ _ Hl) k Hk). lia.
Qed.

(** C8. The death of an agent cuts it off: once the death task is done with the
    root leases it read from the agent's index, nothing more is sent upstream
    under any of them or under a lease delegated from one, by no request whose
    use of the lease comes after, whatever gate, proxies and other callers do
    then, and whatever came between the task's sections. *)
Theorem dead_agent_is_cut_off (s s1 s2 : Site) (fp : list byte) (ids : list string) (id : string) :
  site_ok s -> sy_death (si_gate s) = Some (DeRoot fp ids []) -> id ∈ ids ->
  is_root_lease (leases (site_leases s)) id = true ->
  rtc busy_site s s1 -> sy_death (si_gate s1) = None -> rtc site_step s1 s2 ->
  exists new, si_sent s2 = si_sent s1 ++ new /\
    forall x c, within (leases (site_leases s1)) id x -> (x, c) ∉ new.
Proof.
  intros Hok Hde Hid Hroot Hbusy Hend Hrun. pose proof (site_ok_run _ _ (busy_site_run _ _ Hbusy) Hok) as Hok1.
  destruct (death_revokes_roots _ _ _ _ _ (sk_gate _ Hok) Hde Hid Hroot (busy_site_gate _ _ Hbusy) Hend)
    as [Hsys (l & Hl & Hrev)].
  exact (revoked_tree_is_silent (serving s1) (serving s2) id l (go_leases _ (so_gate _ Hsys)) Hl Hrev
    (site_run_serving _ _ Hrun Hok1)).
Qed.
End Site.

(** ** A run to look at *)

Module SiteDemo.
#[local] Existing Instances plain_fmt timed_gui plain_addr stat_os id_sha plain_parse demo_mac release_build
  chrono_range demo_dns system_chrono_laws system_codec system_typed system_text set_lru system_order system_order_laws
  list_http list_http_laws demo_proc literal_globs one_body demo_creds.
#[local] Instance site_net : Network :=
  {| dns_at := fun _ => demo_dns; tcp_connect := fun _ _ _ => None;
     exchange := fun _ _ _ _ => inl (mkResponse 200 [] (inl [])) |}.

(** A value of the run, computed. *)
Notation computed x := (ltac:(let v := eval vm_compute in x in exact v)) (only parsing).

(** The agent's request up to its lease, its listener, which binds and takes
    a connection, and a proxied request. *)
Definition asked : Site := computed (at_serving (site_new system_gate) (vetted_turn 8) (serving (site_new system_gate))).

Definition site_pending : Pending :=
  computed (default (mkPending [] demo_peer_info [] StPanicked) (sy_requests (si_gate asked) !! 0%nat)).
Definition site_made : Lease := computed (match pd_stage site_pending with StListen _ _ l => l | _ => lease_in m_lead "01" end).
Definition listened : Router * Stage :=
  computed (advance (sy_router (si_gate asked)) 0 demo_draw (pd_peer site_pending) (pd_connection_id site_pending)
              (pd_stage site_pending)).
Definition listening : Site :=
  computed (at_serving asked (mkSystem listened.1 (<[0%nat := at_stage site_pending listened.2]> (sy_requests (si_gate asked)))
                          (sy_death (si_gate asked))) (spawn_server (lease_id site_made) (serving asked)).1).
Definition bound : Site := computed (at_serving listening (si_gate listening) (set_task 0 Accepting (serving listening))).
Definition accepted : Serving :=
  mkServing (sp_leases (serving bound)) (sp_pool (serving bound)) (sp_tasks (serving bound)) (sp_handles (serving bound))
    (sp_conns (serving bound) ++ [("01", demo_peer)]) (sp_sent (serving bound)).
Definition connected : Site := computed (at_serving bound (si_gate bound) accepted).

Definition site_parts : Parts :=
  mkParts "GET" (Some "http", None, None, "/repos/a/b")
    [("host", as_bytes "api.github.com:80"); ("x-cdp-lease-token", as_bytes (lease_token site_made));
     ("x-cdp-channel-binding", as_bytes (bytes_to_hex (channel_binding_nonce site_made)))].
(** The request handled in a state, and the state after it. *)
Definition proxied (s : Site) : LeaseManager * result Response ProxyError * Effects :=
  ProxyHttp.handle_request no_headers (site_leases s) (site_leases s) 5 site_parts (inl []) demo_peer "01"
    (rt_gate_key (sy_router (si_gate s))) true.
Definition after_request (s : Site) : Site :=
  mkSite (with_leases (si_gate s) (proxied s).1.1) (si_tasks s) (si_handles s) (si_conns s)
    (si_served s ++ [mkServed _ _ "01" site_parts (inl []) demo_peer (fx_sent (proxied s).2)]).

Lemma request_step (s : Site) : ("01", demo_peer) ∈ si_conns s -> site_step s (after_request s).
Proof.
  intros Hin. unfold after_request. apply (st_request s no_headers (site_leases s) 5 site_parts (inl []) demo_peer "01" true
    (proxied s).1.1 (proxied s).1.2 (proxied s).2); [done|done|]. unfold proxied. by destruct (ProxyHttp.handle_request _ _ _ _ _ _ _ _ _ _) as [[]].
Qed.

Definition requested : Site := after_request connected.

Lemma asked_run : rtc site_step (site_new system_gate) asked.
Proof.
  eapply rtc_l; [apply st_gate; [apply system_receives|reflexivity]|].
  do 8 (eapply rtc_l; [apply st_gate;
    [apply system_turn_step; vm_compute; (exact I || reflexivity || (split; discriminate))|vm_compute; reflexivity]|]).
  reflexivity.
Qed.

Lemma listening_step : site_step asked listening.
Proof.
  apply (st_start asked 0 site_pending JNull (granted_scope site_made) site_made 0 demo_draw listened.1 listened.2);
    vm_compute; reflexivity.
Qed.

Definition site_task : ServerTask :=
  mkServerTask "01" (mkSocketAddr (V4 [Byte.x7f; Byte.x00; Byte.x00; Byte.x01]) 19000) Binding.

Lemma bound_step : site_step listening bound.
Proof.
  apply (st_task listening (set_task 0 Accepting (serving listening))); [|reflexivity..].
  apply (s_bind 0 site_task); vm_compute; reflexivity.
Qed.

Lemma connected_step : site_step bound connected.
Proof.
  apply (st_task bound accepted); [|reflexivity..].
  apply (s_accept 0 (with_phase site_task Accepting) demo_peer (serving bound)); vm_compute; reflexivity.
Qed.

Lemma connected_run : rtc site_step (site_new system_gate) connected.
Proof.
  etrans; [exact asked_run|]. eapply rtc_l; [exact listening_step|]. eapply rtc_l; [exact bound_step|].
  apply rtc_once. exact connected_step.
Qed.

Lemma requested_run : rtc site_step (site_new system_gate) requested.
Proof. eapply rtc_r; [exact connected_run|apply request_step; left]. Qed.

Lemma site_refines_gate_and_proxies_witness :
  rtc gstep (system_new system_gate) (si_gate requested) /\ length (si_sent requested) = 1%nat.
Proof.
  split; [apply (site_refines_gate_and_proxies system_gate requested system_gate_ok requested_run)|vm_compute; reflexivity].
Defined.

Definition site_sent : IpAddr * Z * Outbound :=
  computed (match si_sent requested with (_, c) :: _ => c | [] => (github_ip, 0, mkOutbound "GET" (None, None, None, "/") [] []) end).

Lemma site_sent_in : si_sent requested = [("01", site_sent)].
Proof. vm_compute. reflexivity. Qed.

Lemma upstream_traffic_is_granted_witness :
  exists l sv, leases (site_leases requested) !! "01" = Some l /\ sv ∈ si_served requested /\ served_within l sv.
Proof.
  destruct (upstream_traffic_is_granted system_gate requested "01" site_sent system_gate_ok requested_run)
    as (l & sv & Hl & Hsv & _ & _ & Hw & _).
  - rewrite site_sent_in. left.
  - exists l, sv. split; [exact Hl|]. split; [exact Hsv|exact Hw].
Defined.

(** The agent dies while its connection is open. *)
Definition death_at (n : nat) : System := Nat.iter n SystemDemo.death_turn (SystemDemo.death_begins (si_gate connected)).
Definition site_dying : Site := computed (at_serving connected (death_at 1) (serving connected)).
Definition site_revoked : Site := computed (at_serving connected (death_at 6) (serving connected)).
Definition site_released : Site := computed (at_serving connected (death_at 7) (release_server "01" (serving connected))).
Definition site_dead : Site := computed (at_serving connected (death_at 8) (serving site_released)).

Lemma site_death_step s : SystemDemo.death_moves (si_gate s) = true ->
  rt_proxies (sy_router (SystemDemo.death_turn (si_gate s))) = rt_proxies (sy_router (si_gate s)) ->
  busy_site s (at_serving s (SystemDemo.death_turn (si_gate s)) (serving s)).
Proof. intros Hm Hp. destruct (SystemDemo.death_turn_busy _ Hm) as [Hg Hd]. split; [by apply st_gate|exact Hd]. Qed.

Lemma site_dying_run : rtc site_step (site_new system_gate) site_dying.
Proof.
  etrans; [exact connected_run|].
  eapply rtc_l; [apply (st_gate connected); [apply SystemDemo.death_begins_step|]; vm_compute; reflexivity|].
  eapply rtc_l; [apply site_death_step; vm_compute; reflexivity|]. reflexivity.
Qed.

Lemma site_revoked_run : rtc busy_site site_dying site_revoked.
Proof. do 5 (eapply rtc_l; [apply site_death_step; vm_compute; reflexivity|]). reflexivity. Qed.

Lemma site_released_step : busy_site site_revoked site_released.
Proof.
  split; [|by vm_compute].
  apply (st_release site_revoked "01" [] (sy_router (si_gate site_released)) (Some (DeRelease []))); vm_compute; reflexivity.
Qed.

Lemma site_dead_run : rtc busy_site site_dying site_dead.
Proof.
  etrans; [exact site_revoked_run|]. eapply rtc_l; [exact site_released_step|].
  apply rtc_once. apply (site_death_step site_released); vm_compute; reflexivity.
Qed.

Definition site_after : Site := after_request site_dead.

Lemma dead_agent_is_cut_off_witness :
  length (si_conns site_dead) = 1%nat /\
  exists new, si_sent site_after = si_sent site_dead ++ new /\ forall c, ("01", c) ∉ new.
Proof.
  split; [reflexivity|].
  destruct (dead_agent_is_cut_off site_dying site_dead site_after [Byte.xaa] ["01"] "01") as (new & Hnew & Hno).
  - exact (site_ok_run _ _ site_dying_run (site_ok_new _ system_gate_ok)).
  - reflexivity.
  - left.
  - vm_compute. reflexivity.
  - exact site_dead_run.
  - reflexivity.
  - apply rtc_once, request_step. left.
  - exists new. split; [exact Hnew|]. intros c. apply Hno. left. reflexivity.
Defined.
End SiteDemo.
