(* ===== verification/GateVault.v ===== *)
(** * From the vault to the upstream host

    The gate's [VaultCredentialProvider] between a vault and the proxy.  What
    a vault promises is a class; the dev vault file and the subprocess
    manager with its worker keep the promise, and the theorem about the
    proxy's requests is proved against the promise alone. *)

From S2P Require Import Prelude StateM RustStr Crypto PolicyTypes LeaseTypes LeaseManager AuditLog ProxyScope ProxyAuth.
From S2P Require Import ProxyHttp UnixHost VaultProtocol VaultBitwarden VaultWorker VaultManager VaultFile GateMain.

(** ** The promise *)

(** In a state that is [ready], what [fetch] returns opens under the key the
    gate took from the backend to the secret stored under the reference. *)
Class SecretVault (V : Type) `{VaultBackend V} `{Aead} : Type := {
  ready : V -> Prop;
  vault_key : V -> list byte;
  secret : V -> string -> string -> Prop;
  fetch_opens : forall v ref v' enc, ready v -> vb_fetch ref v = (v', Ok enc) ->
    exists value, secret v ref value /\
      aead_decrypt (vault_key v) (ec_nonce enc) (ec_data enc) = Some (as_bytes value)
}.

(** ** Who keeps it *)

#[export] Instance file_secrets {X : Type} `{!Aead} `{!OsRng X} `{!AeadLaws} : SecretVault (FileBackend * X).
Proof.
  refine {| ready := fun _ => True; vault_key := fun v => fb_ipc_key v.1;
            secret := fun v ref value => exists cred, fb_credentials v.1 !! ref = Some cred /\ dc_value cred = value |}.
  intros [b x] ref v' enc _ Hf. cbn in Hf. destruct (file_fetch b ref x) as [x' r] eqn:E. injection Hf as <- ->.
  apply file_fetch_ok in E as (cred & Hc & Ha). exists (dc_value cred). split; [by exists cred|done].
Defined.

Section Manager.
Context {X : Type} `{CommandExecutor X} `{!OsRng X} `{!Aead} `{!BwJson} `{!Base64Std} `{!VaultCodec} `{!SerdeText}
  `{!VaultCodecLaws} `{!Base64StdLaws} `{!OsRngLaws (X:=X)} `{!AeadLaws}.

(** A live worker that took the manager's key in the handshake; its secrets
    are what [bw] prints in the session the worker holds. *)
#[export] Instance manager_secrets : SecretVault (SubprocessManager (Link X)).
Proof.
  refine {| ready := fun m => exists st b, m = wired st (ipc_key m) b /\ alive st = true /\
                                ipc_encrypt_key b = Some (ipc_key m);
            vault_key := ipc_key;
            secret := fun m ref value => exists st b sess x out item, m = wired st (ipc_key m) b /\
              session_key b = Some sess /\
              execute ["get"; "item"; ref; "--raw"] None (Some [("BW_SESSION", of_bytes sess)]) (executor b) =
                (x, Ok out) /\
              bw_item_from_str out = inl item /\ extract_credential_value item = Ok value |}.
  intros m ref m' enc (st & b & Hm & Ha & Hk) Hf. cbn [vb_fetch manager_backend] in Hf.
  assert (manager_fetch ref (wired st (ipc_key m) b) = (m', Ok enc)) as Hf' by (by rewrite <- Hm).
  apply manager_fetch_inv in Hf' as (b' & Hb & _); [|done].
  apply backend_fetch_ok in Hb as (sess & key & x & out & item & value & Hs & Hkey & Hx & Hi & Hv & _ & He & _).
  rewrite Hkey in Hk. injection Hk as ->. exists value. split; [by exists st, b, sess, x, out, item|].
  by apply aead_roundtrip.
Defined.
End Manager.

(** ** The provider *)

Section Provider.
Context {V : Type} `{VaultBackend V} `{Aead} `{!SecretVault V}.

Lemma provider_fetch_ok (p : VaultCredentialProvider V) ref lid creds :
  ready (vcp_vault p) -> vcp_ipc_key p = vault_key (vcp_vault p) ->
  fetch_credential (CredentialProvider:=provider_at p) ref lid = Ok creds ->
  exists value, secret (vcp_vault p) ref value /\ creds = [mkCredentialHeader "Authorization" (as_bytes value)].
Proof.
  intros Hr Hk. cbn [fetch_credential provider_at].
  destruct (vault_fetch_credential ref p) as [p' r] eqn:E. cbn [snd]. intros ->.
  unfold vault_fetch_credential in E.
  apply bind_ok in E as (p1 & enc & Hz%map_errM_ok & E). unfold zoom in Hz.
  destruct (vb_fetch ref (vcp_vault p)) as [v' fr] eqn:Ef. injection Hz as <- ->.
  apply bind_ok in E as (p2 & key & [= <- <-] & E). cbn [vcp_ipc_key] in E.
  apply bind_ok in E as (p3 & pt & [-> Hpt%ok_or_ok]%lift_ok & [= _ <-]).
  destruct (fetch_opens _ _ _ _ Hr Ef) as (value & Hs & Hd). rewrite Hk, Hd in Hpt. injection Hpt as <-.
  by exists value.
Qed.

Context `{!Fmt} `{!FmtAddr} `{!HttpCrate} `{!HeaderMapLaws} `{!Network} `{!ProcFs} `{!HmacSha256} `{!Globset}
  `{!JsonParse} `{!Build}.

(** C6. The secret of the credential the lease names, and no other, is what the
    proxy sends: every connection of a request carries, after whatever
    Authorization values the agent itself sent, exactly one more, which is
    the vault's secret for the lease's credential reference; and it goes only
    where the lease allows. *)
Theorem vault_secret_reaches_upstream (p : VaultCredentialProvider V) (m_read m_use m : LeaseManager) (now : Z)
    (parts : Parts) (body : list byte + string) (remote : SocketAddr) (lid : string) (gkey : list byte) (ao : bool)
    (r : result Response ProxyError) (fx : Effects) :
  ready (vcp_vault p) -> vcp_ipc_key p = vault_key (vcp_vault p) ->
  handle_request_inner (H3:=provider_at p) m_read m_use now parts body remote lid gkey ao = (m, r, fx) ->
  fx_sent fx = [] \/
  exists lease value hv, use_lease m_use now lid = (m, Ok lease) /\
    secret (vcp_vault p) (credential_ref lease) value /\ header_value_from_bytes (as_bytes value) = inl hv /\
    forall ip port req, (ip, port, req) ∈ fx_sent fx ->
      confined lease parts [mkCredentialHeader "Authorization" (as_bytes value)] (ip, port, req) /\
      hm_get_all (o_headers req) "authorization" = hm_get_all (p_headers parts) "authorization" ++ [hv].
Proof.
  intros Hr Hk [[Hs _]|(bytes & lease & creds & Hl & (new & Hn & _ & [Hc _]%Forall_and) & _)]%handle_request_inner_outcome; [by left|].
  simpl in Hn. rewrite Hn. destruct new as [|c0 new]; [by left|]. right.
  destruct Hl as (read & host & _ & _ & _ & Hu & _ & _ & Hf).
  apply (provider_fetch_ok p _ _ _ Hr Hk) in Hf as (value & Hsec & ->).
  assert (exists hv, header_value_from_bytes (as_bytes value) = inl hv) as [hv Hhv].
  { inversion Hc as [|? ? Hc0 _ Heq]. destruct c0 as [[ip port] req].
    destruct Hc0 as (? & ? & ? & _ & _ & _ & _ & _ & _ & _ & _ & _ & Hi). inversion Hi as [|? ? (n & v & _ & Hv) _].
    by exists v. }
  exists lease, value, hv. split_and!; try done. intros ip port req Hin.
  rewrite Forall_forall in Hc. specialize (Hc _ Hin). split; [done|].
  destruct Hc as (? & ? & ? & _ & _ & _ & _ & _ & _ & _ & _ & Hh & _).
  rewrite Hh; [|done|unfold HEADER_LEASE_TOKEN, HEADER_CHANNEL_BINDING; set_solver].
  f_equal. unfold cred_values. cbn [flat_map ch_name ch_value]. by rewrite name_authorization, Hhv.
Qed.
End Provider.

(** ** A request to evaluate *)

#[local] Existing Instances plain_fmt plain_addr list_http list_http_laws demo_proc demo_mac literal_globs
  one_body release_build.

#[local] Instance one_host : Network :=
  {| dns_at := fun _ => {| lookup_host := fun _ => inl [github_ip] |};
     tcp_connect := fun _ _ _ => None;
     ProxyHttp.exchange := fun _ _ _ _ => inl (mkResponse 200 no_headers (inl (as_bytes "ok"))) |}.
#[local] Instance count_rng : OsRng nat := {| gen_bytes := fun n x => (S x, repeat Byte.x07 n) |}.
#[local] Instance rev_aead : Aead :=
  {| aead_encrypt := fun k n p => inl (rev p);
     aead_decrypt := fun k n c => Some (rev c) |}.
#[local] Instance rev_aead_laws : AeadLaws.
Proof. split. intros k n p c [= <-]. cbn. by rewrite rev_involutive. Qed.

Definition demo_provider : VaultCredentialProvider (FileBackend * nat) :=
  mkVaultCredentialProvider
    (mkFileBackend {["github_api" := mkDevCredential "Bearer t" "GitHub"]} [Byte.x01], 0%nat) [Byte.x01].

Definition provided : LeaseManager * result Response ProxyError * Effects :=
  handle_request_inner (H3:=provider_at demo_provider) (demo_manager proxied_lease) (demo_manager proxied_lease) 5
    demo_parts (inl []) demo_peer "11" [Byte.x01] true.

Lemma vault_secret_reaches_upstream_witness :
  length (fx_sent provided.2) = 1%nat /\
  forall ip port req, (ip, port, req) ∈ fx_sent provided.2 ->
    hm_get_all (o_headers req) "authorization" = [as_bytes "Bearer t"].
Proof.
  assert (Hlen : length (fx_sent provided.2) = 1%nat) by (vm_compute; reflexivity). split; [exact Hlen|].
  destruct (vault_secret_reaches_upstream demo_provider (demo_manager proxied_lease) (demo_manager proxied_lease)
    provided.1.1 5 demo_parts (inl []) demo_peer "11" [Byte.x01] true provided.1.2 provided.2)
    as [Hs|(lease & value & hv & Hu & (cred & Hc & Hv) & Hhv & Hall)].
  - exact I.
  - reflexivity.
  - change (provided = (provided.1.1, provided.1.2, provided.2)). destruct provided as [[m r] fx]. reflexivity.
  - rewrite Hs in Hlen. discriminate Hlen.
  - vm_compute in Hu. injection Hu as <-. vm_compute in Hc. injection Hc as <-. simpl in Hv. subst value.
    injection Hhv as <-. intros ip port req Hin. destruct (Hall ip port req Hin) as [_ ->]. reflexivity.
Defined.
