(* ===== verification/SdkGate.v ===== *)
(** * The SDK against the gate

    An agent's [Session] whose socket ends in the gate's connection loop, and
    the lease it obtains, used at the proxy.  The two sides' serde codecs are
    classes of their own files; here is what they have in common. *)

From S2P Require Import Prelude StateM RustStr Crypto PolicyTypes PolicyEvaluator PolicyEngine AuditLog.
From S2P Require Import LeaseTypes LeaseManager LeaseLemmas LeaseSteps LeaseSafety LeaseProps.
From S2P Require Import ProxyScope ProxyAuth ProxyManager UnixHost GateAgent GateRouter GateSystem.
From S2P Require Sdk.

(** ** A socket that ends in the gate *)

(** The gate as the connection's task sees it, the replies not yet read and
    whether the task still runs. *)
Record GateEnd (R : Type) : Type := mkGateEnd {
  ge_router : R; ge_inbox : list string; ge_open : bool; ge_turn : nat
}.
Arguments mkGateEnd {R}.
Arguments ge_router {R}.
Arguments ge_inbox {R}.
Arguments ge_open {R}.
Arguments ge_turn {R}.

(** [serde_json::to_string] of a response. *)
Class ResponseText : Type := { response_text : JsonRpcResponse -> string }.

Section Channel.
Context `{Fmt} `{Gui} `{FmtAddr} `{AgentOs} `{Sha256} `{FmtParse} `{HmacSha256}.
Context `{Build} `{Chrono} `{Resolver} `{!RpcCodec} `{TextParse} `{LruCache} `{MapOrder} `{!ResponseText}.
(** The peer's credentials, the connection's id, and the clock and draws of
    each line. *)
Context (peer : PeerInfo) (cid : list byte) (clock : nat -> Z * Draw).

#[local] Instance gate_line : Sdk.LineIo (GateEnd Router) := {|
  Sdk.write_line_bytes := fun b g =>
    if ge_open g then
      let '(now, draw) := clock (ge_turn g) in
      let '(rt, out, alive) := connection_loop (ge_router g) peer cid [Line (of_bytes b) now draw true] [] in
      (mkGateEnd rt (ge_inbox g ++ map response_text out) alive (S (ge_turn g)), Ok tt)
    else (g, Err "Broken pipe");
  Sdk.read_line := fun g =>
    match ge_inbox g with
    | l :: rest => (mkGateEnd (ge_router g) rest (ge_open g) (ge_turn g), Ok (l +:+ String newline EmptyString))
    | [] => (g, Ok EmptyString)
    end
|}.

(** ** What the codecs share *)

(** Both sides derive serde for the same field names: a line the SDK prints
    parses at the gate, and what the SDK reads from a response or a payload of
    the gate has the gate's values. *)
Class SameWire `{!Sdk.SdkCodec} : Prop := {
  line_parses : forall r line, Sdk.request_to_string r = inl line ->
    parse_request (as_bytes (trim_end (line +:+ String newline EmptyString))) =
      inl (mkJsonRpcRequest (Sdk.sq_jsonrpc r) (Sdk.sq_method r) (Sdk.sq_params r) (JNumber (PosInt (Sdk.sq_id r))));
  response_parses : forall resp x,
    Sdk.response_from_str (trim (response_text resp +:+ String newline EmptyString)) = inl x ->
    x = Sdk.mkSdkResponse (rp_result resp) (rp_error resp) (rp_id resp);
  grant_agrees : forall r x, Sdk.credential_from_value (credential_to_value r) = inl x ->
    x = Sdk.mkSdkCredentialResult (cr_status r) (cr_lease_id r) (cr_proxy_port r) (cr_lease_token r)
          (cr_channel_binding_nonce r) (cr_ttl_seconds r)
          (let s := cr_granted_scope r in
           Sdk.mkSdkScope (rs_hosts s) (rs_methods s) (rs_paths s) (rs_ttl_seconds s) (rs_max_requests s));
  params_agree : forall token lr nonce ts fields p,
    Sdk.credential_params token lr = JObject fields ->
    parse_credential (JObject (obj_insert "timestamp" (JString ts) (obj_insert "nonce" (JString nonce) fields))) = inl p ->
    rc_credential_ref p = Sdk.lr_credential_ref lr
}.

Context `{!Sdk.SdkCodec} `{!SameWire} `{!JsonText}.

(** One exchange: what the gate did with the line, and its answer. *)
Lemma send_at_gate method fields nonce ts (t t' : Sdk.Transport (GateEnd Router)) v :
  ge_inbox (Sdk.chan t) = [] ->
  Sdk.send method (JObject fields) nonce ts t = (t', Ok v) ->
  exists raw req rt' resp,
    let '(now, draw) := clock (ge_turn (Sdk.chan t)) in
    parse_request raw = inl req /\ rq_method req = method /\
    rq_params req = JObject (obj_insert "timestamp" (JString ts) (obj_insert "nonce" (JString nonce) fields)) /\
    handle_request (ge_router (Sdk.chan t)) now draw raw peer cid = (rt', Ok resp) /\ rp_result resp = Some v /\
    Sdk.chan t' = mkGateEnd rt' [] true (S (ge_turn (Sdk.chan t))).
Proof.
  intros Hin (line & c1 & c2 & rl & sresp & Hreq & Hw & Hr & Hne & Hp & _ & Hv & ->)%Sdk.send_ok.
  cbn [Sdk.write_line_bytes gate_line] in Hw. destruct (ge_open (Sdk.chan t)); [|done].
  destruct (clock (ge_turn (Sdk.chan t))) as [now draw]. cbn [connection_loop] in Hw.
  rewrite of_as_bytes_id in Hw. set (raw := as_bytes (trim_end _)) in Hw.
  destruct (handle_request (ge_router (Sdk.chan t)) now draw raw peer cid) as [rt' [resp|e|]] eqn:Eh;
    injection Hw as <-; rewrite Hin in Hr; cbn in Hr; injection Hr as <- <-; [|done..].
  apply response_parses in Hp as ->. cbn [Sdk.sp_result] in Hv.
  apply line_parses in Hreq. eexists raw, _, rt', resp. split; [exact Hreq|]. by split_and!.
Qed.

Context `{!ChronoLaws} `{!RpcTyped} `{!ProcFs} `{!HttpCrate} `{!HeaderMapLaws}.
Context {X : Type} `{!MapIter} `{!Sdk.SdkHttp X}.

(** A header value made from text reads back as that text; a new map has no
    values. *)
Class HeaderText : Prop := {
  value_text : forall s v, header_value_from_str s = inl v -> header_value_to_str v = Some s;
  empty_values : forall n, hm_get_all Sdk.hm_empty n = []
}.
Context `{!HeaderText}.

(** Options of the caller come after the SDK's own headers. *)
Lemma add_headers_first hs : forall h b n v, hm_get h n = Some v ->
  Sdk.add_headers (inl h) hs = Ok b -> exists h', b = inl h' /\ hm_get h' n = Some v.
Proof.
  induction hs as [|[name value] hs IH]; intros h b n v Hg; cbn [Sdk.add_headers].
  { intros [= <-]. by exists h. }
  intros (hn & _ & (hv & _ & Ha)%rbind_ok)%rbind_ok. eapply IH; [|exact Ha].
  unfold hm_get in *. rewrite get_all_append. destruct (bool_decide (hn = n)); [|done].
  by destruct (hm_get_all h n).
Qed.

Lemma add_headers_err hs e b : Sdk.add_headers (inr e) hs = Ok b -> b = inr e.
Proof.
  induction hs as [|[name value] hs IH]; cbn [Sdk.add_headers]; [by intros [= <-]|].
  intros (hn & _ & (hv & _ & Ha)%rbind_ok)%rbind_ok. by apply IH.
Qed.

(** The two headers that identify the lease are in every request [fetch]
    builds, with the lease's values first. *)
Lemma build_request_headers {C : Type} (l : Sdk.SdkLease C) url opts req puri :
  Sdk.build_request l url opts = Ok (req, puri) ->
  extract_header (Sdk.hq_headers req) HEADER_LEASE_TOKEN = Some (Sdk.sl_lease_token l) /\
  extract_header (Sdk.hq_headers req) HEADER_CHANNEL_BINDING = Some (Sdk.sl_channel_binding_nonce l).
Proof.
  unfold Sdk.build_request. intros (m & _ & (ou & _ & (pu & _ & (host & _ & (ru & _ & (b & Hb & Hh)%rbind_ok)%rbind_ok)%rbind_ok)%rbind_ok)%rbind_ok)%rbind_ok.
  apply rbind_ok in Hh as (hs & Hhs & [= <- <-]). cbn [Sdk.hq_headers].
  unfold Sdk.sdk_wrap in Hhs. destruct b as [h0|e]; [|done]. injection Hhs as ->.
  destruct (Sdk.auth_headers l _ url) as [h1|e] eqn:Ea; [|by apply add_headers_err in Hb].
  unfold Sdk.auth_headers, Sdk.build_header in Ea.
  destruct (header_value_from_str _) as [v0|] eqn:E0; [|done].
  destruct (header_value_from_str (Sdk.sl_lease_token l)) as [v1|] eqn:E1; [|done].
  destruct (header_value_from_str (Sdk.sl_channel_binding_nonce l)) as [v2|] eqn:E2; [|done].
  destruct (header_value_from_str url) as [v3|] eqn:E3; [|done]. injection Ea as <-.
  set (h1 := hm_append _ _ v3) in Hb.
  assert (forall n, hm_get_all h1 n = (if bool_decide ("host" = n) then [v0] else []) ++
    (if bool_decide (HEADER_LEASE_TOKEN = n) then [v1] else []) ++
    (if bool_decide (HEADER_CHANNEL_BINDING = n) then [v2] else []) ++
    (if bool_decide ("x-cdp-original-url" = n) then [v3] else [])) as Hall.
  { intros n. unfold h1, HEADER_LEASE_TOKEN, HEADER_CHANNEL_BINDING. rewrite !get_all_append, empty_values.
    repeat match goal with |- context [bool_decide ?P] => destruct (bool_decide P) end; done. }
  assert (hm_get h1 HEADER_LEASE_TOKEN = Some v1 /\ hm_get h1 HEADER_CHANNEL_BINDING = Some v2) as [Hg1 Hg2]
    by (unfold hm_get; rewrite !Hall; done).
  clearbody h1. unfold extract_header. split.
  - destruct (add_headers_first _ _ _ _ _ Hg1 Hb) as (h' & [= <-] & ->). simpl. by apply value_text.
  - destruct (add_headers_first _ _ _ _ _ Hg2 Hb) as (h' & [= <-] & ->). simpl. by apply value_text.
Qed.

(** With the token and the nonce of a lease the gate stores, the decision is
    left to who is at the other end of the connection. *)
Lemma bearer_authenticates rt lease headers remote :
  gate_ok rt -> leases (rt_leases rt) !! lease_id lease = Some lease -> length (channel_binding_nonce lease) = 32%nat ->
  extract_header headers HEADER_LEASE_TOKEN = Some (lease_token lease) ->
  extract_header headers HEADER_CHANNEL_BINDING = Some (bytes_to_hex (channel_binding_nonce lease)) ->
  authenticate remote headers (lease_id lease) lease (rt_gate_key rt) =
    (let! '(peer_pid, peer_uid) := resolve_tcp_peer remote in
     if negb (peer_pid =? agent_pid lease) then
       Err (AuthFailed ("peer PID " +:+ display_Z peer_pid +:+ " does not match lease PID " +:+ display_Z (agent_pid lease)))
     else if negb (peer_uid =? agent_uid lease) then
       Err (AuthFailed ("peer UID " +:+ display_Z peer_uid +:+ " does not match lease UID " +:+ display_Z (agent_uid lease)))
     else Ok tt).
Proof.
  intros Hok Hl Hlen Ht Hn. pose proof (reachable_inv _ (go_leases _ Hok)) as Hinv.
  assert (lease_ok (gate_key (rt_leases rt)) lease) as Hlok by (by eapply inv_leases).
  unfold authenticate. rewrite Ht, Hn. cbn [ok_or rbind]. rewrite hex_roundtrip. cbn [rbind ok_or].
  rewrite (ok_token _ _ Hlok), <- (go_key _ Hok), verify_generated_lease_token. cbn [rbind negb].
  unfold verify_binding. rewrite Hlen. cbn [Nat.eqb negb].
  by rewrite (proj2 (N.eqb_eq _ _)) by (by apply xor_diff_zero).
Qed.

(** ** Property *)

(** C5. End to end.  A lease that [Session::request_lease] returns over a
    connection to a well-formed gate is one the gate stores: active, for the
    credential asked for, bound to the process at the other end of the
    socket.  Every request [Lease::fetch] builds from it goes to the port
    where the gate listens for this lease, and the proxy there authenticates
    it when the kernel attributes the connection to that process and user. *)
Theorem sdk_lease_is_honoured (lr : Sdk.LeaseRequest) (nonce ts : string) (now' : Z)
    (s s' : Sdk.Session (GateEnd Router)) (l : Sdk.SdkLease (GateEnd Router)) :
  let g := Sdk.chan (Sdk.se_transport s) in
  let draw := (clock (ge_turn g)).2 in
  gate_ok (ge_router g) -> ge_inbox g = [] ->
  valid_time (d_now draw) -> leases (rt_leases (ge_router g)) !! lease_id_of (d_id draw) = None ->
  length (d_nonce draw) = 32%nat ->
  Sdk.request_lease lr nonce ts now' s = (s', Ok l) ->
  exists rt' lease, ge_router (Sdk.chan (Sdk.se_transport s')) = rt' /\ gate_ok rt' /\
    leases (rt_leases rt') !! Sdk.sl_lease_id l = Some lease /\ status lease = Active /\
    credential_ref lease = Sdk.lr_credential_ref lr /\ agent_pid lease = peer_pid peer /\
    port_for_lease (rt_proxies rt') (Sdk.sl_lease_id l) = Some (Sdk.sl_proxy_port l) /\
    forall url opts req puri remote, Sdk.build_request l url opts = Ok (req, puri) ->
      uri_parse ("http://127.0.0.1:" +:+ display_Z (Sdk.sl_proxy_port l)) = inl puri /\
      (resolve_tcp_peer remote = Ok (agent_pid lease, agent_uid lease) ->
       authenticate remote (Sdk.hq_headers req) (Sdk.sl_lease_id l) lease (rt_gate_key rt') = Ok tt).
Proof.
  intros g draw Hok Hin Hval Hfresh Hlen (v & res & t' & Hsend & Hres & _ & Hl & ->)%Sdk.request_lease_ok.
  unfold Sdk.credential_params in Hsend. cbv zeta in Hsend.
  apply send_at_gate in Hsend as (raw & req & rt' & resp & Hs); [|done]. fold g in Hs.
  destruct (clock (ge_turn g)) as [now draw'] eqn:Ec. cbn [snd] in draw. subst draw.
  destruct Hs as (Hp & Hm & Hpar & Hh & Hr & Hchan).
  destruct (request_granted _ _ _ _ _ _ _ _ _ _ Hp Hm Hh Hr)
    as (params & reg & granted & pname & c & lease & port & Hpc & _ & _ & _ & _ & _ & _ & Hin' & Hst & _ & Hcr & _ & Hpid & Hcb & Hport & ->).
  apply grant_agrees in Hres as ->. rewrite Hl.
  assert (gate_ok rt') as Hok'.
  { pose proof (request_ok (ge_router g) now draw' raw peer cid Hok Hval Hfresh) as Hro. by rewrite Hh in Hro. }
  exists rt', lease. cbn [Sdk.se_transport Sdk.lease_new Sdk.sl_lease_id Sdk.sl_proxy_port Sdk.sc_lease_id Sdk.sc_proxy_port
    cr_lease_id cr_proxy_port]. rewrite Hchan. split_and!; try done.
  { rewrite Hcr. rewrite Hpar in Hpc. by eapply params_agree; [|exact Hpc]. }
  intros url opts hreq puri remote Hb. split.
  { unfold Sdk.build_request in Hb.
    apply rbind_ok in Hb as (m & _ & (ou & _ & (pu & Hpu & (host & _ & (ru & _ & (b & _ & (hs & _ & [= _ <-])%rbind_ok)%rbind_ok)%rbind_ok)%rbind_ok)%rbind_ok)%rbind_ok).
    cbn in Hpu. unfold Sdk.sdk_wrap in Hpu. by destruct (uri_parse _); simplify_eq. }
  intros Hpeer. destruct (build_request_headers _ _ _ _ _ Hb) as [Ht Hn].
  rewrite (bearer_authenticates rt' lease _ remote Hok' Hin'); [|by rewrite Hcb, Hlen|done|by rewrite Hcb in *].
  rewrite Hpeer. cbn [rbind]. by rewrite !Z.eqb_refl.
Qed.
End Channel.

(** ** A session to evaluate *)

#[local] Existing Instances plain_fmt timed_gui plain_addr stat_os id_sha plain_parse demo_mac release_build
  chrono_range demo_dns list_http list_http_laws demo_proc plain_json.

#[local] Instance wire_chrono_laws : ChronoLaws (H:=chrono_range).
Proof. split; reflexivity. Qed.
#[local] Instance wire_text : TextParse :=
  {| uuid_version := fun _ => Some 4; parse_rfc3339 := fun _ => Some 0 |}.
#[local] Instance wire_lru : LruCache :=
  {| Lru := list string; lru_new := fun _ => []; lru_contains := fun c k => contains c k; lru_put := fun c k => k :: c |}.
#[local] Instance wire_order : MapOrder := {| values_order := fun m => map snd (map_to_list m) |}.

Definition wire_draw : Draw := mkDraw [Byte.x01] (replicate 32 Byte.x5a) 0.
Definition wire_request : Sdk.LeaseRequest :=
  Sdk.mkLeaseRequest "github_api" (Sdk.mkSdkScope ["api.github.com"] ["GET"] ["/repos/a/b"] None None) "deploy".

(** The request line of this session, as [send] builds it. *)
Definition wire_params : Json :=
  match Sdk.credential_params demo_token wire_request with
  | JObject fields => JObject (obj_insert "timestamp" (JString "t0") (obj_insert "nonce" (JString "nonce-1") fields))
  | v => v
  end.
(** Its texts, in order. *)
Definition wire_texts (v : Json) : option (list string) :=
  match v with
  | JObject [(k1, JString a); (k2, JString b); (k3, JString c);
             (k4, JObject [(m1, JArray [JString h]); (m2, JNull); (m3, JArray [JString me]); (m4, JArray [JString pa]);
                           (m5, JNull)]);
             (k5, JString tok); (k6, JString ts)] =>
      Some [k1; a; k2; b; k3; c; k4; m1; h; m2; m3; me; m4; pa; m5; k5; tok; k6; ts]
  | _ => None
  end.

Lemma wire_texts_inj v w l : wire_texts v = Some l -> wire_texts w = Some l -> v = w.
Proof.
  intros Hv Hw. unfold wire_texts in *. repeat (case_match; try discriminate). by simplify_eq.
Qed.

Definition wire_grant : RequestCredentialResult :=
  mkRequestCredentialResult "granted" "01" 19000
    (generate_lease_token (H:=demo_mac) [Byte.x01] "01" [Byte.xaa] (replicate 32 Byte.x5a))
    (bytes_to_hex (replicate 32 Byte.x5a)) 3600
    (mkRequestedScope ["api.github.com"] ["GET"] ["/repos/a/b"] (Some 3600) None).

#[local] Instance scope_eq_dec : EqDecision RequestedScope.
Proof. solve_decision. Defined.
#[local] Instance grant_eq_dec : EqDecision RequestCredentialResult.
Proof. solve_decision. Defined.

(** Codecs for the one exchange of this session. *)
#[local] Instance wire_rpc : RpcCodec :=
  {| parse_request := fun raw =>
       if bool_decide (raw = as_bytes "Q") then
         inl (mkJsonRpcRequest "2.0" "cdp.requestCredential" wire_params (JNumber (PosInt 1)))
       else inr "EOF";
     parse_register := fun _ => inr "no";
     parse_credential := fun v => if bool_decide (get_str v "credential_ref" = Some "github_api") then inl demo_params
                                  else inr "missing field";
     register_to_value := fun _ => JNull;
     credential_to_value := fun r => if bool_decide (r = wire_grant) then JString "G" else JNull |}.
#[local] Instance wire_typed : RpcTyped.
Proof. split. intros v p. cbn. case_bool_decide; [|done]. intros [= <-]. by split. Qed.
#[local] Instance wire_response : ResponseText :=
  {| response_text := fun r =>
       match r with
       | mkJsonRpcResponse (Some (JString g)) None (JNumber (PosInt 1)) => if bool_decide (g = "G") then "ok" else "?"
       | _ => "?"
       end |}.
#[local] Instance wire_sdk : Sdk.SdkCodec :=
  {| Sdk.request_to_string := fun r =>
       if bool_decide (Sdk.sq_jsonrpc r = "2.0" /\ Sdk.sq_method r = "cdp.requestCredential" /\ Sdk.sq_id r = 1 /\
                       is_Some (wire_texts (Sdk.sq_params r)) /\
                       wire_texts (Sdk.sq_params r) = wire_texts wire_params)
       then inl "Q" else inr "other";
     Sdk.response_from_str := fun s =>
       if bool_decide (s = "ok") then inl (Sdk.mkSdkResponse (Some (JString "G")) None (JNumber (PosInt 1)))
       else inr "expected value";
     Sdk.register_from_value := fun _ => inr "unused";
     Sdk.credential_from_value := fun v =>
       match v with
       | JString _ => inl (Sdk.mkSdkCredentialResult "granted" "01" 19000 (cr_lease_token wire_grant)
                             (cr_channel_binding_nonce wire_grant) 3600
                             (Sdk.mkSdkScope ["api.github.com"] ["GET"] ["/repos/a/b"] (Some 3600) None))
       | _ => inr "invalid type"
       end;
     Sdk.renewal_from_value := fun _ => inr "unused"; Sdk.fingerprint_from_str := fun _ => inr "unused" |}.
#[local] Instance wire_same : SameWire.
Proof.
  split.
  - intros [j m p i] line.
    cbn [Sdk.request_to_string wire_sdk Sdk.sq_params Sdk.sq_jsonrpc Sdk.sq_method Sdk.sq_id parse_request wire_rpc].
    case_bool_decide as Hd; [|done]. intros [= <-]. destruct Hd as (-> & -> & -> & [l Hl] & Heq).
    assert (wire_texts wire_params = Some l) as Hw by congruence.
    rewrite (wire_texts_inj p wire_params l Hl Hw). by rewrite bool_decide_eq_true_2 by (vm_compute; reflexivity).
  - intros resp x. cbn. case_bool_decide as Hd; [|done]. intros [= <-].
    destruct resp as [[[| | |g| |]|] [|] [| |[[|[]|]| |]| | |]]; try done. cbn in Hd.
    case_bool_decide; [by subst|done].
  - intros r x. cbn. case_bool_decide; [|done]. subst. by intros [= <-].
  - intros token lr nonce ts fields p [= <-]. cbn. case_bool_decide as Hd; [|done]. intros [= <-].
    cbn in Hd. by injection Hd as ->.
Qed.

#[local] Instance wire_iter : MapIter := {| map_iter := fun A m => map_to_list m |}.
#[local] Instance wire_http : Sdk.SdkHttp unit :=
  {| Sdk.hm_empty := ([] : @HeaderMap list_http); Sdk.method_from_str := inl;
     Sdk.uri_path_and_query := fun u => Some u.2; Sdk.uri_with_path := fun u _ => inl u;
     Sdk.http_request := fun _ => fail "offline" |}.
#[local] Instance wire_headers : HeaderText (X:=unit).
Proof.
  split; [|done]. intros s v. cbn. destruct (is_ascii s) eqn:Ea; [|done]. intros [= <-].
  by rewrite of_as_bytes_id, Ea.
Qed.

Definition wire_clock (n : nat) : Z * Draw := (0, wire_draw).
Definition wire_start : Router :=
  router_new [Byte.x01] 16 (manager_new [Byte.x01] true) (proxy_manager_new two_ports) gate_engine.
Definition wire_gate : Router :=
  mkRouter (rt_gate_key wire_start) {["aa" := demo_reg]} (rt_nonces wire_start) [mkDeathNotification 41 [Byte.xaa]]
    (rt_leases wire_start) (rt_proxies wire_start) (rt_engine wire_start).
Definition wire_session : Sdk.Session (GateEnd Router) :=
  Sdk.mkSession (Sdk.mkTransport (mkGateEnd wire_gate [] true 0) 1) demo_token "aa".
Definition wire_lease : Sdk.SdkLease (GateEnd Router) :=
  Sdk.mkSdkLease "01" 19000 (cr_lease_token wire_grant) (cr_channel_binding_nonce wire_grant) 3600
    (Sdk.mkSdkScope ["api.github.com"] ["GET"] ["/repos/a/b"] (Some 3600) None) (3600 * NANOS) demo_token None.

Lemma wire_gate_ok : gate_ok wire_gate.
Proof.
  destruct (gate_ok_new [Byte.x01] 16 true two_ports gate_engine) as [Hl Hk Hp Hn Hr Hpol].
  { constructor; [|constructor]. split; intros x [= <-]; by vm_compute. }
  split; try done. intros k reg Hreg. cbn [rt_registry wire_gate] in Hreg.
  apply lookup_singleton_Some in Hreg as [<- <-]. split; [done|]. apply list_elem_of_here.
Qed.

Lemma sdk_lease_is_honoured_witness :
  exists s' rt' lease,
    Sdk.request_lease (H:=gate_line demo_peer_info [Byte.x09] wire_clock) wire_request "nonce-1" "t0" 0 wire_session =
      (s', Ok wire_lease) /\
    leases (rt_leases rt') !! "01" = Some lease /\ credential_ref lease = "github_api" /\ agent_pid lease = 41 /\
    port_for_lease (rt_proxies rt') "01" = Some 19000.
Proof.
  set (run := Sdk.request_lease (H:=gate_line demo_peer_info [Byte.x09] wire_clock) wire_request "nonce-1" "t0" 0
    wire_session).
  assert (Hrun : run = (run.1, Ok wire_lease)) by (vm_compute; reflexivity).
  destruct (sdk_lease_is_honoured (X:=unit) demo_peer_info [Byte.x09] wire_clock wire_request "nonce-1" "t0" 0 wire_session
    run.1 wire_lease) as (rt' & lease & _ & _ & Hl & _ & Hc & Hp & Hport & _).
  - exact wire_gate_ok.
  - reflexivity.
  - vm_compute. split; discriminate.
  - reflexivity.
  - reflexivity.
  - exact Hrun.
  - exists run.1, rt', lease. split; [exact Hrun|]. split; [exact Hl|]. split; [exact Hc|]. split; [exact Hp|exact Hport].
Defined.
