(* ===== verification/WrapGate.v ===== *)
(** * The CLI wrapper against the gate

    [cdp-wrap]'s client whose socket ends in the gate's connection loop, and
    the lease it obtains, used at the proxy by the command it wraps. *)

From S2P Require Import Prelude StateM RustStr Crypto PolicyTypes PolicyParser PolicyEvaluator PolicyEngine AuditLog.
From S2P Require Import LeaseTypes LeaseManager LeaseLemmas LeaseSteps LeaseSafety LeaseProps.
From S2P Require Import ProxyScope ProxyAuth ProxyManager UnixHost GateAgent GateRouter GateSystem SdkGate CliWrap.
From S2P Require Sdk.

#[local] Arguments String.append !_ _ /.

(** ** What the codecs share *)

(** [serde_json::to_value] of the parameters. *)
Class WrapValue : Type := { wparams_value : WParams -> Json }.

(** Both sides derive serde for the same field names; the gate's scope has
    two optional fields that the wrapper does not send. *)
Class WrapWire `{!RpcCodec} `{!ResponseText} `{!WrapCodec} `{!WrapValue} : Prop := {
  wrap_line_parses : forall r payload, wrequest_to_vec r = inl payload ->
    parse_request (as_bytes (trim_end (of_bytes (payload ++ [Byte.x0a])))) =
      inl (mkJsonRpcRequest "2.0" (wq_method r) (wparams_value (wq_params r)) (JNumber (PosInt (wq_id r))));
  wrap_response_parses : forall resp x,
    wresponse_from_str (trim (response_text resp +:+ String newline EmptyString)) = inl x ->
    x = Sdk.mkSdkResponse (rp_result resp) (rp_error resp) (rp_id resp);
  wrap_grant_fields : forall r, let v := credential_to_value r in
    json_get v "proxy_port" = Some (JNumber (PosInt (cr_proxy_port r))) /\
    json_get v "lease_token" = Some (JString (cr_lease_token r)) /\
    json_get v "channel_binding_nonce" = Some (JString (cr_channel_binding_nonce r));
  wrap_params_agree : forall p q, parse_credential (wparams_value (WCredential p)) = inl q ->
    rc_credential_ref q = wp_credential_ref p /\
    rc_scope q = mkRequestedScope (wp_hosts p) (wp_methods p) (wp_paths p) None None
}.

Section Wrapped.
Context `{Fmt} `{Gui} `{FmtAddr} `{AgentOs} `{Sha256} `{FmtParse} `{HmacSha256}.
Context `{Build} `{Chrono} `{!ChronoLaws} `{Resolver} `{!RpcCodec} `{!RpcTyped} `{TextParse} `{LruCache} `{MapOrder}.
Context `{!ResponseText} `{!WrapCodec} `{!WrapValue} `{!WrapWire}.
Context (peer : PeerInfo) (cid : list byte) (clock : nat -> Z * Draw).

#[local] Instance wrap_line : Sdk.LineIo (GateEnd Router) := gate_line peer cid clock.

(** ** Lemmas *)

(** What a successful call did. *)
Lemma send_request_ok request (g g' : GateClient (GateEnd Router)) v :
  send_request request g = (g', Ok v) ->
  exists payload c1 c2 line rpc, wrequest_to_vec request = inl payload /\
    Sdk.write_line_bytes (payload ++ [Byte.x0a]) (gc_stream g) = (c1, Ok tt) /\
    Sdk.read_line c1 = (c2, Ok line) /\ line <> EmptyString /\ wresponse_from_str (trim line) = inl rpc /\
    Sdk.sp_error rpc = None /\ Sdk.sp_result rpc = Some v /\ g' = mkGateClient c2 (gc_session_token g).
Proof.
  unfold send_request. intros (g0 & payload & [-> Hp]%lift_ok & Hs)%bind_ok.
  apply bind_ok in Hs as (g1 & [] & Hw & Hs). apply bind_ok in Hs as (g2 & line & Hr & Hs).
  unfold on_stream, zoom, map_errM in Hw, Hr.
  destruct (Sdk.write_line_bytes _ (gc_stream g)) as [c1 [[]|e|]] eqn:Ew; cbn in Hw; simplify_eq.
  cbn [gc_stream gc_session_token] in Hr.
  destruct (Sdk.read_line c1) as [c2 [l|e|]] eqn:Er; cbn in Hr; simplify_eq.
  case_bool_decide as Hne; [done|]. apply bind_ok in Hs as (g3 & rpc & [-> Hrpc]%lift_ok & Hs).
  unfold wrap_err in Hp, Hrpc. destruct (wrequest_to_vec request) as [pl|] eqn:Epl; [|done]. injection Hp as ->.
  destruct (wresponse_from_str _) as [x|] eqn:Ex; [|done]. injection Hrpc as ->.
  destruct (Sdk.sp_error rpc) as [[]|] eqn:Ee; [done|]. apply lift_ok in Hs as [-> Hv].
  destruct (Sdk.sp_result rpc) as [v'|] eqn:Ev; [|done]. injection Hv as ->. by exists payload, c1, c2, line, rpc.
Qed.

(** One exchange: what the gate did with the line, and its answer. *)
Lemma request_at_gate request (g g' : GateClient (GateEnd Router)) v :
  ge_inbox (gc_stream g) = [] -> send_request request g = (g', Ok v) ->
  exists raw rt' resp,
    let '(now, draw) := clock (ge_turn (gc_stream g)) in
    parse_request raw = inl (mkJsonRpcRequest "2.0" (wq_method request) (wparams_value (wq_params request))
      (JNumber (PosInt (wq_id request)))) /\
    handle_request (ge_router (gc_stream g)) now draw raw peer cid = (rt', Ok resp) /\ rp_result resp = Some v /\
    g' = mkGateClient (mkGateEnd rt' [] true (S (ge_turn (gc_stream g)))) (gc_session_token g).
Proof.
  intros Hin (payload & c1 & c2 & line & rpc & Hreq & Hw & Hr & Hne & Hp & _ & Hv & ->)%send_request_ok.
  cbn [Sdk.write_line_bytes wrap_line gate_line] in Hw. destruct (ge_open (gc_stream g)); [|done].
  destruct (clock (ge_turn (gc_stream g))) as [now draw]. cbn [connection_loop] in Hw.
  apply wrap_line_parses in Hreq. set (raw := as_bytes (trim_end _)) in Hw, Hreq.
  destruct (handle_request (ge_router (gc_stream g)) now draw raw peer cid) as [rt' [resp|e|]] eqn:Eh;
    injection Hw as <-; rewrite Hin in Hr; cbn in Hr; injection Hr as <- <-; [|done..].
  apply wrap_response_parses in Hp as ->. cbn [Sdk.sp_result] in Hv.
  by exists raw, rt', resp.
Qed.

(** Registering does not touch the leases. *)
Lemma register_leases rt now draw raw req rt' r : parse_request raw = inl req -> rq_method req = "cdp.register" ->
  handle_request rt now draw raw peer cid = (rt', r) -> rt_leases rt' = rt_leases rt.
Proof.
  intros Hp Hm. unfold handle_request. rewrite Hp. cbv zeta. destruct (negb _); [by intros [= <- _]|].
  rewrite bool_decide_eq_true_2 by done. destruct (parse_register _) as [params|e]; [|by intros [= <- _]].
  unfold handle_register. destruct (validate_replay _ _ _ _) as [cache [[]|e|]]; [|by intros [= <- _]..].
  destruct (verify_agent _ _) as [f|e|]; [|by intros [= <- _]..].
  destruct (fd_try_clone _); by intros [= <- _].
Qed.

(** A request that names no path is granted none. *)
Lemma granted_no_paths eng ai cref req reason g pn c :
  evaluate_with_approval eng ai cref req reason = Ok (AutoApprove g pn c) -> s_paths req = [] -> s_paths g = [].
Proof.
  intros He%evaluate_with_approval_resolved Hreq.
  assert (exists e, build_decision e req = AutoApprove g pn c \/ build_decision e req = RequiresApproval g pn c) as [e Hd].
  { destruct He as [He|[He _]]; unfold engine_evaluate in He;
      apply evaluate_cases in He as [(t & e & _ & Hd)|[Hd _]]; try done; exists e; [by left|by right]. }
  unfold build_decision in Hd. destruct (intersect_scope req (pe_allow e)) as [g'|] eqn:Ei; [|naive_solver].
  assert (g' = g) as -> by (case_bool_decide; naive_solver).
  unfold intersect_scope in Ei. apply bind_Some in Ei as (hs & _ & (ms & _ & [= <-])%bind_Some). cbn [s_paths].
  rewrite Hreq. cbn [List.filter]. by repeat case_bool_decide.
Qed.
(** ** Property *)

Context `{!ProcFs} `{!HttpCrate}.

(** The wrapper gets what it asks for and its command cannot use it.  A lease
    that [obtain_lease] returns over a connection to a well-formed gate is
    stored, active and for the credential asked for; it carries none of the
    policy's path restrictions; and it is bound to the wrapper's own process.
    At the proxy the token and nonce that the wrapper passes on are accepted
    from the wrapper alone: every connection that the kernel attributes to
    another process, as the wrapped command is, is refused. *)
Theorem wrapped_command_is_refused (a : WrapArgs) (d : WrapDraws) (g g' : GateClient (GateEnd Router)) (info : LeaseInfo) :
  let e := gc_stream g in
  let draw1 := (clock (ge_turn e)).2 in
  let draw2 := (clock (S (ge_turn e))).2 in
  gate_ok (ge_router e) -> ge_inbox e = [] ->
  valid_time (d_now draw1) -> leases (rt_leases (ge_router e)) !! lease_id_of (d_id draw1) = None ->
  valid_time (d_now draw2) -> leases (rt_leases (ge_router e)) !! lease_id_of (d_id draw2) = None ->
  length (d_nonce draw2) = 32%nat ->
  obtain_lease a d g = (g', Ok info) ->
  exists rt' lease port, ge_router (gc_stream g') = rt' /\ gate_ok rt' /\
    leases (rt_leases rt') !! lease_id lease = Some lease /\ status lease = Active /\
    credential_ref lease = wa_credential_ref a /\ s_paths (granted_scope lease) = [] /\
    agent_pid lease = peer_pid peer /\
    port_for_lease (rt_proxies rt') (lease_id lease) = Some port /\ li_proxy_port info = port mod U16 /\
    forall headers remote pid uid,
      extract_header headers HEADER_LEASE_TOKEN = Some (li_lease_token info) ->
      extract_header headers HEADER_CHANNEL_BINDING = Some (li_channel_binding_nonce info) ->
      resolve_tcp_peer remote = Ok (pid, uid) ->
      (pid = peer_pid peer -> uid = agent_uid lease ->
         authenticate remote headers (lease_id lease) lease (rt_gate_key rt') = Ok tt) /\
      (pid <> peer_pid peer -> exists m,
         authenticate remote headers (lease_id lease) lease (rt_gate_key rt') = Err (AuthFailed m)).
Proof.
  intros e draw1 draw2 Hok Hin Hv1 Hf1 Hv2 Hf2 Hlen Hob. unfold obtain_lease in Hob.
  apply bind_ok in Hob as (g1 & [] & Hreg & Hcred). unfold gate_register in Hreg.
  apply bind_ok in Hreg as (g0 & v1 & Hs1 & Hreg). apply bind_ok in Hreg as (g0' & token & [-> _]%lift_ok & [= <-]).
  apply request_at_gate in Hs1 as (raw1 & rt1 & resp1 & Hx1); [|done]. fold e in Hx1.
  destruct (clock (ge_turn e)) as [now1 dr1] eqn:Ec1. cbn [snd] in draw1. subst draw1.
  destruct Hx1 as (Hp1 & Hh1 & _ & ->).
  assert (gate_ok rt1) as Hok1.
  { pose proof (request_ok (ge_router e) now1 dr1 raw1 peer cid Hok Hv1 Hf1) as Hro. by rewrite Hh1 in Hro. }
  pose proof (register_leases _ _ _ _ _ _ _ Hp1 eq_refl Hh1) as Hls.
  unfold request_credential in Hcred. cbn [gc_stream gc_session_token] in Hcred.
  apply bind_ok in Hcred as (g2 & gg & [= <- <-] & Hcred). apply bind_ok in Hcred as (g3 & tok & [-> [= <-]]%lift_ok & Hcred).
  apply bind_ok in Hcred as (g4 & v2 & Hs2 & Hcred).
  apply request_at_gate in Hs2 as (raw2 & rt2 & resp2 & Hx2); [|done]. cbn [gc_stream ge_turn ge_router] in Hx2.
  destruct (clock (S (ge_turn e))) as [now2 dr2] eqn:Ec2. cbn [snd] in draw2. subst draw2.
  destruct Hx2 as (Hp2 & Hh2 & Hr2 & ->).
  destruct (request_granted _ _ _ _ _ _ _ _ _ _ Hp2 eq_refl Hh2 Hr2)
    as (params & reg & granted & pname & c & lease & port & Hpc & _ & _ & _ & _ & _ & Hev & Hin' & Hst & Hgr & Hcr & _ & Hpid & Hcb & Hport & ->).
  destruct (wrap_grant_fields (mkRequestCredentialResult "granted" (lease_id lease) port (lease_token lease)
    (bytes_to_hex (channel_binding_nonce lease)) (ttl_seconds lease)
    (mkRequestedScope (s_hosts granted) (s_methods granted) (s_paths granted) (s_ttl_seconds granted)
       (s_max_requests granted)))) as (Jp & Jt & Jn). cbn [cr_proxy_port cr_lease_token cr_channel_binding_nonce] in Jp, Jt, Jn.
  apply bind_ok in Hcred as (g5 & p & [-> Hp]%lift_ok & Hcred). rewrite Jp in Hp. injection Hp as <-.
  apply bind_ok in Hcred as (g6 & t & [-> Ht]%lift_ok & Hcred). rewrite Jt in Ht. injection Ht as <-.
  apply bind_ok in Hcred as (g7 & n & [-> Hn]%lift_ok & [= <- <-]). rewrite Jn in Hn. injection Hn as <-.
  assert (gate_ok rt2) as Hok2.
  { rewrite <- Hls in Hf2. pose proof (request_ok rt1 now2 dr2 raw2 peer cid Hok1 Hv2 Hf2) as Hro. by rewrite Hh2 in Hro. }
  cbn [rq_params wq_params] in Hpc. apply wrap_params_agree in Hpc as [Hcref Hscope]. cbn in Hcref, Hscope.
  exists rt2, lease, port. split_and!; try done.
  - by rewrite Hcr.
  - rewrite Hgr. eapply granted_no_paths; [exact Hev|]. by rewrite Hscope.
  - intros headers remote pid uid Ht Hn Hres. cbn in Ht, Hn.
    rewrite (bearer_authenticates rt2 lease headers remote Hok2 Hin') by (done || by rewrite Hcb).
    rewrite Hres, Hpid. cbn [rbind]. split.
    + intros -> ->. by rewrite !Z.eqb_refl.
    + intros Hne%Z.eqb_neq. rewrite Hne. by eexists.
Qed.
End Wrapped.

(** ** A wrapper to evaluate *)

#[local] Existing Instances plain_fmt timed_gui plain_addr stat_os id_sha plain_parse demo_mac release_build
  chrono_range demo_dns list_http demo_proc wire_text wire_lru wire_order wire_chrono_laws.

Definition strs (v : Json) : option (list string) :=
  match v with JArray l => mapM as_str l | _ => None end.

Definition put_strs (l : list string) : Json := JArray (map JString l).

Lemma strs_put l : strs (put_strs l) = Some l.
Proof. cbn. induction l as [|s l IH]; [done|]. cbn. by rewrite IH. Qed.

(** serde's object for each of the two parameter structs. *)
#[local] Instance plain_values : WrapValue := {|
  wparams_value := fun p =>
    match p with
    | WRegister r => JObject [("agent_id", JString (wr_agent_id r)); ("nonce", JString (wr_nonce r));
                              ("timestamp", JString (wr_timestamp r))]
    | WCredential c =>
        JObject [("credential_ref", JString (wp_credential_ref c)); ("nonce", JString (wp_nonce c));
                 ("reason", JString (wp_reason c));
                 ("scope", JObject [("hosts", put_strs (wp_hosts c)); ("methods", put_strs (wp_methods c));
                                    ("paths", put_strs (wp_paths c))]);
                 ("session_token", JString (wp_session_token c)); ("timestamp", JString (wp_timestamp c))]
    end
|}.

#[local] Instance wregister_eq_dec : EqDecision WRegisterParams.
Proof. solve_decision. Defined.
#[local] Instance wcredential_eq_dec : EqDecision WCredentialParams.
Proof. solve_decision. Defined.
#[local] Instance wparams_eq_dec : EqDecision WParams.
Proof. solve_decision. Defined.
#[local] Instance wrequest_eq_dec : EqDecision WRequest.
Proof. solve_decision. Defined.

(** Process 77 wraps curl on connection 9. *)
Definition wrap_peer : PeerInfo := mkPeerInfo 77 1000 1000.
Definition wrap_token : string :=
  "cdp_sess_" +:+ generate_session_token [Byte.x01] (compute_fingerprint 1000 77 (sha256 []) 777) [Byte.x09].
Definition wrap_draws : WrapDraws := mkWrapDraws "nonce-1" "t0" "nonce-2" "t0".
Definition wrap_args : WrapArgs := mkWrapArgs "curl" ["https://api.github.com/user"] "cli/curl".
Definition wrap_first : WRequest :=
  mkWRequest "cdp.register" (WRegister (mkWRegisterParams "cdp-wrap" CARGO_PKG_VERSION ["cli"] "nonce-1" "t0")) 1.
Definition wrap_second : WRequest :=
  mkWRequest "cdp.requestCredential"
    (WCredential (mkWCredentialParams wrap_token "cli/curl" [] [] [] "CLI wrapper for curl" "nonce-2" "t0")) 2.

Definition rpc_of (r : WRequest) : JsonRpcRequest :=
  mkJsonRpcRequest "2.0" (wq_method r) (wparams_value (wq_params r)) (JNumber (PosInt (wq_id r))).

#[local] Instance curl_rpc : RpcCodec := {|
  parse_request := fun raw =>
    if bool_decide (raw = as_bytes "1") then inl (rpc_of wrap_first)
    else if bool_decide (raw = as_bytes "2") then inl (rpc_of wrap_second) else inr "EOF";
  parse_register := fun v =>
    match get_str v "agent_id", get_str v "nonce", get_str v "timestamp" with
    | Some a, Some n, Some t => inl (mkRegisterParams a "0.1.0" ["cli"] None n t)
    | _, _, _ => inr "missing field"
    end;
  parse_credential := fun v =>
    match get_str v "credential_ref", get_str v "nonce", get_str v "reason", json_get v "scope",
          get_str v "session_token", get_str v "timestamp" with
    | Some c, Some n, Some r, Some s, Some tok, Some t =>
        match json_get s "hosts" ≫= strs, json_get s "methods" ≫= strs, json_get s "paths" ≫= strs with
        | Some h, Some m, Some p => inl (mkRequestCredentialParams tok c (mkRequestedScope h m p None None) r n t)
        | _, _, _ => inr "missing field"
        end
    | _, _, _, _, _, _ => inr "missing field"
    end;
  register_to_value := fun r => JObject [("session_token", JString (rr_session_token r))];
  credential_to_value := fun r =>
    JObject [("channel_binding_nonce", JString (cr_channel_binding_nonce r)); ("lease_token", JString (cr_lease_token r));
             ("proxy_port", JNumber (PosInt (cr_proxy_port r)))]
|}.
#[local] Instance curl_typed : RpcTyped.
Proof.
  split. intros v p. cbn. repeat (case_match; try done). intros [= <-]. by split.
Qed.

Definition curl_nonce : list byte := replicate 32 Byte.x5a.
Definition curl_lease_token : string :=
  generate_lease_token [Byte.x01] "02" (compute_fingerprint 1000 77 (sha256 []) 777) curl_nonce.

(** The two responses of this run have a text. *)
#[local] Instance curl_text : ResponseText := {|
  response_text := fun r =>
    match r with
    | mkJsonRpcResponse (Some (JObject [(k, JString t)])) None (JNumber (PosInt i)) =>
        if bool_decide (k = "session_token" /\ t = wrap_token /\ i = 1) then "reg" else "?"
    | mkJsonRpcResponse (Some (JObject [(k1, JString n); (k2, JString t); (k3, JNumber (PosInt p))])) None
        (JNumber (PosInt i)) =>
        if bool_decide (k1 = "channel_binding_nonce" /\ n = bytes_to_hex curl_nonce /\ k2 = "lease_token" /\
                        t = curl_lease_token /\ k3 = "proxy_port" /\ p = 19000 /\ i = 2) then "grant" else "?"
    | _ => "?"
    end
|}.
Definition reg_result : Json := JObject [("session_token", JString wrap_token)].
Definition grant_result : Json :=
  JObject [("channel_binding_nonce", JString (bytes_to_hex curl_nonce)); ("lease_token", JString curl_lease_token);
           ("proxy_port", JNumber (PosInt 19000))].

Lemma curl_texts r : response_text r = "?" \/
  response_text r = "reg" /\ r = mkJsonRpcResponse (Some reg_result) None (JNumber (PosInt 1)) \/
  response_text r = "grant" /\ r = mkJsonRpcResponse (Some grant_result) None (JNumber (PosInt 2)).
Proof.
  cbn [response_text curl_text]. repeat (case_match; try by left); case_bool_decide as Hd; try (by left); right;
    [left|right]; (split; [done|]); destruct_and?; by subst.
Qed.

#[local] Instance curl_codec : WrapCodec := {|
  fingerprint_of_str := fun _ => inr "unused";
  wrequest_to_vec := fun r =>
    if bool_decide (r = wrap_first) then inl (as_bytes "1")
    else if bool_decide (r = wrap_second) then inl (as_bytes "2") else inr "other";
  wresponse_from_str := fun s =>
    if bool_decide (s = "reg") then
      inl (Sdk.mkSdkResponse (Some reg_result) None (JNumber (PosInt 1)))
    else if bool_decide (s = "grant") then
      inl (Sdk.mkSdkResponse (Some grant_result) None (JNumber (PosInt 2)))
    else inr "expected value"
|}.
#[local] Instance curl_wire : WrapWire.
Proof.
  split.
  - intros r payload. cbn [wrequest_to_vec curl_codec]. case_bool_decide; [subst; by intros [= <-]|].
    case_bool_decide; [subst; by intros [= <-]|done].
  - intros resp x. destruct (curl_texts resp) as [->|[[-> ->]|[-> ->]]]; cbn [wresponse_from_str curl_codec];
      rewrite ?bool_decide_eq_false_2 by (vm_compute; discriminate); [done|..];
      (rewrite bool_decide_eq_true_2 by (by vm_compute)); by intros [= <-].
  - done.
  - intros p q. cbn [parse_credential curl_rpc wparams_value plain_values].
    change (match strs (put_strs (wp_hosts p)), strs (put_strs (wp_methods p)), strs (put_strs (wp_paths p)) with
      | Some h, Some m, Some l => inl (mkRequestCredentialParams (wp_session_token p) (wp_credential_ref p)
          (mkRequestedScope h m l None None) (wp_reason p) (wp_nonce p) (wp_timestamp p))
      | _, _, _ => inr "missing field" end = inl q -> rc_credential_ref q = wp_credential_ref p /\
      rc_scope q = mkRequestedScope (wp_hosts p) (wp_methods p) (wp_paths p) None None).
    rewrite !strs_put. by intros [= <-].
Qed.

Definition curl_entry : PolicyEntry :=
  mkPolicyEntry "curl" EmptyString (mkPolicyMatch None None (Some "cdp-wrap") "cli/curl") (pe_allow demo_entry)
    default_approval default_delegation.
Definition curl_gate : Router :=
  router_new [Byte.x01] 16 (manager_new [Byte.x01] true) (proxy_manager_new two_ports)
    (mkPolicyEngine (mkPolicyEvaluator [curl_entry]) "/etc/cdp" (mkApprovalConfig EmptyString 30 true true 200)).
Definition curl_clock (n : nat) : Z * Draw := (0, mkDraw [Byte.x02] curl_nonce 0).
Definition curl_client : GateClient (GateEnd Router) := mkGateClient (mkGateEnd curl_gate [] true 0) None.
Definition curl_info : LeaseInfo := mkLeaseInfo 19000 curl_lease_token (bytes_to_hex curl_nonce) 3600.

Lemma curl_gate_ok : gate_ok curl_gate.
Proof. apply gate_ok_new. constructor; [|constructor]. split; intros x [= <-]; by vm_compute. Qed.

(** curl is process 41. *)
Lemma wrapped_command_is_refused_witness :
  exists lease, agent_pid lease = 77 /\ s_paths (granted_scope lease) = [] /\
    forall headers, extract_header headers HEADER_LEASE_TOKEN = Some curl_lease_token ->
      extract_header headers HEADER_CHANNEL_BINDING = Some (bytes_to_hex curl_nonce) ->
      exists m, authenticate demo_peer headers (lease_id lease) lease [Byte.x01] = Err (AuthFailed m).
Proof.
  set (r := obtain_lease (LineIo0:=gate_line wrap_peer [Byte.x09] curl_clock) wrap_args wrap_draws curl_client).
  assert (Hr : r = (r.1, Ok curl_info)) by (vm_compute; reflexivity).
  destruct (wrapped_command_is_refused wrap_peer [Byte.x09] curl_clock wrap_args wrap_draws curl_client r.1 curl_info)
    as (rt' & lease & port & Hrt & _ & _ & _ & _ & Hp & Hpid & _ & _ & Hall).
  - exact curl_gate_ok.
  - reflexivity.
  - vm_compute. split; discriminate.
  - reflexivity.
  - vm_compute. split; discriminate.
  - reflexivity.
  - reflexivity.
  - exact Hr.
  - exists lease. split; [exact Hpid|]. split; [exact Hp|]. intros headers Ht Hn.
    assert (rt_gate_key rt' = [Byte.x01]) as <- by (rewrite <- Hrt; vm_compute; reflexivity).
    apply (Hall headers demo_peer 41 1000 Ht Hn); [vm_compute; reflexivity|discriminate].
Defined.
