(* ===== verification/GateAudit.v ===== *)
(** * The audit task: from the lease manager's events to the log file

    The opening of the log in [cdp-audit/src/logger.rs] on a host's files, the
    task of [cdp-gate/src/main.rs] that writes what the lease manager sends,
    and what the resulting file says about the leases. *)

From S2P Require Import Prelude StateM RustStr Crypto PolicyTypes AuditLog LeaseTypes LeaseManager LeaseLemmas.
From S2P Require Import LeaseSteps LeaseProps UnixHost GateFiles.

(** ** Opening the log *)

(** [std::env::var_os] gives the variable as it is. *)
Definition dirs_fallback_home (h : Host) : string := unwrap_or (h_env h !! "HOME") "/tmp".

Definition default_log_path (h : Host) : string :=
  let base := unwrap_or (h_env h !! "XDG_DATA_HOME")
                (path_join (path_join (dirs_fallback_home h) ".local") "share") in
  path_join (path_join base "cdp") "audit.jsonl".

(** [OpenOptions::new().create(true).append(true).open(path)] *)
Definition open_append (p : string) : M Host IoErr unit := fun h =>
  match h_fs h !! p with
  | Some (Directory _) => (h, Err EISDIR)
  | Some (Socket _) => (h, Err ENXIO)
  | Some (File m _) => (h, if may h m OWNER_WRITE then Ok tt else Err EACCES)
  | None =>
      match check_dir h p with
      | Ok _ => (put p (File (created_mode h 438) []) h, Ok tt)
      | Err e => (h, Err e)
      | Panic => (h, Panic)
      end
  end.

Definition audit_io {A : Type} (m : M Host IoErr A) : M Host AuditError A :=
  map_errM (fun e => AuditIo (display_io e)) m.

Section Task.
Context `{Sha256} `{Rfc3339} `{JsonText} `{EntryCodec} `{Build}.

(** [AuditLogger::new]: the path and the logger. *)
Definition logger_open (path : option string) : M Host AuditError (string * AuditLogger) := fun h =>
  let p := unwrap_or path (default_log_path h) in
  (_ ← match path_parent p with
       | Some parent => audit_io (fs_create_dir_all parent)
       | None => mret tt
       end;
   _ ← audit_io (open_append p);
   _ ← audit_io (fs_chmod p 384 (* 0o600 *));
   content ← audit_io (fs_read_to_string p);
   lg ← lift (logger_new content);
   mret (p, lg)) h.

(** The logger's text reaches the file as long as the file has its name. *)
Definition flushed (p : string) (lg : AuditLogger) (h : Host) : Host :=
  match h_fs h !! p with
  | Some (File m _) => put p (File m (as_bytes (file lg))) h
  | _ => h
  end.

(** An event received from the channel, the time it is logged at and how the
    write goes. *)
Record Received : Type := mkReceived {
  r_event : AuditEventType; r_fields : AuditFields; r_time : Z; r_write : write_outcome
}.

(** The receiving loop: an error is only logged, a panic ends the task. *)
Fixpoint audit_loop (p : string) (rs : list Received) (h : Host) (lg : AuditLogger)
    : Host * AuditLogger * list (result unit AuditError) :=
  match rs with
  | [] => (h, lg, [])
  | r :: rest =>
      let '(lg', res) := log lg (r_time r) (r_write r) (r_event r) (r_fields r) in
      let h' := flushed p lg' h in
      match res with
      | Panic => (h', lg', [Panic])
      | _ => let '(h2, lg2, out) := audit_loop p rest h' lg' in (h2, lg2, res :: out)
      end
  end.

(** The whole task; without a log the events are drained. *)
Definition audit_task (path : option string) (rs : list Received) (h : Host)
    : Host * option AuditLogger * list (result unit AuditError) :=
  match logger_open path h with
  | (h', Ok (p, lg)) => let '(h2, lg2, out) := audit_loop p rs h' lg in (h2, Some lg2, out)
  | (h', _) => (h', None, [])
  end.
End Task.

(** ** What a trail of events tells *)

Inductive Life : Type := Live | EndedByRevocation | EndedByExpiry.

(** What can be told of a lease: for which credential, whether it is over,
    how often it was used and renewed (at the counters' width). *)
Record Story : Type := mkStory { st_credential : string; st_life : Life; st_uses : Z; st_renewals : Z }.

Definition life_of (s : LeaseStatus) : Life :=
  match s with Active => Live | Revoked _ => EndedByRevocation | Expired => EndedByExpiry end.

Definition story_of (l : Lease) : Story :=
  mkStory (credential_ref l) (life_of (status l)) (requests_used l) (renewals_used l).

Definition retell (id : string) (f : Story -> Story) (t : gmap string Story) : gmap string Story :=
  match t !! id with Some s => <[id := f s]> t | None => t end.

(** A counter of width [w]. *)
Definition bump (w n : Z) : Z := if n + 1 <? w then n + 1 else (n + 1) mod w.

(** A reader of the trail, one event at a time. *)
Definition replay_event (t : gmap string Story) (e : AuditEventType * AuditFields) : gmap string Story :=
  match af_lease_id e.2 with
  | None => t
  | Some id =>
      match e.1 with
      | LeaseGranted | LeaseDelegated => <[id := mkStory (unwrap_or (af_credential_ref e.2) EmptyString) Live 0 0]> t
      | LeaseUsed => retell id (fun s => mkStory (st_credential s) (st_life s) (bump U64 (st_uses s)) (st_renewals s)) t
      | LeaseRenewed =>
          retell id (fun s => mkStory (st_credential s) (st_life s) (st_uses s) (bump U32 (st_renewals s))) t
      | LeaseRevoked => retell id (fun s => mkStory (st_credential s) EndedByRevocation (st_uses s) (st_renewals s)) t
      | LeaseExpired => retell id (fun s => mkStory (st_credential s) EndedByExpiry (st_uses s) (st_renewals s)) t
      | _ => t
      end
  end.

Definition replay (es : list (AuditEventType * AuditFields)) : gmap string Story := fold_left replay_event es ∅.

(** Events that are not about a lease's life. *)
Definition lifecycle (ev : AuditEventType) : bool :=
  match ev with
  | LeaseGranted | LeaseDelegated | LeaseUsed | LeaseRenewed | LeaseRevoked | LeaseExpired => true
  | _ => false
  end.

(** ** Sequences of manager operations *)

Section Trail.
Context `{Build} `{Chrono} `{HmacSha256} `{Resolver}.

(** One caller's operation after the other; the proxy reports blocked
    requests through the same channel. *)
Inductive lease_op : LeaseManager -> LeaseManager -> Prop :=
| op_create m idb nonce now ai cref scope c pname method :
    lease_op m (create_lease m idb nonce now ai cref scope c pname method).1
| op_delegate m idb nonce created now pid target scope ttl target_alive :
    lease_op m (delegate m idb nonce created now pid target scope ttl target_alive).1
| op_renew m now id extend : lease_op m (renew_lease m now id extend).1
| op_use m now id : lease_op m (use_lease m now id).1
| op_sweep m now : lease_op m (sweep_expired m now)
| op_revoke m id reason m' r : revoke_lease m id reason = Some (m', r) -> lease_op m m'
| op_agent m fp reason m' r : revoke_agent_leases m fp reason = Some (m', r) -> lease_op m m'
| op_death m notice m' : handle_death_notice m notice = Some m' -> lease_op m m'
| op_blocked m ev f : lifecycle ev = false -> lease_op m (emit_audit m ev f).

(** ** Lemmas *)

(** The trail so far tells exactly the leases. *)
Definition told (m : LeaseManager) : Prop :=
  audit_open m = true /\ replay (audit_sent m) = story_of <$> leases m.

Lemma told_emit m ls ix ev f :
  audit_open m = true -> replay_event (replay (audit_sent m)) (ev, f) = story_of <$> ls ->
  told (emit_audit (with_index (with_leases m ls) ix) ev f).
Proof.
  intros Ho Hr. unfold emit_audit. simpl. rewrite Ho. split; [done|]. unfold replay. simpl. by rewrite fold_left_app.
Qed.

(** An event about a stored lease retells it as the update changed it. *)
Lemma told_retell m id l l' ix ev f g :
  told m -> leases m !! id = Some l -> af_lease_id f = Some id ->
  (forall t, replay_event t (ev, f) = retell id g t) -> g (story_of l) = story_of l' ->
  told (emit_audit (with_index (with_leases m (<[id := l']> (leases m))) ix) ev f).
Proof.
  intros [Ho Hr] Hl Hid He Hg. apply told_emit; [done|].
  rewrite He, Hr. unfold retell. by rewrite lookup_fmap, Hl, fmap_insert, <- Hg.
Qed.

Lemma told_insert m l ix ev f :
  told m -> (ev = LeaseGranted \/ ev = LeaseDelegated) -> af_lease_id f = Some (lease_id l) ->
  af_credential_ref f = Some (credential_ref l) -> status l = Active -> requests_used l = 0 -> renewals_used l = 0 ->
  told (emit_audit (with_index (with_leases m (<[lease_id l := l]> (leases m))) ix) ev f).
Proof.
  intros [Ho Hr] Hev Hid Hc Hs Hu Hn. apply told_emit; [done|]. unfold replay_event. cbn [fst snd]. rewrite Hid, Hc.
  rewrite fmap_insert, Hr. assert (story_of l = mkStory (credential_ref l) Live 0 0) as ->
    by (unfold story_of; by rewrite Hs, Hu, Hn).
  by destruct Hev as [-> | ->].
Qed.

Lemma with_own_index m : with_index m (agent_leases m) = m.
Proof. by destruct m. Qed.

Lemma told_index m ix : told m -> told (with_index m ix).
Proof. done. Qed.

Lemma told_revoke_one reason detail m id : told m -> told (revoke_one reason detail m id).
Proof.
  intros Ht. unfold revoke_one. destruct (leases m !! id) as [l|] eqn:E; [|done].
  by eapply (told_retell m id l (set_status (Revoked reason) l)).
Qed.

Lemma told_expire_one m id : told m -> told (expire_one m id).
Proof.
  intros Ht. unfold expire_one. destruct (leases m !! id) as [l|] eqn:E; [|done].
  by eapply (told_retell m id l (set_status Expired l)).
Qed.

Lemma told_fold {A : Type} (f : LeaseManager -> A -> LeaseManager) (xs : list A) m :
  (forall m x, told m -> told (f m x)) -> told m -> told (fold_left f xs m).
Proof. intros Hf. revert m. induction xs as [|x xs IH]; intros m Hm; simpl; auto. Qed.

Lemma told_revoke m id reason m' r : told m -> revoke_lease m id reason = Some (m', r) -> told m'.
Proof.
  intros Ht. unfold revoke_lease. destruct (leases m !! id); [|by intros [= <- _]].
  intros (ds & _ & [= <- _])%bind_Some. apply told_revoke_one, told_fold; [|done].
  intros. by apply told_revoke_one.
Qed.

Lemma told_roots m reason ids acc m' r : told m -> revoke_roots m reason ids acc = Some (m', r) -> told m'.
Proof.
  revert m acc. induction ids as [|id ids IH]; intros m acc Ht; simpl; [by intros [= <- _]|].
  destruct (is_root_lease _ id); [|by apply IH]. intros (ds & _ & Hr)%bind_Some.
  destruct (revoke_lease m id reason) as [[m1 r1]|] eqn:E; [|done]. apply told_revoke in E; [|done].
  destruct r1; [by eapply IH|by injection Hr as <- _|by injection Hr as <- _].
Qed.

Lemma told_agent m fp reason m' r : told m -> revoke_agent_leases m fp reason = Some (m', r) -> told m'.
Proof.
  intros Ht ([m1 r1] & E & Hr)%bind_Some. apply told_roots in E; [|done].
  by destruct r1; injection Hr as <- _.
Qed.

(** [add_u] at a counter. *)
Lemma counted {E : Type} w n k : add_u (E:=E) w n 1 = Ok k -> k = bump w n.
Proof. unfold add_u, bump. destruct (n + 1 <? w); [by intros [= <-]|]. by destruct overflow_checks; [|intros [= <-]]. Qed.

Lemma told_use m now id : told m -> told (use_lease m now id).1.
Proof.
  intros Ht. unfold use_lease. destruct (leases m !! id) as [l|] eqn:E; [|done].
  destruct (use_checked now id l) as [l'|?|] eqn:Eu; [|done..].
  apply use_checked_ok in Eu as (_ & _ & _ & n & ->%counted & ->).
  rewrite <- (with_own_index (with_leases m _)). by eapply (told_retell m id l).
Qed.

Lemma told_renew m now id extend : told m -> told (renew_lease m now id extend).1.
Proof.
  intros Ht. unfold renew_lease. destruct (leases m !! id) as [l|] eqn:E; [|done].
  destruct (renew_checked now id extend l) as [l'|?|] eqn:Er; [|done..].
  apply renew_checked_ok in Er as (_ & _ & _ & _ & total & d & exp & n & _ & _ & _ & _ & ->%counted & ->).
  rewrite <- (with_own_index (with_leases m _)). by eapply (told_retell m id l).
Qed.

Lemma told_create m idb nonce now ai cref scope c pname method :
  told m -> told (create_lease m idb nonce now ai cref scope c pname method).1.
Proof.
  intros Ht. unfold create_lease. destruct (prepare_lease _ _ _ _ _ _ _ _ _ _) as [l|?|] eqn:E; [|done..].
  apply rbind_ok in E as (pins & _ & (d & _ & (exp & _ & [= <-])%rbind_ok)%rbind_ok).
  apply told_insert; auto.
Qed.

Lemma told_delegate m idb nonce created now pid target scope ttl al :
  told m -> told (delegate m idb nonce created now pid target scope ttl al).1.
Proof.
  intros Ht. unfold delegate. destruct (negb al); [done|].
  destruct (leases m !! pid) as [p|] eqn:E; [|done]. destruct (negb _); [done|].
  destruct (pin_dns _) as [pins|?|]; [|done..].
  destruct (rbind _ _) as [child|?|] eqn:Ec; [|done..].
  apply rbind_ok in Ec as (d & _ & (exp & _ & Hc)%rbind_ok).
  apply delegate_checked_ok in Hc as (_ & _ & _ & _ & _ & _ & depth & _ & _ & ->).
  apply told_index. unfold link_child. rewrite E.
  match goal with |- context [push_child (lease_id ?c) p] => set (child := c) end.
  rewrite <- (with_own_index (with_leases (with_leases m _) _)).
  apply (told_insert (with_leases m (<[pid := push_child (lease_id child) p]> (leases m))) child); auto.
  destruct Ht as [Ho Hr]. split; [done|]. simpl. rewrite Hr, fmap_insert.
  symmetry. apply insert_id. by rewrite lookup_fmap, E.
Qed.

Lemma told_op m m' : told m -> lease_op m m' -> told m'.
Proof.
  intros Ht. destruct 1 as [| | | | | |? ? ? ? ? Ha|? ? ? Hd|? ? ? Hev].
  - by apply told_create.
  - by apply told_delegate.
  - by apply told_renew.
  - by apply told_use.
  - apply told_fold; [|done]. intros. by apply told_expire_one.
  - by eapply told_revoke.
  - by eapply told_agent.
  - apply bind_Some in Hd as ([m1 r] & Ha & [= ->]). by eapply told_agent.
  - destruct Ht as [Ho Hr]. unfold emit_audit. rewrite Ho. split; [done|]. unfold replay. simpl.
    rewrite fold_left_app. simpl. unfold replay in Hr. rewrite Hr. unfold replay_event. simpl.
    by destruct (af_lease_id f), ev.
Qed.

Lemma told_run key m : rtc lease_op (manager_new key true) m -> told m.
Proof.
  intros Hr. assert (told (manager_new key true)) as Ht by (split; [done|]; simpl; by rewrite fmap_empty).
  revert Ht. induction Hr as [m|m1 m2 m3 Hs _ IH]; [done|]. intros Ht. apply IH. by eapply told_op.
Qed.
End Trail.

(** ** Lemmas: the task and the file *)

Section TaskLemmas.
Context `{Sha256} `{Rfc3339} `{JsonText} `{EntryCodec} `{Build} `{!EntryCodecLaws}.

Definition sent (r : Received) : AuditEventType * AuditFields := (r_event r, r_fields r).
Definition recorded (e : AuditEntry) : AuditEventType * AuditFields := (e_event e, e_fields e).

Lemma log_ok_written lg ts w ev f lg' : log lg ts w ev f = (lg', Ok tt) -> w = Written.
Proof.
  unfold log. destruct (add_u _ _ _) as [?|?|]; [|done..]. destruct (entry_to_string _); [|done].
  by destruct w.
Qed.

Lemma flushed_file p lg h m d :
  h_fs h !! p = Some (File m d) -> h_fs (flushed p lg h) !! p = Some (File m (as_bytes (file lg))).
Proof. intros Hp. unfold flushed. rewrite Hp. simpl. by rewrite lookup_insert_eq. Qed.

Lemma audit_loop_logged p rs h lg h' lg' out es m d :
  well_logged lg es -> h_fs h !! p = Some (File m d) -> d = as_bytes (file lg) ->
  audit_loop p rs h lg = (h', lg', out) -> Forall (eq (Ok tt)) out ->
  exists new, well_logged lg' (es ++ new) /\ map recorded new = map sent rs /\
    h_fs h' !! p = Some (File m (as_bytes (file lg'))).
Proof.
  revert h lg es d out. induction rs as [|r rs IH]; intros h lg es d out Hw Hp Hd; simpl.
  - intros [= <- <- <-] _. exists []. rewrite app_nil_r. by rewrite Hp, Hd.
  - destruct (log lg _ _ _ _) as [lg1 res] eqn:El.
    destruct res as [[]|e|]; [|destruct (audit_loop _ _ _ _) as [[h2 lg2] out2]; intros [= <- <- <-] [? _]%Forall_cons; done
                               |intros [= <- <- <-] [? _]%Forall_cons; done].
    destruct (audit_loop p rs (flushed p lg1 h) lg1) as [[h2 lg2] out2] eqn:Ea. intros [= <- <- <-] [_ Ho]%Forall_cons.
    pose proof (log_ok_written _ _ _ _ _ _ El) as Hwr. rewrite Hwr in El.
    destruct (log_keeps_chain _ _ _ _ _ _ Hw El) as (e & He & Hw1).
    destruct (IH _ _ (es ++ [e]) _ _ Hw1 (flushed_file _ _ _ _ _ Hp) eq_refl Ea Ho) as (new & Hw2 & Hm & Hf).
    exists (e :: new). rewrite <- app_assoc in Hw2. split_and!; [done| |done]. cbn [map]. rewrite Hm. f_equal. exact He.
Qed.

(** What an opened log is: its file, now private, with the text the logger
    starts from; a new file is empty. *)
Lemma logger_open_file path h h1 p lg :
  logger_open path h = (h1, Ok (p, lg)) ->
  p = unwrap_or path (default_log_path h) /\ h_fs h1 !! p = Some (File 384 (as_bytes (file lg))) /\
  logger_new (file lg) = Ok lg /\
  (h_fs h !! p = None -> file lg = EmptyString) /\
  (forall m d, h_fs h !! p = Some (File m d) -> d = as_bytes (file lg)).
Proof.
  unfold logger_open. set (q := unwrap_or path (default_log_path h)). intros Ho.
  apply bind_ok in Ho as (h2 & [] & Hc & Ho). apply bind_ok in Ho as (h3 & [] & Ha%map_errM_ok & Ho).
  apply bind_ok in Ho as (h4 & [] & Hm%map_errM_ok & Ho). apply bind_ok in Ho as (h5 & content & Hr%map_errM_ok & Ho).
  apply bind_ok in Ho as (h6 & lg' & [-> Hl]%lift_ok & Ho). injection Ho as <- <- ->.
  assert (grows h h2) as Hg.
  { destruct (path_parent q) as [d|]; [|by injection Hc as <-].
    apply map_errM_ok in Hc. pose proof (create_dir_all_grows d h) as Hg. by rewrite Hc in Hg. }
  apply bind_ok in Hr as (h7 & d & Hr & Hu). unfold fs_read in Hr. unfold fs_chmod in Hm.
  destruct (h_fs h3 !! q) as [n|] eqn:En; [|done]. injection Hm as <-. simpl in Hr. rewrite lookup_insert_eq in Hr.
  destruct n as [m0 d0|m0|m0]; [|done..]. simpl in Hr. destruct (may _ _ _); [|done]. injection Hr as <- <-.
  destruct (bool_decide _); [|done]. injection Hu as <- <-.
  assert (file lg = of_bytes d0) as Hf.
  { unfold logger_new in Hl. apply rbind_ok in Hl as ([sq ph] & _ & [= <-]). done. }
  split_and!; [done| | | |].
  - simpl. by rewrite lookup_insert_eq, Hf, as_of_bytes.
  - by rewrite Hf.
  - intros Hn. unfold open_append in Ha. destruct Hg as [_ Hg].
    destruct (Hg q) as [Eq|[_ Eq]]; rewrite ?Hn in Eq; rewrite Eq in Ha; [|done].
    destruct (check_dir h2 q); [|done..]. injection Ha as <-. simpl in En. rewrite lookup_insert_eq in En.
    injection En as _ <-. by rewrite Hf.
  - intros m1 d1 Hp. unfold open_append in Ha. rewrite (grows_keeps _ _ _ _ Hg Hp) in Ha.
    destruct (may _ _ _); [|done]. injection Ha as <-. rewrite (grows_keeps _ _ _ _ Hg Hp) in En. injection En as _ <-.
    by rewrite Hf, as_of_bytes.
Qed.

Lemma open_resumes path h h1 p lg es0 :
  logger_open path h = (h1, Ok (p, lg)) ->
  (h_fs h !! p = None /\ es0 = []) \/
    (exists m lg0, h_fs h !! p = Some (File m (as_bytes (file lg0))) /\ well_logged lg0 es0) ->
  well_logged lg es0.
Proof.
  intros (_ & _ & Hn & Hnew & Hold)%logger_open_file [[Hp ->]|(m & lg0 & Hp & Hw)].
  - rewrite (Hnew Hp) in Hn. injection Hn as <-. apply well_logged_start.
  - apply Hold in Hp. apply as_bytes_inj in Hp. rewrite <- Hp, (well_logged_resume _ _ Hw) in Hn. by injection Hn as <-.
Qed.

(** ** Properties *)

Context `{Chrono} `{HmacSha256} `{Resolver}.

(** C32. The log tells what became of every lease.  Take any sequence of manager
    operations and let the audit task receive what they sent, without a write
    error, into a log that is new or was left by an earlier run: the file is
    private to its owner and verifies as the earlier entries followed by one
    per event in order, and reading those off the file gives exactly the
    leases the manager stores, each with its credential, whether and how it
    ended, and how often it was used and renewed. *)
Theorem audit_file_tells_leases (key : list byte) (m : LeaseManager) (path : option string) (rs : list Received)
    (h h' : Host) (lg : AuditLogger) (out : list (result unit AuditError)) (es0 : list AuditEntry) :
  let p := unwrap_or path (default_log_path h) in
  rtc lease_op (manager_new key true) m -> map sent rs = audit_sent m ->
  (h_fs h !! p = None /\ es0 = []) \/
    (exists mode lg0, h_fs h !! p = Some (File mode (as_bytes (file lg0))) /\ well_logged lg0 es0) ->
  audit_task path rs h = (h', Some lg, out) -> Forall (eq (Ok tt)) out ->
  exists text es, h_fs h' !! p = Some (File 384 (as_bytes text)) /\
    Forall2 parses (lines text) (es0 ++ es) /\
    (es0 ++ es <> [] -> verify_chain text = Ok (Valid (Z.of_nat (length (es0 ++ es))))) /\
    length es = length (audit_sent m) /\ replay (map recorded es) = story_of <$> leases m.
Proof.
  cbn zeta. intros [_ Htold]%told_run Hrs Hfile Htask Hout. unfold audit_task in Htask.
  destruct (logger_open path h) as [h1 [[p lg0]|e|]] eqn:Eo; [|done..].
  destruct (audit_loop p rs h1 lg0) as [[h2 lg2] out2] eqn:Ea. injection Htask as <- <- <-.
  pose proof (logger_open_file _ _ _ _ _ Eo) as (Hp & Hf & _). rewrite <- Hp in Hfile |- *.
  destruct (audit_loop_logged _ _ _ _ _ _ _ es0 _ _ (open_resumes _ _ _ _ _ _ Eo Hfile) Hf eq_refl Ea Hout)
    as (es & Hw & Hm & Hf2).
  pose proof (well_logged_file _ _ Hw) as [Hc Hl]. exists (file lg2), es. split_and!; [done| | | |].
  - destruct Hc as [Hc _]. by rewrite Hl in Hc.
  - intros Hne. apply verify_chain_valid. by exists (es0 ++ es), (prev_hash lg2).
  - by rewrite <- Hrs, <- (length_map recorded), Hm, !length_map.
  - by rewrite Hm, Hrs.
Qed.

(** A torn write costs the next run its whole log: the log cannot be opened
    again, and every event that run sends is dropped. *)
Theorem torn_write_silences_next_run lg es ts k err ev f lg' part e mode (p : string) (rs : list Received) (h : Host) :
  well_logged lg es -> log lg ts (WriteFailed k err) ev f = (lg', Err (AuditIo err)) ->
  file lg' = file lg +:+ part -> no_line_break part = true -> not_blank part = true ->
  entry_from_str part = inr e -> h_fs h !! p = Some (File mode (as_bytes (file lg'))) ->
  exists h1, audit_task (Some p) rs h = (h1, None, []).
Proof.
  intros Hw Hl Hf Hn Hb He Hp. unfold audit_task.
  destruct (logger_open (Some p) h) as [h1 [[q lg1]|e1|]] eqn:Eo; [|by eexists..].
  apply logger_open_file in Eo as (-> & _ & Hnew & _ & Hold). simpl in *.
  apply Hold, as_bytes_inj in Hp. rewrite <- Hp in Hnew.
  destruct (torn_write_blocks_reopening _ _ _ _ _ _ _ _ _ _ Hw Hl Hf Hn Hb He) as [Hno _]. congruence.
Qed.
End TaskLemmas.

(** ** Witnesses *)

#[export] Instance event_eq_dec : EqDecision AuditEventType.
Proof. solve_decision. Defined.

Definition same_fields (f g : AuditFields) : bool :=
  bool_decide (af_lease_id f = af_lease_id g) && bool_decide (af_agent_fingerprint f = af_agent_fingerprint g) &&
  bool_decide (af_agent_binary_path f = af_agent_binary_path g) &&
  bool_decide (af_credential_ref f = af_credential_ref g) &&
  (match af_scope f, af_scope g with None, None => true | _, _ => false end) &&
  bool_decide (af_policy_matched f = af_policy_matched g) &&
  bool_decide (af_approval_method f = af_approval_method g) && bool_decide (af_detail f = af_detail g).

Lemma same_fields_eq f g : same_fields f g = true -> f = g.
Proof.
  destruct f, g. unfold same_fields. simpl. intros Hs. bool_to_prop.
  destruct af_scope, af_scope0; naive_solver.
Qed.

(** A codec for one entry, whatever its hash. *)
Definition one_entry (ev : AuditEventType) (f : AuditFields) : EntryCodec := {|
  entry_to_string := fun e =>
    if bool_decide (e_sequence e = 1) && bool_decide (e_timestamp e = 5) && bool_decide (e_event e = ev) &&
       same_fields (e_fields e) f && bool_decide (e_prev_hash e = "genesis") &&
       no_line_break ("J" +:+ e_hash e) && not_blank ("J" +:+ e_hash e)
    then inl ("J" +:+ e_hash e) else inr "unsupported";
  entry_from_str := fun s =>
    match strip_prefix "J" s with
    | Some hash => inl (mkAuditEntry 1 5 ev f "genesis" hash)
    | None => inr "not an entry"
    end
|}.

Lemma one_entry_laws ev f : @EntryCodecLaws (one_entry ev f).
Proof.
  assert (forall e s, @entry_to_string (one_entry ev f) e = inl s ->
    e = mkAuditEntry 1 5 ev f "genesis" (e_hash e) /\ s = "J" +:+ e_hash e /\
    no_line_break s = true /\ not_blank s = true) as Hinv.
  { intros [sq ts ev' f' ph hash] s.
    cbn [entry_to_string one_entry e_sequence e_timestamp e_event e_fields e_prev_hash e_hash].
    destruct (_ && _) eqn:Hb; [|done]. intros [= <-]. bool_to_prop.
    match goal with Hs : same_fields _ _ = true |- _ => apply same_fields_eq in Hs end. by subst. }
  split; intros e s (He & Hs & Hn & Hb)%Hinv; [|done|done].
  cbn [entry_from_str one_entry]. rewrite Hs, strip_prefix_app. by rewrite <- He.
Qed.

Definition lead_event : AuditEventType * AuditFields :=
  match audit_sent m_lead with e :: _ => e | [] => (SecurityAlert, no_fields) end.

Definition lead_received : list Received := [mkReceived lead_event.1 lead_event.2 5 Written].

#[local] Existing Instances id_sha plain_time plain_json release_build chrono_range demo_hmac demo_dns | 100.
#[local] Instance lead_codec : EntryCodec := one_entry lead_event.1 lead_event.2.

Definition lead_task := audit_task None lead_received demo_host.
Definition lead_logger : AuditLogger := default (mkAuditLogger EmptyString 0 EmptyString) lead_task.1.2.

Lemma audit_file_tells_leases_witness :
  exists text es,
    h_fs lead_task.1.1 !! "/home/u/.local/share/cdp/audit.jsonl" = Some (File 384 (as_bytes text)) /\
    verify_chain text = Ok (Valid 1) /\ replay (map recorded es) = {["01" := mkStory "github_api" Live 0 0]}.
Proof.
  destruct (audit_file_tells_leases (H4:=one_entry_laws lead_event.1 lead_event.2) [Byte.x01] m_lead None lead_received demo_host
    lead_task.1.1 lead_logger lead_task.2 []) as (text & es & Hf & _ & Hv & Hlen & Hr).
  - apply rtc_once. apply op_create.
  - vm_compute. reflexivity.
  - left. split; vm_compute; reflexivity.
  - vm_compute. reflexivity.
  - vm_compute. repeat constructor.
  - exists text, es. split_and!; [exact Hf| |rewrite Hr; vm_compute; reflexivity].
    destruct es as [|e [|]]; [discriminate| |discriminate]. by apply Hv.
Defined.
