(* ===== verification/Asserts.v ===== *)
(** * The assertions of Rust's unit tests

    The test modules of the repository are checked against the model: a test
    function is a boolean that is true when the test passes, and each suite
    has one theorem that says they all do.  Here are the assertion macros
    ([unwrap] and [panic!] in a test are failures) and a host with a temporary
    directory. *)

From S2P Require Import Prelude StateM RustStr UnixHost.

(** [assert_eq!] *)
Definition assert_eq {A : Type} `{EqDecision A} (a b : A) : bool := bool_decide (a = b).
Arguments assert_eq {_ _} !_ !_ /.

(** A body of several assertions. *)
Definition asserts (l : list bool) : bool := forallb (fun b => b) l.

Definition is_none {A : Type} (o : option A) : bool := match o with None => true | Some _ => false end.
Definition is_some {A : Type} (o : option A) : bool := negb (is_none o).
Definition is_empty_vec {A : Type} (l : list A) : bool := match l with [] => true | _ => false end.
Definition is_err {A E : Type} (r : result A E) : bool := match r with Err _ => true | _ => false end.

(** [let x = r.unwrap(); ...], for both types it is a method of, and
    [unwrap_err]. *)
Definition unwrapping {A E : Type} (r : result A E) (k : A -> bool) : bool :=
  match r with Ok a => k a | _ => false end.
Definition expecting {A : Type} (o : option A) (k : A -> bool) : bool :=
  match o with Some a => k a | None => false end.
Definition unwrapping_err {A E : Type} (r : result A E) (k : E -> bool) : bool :=
  match r with Err e => k e | _ => false end.

Notation "'let?' x := r 'in' k" := (unwrapping r (fun x => k%bool))
  (at level 200, x pattern, r at level 200, k at level 200) : rust_scope.
Notation "'let??' x := o 'in' k" := (expecting o (fun x => k%bool))
  (at level 200, x pattern, o at level 200, k at level 200) : rust_scope.

(** ** Tests of stateful code

    A test that calls the code under test several times threads the state [W]
    through; [None] is a failed [unwrap]. *)

Definition TestM (W A : Type) : Type := W -> option (A * W).

#[export] Instance test_ret {W : Type} : MRet (TestM W) := fun _ a w => Some (a, w).
#[export] Instance test_bind {W : Type} : MBind (TestM W) := fun _ _ k m w =>
  match m w with Some (a, w') => k a w' | None => None end.

#[export] Instance test_fmap {W : Type} : FMap (TestM W) := fun _ _ f m w =>
  match m w with Some (a, w') => Some (f a, w') | None => None end.

(** [.await.unwrap()] and [.await.unwrap_err()] *)
Definition unwrapped {W A E : Type} (m : TestM W (result A E)) : TestM W A := fun w =>
  match m w with Some (Ok a, w') => Some (a, w') | _ => None end.
Definition refused {W A E : Type} (m : TestM W (result A E)) : TestM W E := fun w =>
  match m w with Some (Err e, w') => Some (e, w') | _ => None end.

Definition run_test {W : Type} (w : W) (t : TestM W bool) : bool :=
  match t w with Some (b, _) => b | None => false end.

(** A look at the state. *)
Definition seen {W A : Type} (f : W -> A) : TestM W A := fun w => Some (f w, w).

(** ** A Unix host to run tests on

    A temporary directory, operations on the host as steps of a test, and the
    file system seen from outside the code. *)

Definition temp_dir : string := "/tmp/t".
Definition temp_host : Host :=
  mkHost ∅ {["/" := Directory 493; "/tmp" := Directory 511; "/tmp/t" := Directory 448]} false 18 77
    (inl "/usr/bin/test") 1704067200000000000.

(** A host operation as a step of a test. *)
Definition on_host {A E : Type} (m : M Host E A) : TestM Host A := fun h =>
  match m h with (h, Ok a) => Some (a, h) | _ => None end.

(** The file system seen from outside the code, and an option as an
    [unwrap]. *)
Definition peek {A : Type} (f : Host -> option A) : TestM Host A := fun h => a ← f h; Some (a, h).
Definition poke (f : Host -> Host) : TestM Host unit := fun h => Some (tt, f h).
Definition some_of {A : Type} (o : option A) : TestM Host A := peek (fun _ => o).
Definition ok_of {A E : Type} (r : result A E) : TestM Host A :=
  some_of match r with Ok a => Some a | _ => None end.

Definition tick (h : Host) : Host :=
  mkHost (h_env h) (h_fs h) (h_privileged h) (h_umask h) (h_pid h) (h_self_exe h) (h_now h + 1000).
