(* ===== verification/PolicyTests.v ===== *)
(** * cdp-policy: the unit tests of the crate

    The test modules of [glob.rs] and [evaluator.rs] and the tests of the
    defaults in [types.rs], run on the model for every formatter of [Debug]. *)

From S2P Require Import Prelude RustStr PolicyTypes PolicyParser Glob PolicyEvaluator Asserts.

(** ** glob.rs *)

Module GlobTests.
Definition exact_match : bool := path_matches_glob "/repos/foo/pulls" "/repos/foo/pulls".
Definition single_wildcard_match : bool := path_matches_glob "/repos/myrepo/pulls" "/repos/*/pulls".
Definition single_wildcard_no_match_multiple_segments : bool :=
  negb (path_matches_glob "/repos/a/b/pulls" "/repos/*/pulls").
Definition single_wildcard_no_match_wrong_suffix : bool :=
  negb (path_matches_glob "/repos/myrepo/issues" "/repos/*/pulls").
Definition double_wildcard_suffix_root : bool := path_matches_glob "/repos" "/repos/**".
Definition double_wildcard_suffix_one_segment : bool := path_matches_glob "/repos/foo" "/repos/**".
Definition double_wildcard_suffix_many_segments : bool := path_matches_glob "/repos/foo/bar" "/repos/**".
Definition double_wildcard_middle_zero_segments : bool := path_matches_glob "/repos/hooks" "/repos/**/hooks".
Definition double_wildcard_middle_one_segment : bool := path_matches_glob "/repos/foo/hooks" "/repos/**/hooks".
Definition double_wildcard_middle_many_segments : bool :=
  path_matches_glob "/repos/foo/bar/hooks" "/repos/**/hooks".
Definition double_wildcard_middle_wrong_suffix : bool :=
  negb (path_matches_glob "/repos/foo/pulls" "/repos/**/hooks").
Definition root_path_matches_root_pattern : bool := path_matches_glob "/" "/".
Definition root_path_empty_string : bool := path_matches_glob EmptyString EmptyString.
Definition no_match_different_prefix : bool := negb (path_matches_glob "/repos/foo" "/users/bar").
Definition trailing_slash_normalization_path : bool := path_matches_glob "/repos/foo/" "/repos/foo".
Definition trailing_slash_normalization_pattern : bool := path_matches_glob "/repos/foo" "/repos/foo/".
Definition trailing_slash_normalization_both : bool := path_matches_glob "/repos/foo/" "/repos/foo/".
Definition mixed_wildcards : bool :=
  path_matches_glob "/repos/myrepo/issues/123/comments" "/repos/*/issues/**".
Definition mixed_wildcards_no_extra_segment_for_star : bool :=
  path_matches_glob "/repos/myrepo/issues" "/repos/*/issues/**".
Definition double_wildcard_at_start_zero_prefix : bool := path_matches_glob "/hooks" "**/hooks".
Definition double_wildcard_at_start_one_prefix : bool := path_matches_glob "/repos/hooks" "**/hooks".
Definition double_wildcard_at_start_many_prefix : bool := path_matches_glob "/a/b/c/hooks" "**/hooks".
Definition double_wildcard_at_start_wrong_suffix : bool := negb (path_matches_glob "/a/b/c/pulls" "**/hooks").
Definition bare_double_wildcard_matches_everything : bool :=
  asserts [path_matches_glob "/repos/foo/bar/baz" "**"; path_matches_glob "/" "**";
           path_matches_glob EmptyString "**"; path_matches_glob "/single" "**"].

Definition any_glob_matches_first_pattern : bool :=
  let patterns := ["/repos/foo"; "/users/bar"] in any_glob_matches "/repos/foo" patterns.
Definition any_glob_matches_second_pattern : bool :=
  let patterns := ["/repos/foo"; "/users/bar"] in any_glob_matches "/users/bar" patterns.
Definition any_glob_matches_no_match : bool :=
  let patterns := ["/repos/foo"; "/users/bar"] in negb (any_glob_matches "/admin/settings" patterns).
Definition any_glob_matches_empty_patterns_returns_false : bool := negb (any_glob_matches "/repos/foo" []).
Definition any_glob_matches_with_wildcards : bool :=
  let patterns := ["/repos/**"; "/users/*/profile"] in
  asserts [any_glob_matches "/repos/foo/bar" patterns; any_glob_matches "/users/alice/profile" patterns;
           negb (any_glob_matches "/admin/settings" patterns)].

Definition consecutive_double_wildcards : bool := path_matches_glob "/a/b/c/d/e" "**/**/**".
Definition star_does_not_match_empty_segment : bool := negb (path_matches_glob "/repos" "/repos/*/").
Definition literal_no_partial_match : bool := negb (path_matches_glob "/repositories/foo" "/repos/foo").
Definition case_sensitive_matching : bool := negb (path_matches_glob "/Repos/foo" "/repos/foo").

(** The test module of [glob.rs] passes. *)
Theorem glob_tests_pass :
  asserts
    [exact_match; single_wildcard_match; single_wildcard_no_match_multiple_segments;
     single_wildcard_no_match_wrong_suffix; double_wildcard_suffix_root; double_wildcard_suffix_one_segment;
     double_wildcard_suffix_many_segments; double_wildcard_middle_zero_segments;
     double_wildcard_middle_one_segment; double_wildcard_middle_many_segments;
     double_wildcard_middle_wrong_suffix; root_path_matches_root_pattern; root_path_empty_string;
     no_match_different_prefix; trailing_slash_normalization_path; trailing_slash_normalization_pattern;
     trailing_slash_normalization_both; mixed_wildcards; mixed_wildcards_no_extra_segment_for_star;
     double_wildcard_at_start_zero_prefix; double_wildcard_at_start_one_prefix;
     double_wildcard_at_start_many_prefix; double_wildcard_at_start_wrong_suffix;
     bare_double_wildcard_matches_everything; any_glob_matches_first_pattern; any_glob_matches_second_pattern;
     any_glob_matches_no_match; any_glob_matches_empty_patterns_returns_false; any_glob_matches_with_wildcards;
     consecutive_double_wildcards; star_does_not_match_empty_segment; literal_no_partial_match;
     case_sensitive_matching] = true.
Proof. vm_compute. reflexivity. Qed.
End GlobTests.

(** ** types.rs *)

Module TypesTests.
Definition scope_default_is_empty : bool :=
  let s := default_scope in
  asserts [is_empty_vec (s_hosts s); is_empty_vec (s_methods s); is_empty_vec (s_paths s);
           is_empty_vec (s_forbidden_paths s); is_none (s_ttl_seconds s); is_none (s_max_requests s);
           is_none (s_body_constraints s); is_none (s_network s)].
Definition network_constraints_default_is_pinned : bool :=
  let nc := default_network in
  asserts [assert_eq (n_dns_resolution nc) "pinned"; negb (n_follow_redirects nc);
           is_empty_vec (n_allowed_ip_ranges nc)].
Definition policy_constraints_default_has_renewable_true : bool :=
  let pc := default_constraints in
  asserts [pc_renewable pc; negb (pc_delegation_allowed pc); negb (pc_delegation_require_approval pc);
           is_none (pc_max_ttl_seconds pc); is_none (pc_max_renewals pc);
           is_none (pc_max_cumulative_ttl_seconds pc); is_none (pc_delegation_max_depth pc)].

(** The tests of the defaults in [types.rs] pass. *)
Theorem types_tests_pass :
  asserts [scope_default_is_empty; network_constraints_default_is_pinned;
           policy_constraints_default_has_renewable_true] = true.
Proof. vm_compute. reflexivity. Qed.
End TypesTests.

(** ** evaluator.rs *)

Module EvaluatorTests.
Section Tests.
Context `{Fmt}.

Definition make_agent (binary_path : string) (binary_hash : list byte) (agent_id : option string) : AgentInfo :=
  mkAgentInfo 1000 42 binary_path binary_hash 1000000 (replicate 32 Byte.xef) agent_id None.

Definition hash_of (b : byte) : list byte := replicate 32 b.
Definition hash_str (b : byte) : string := "sha256:" +:+ bytes_to_hex (replicate 32 b).

Definition make_allow (hosts methods paths : list string) : PolicyAllow :=
  mkPolicyAllow hosts methods paths [] None None None None true None None.

Definition make_entry (name : string) (binary_hash : option (list byte)) (binary_path agent_id : option string)
    (credential_ref approval_mode : string) (hosts methods paths : list string) : PolicyEntry :=
  mkPolicyEntry name EmptyString
    (mkPolicyMatch ((fun h => hash_str (default Byte.x00 (head h))) <$> binary_hash) binary_path agent_id credential_ref)
    (make_allow hosts methods paths) (mkPolicyApproval approval_mode) (mkPolicyDelegation false None false).

(** The assignments to fields of [make_allow]'s result. *)
Definition allow_with (a : PolicyAllow) (forbidden : list string) (ttl max_requests : option Z)
    (network : option NetworkConstraints) : PolicyAllow :=
  mkPolicyAllow (pa_hosts a) (pa_methods a) (pa_paths a) forbidden ttl max_requests (pa_max_renewals a)
    (pa_max_cumulative_ttl_seconds a) (pa_renewable a) (pa_body_constraints a) network.

(** [Scope { .., ..Default::default() }] *)
Definition scope_hosts (hosts : list string) : Scope := mkScope hosts [] [] [] None None None None.
Definition scope_methods (methods : list string) : Scope := mkScope [] methods [] [] None None None None.
Definition scope_paths (paths forbidden : list string) : Scope := mkScope [] [] paths forbidden None None None None.
Definition scope_limits (ttl max_requests : option Z) : Scope := mkScope [] [] [] [] ttl max_requests None None.
Definition scope_network (nc : NetworkConstraints) : Scope := mkScope [] [] [] [] None None None (Some nc).

Definition decide_request (ps : list PolicyEntry) (agent : AgentInfo) (cred : string) (scope : Scope)
    : result PolicyDecision PolicyError := evaluate (mkPolicyEvaluator ps) agent cred scope.

Definition is_auto (r : result PolicyDecision PolicyError) : bool :=
  let? d := r in match d with AutoApprove _ _ _ => true | _ => false end.
Definition is_auto_of (name : string) (r : result PolicyDecision PolicyError) : bool :=
  let? d := r in match d with AutoApprove _ policy_name _ => assert_eq policy_name name | _ => false end.
Definition is_prompt (r : result PolicyDecision PolicyError) : bool :=
  let? d := r in match d with RequiresApproval _ _ _ => true | _ => false end.
Definition is_denied (r : result PolicyDecision PolicyError) : bool :=
  let? d := r in match d with Denied _ => true | _ => false end.

Definition binary_hash_beats_binary_path : bool :=
  let hash_a := hash_of Byte.xaa in
  let hash_b := hash_of Byte.xbb in
  let path_entry := make_entry "path-policy" None (Some "/usr/bin/agent") None "cred" "auto" [] [] [] in
  let hash_entry := make_entry "hash-policy" (Some hash_a) None None "cred" "auto" [] [] [] in
  let evaluator := [path_entry; hash_entry] in
  let agent := make_agent "/usr/bin/agent" hash_a None in
  let agent2 := make_agent "/usr/bin/agent" hash_b None in
  asserts [is_auto_of "hash-policy" (decide_request evaluator agent "cred" default_scope);
           is_auto_of "path-policy" (decide_request evaluator agent2 "cred" default_scope)].

Definition binary_path_beats_agent_id : bool :=
  let id_entry := make_entry "id-policy" None None (Some "my-agent") "cred" "auto" [] [] [] in
  let path_entry := make_entry "path-policy" None (Some "/usr/bin/agent") None "cred" "auto" [] [] [] in
  let agent := make_agent "/usr/bin/agent" (replicate 32 Byte.x00) (Some "my-agent") in
  is_auto_of "path-policy" (decide_request [id_entry; path_entry] agent "cred" default_scope).

Definition no_match_returns_denied : bool :=
  let entry := make_entry "p1" (Some (hash_of Byte.xcc)) None None "cred" "auto" [] [] [] in
  let agent := make_agent "/bin/other" (hash_of Byte.xdd) None in
  is_denied (decide_request [entry] agent "cred" default_scope).

Definition credential_ref_exact_match : bool :=
  let entry := make_entry "p1" (Some (hash_of Byte.x01)) None None "github-token" "auto" [] [] [] in
  let agent := make_agent "/bin/agent" (hash_of Byte.x01) None in
  asserts [is_auto (decide_request [entry] agent "github-token" default_scope);
           is_denied (decide_request [entry] agent "other-token" default_scope)].

Definition credential_ref_wildcard_matches_any : bool :=
  let entry := make_entry "wildcard-policy" (Some (hash_of Byte.x02)) None None "*" "auto" [] [] [] in
  let agent := make_agent "/bin/agent" (hash_of Byte.x02) None in
  forallb (fun cred => is_auto (decide_request [entry] agent cred default_scope))
    ["github-token"; "aws-key"; "anything"].

Definition scope_intersection_hosts_both_nonempty : bool :=
  let allow := make_allow ["api.example.com"; "cdn.example.com"] [] [] in
  let requested := scope_hosts ["api.example.com"; "other.example.com"] in
  let?? result := intersect_scope requested allow in assert_eq (s_hosts result) ["api.example.com"].

Definition scope_intersection_empty_allowed_hosts_passes_all : bool :=
  let allow := make_allow [] [] [] in
  let requested := scope_hosts ["anything.io"; "other.io"] in
  let?? result := intersect_scope requested allow in assert_eq (s_hosts result) ["anything.io"; "other.io"].

Definition scope_intersection_methods : bool :=
  let allow := make_allow [] ["GET"; "HEAD"] [] in
  let requested := scope_methods ["GET"; "POST"] in
  let?? result := intersect_scope requested allow in assert_eq (s_methods result) ["GET"].

Definition scope_intersection_paths_filtered_by_globs : bool :=
  let allow := make_allow [] [] ["/api/**"] in
  let requested := scope_paths ["/api/v1/users"; "/admin/settings"; "/api/v2/repos"] [] in
  let?? result := intersect_scope requested allow in
  asserts [contains (s_paths result) "/api/v1/users"; contains (s_paths result) "/api/v2/repos";
           negb (contains (s_paths result) "/admin/settings")].

Definition forbidden_paths_removes_matching_granted_paths : bool :=
  let allow := allow_with (make_allow [] [] ["/api/**"]) ["/api/admin/**"] None None None in
  let requested := scope_paths ["/api/v1/users"; "/api/admin/secrets"] [] in
  let?? result := intersect_scope requested allow in
  asserts [contains (s_paths result) "/api/v1/users"; negb (contains (s_paths result) "/api/admin/secrets")].

Definition forbidden_paths_union_from_policy_and_requested : bool :=
  let allow := allow_with (make_allow [] [] []) ["/api/internal/**"] None None None in
  let requested := scope_paths ["/api/v1"; "/api/internal/debug"; "/api/secret/key"] ["/api/secret/**"] in
  let?? result := intersect_scope requested allow in
  asserts [contains (s_forbidden_paths result) "/api/internal/**"; contains (s_forbidden_paths result) "/api/secret/**";
           contains (s_paths result) "/api/v1"; negb (contains (s_paths result) "/api/internal/debug");
           negb (contains (s_paths result) "/api/secret/key")].

Definition ttl_is_minimum : bool :=
  let allow := allow_with (make_allow [] [] []) [] (Some 3600) None None in
  let requested_high := scope_limits (Some 7200) None in
  let requested_low := scope_limits (Some 900) None in
  let unlimited := allow_with allow [] None None None in
  asserts [let?? r := intersect_scope requested_high allow in assert_eq (s_ttl_seconds r) (Some 3600);
           let?? r := intersect_scope requested_low allow in assert_eq (s_ttl_seconds r) (Some 900);
           let?? r := intersect_scope default_scope allow in assert_eq (s_ttl_seconds r) (Some 3600);
           let?? r := intersect_scope requested_high unlimited in assert_eq (s_ttl_seconds r) (Some 7200)].

Definition max_requests_is_minimum : bool :=
  let allow := allow_with (make_allow [] [] []) [] None (Some 100) None in
  let requested_high := scope_limits None (Some 500) in
  let requested_low := scope_limits None (Some 50) in
  asserts [let?? r := intersect_scope requested_high allow in assert_eq (s_max_requests r) (Some 100);
           let?? r := intersect_scope requested_low allow in assert_eq (s_max_requests r) (Some 50)].

Definition auto_approve_policy_produces_auto_approve : bool :=
  let entry := make_entry "auto-pol" (Some (hash_of Byte.x10)) None None "*" "auto" [] [] [] in
  let agent := make_agent "/bin/agent" (hash_of Byte.x10) None in
  is_auto (decide_request [entry] agent "cred" default_scope).

Definition prompt_policy_produces_requires_approval : bool :=
  let entry := make_entry "prompt-pol" (Some (hash_of Byte.x11)) None None "*" "prompt" [] [] [] in
  let agent := make_agent "/bin/agent" (hash_of Byte.x11) None in
  is_prompt (decide_request [entry] agent "cred" default_scope).

Definition empty_scope_intersection_returns_denied : bool :=
  let entry := make_entry "narrow" (Some (hash_of Byte.x20)) None None "*" "auto" [] ["GET"] [] in
  let agent := make_agent "/bin/agent" (hash_of Byte.x20) None in
  let? decision := decide_request [entry] agent "cred" (scope_methods ["POST"]) in
  match decision with Denied reason => str_contains reason "scope intersection is empty" | _ => false end.

Definition constant_time_eq_correct : bool :=
  let a := replicate 32 Byte.xab in
  let b := replicate 32 Byte.xab in
  let c := replicate 32 Byte.xcd in
  let d := <[31%nat := Byte.x00]> (replicate 32 Byte.xab) in
  asserts [constant_time_eq a b; negb (constant_time_eq a c); negb (constant_time_eq a d);
           negb (constant_time_eq a (take 16 a)); constant_time_eq [] []].

Definition body_constraints_merge_test : bool :=
  let requested_bc := mkBodyConstraints ["password"] (Some 65536) ["application/json"] in
  let policy_bc := mkBodyConstraints ["secret"; "password"] (Some 32768) ["application/json"; "text/plain"] in
  let?? merged := merge_body_constraints (Some requested_bc) (Some policy_bc) in
  asserts [contains (bc_forbidden_fields merged) "password"; contains (bc_forbidden_fields merged) "secret";
           assert_eq (length (List.filter (fun f => assert_eq f "password") (bc_forbidden_fields merged))) 1%nat;
           assert_eq (bc_max_size_bytes merged) (Some 32768);
           contains (bc_allowed_content_types merged) "text/plain"].

Definition body_constraints_merge_none_none_is_none : bool := is_none (merge_body_constraints None None).

Definition body_constraints_merge_only_requested : bool :=
  let requested_bc := mkBodyConstraints ["token"] None [] in
  let?? result := merge_body_constraints (Some requested_bc) None in
  assert_eq (bc_forbidden_fields result) ["token"].

Definition body_constraints_requested_content_types_used_when_policy_is_empty : bool :=
  let requested_bc := mkBodyConstraints [] None ["application/json"] in
  let policy_bc := mkBodyConstraints [] None [] in
  let?? merged := merge_body_constraints (Some requested_bc) (Some policy_bc) in
  assert_eq (bc_allowed_content_types merged) ["application/json"].

Definition network_constraints_policy_wins : bool :=
  let allow := allow_with (make_allow [] [] []) [] None None (Some (mkNetworkConstraints false "pinned" ["10.0.0.0/8"])) in
  let requested := scope_network (mkNetworkConstraints true "system" []) in
  let?? result := intersect_scope requested allow in
  let?? nc := s_network result in
  asserts [negb (n_follow_redirects nc); assert_eq (n_dns_resolution nc) "pinned";
           assert_eq (n_allowed_ip_ranges nc) ["10.0.0.0/8"]].

Definition network_constraints_falls_back_to_requested_when_policy_has_none : bool :=
  let allow := make_allow [] [] [] in
  let requested := scope_network (mkNetworkConstraints true "system" []) in
  let?? result := intersect_scope requested allow in
  let?? nc := s_network result in asserts [n_follow_redirects nc; assert_eq (n_dns_resolution nc) "system"].

Definition reload_replaces_policy_set : bool :=
  let old_entry := make_entry "old" (Some (hash_of Byte.x30)) None None "*" "auto" [] [] [] in
  let new_entry := make_entry "new" (Some (hash_of Byte.x31)) None None "*" "auto" [] [] [] in
  let evaluator := mkPolicyEvaluator [old_entry] in
  let agent_old := make_agent "/bin/agent" (hash_of Byte.x30) None in
  let agent_new := make_agent "/bin/agent" (hash_of Byte.x31) None in
  let reloaded := evaluator_reload evaluator [new_entry] in
  asserts [is_auto (evaluate evaluator agent_old "c" default_scope);
           is_denied (evaluate evaluator agent_new "c" default_scope);
           is_denied (evaluate reloaded agent_old "c" default_scope);
           is_auto (evaluate reloaded agent_new "c" default_scope)].

Definition build_constraints_maps_fields_correctly : bool :=
  let allow := mkPolicyAllow [] [] [] [] (Some 1800) (Some 50) (Some 2) (Some 7200) false None None in
  let delegation := mkPolicyDelegation true (Some 2) true in
  let constraints := build_constraints allow delegation in
  asserts [assert_eq (pc_max_ttl_seconds constraints) (Some 1800);
           assert_eq (pc_max_requests_per_lease constraints) (Some 50);
           assert_eq (pc_max_renewals constraints) (Some 2);
           assert_eq (pc_max_cumulative_ttl_seconds constraints) (Some 7200); negb (pc_renewable constraints);
           pc_delegation_allowed constraints; assert_eq (pc_delegation_max_depth constraints) (Some 2);
           pc_delegation_require_approval constraints].

(** The test module of [evaluator.rs] passes. *)
Theorem evaluator_tests_pass :
  asserts
    [binary_hash_beats_binary_path; binary_path_beats_agent_id; no_match_returns_denied;
     credential_ref_exact_match; credential_ref_wildcard_matches_any; scope_intersection_hosts_both_nonempty;
     scope_intersection_empty_allowed_hosts_passes_all; scope_intersection_methods;
     scope_intersection_paths_filtered_by_globs; forbidden_paths_removes_matching_granted_paths;
     forbidden_paths_union_from_policy_and_requested; ttl_is_minimum; max_requests_is_minimum;
     auto_approve_policy_produces_auto_approve; prompt_policy_produces_requires_approval;
     empty_scope_intersection_returns_denied; constant_time_eq_correct; body_constraints_merge_test;
     body_constraints_merge_none_none_is_none; body_constraints_merge_only_requested;
     body_constraints_requested_content_types_used_when_policy_is_empty; network_constraints_policy_wins;
     network_constraints_falls_back_to_requested_when_policy_has_none; reload_replaces_policy_set;
     build_constraints_maps_fields_correctly] = true.
Proof. vm_compute. reflexivity. Qed.
End Tests.
End EvaluatorTests.
