(* ===== verification/ApprovalTests.v ===== *)
(** * cdp-policy: the unit tests of approval.rs

    The messages and the choice of a dialog tool, run on the model in every
    environment. *)

From S2P Require Import Prelude RustStr PolicyTypes PolicyEngine Asserts.

Section Tests.
Context `{Gui}.

Definition make_agent : AgentInfo :=
  mkAgentInfo 1000 12345 "/usr/bin/my-agent" (replicate 32 Byte.xab) 123456789 (replicate 32 Byte.xcd)
    (Some "my-agent") (Some "1.0.0").

Definition make_scope : Scope :=
  mkScope ["api.github.com"] ["GET"] ["/repos/**"; "/users/**"] [] (Some 600) (Some 10) None None.

Definition make_config (show_hash untrusted : bool) : ApprovalConfig :=
  mkApprovalConfig EmptyString 30 show_hash untrusted 200.

Definition format_approval_message_full : bool :=
  let msg := format_approval_message make_agent "github_api" make_scope "Fetching open PRs for code review"
               (make_config true true) in
  asserts [str_contains msg "Agent:"; str_contains msg "/usr/bin/my-agent"; str_contains msg "PID 12345";
           str_contains msg "Binary Hash:"; str_contains msg "sha256:abababababababab...";
           str_contains msg "Credential:  github_api"; str_contains msg "Scope:"; str_contains msg "GET";
           str_contains msg "api.github.com"; str_contains msg "Duration:"; str_contains msg "600s";
           str_contains msg "max 10 requests"; str_contains msg "(UNVERIFIED)";
           str_contains msg "Fetching open PRs for code review"].

Definition format_approval_message_no_hash : bool :=
  let msg := format_approval_message make_agent "github_api" make_scope "some reason" (make_config false true) in
  asserts [negb (str_contains msg "Binary Hash:"); str_contains msg "Agent:"].

Definition format_approval_message_trusted_reason_label : bool :=
  let msg := format_approval_message make_agent "github_api" make_scope "my reason" (make_config false false) in
  asserts [negb (str_contains msg "(UNVERIFIED)"); str_contains msg "Agent-provided reason"].

(** [reason_line.ends_with("...")] is said of its last three scalar values. *)
Definition format_approval_message_truncates_reason : bool :=
  let config := mkApprovalConfig EmptyString 30 false true 20 in
  let long_reason := "This is a very long reason string that exceeds the limit" in
  let msg := format_approval_message make_agent "cred" default_scope long_reason config in
  let?? reason_line := last (lines msg) in
  let char_count := length (chars reason_line) in
  asserts [(char_count <=? 20)%nat;
           assert_eq (concat_str (drop (char_count - 3) (chars reason_line))) "..."].

Definition format_scope_summary_methods_host_paths : bool :=
  let scope := mkScope ["api.example.com"] ["GET"; "POST"] ["/repos/**"; "/users/**"; "/orgs/**"] [] None None None None in
  let summary := format_scope_summary scope in
  asserts [str_contains summary "GET, POST"; str_contains summary "api.example.com"; str_contains summary "/repos/**"].

Definition format_scope_summary_paths_overflow : bool :=
  let scope := mkScope ["example.com"] ["GET"] ["/a"; "/b"; "/c"; "/d"; "/e"] [] None None None None in
  str_contains (format_scope_summary scope) "+2 more".

Definition format_approval_message_empty_scope : bool :=
  let msg := format_approval_message make_agent "some_cred" default_scope "reason" (make_config false false) in
  asserts [negb (str_contains msg "Scope:"); negb (str_contains msg "Duration:")].

Definition truncate_reason_exact_length_not_truncated : bool :=
  let reason := "hello world" in assert_eq (truncate_reason reason 11) "hello world".

Definition truncate_reason_zero_max_returns_empty : bool :=
  assert_eq (truncate_reason "anything" 0) EmptyString.

Definition detect_gui_command_on_empty_path : bool :=
  let kdialog_present := which "kdialog" in
  let zenity_present := which "zenity" in
  let osascript_present := which "osascript" in
  if kdialog_present || zenity_present || osascript_present then is_some detect_gui_command
  else is_none detect_gui_command.

Definition binary_hash_shows_first_16_hex_chars : bool :=
  let agent :=
    mkAgentInfo 0 1 "/bin/agent"
      [Byte.x12; Byte.x34; Byte.x56; Byte.x78; Byte.x9a; Byte.xbc; Byte.xde; Byte.xf0;
       Byte.x11; Byte.x22; Byte.x33; Byte.x44; Byte.x55; Byte.x66; Byte.x77; Byte.x88;
       Byte.x99; Byte.xaa; Byte.xbb; Byte.xcc; Byte.xdd; Byte.xee; Byte.xff; Byte.x00;
       Byte.x01; Byte.x02; Byte.x03; Byte.x04; Byte.x05; Byte.x06; Byte.x07; Byte.x08]
      0 (replicate 32 Byte.x00) None None in
  let msg := format_approval_message agent "c" default_scope "r" (make_config true false) in
  str_contains msg "sha256:123456789abcdef0...".

Definition duration_only_ttl : bool :=
  let scope := mkScope [] [] [] [] (Some 3600) None None None in
  let msg := format_approval_message make_agent "c" scope "r" (make_config false false) in
  asserts [str_contains msg "Duration:    3600s"; negb (str_contains msg "max")].

(** The test module of [approval.rs] passes, whatever tools are installed. *)
Theorem approval_tests_pass :
  asserts
    [format_approval_message_full; format_approval_message_no_hash; format_approval_message_trusted_reason_label;
     format_approval_message_truncates_reason; format_scope_summary_methods_host_paths;
     format_scope_summary_paths_overflow; format_approval_message_empty_scope;
     truncate_reason_exact_length_not_truncated; truncate_reason_zero_max_returns_empty;
     detect_gui_command_on_empty_path; binary_hash_shows_first_16_hex_chars; duration_only_ttl] = true.
Proof.
  assert (detect_gui_command_on_empty_path = true) as Hd.
  { unfold detect_gui_command_on_empty_path, detect_gui_command. simpl. by repeat destruct (which _). }
  unfold asserts. cbn [forallb]. rewrite Hd. vm_compute. reflexivity.
Qed.
End Tests.
