(* ===== verification/LeaseTestKit.v ===== *)
(** * cdp-lease: an environment for the tests of the manager

    A lease manager with a clock that moves with every call, a generator
    whose draws are distinct, a resolver that knows [localhost], and the
    operations of the manager as steps of a test. *)

From S2P Require Import Prelude RustStr Crypto PolicyTypes LeaseTypes LeaseManager LeaseProps Asserts.

#[export] Existing Instances chrono_range demo_hmac.

Definition loopback : IpAddr := V4 [Byte.x7f; Byte.x00; Byte.x00; Byte.x01].

#[export] Instance hosts_file : Resolver :=
  {| lookup_host := fun a =>
       if bool_decide (a = "localhost:0") then inl [loopback]
       else inr "failed to lookup address information: Name or service not known" |}.

Record TestWorld : Type := mkTestWorld { tw_manager : LeaseManager; tw_now : Z; tw_draws : nat }.

(** 2024-01-01T00:00:00Z *)
Definition test_epoch : Z := 1704067200 * NANOS.
Definition fresh (m : LeaseManager) : TestWorld := mkTestWorld m test_epoch 0.

(** [OsRng]: the [n]-th draw of 32 bytes. *)
Definition os_draw (n : nat) : list byte := be_bytes 4 (N.of_nat n + 1) ++ replicate 28 Byte.x5a.

(** A microsecond per call. *)
Definition utc_now : TestM TestWorld Z := fun w =>
  Some (tw_now w, mkTestWorld (tw_manager w) (tw_now w + 1000) (tw_draws w)).
Definition sleep_ms (ms : Z) : TestM TestWorld unit := fun w =>
  Some (tt, mkTestWorld (tw_manager w) (tw_now w + ms * 1000000) (tw_draws w)).
Definition drawn : TestM TestWorld (list byte) := fun w =>
  Some (os_draw (tw_draws w), mkTestWorld (tw_manager w) (tw_now w) (S (tw_draws w))).

(** An operation on the manager. *)
Definition on_manager {A : Type} (f : LeaseManager -> LeaseManager * A) : TestM TestWorld A := fun w =>
  let '(m, a) := f (tw_manager w) in Some (a, mkTestWorld m (tw_now w) (tw_draws w)).
Definition on_manager_opt {A : Type} (f : LeaseManager -> option (LeaseManager * A)) : TestM TestWorld A := fun w =>
  match f (tw_manager w) with
  | Some (m, a) => Some (a, mkTestWorld m (tw_now w) (tw_draws w))
  | None => None
  end.

Section Steps.
Context `{Build}.

Definition t_create (agent : AgentInfo) (cred : string) (scope : Scope) (constraints : PolicyConstraints)
    (pname method : string) : TestM TestWorld (result Lease LeaseError) :=
  id ← drawn; nonce ← drawn; now ← utc_now;
  on_manager (fun m => create_lease m id nonce now agent cred scope constraints pname method).
Definition t_renew (id : string) (extend : Z) : TestM TestWorld (result unit LeaseError) :=
  now ← utc_now; on_manager (fun m => renew_lease m now id extend).
Definition t_use (id : string) : TestM TestWorld (result Lease LeaseError) :=
  now ← utc_now; on_manager (fun m => use_lease m now id).
Definition t_delegate (parent : string) (agent : AgentInfo) (scope : Scope) (ttl : Z) (alive : bool)
    : TestM TestWorld (result Lease LeaseError) :=
  id ← drawn; nonce ← drawn; created ← utc_now; now ← utc_now;
  on_manager (fun m => delegate m id nonce created now parent agent scope ttl alive).
Definition t_revoke (id reason : string) : TestM TestWorld (result unit LeaseError) :=
  on_manager_opt (fun m => revoke_lease m id reason).
Definition t_revoke_agent (fp : list byte) (reason : string) : TestM TestWorld (result (list string) LeaseError) :=
  on_manager_opt (fun m => revoke_agent_leases m fp reason).
Definition t_get (id : string) : TestM TestWorld (result Lease LeaseError) :=
  on_manager (fun m => (m, get_lease m id)).
Definition t_sweep : TestM TestWorld unit :=
  now ← utc_now; on_manager (fun m => (sweep_expired m now, tt)).
Definition t_notice (n : AgentDeathNotice) : TestM TestWorld unit :=
  on_manager_opt (fun m => (fun m' => (m', tt)) <$> handle_death_notice m n).
End Steps.

Definition is_revoked_lease (l : Lease) : bool := match status l with Revoked _ => true | _ => false end.
