(* ===== verification/DelegationTests.v ===== *)
(** * cdp-lease: the unit tests of delegation.rs *)

From S2P Require Import Prelude RustStr PolicyTypes LeaseTypes LeaseManager Asserts LeaseTestKit.

Section Tests.
Context `{Build}.

Definition GATE_KEY : list byte := as_bytes "test-gate-key-for-unit-tests".

Definition test_agent : AgentInfo :=
  mkAgentInfo 1000 42 "/usr/bin/test-agent" (replicate 32 Byte.xab) 123456789 (replicate 32 Byte.xcd)
    (Some "test-agent") (Some "0.1.0").

Definition child_agent : AgentInfo :=
  mkAgentInfo 1001 99 "/usr/bin/child-agent" (replicate 32 Byte.xef) 234567890 (replicate 32 Byte.x12)
    (Some "child-agent") (Some "0.1.0").

Definition test_constraints : PolicyConstraints :=
  mkPolicyConstraints (Some 3600) None (Some 3) (Some 14400) true true (Some 3) false.

Definition parent_scope : Scope :=
  mkScope ["localhost"] ["GET"; "POST"] ["/api/"] [] (Some 3600) None None None.

Definition child_scope : Scope := mkScope ["localhost"] ["GET"] ["/api/"] [] None None None None.

Definition make_manager : LeaseManager := manager_new GATE_KEY false.

Definition delegate_child (parent : Lease) (_parent_agent : AgentInfo) : TestM TestWorld Lease :=
  let child := child_agent in unwrapped (t_delegate (lease_id parent) child child_scope 1800 true).

Definition test_delegate_success : bool := run_test (fresh make_manager) (
  parent ← unwrapped (t_create test_agent "cred" parent_scope test_constraints "p" "auto");
  child_lease ← unwrapped (t_delegate (lease_id parent) child_agent child_scope 1800 true);
  parent_fetched ← unwrapped (t_get (lease_id parent));
  mret (asserts [delegation_depth child_lease =? 1;
                 assert_eq (parent_lease_id child_lease) (Some (lease_id parent));
                 agent_pid child_lease =? 99;
                 contains (child_lease_ids parent_fetched) (lease_id child_lease)])).

Definition test_delegate_scope_not_subset : bool := run_test (fresh make_manager) (
  parent ← unwrapped (t_create test_agent "cred" parent_scope test_constraints "p" "auto");
  let bad_scope := mkScope ["localhost"; "evil.example.com"] ["GET"] ["/api/"] [] None None None None in
  err ← refused (t_delegate (lease_id parent) child_agent bad_scope 1800 true);
  mret (match err with ScopeNotSubset => true | _ => false end)).

Definition test_delegate_ttl_exceeds_parent : bool := run_test (fresh make_manager) (
  parent ← unwrapped (t_create test_agent "cred" parent_scope test_constraints "p" "auto");
  err ← refused (t_delegate (lease_id parent) child_agent child_scope 9999 true);
  mret (match err with TtlExceedsParent => true | _ => false end)).

Definition test_delegate_depth_exceeded : bool := run_test (fresh make_manager) (
  let child_a := child_agent in
  let child_b := mkAgentInfo 1002 100 "/usr/bin/child-b" (replicate 32 Byte.xfe) 345678901 (replicate 32 Byte.x34) None None in
  let child_c := mkAgentInfo 1003 101 "/usr/bin/child-c" (replicate 32 Byte.xfd) 456789012 (replicate 32 Byte.x56) None None in
  let child_d := mkAgentInfo 1004 102 "/usr/bin/child-d" (replicate 32 Byte.xfc) 567890123 (replicate 32 Byte.x78) None None in
  let constraints := mkPolicyConstraints (Some 3600) None (Some 3) (Some 14400) true true (Some 3) false in
  root ← unwrapped (t_create test_agent "cred" parent_scope constraints "p" "auto");
  l1 ← unwrapped (t_delegate (lease_id root) child_a child_scope 1000 true);
  l2 ← unwrapped (t_delegate (lease_id l1) child_b child_scope 900 true);
  l3 ← unwrapped (t_delegate (lease_id l2) child_c child_scope 800 true);
  err ← refused (t_delegate (lease_id l3) child_d child_scope 700 true);
  mret (asserts [delegation_depth l1 =? 1; delegation_depth l2 =? 2; delegation_depth l3 =? 3;
                 match err with DelegationDepthExceeded _ => true | _ => false end])).

Definition test_delegate_not_allowed : bool := run_test (fresh make_manager) (
  let constraints := mkPolicyConstraints (Some 3600) None (Some 3) (Some 14400) true false (Some 3) false in
  parent ← unwrapped (t_create test_agent "cred" parent_scope constraints "p" "auto");
  err ← refused (t_delegate (lease_id parent) child_agent child_scope 1800 true);
  mret (match err with DelegationNotAllowed => true | _ => false end)).

Definition test_delegate_target_not_alive : bool := run_test (fresh make_manager) (
  parent ← unwrapped (t_create test_agent "cred" parent_scope test_constraints "p" "auto");
  err ← refused (t_delegate (lease_id parent) child_agent child_scope 1800 false);
  mret (match err with TargetAgentNotAlive => true | _ => false end)).

Definition test_revoke_parent_cascades_to_delegated_child : bool := run_test (fresh make_manager) (
  parent ← unwrapped (t_create test_agent "cred" parent_scope test_constraints "p" "auto");
  child_lease ← unwrapped (t_delegate (lease_id parent) child_agent child_scope 1800 true);
  _ ← unwrapped (t_revoke (lease_id parent) "parent revoked");
  child_fetched ← unwrapped (t_get (lease_id child_lease));
  mret (is_revoked_lease child_fetched)).

(** The test module of [delegation.rs] passes, however overflows are built. *)
Theorem delegation_tests_pass :
  asserts
    [test_delegate_success; test_delegate_scope_not_subset; test_delegate_ttl_exceeds_parent;
     test_delegate_depth_exceeded; test_delegate_not_allowed; test_delegate_target_not_alive;
     test_revoke_parent_cascades_to_delegated_child] = true.
Proof. vm_compute. reflexivity. Qed.
End Tests.
