(* ===== verification/LeaseTests.v ===== *)
(** * cdp-lease: the unit tests of types.rs, channel_bind.rs, dns_pin.rs and manager.rs *)

From S2P Require Import Prelude RustStr PolicyTypes LeaseTypes LeaseManager Asserts LeaseTestKit.
From S2P Require DelegationTests.

(** ** types.rs *)

Module LeaseTypesTests.
(** [Scope { .., ..Default::default() }] *)
Definition hosts_only (hosts forbidden : list string) : Scope := mkScope hosts [] [] forbidden None None None None.
Definition methods_only (methods : list string) : Scope := mkScope [] methods [] [] None None None None.
Definition ttl_only (ttl : Z) : Scope := mkScope [] [] [] [] (Some ttl) None None None.

Definition make_lease (id : string) (now expires : Z) : Lease :=
  mkLease id "cred-001" "test-policy" "auto" (replicate 32 Byte.x00) "/usr/bin/agent" 1000 42 default_scope
    "deadbeef" (replicate 32 Byte.x00) ∅ Active now expires 3600 3600 None 0 0 3 14400 true None [] 0 false None false.

(** A process whose only state is the generator and the clock. *)
Definition idle_world : TestWorld := fresh (manager_new [] false).

Definition is_ascii_hexdigit (c : string) : bool := existsb (fun d => assert_eq c d)
  ["0"; "1"; "2"; "3"; "4"; "5"; "6"; "7"; "8"; "9"; "a"; "b"; "c"; "d"; "e"; "f"; "A"; "B"; "C"; "D"; "E"; "F"].

Definition test_lease_id_generate_is_64_hex_chars : bool := run_test idle_world (
  id ← lease_id_of <$> drawn;
  mret (asserts [len id =? 64; forallb is_ascii_hexdigit (chars id)])).

Definition test_lease_id_generate_is_unique : bool := run_test idle_world (
  a ← lease_id_of <$> drawn; b ← lease_id_of <$> drawn; mret (negb (assert_eq a b))).

Definition test_lease_is_expired : bool := run_test idle_world (
  now ← utc_now;
  let past := now - 10 * NANOS in
  id ← lease_id_of <$> drawn; created ← utc_now;
  let lease := make_lease id created past in
  t1 ← utc_now; t2 ← utc_now; mret (asserts [is_expired t1 lease; negb (is_active t2 lease)])).

Definition test_lease_is_active : bool := run_test idle_world (
  now ← utc_now;
  let future := now + 3600 * NANOS in
  id ← lease_id_of <$> drawn; created ← utc_now;
  let lease := make_lease id created future in
  t1 ← utc_now; t2 ← utc_now; mret (asserts [negb (is_expired t1 lease); is_active t2 lease])).

Definition test_intersect_scopes_hosts : bool :=
  let requested := hosts_only ["a.example.com"; "b.example.com"] [] in
  let granted := hosts_only ["b.example.com"; "c.example.com"] [] in
  assert_eq (s_hosts (intersect_scopes requested granted)) ["b.example.com"].

Definition test_intersect_scopes_methods : bool :=
  let requested := methods_only ["GET"; "POST"; "DELETE"] in
  let granted := methods_only ["GET"; "POST"] in
  assert_eq (s_methods (intersect_scopes requested granted)) ["GET"; "POST"].

Definition test_intersect_scopes_forbidden_paths_union : bool :=
  let requested := hosts_only [] ["/admin"] in
  let granted := hosts_only [] ["/internal"] in
  let result := intersect_scopes requested granted in
  asserts [contains (s_forbidden_paths result) "/admin"; contains (s_forbidden_paths result) "/internal";
           assert_eq (length (s_forbidden_paths result)) 2%nat].

Definition test_intersect_scopes_ttl_min : bool :=
  assert_eq (s_ttl_seconds (intersect_scopes (ttl_only 7200) (ttl_only 3600))) (Some 3600).

Definition test_is_scope_subset_valid : bool :=
  let parent := mkScope ["api.example.com"; "cdn.example.com"] ["GET"; "POST"] ["/api/v1/"; "/api/v2/"]
                  ["/api/v1/admin"] None None None None in
  let child := mkScope ["api.example.com"] ["GET"] ["/api/v1/"] ["/api/v1/admin"] None None None None in
  is_scope_subset child parent.

Definition test_is_scope_subset_extra_host_fails : bool :=
  let parent := hosts_only ["api.example.com"] [] in
  let child := hosts_only ["api.example.com"; "evil.example.com"] [] in
  negb (is_scope_subset child parent).

Definition test_is_scope_subset_missing_forbidden_path_fails : bool :=
  let parent := hosts_only ["api.example.com"] ["/api/admin"] in
  let child := hosts_only ["api.example.com"] [] in
  negb (is_scope_subset child parent).

(** The test module of [types.rs] passes. *)
Theorem lease_types_tests_pass :
  asserts
    [test_lease_id_generate_is_64_hex_chars; test_lease_id_generate_is_unique; test_lease_is_expired;
     test_lease_is_active; test_intersect_scopes_hosts; test_intersect_scopes_methods;
     test_intersect_scopes_forbidden_paths_union; test_intersect_scopes_ttl_min; test_is_scope_subset_valid;
     test_is_scope_subset_extra_host_fails; test_is_scope_subset_missing_forbidden_path_fails] = true.
Proof. vm_compute. reflexivity. Qed.
End LeaseTypesTests.

(** ** channel_bind.rs *)

Module ChannelBindTests.
Definition idle_world : TestWorld := LeaseTypesTests.idle_world.

Definition test_generate_nonce_is_32_bytes : bool := run_test idle_world (
  nonce ← drawn; mret (assert_eq (length nonce) 32%nat)).
Definition test_generate_nonce_is_unique : bool := run_test idle_world (
  a ← drawn; b ← drawn; mret (negb (assert_eq a b))).
Definition test_verify_binding_matching : bool := run_test idle_world (
  nonce ← drawn; mret (verify_binding nonce nonce)).
(** [b[0] ^= 0xff] *)
Definition test_verify_binding_different : bool := run_test idle_world (
  a ← drawn;
  let flipped := Byte.of_N (N.lxor (Byte.to_N (default Byte.x00 (head a))) 255) in
  let b := <[0%nat := default Byte.x00 flipped]> a in
  mret (negb (verify_binding a b))).
Definition test_verify_binding_wrong_length : bool := run_test idle_world (
  nonce ← drawn; let short := take 16 nonce in mret (negb (verify_binding nonce short))).
Definition test_verify_binding_empty : bool := run_test idle_world (
  nonce ← drawn; mret (negb (verify_binding nonce []))).

(** The test module of [channel_bind.rs] passes. *)
Theorem channel_bind_tests_pass :
  asserts
    [test_generate_nonce_is_32_bytes; test_generate_nonce_is_unique; test_verify_binding_matching;
     test_verify_binding_different; test_verify_binding_wrong_length; test_verify_binding_empty] = true.
Proof. vm_compute. reflexivity. Qed.
End ChannelBindTests.

(** ** dns_pin.rs *)

Module DnsPinTests.
Definition test_pin_dns_localhost : bool :=
  let? pinned := pin_dns ["localhost"] in
  let?? ips := pinned !! "localhost" in negb (is_empty_vec ips).
Definition test_verify_dns_matching_ip : bool :=
  let? pinned := pin_dns ["localhost"] in verify_dns pinned "localhost" loopback.
Definition test_verify_dns_non_matching_ip : bool :=
  let? pinned := pin_dns ["localhost"] in
  let google_dns := V4 [Byte.x08; Byte.x08; Byte.x08; Byte.x08] in
  negb (verify_dns pinned "localhost" google_dns).
Definition test_verify_dns_unknown_host : bool := negb (verify_dns ∅ "not-pinned.example.com" loopback).
Definition test_pin_dns_unknown_host_fails : bool :=
  match pin_dns ["this.host.definitely.does.not.exist.invalid"] with
  | Err (DnsResolution _ _) => true
  | _ => false
  end.

(** The test module of [dns_pin.rs] passes. *)
Theorem dns_pin_tests_pass :
  asserts [test_pin_dns_localhost; test_verify_dns_matching_ip; test_verify_dns_non_matching_ip;
           test_verify_dns_unknown_host; test_pin_dns_unknown_host_fails] = true.
Proof. vm_compute. reflexivity. Qed.
End DnsPinTests.

(** ** manager.rs *)

Module ManagerTests.
Section Tests.
Context `{Build}.

Definition GATE_KEY : list byte := as_bytes "test-gate-key-for-unit-tests".

Definition test_agent : AgentInfo :=
  mkAgentInfo 1000 42 "/usr/bin/test-agent" (replicate 32 Byte.xab) 123456789 (replicate 32 Byte.xcd)
    (Some "test-agent") (Some "0.1.0").

(** The constraints, and what the tests change of them. *)
Definition constraints_with (ttl max_renewals max_cumulative : Z) (renewable : bool) : PolicyConstraints :=
  mkPolicyConstraints (Some ttl) None (Some max_renewals) (Some max_cumulative) renewable true (Some 3) false.
Definition test_constraints : PolicyConstraints := constraints_with 3600 3 14400 true.

Definition test_scope : Scope := mkScope ["localhost"] ["GET"] ["/api/"] [] (Some 3600) None None None.
Definition localhost_scope (ttl max_requests : option Z) : Scope :=
  mkScope ["localhost"] [] [] [] ttl max_requests None None.

Definition make_manager : LeaseManager := manager_new GATE_KEY false.

Definition test_create_lease : bool := run_test (fresh make_manager) (
  lease ← unwrapped (t_create test_agent "cred-001" test_scope test_constraints "test-policy" "auto");
  now ← utc_now;
  fetched ← unwrapped (t_get (lease_id lease));
  mret (asserts [assert_eq (credential_ref lease) "cred-001"; assert_eq (policy_name lease) "test-policy";
                 assert_eq (approval_method lease) "auto"; agent_pid lease =? 42; agent_uid lease =? 1000;
                 assert_eq (agent_fingerprint_hash lease) (replicate 32 Byte.xcd); assert_eq (status lease) Active;
                 renewals_used lease =? 0; requests_used lease =? 0; negb (assert_eq (lease_token lease) EmptyString);
                 is_active now lease; assert_eq (lease_id fetched) (lease_id lease)])).

Definition test_renew_lease_success : bool := run_test (fresh make_manager) (
  lease ← unwrapped (t_create test_agent "cred-001" test_scope test_constraints "p" "auto");
  let original_expires := expires_at lease in
  _ ← unwrapped (t_renew (lease_id lease) 600);
  renewed ← unwrapped (t_get (lease_id lease));
  mret (asserts [renewals_used renewed =? 1;
                 cumulative_ttl_seconds renewed =? cumulative_ttl_seconds lease + 600;
                 expires_at renewed >? original_expires])).

Definition test_renew_three_times_fourth_fails : bool := run_test (fresh make_manager) (
  lease ← unwrapped (t_create test_agent "cred" test_scope (constraints_with 3600 3 14400 true) "p" "auto");
  _ ← unwrapped (t_renew (lease_id lease) 100);
  _ ← unwrapped (t_renew (lease_id lease) 100);
  _ ← unwrapped (t_renew (lease_id lease) 100);
  err ← refused (t_renew (lease_id lease) 100);
  mret (match err with MaxRenewalsExceeded n => n =? 3 | _ => false end)).

Definition test_renew_cumulative_ttl_exceeded : bool := run_test (fresh make_manager) (
  let constraints := constraints_with 100 10 200 true in
  lease ← unwrapped (t_create test_agent "cred" (localhost_scope (Some 100) None) constraints "p" "auto");
  err ← refused (t_renew (lease_id lease) 150);
  mret (match err with MaxCumulativeTtlExceeded n => n =? 200 | _ => false end)).

Definition test_renew_not_renewable : bool := run_test (fresh make_manager) (
  lease ← unwrapped (t_create test_agent "cred" test_scope (constraints_with 3600 3 14400 false) "p" "auto");
  err ← refused (t_renew (lease_id lease) 100);
  mret (match err with NotRenewable => true | _ => false end)).

Definition test_use_lease_increments_counter : bool := run_test (fresh make_manager) (
  lease ← unwrapped (t_create test_agent "cred" test_scope test_constraints "p" "auto");
  used ← unwrapped (t_use (lease_id lease));
  mret (requests_used used =? 1)).

Definition test_use_lease_max_requests_exceeded : bool := run_test (fresh make_manager) (
  lease ← unwrapped (t_create test_agent "cred" (localhost_scope None (Some 2)) test_constraints "p" "auto");
  _ ← unwrapped (t_use (lease_id lease));
  _ ← unwrapped (t_use (lease_id lease));
  err ← refused (t_use (lease_id lease));
  mret (match err with MaxRequestsExceeded n => n =? 2 | _ => false end)).

Definition test_revoke_lease : bool := run_test (fresh make_manager) (
  lease ← unwrapped (t_create test_agent "cred" test_scope test_constraints "p" "auto");
  _ ← unwrapped (t_revoke (lease_id lease) "test revocation");
  fetched ← unwrapped (t_get (lease_id lease));
  mret (match status fetched with Revoked reason => assert_eq reason "test revocation" | _ => false end)).

Definition test_revoke_cascades_to_children : bool := run_test (fresh make_manager) (
  parent ← unwrapped (t_create test_agent "cred" test_scope test_constraints "p" "auto");
  child ← DelegationTests.delegate_child parent test_agent;
  _ ← unwrapped (t_revoke (lease_id parent) "cascade test");
  parent_fetched ← unwrapped (t_get (lease_id parent));
  child_fetched ← unwrapped (t_get (lease_id child));
  mret (asserts [is_revoked_lease parent_fetched; is_revoked_lease child_fetched])).

Definition test_get_lease : bool := run_test (fresh make_manager) (
  lease ← unwrapped (t_create test_agent "cred-abc" test_scope test_constraints "pol" "auto");
  fetched ← unwrapped (t_get (lease_id lease));
  mret (asserts [assert_eq (credential_ref fetched) "cred-abc"; assert_eq (lease_id fetched) (lease_id lease)])).

Definition test_revoke_agent_leases : bool := run_test (fresh make_manager) (
  l1 ← unwrapped (t_create test_agent "cred-1" test_scope test_constraints "p" "auto");
  l2 ← unwrapped (t_create test_agent "cred-2" test_scope test_constraints "p" "auto");
  revoked ← unwrapped (t_revoke_agent (ai_fingerprint_hash test_agent) "agent killed");
  f1 ← unwrapped (t_get (lease_id l1));
  f2 ← unwrapped (t_get (lease_id l2));
  mret (asserts [contains revoked (lease_id l1); contains revoked (lease_id l2); is_revoked_lease f1;
                 is_revoked_lease f2])).

Definition test_expiry_sweep : bool := run_test (fresh make_manager) (
  let constraints := constraints_with 1 3 14400 true in
  lease ← unwrapped (t_create test_agent "cred" (localhost_scope (Some 1) None) constraints "p" "auto");
  _ ← sleep_ms 1100;
  _ ← t_sweep;
  fetched ← unwrapped (t_get (lease_id lease));
  mret (assert_eq (status fetched) Expired)).

(** The test module of [manager.rs] passes, however overflows are built. *)
Theorem manager_tests_pass :
  asserts
    [test_create_lease; test_renew_lease_success; test_renew_three_times_fourth_fails;
     test_renew_cumulative_ttl_exceeded; test_renew_not_renewable; test_use_lease_increments_counter;
     test_use_lease_max_requests_exceeded; test_revoke_lease; test_revoke_cascades_to_children; test_get_lease;
     test_revoke_agent_leases; test_expiry_sweep] = true.
Proof. vm_compute. reflexivity. Qed.
End Tests.
End ManagerTests.
