(* ===== verification/LivenessTests.v ===== *)
(** * cdp-lease: the unit tests of liveness.rs *)

From S2P Require Import Prelude RustStr PolicyTypes LeaseTypes LeaseManager Asserts LeaseTestKit.

Section Tests.
Context `{Build}.

Definition GATE_KEY : list byte := as_bytes "test-gate-key-for-unit-tests".

Definition make_manager : LeaseManager := manager_new GATE_KEY false.

Definition agent_with_fingerprint (fingerprint : list byte) (pid : Z) : AgentInfo :=
  mkAgentInfo 1000 pid "/usr/bin/test-agent" (replicate 32 Byte.xab) 123456789 fingerprint None None.

Definition test_scope : Scope := mkScope ["localhost"] ["GET"] [] [] (Some 3600) None None None.

Definition test_constraints : PolicyConstraints :=
  mkPolicyConstraints (Some 3600) None (Some 3) (Some 14400) true false None false.

(** The handler has taken the notice, and ended, when the handle is awaited. *)
Definition test_agent_death_revokes_leases : bool := run_test (fresh make_manager) (
  let fingerprint := replicate 32 Byte.xaa in
  let agent := agent_with_fingerprint fingerprint 100 in
  l1 ← unwrapped (t_create agent "cred-1" test_scope test_constraints "p" "auto");
  l2 ← unwrapped (t_create agent "cred-2" test_scope test_constraints "p" "auto");
  _ ← t_notice (mkAgentDeathNotice 100 fingerprint);
  f1 ← unwrapped (t_get (lease_id l1));
  f2 ← unwrapped (t_get (lease_id l2));
  mret (asserts [is_revoked_lease f1; is_revoked_lease f2])).

Definition test_death_notice_only_affects_target_agent : bool := run_test (fresh make_manager) (
  let fp_a := replicate 32 Byte.xaa in
  let fp_b := replicate 32 Byte.xbb in
  let agent_a := agent_with_fingerprint fp_a 100 in
  let agent_b := agent_with_fingerprint fp_b 200 in
  la ← unwrapped (t_create agent_a "cred-a" test_scope test_constraints "p" "auto");
  lb ← unwrapped (t_create agent_b "cred-b" test_scope test_constraints "p" "auto");
  _ ← t_notice (mkAgentDeathNotice 100 fp_a);
  fa ← unwrapped (t_get (lease_id la));
  fb ← unwrapped (t_get (lease_id lb));
  mret (asserts [is_revoked_lease fa; assert_eq (status fb) Active])).

(** The test module of [liveness.rs] passes. *)
Theorem liveness_tests_pass :
  asserts [test_agent_death_revokes_leases; test_death_notice_only_affects_target_agent] = true.
Proof. vm_compute. reflexivity. Qed.
End Tests.
