(* ===== verification/ProxyTestKit.v ===== *)
(** * cdp-proxy: crates to run the tests with

    [http::Uri] on the URIs the tests use, [globset] on literal patterns and
    patterns that end in [/**], and [serde_json] by a table of the documents
    of the tests. *)

From S2P Require Import Prelude RustStr AuditLog ProxyScope ProxyAuth.

(** ** URIs *)

Definition uri_slash : Ascii.ascii := Ascii.ascii_of_N 47.
Definition uri_colon : Ascii.ascii := Ascii.ascii_of_N 58.

Definition parse_authority (auth : string) : string * option Z :=
  match splitn2 uri_colon auth with
  | [host; port] => (host, parse_u U16 port)
  | _ => (auth, None)
  end.

(** [scheme://host:port/path], or a path alone. *)
Definition parse_uri (s : string) : option string * option string * option Z * string :=
  match splitn2 uri_colon s with
  | [scheme; rest] =>
      match strip_prefix "//" rest with
      | Some rest =>
          let '(auth, path) := match splitn2 uri_slash rest with
                               | [auth; path] => (auth, "/" +:+ path)
                               | _ => (rest, "/")
                               end in
          let '(host, port) := parse_authority auth in (Some scheme, Some host, port, path)
      | None => (None, None, None, s)
      end
  | _ => (None, None, None, s)
  end.

#[export] Instance url_http : HttpCrate :=
  {| HeaderMap := list (string * list byte);
     hm_get_all := hm_get_all (HttpCrate:=list_http);
     hm_remove := hm_remove (HttpCrate:=list_http);
     hm_insert := hm_insert (HttpCrate:=list_http);
     hm_append := hm_append (HttpCrate:=list_http);
     header_name_from_bytes := header_name_from_bytes (HttpCrate:=list_http);
     header_value_from_bytes := header_value_from_bytes (HttpCrate:=list_http);
     header_value_from_str := header_value_from_str (HttpCrate:=list_http);
     header_value_to_str := header_value_to_str (HttpCrate:=list_http);
     UriT := option string * option string * option Z * string;
     uri_host := fun u => u.1.1.2;
     uri_port_u16 := fun u => u.1.2;
     uri_scheme_str := fun u => u.1.1.1;
     uri_path := fun u => u.2;
     uri_parse := fun s => inl (parse_uri s) |}.

(** ** Globs *)

(** The text before a final [/**]. *)
Definition tree_of (p : string) : option string :=
  let n := (String.length p - 3)%nat in
  if bool_decide (String.substring n 3 p = "/**") then Some (String.substring 0 n p) else None.

Definition tree_match (p path : string) : bool :=
  match tree_of p with
  | Some dir => match strip_prefix (dir +:+ "/") path with
                | Some rest => negb (bool_decide (rest = EmptyString))
                | None => false
                end
  | None => bool_decide (p = path)
  end.

#[export] Instance tree_globs : Globset :=
  {| GlobT := string; GlobSetT := list string; glob_new := fun p => inl p; globset_build := fun gs => inl gs;
     globset_is_match := fun set path => existsb (fun g => tree_match g path) set |}.

(** ** JSON *)

(** A text with apostrophes for its quotation marks. *)
Fixpoint requote (s : string) : string :=
  match s with
  | EmptyString => EmptyString
  | String c s' => String (if bool_decide (c = Ascii.ascii_of_N 39) then Ascii.ascii_of_N 34 else c) (requote s')
  end.

Definition body_of (s : string) : list byte := as_bytes (requote s).

Definition documents : list (list byte * Json) :=
  [(body_of "{}", JObject []);
   (body_of "{'username': 'alice', 'password': 'hunter2'}",
    JObject [("username", JString "alice"); ("password", JString "hunter2")]);
   (body_of "{'user': {'name': 'alice', 'secret': 'topsecret'}}",
    JObject [("user", JObject [("name", JString "alice"); ("secret", JString "topsecret")])]);
   (body_of "{'items': [{'name': 'x', 'token': 'abc123'}]}",
    JObject [("items", JArray [JObject [("name", JString "x"); ("token", JString "abc123")]])]);
   (body_of "{'a': {'b': {'c': {'api_key': 'leak'}}}}",
    JObject [("a", JObject [("b", JObject [("c", JObject [("api_key", JString "leak")])])])]);
   (body_of "{'username': 'alice', 'action': 'read'}",
    JObject [("username", JString "alice"); ("action", JString "read")]);
   (body_of "{'action': 'read', 'resource': 'users'}",
    JObject [("action", JString "read"); ("resource", JString "users")])].

#[export] Instance table_json : JsonParse :=
  {| from_slice := fun b => snd <$> List.find (fun d => bool_decide (d.1 = b)) documents |}.
