(* ===== verification/ProxyTests.v ===== *)
(** * cdp-proxy: the unit tests of lib.rs, scope.rs, redirect.rs, sanitizer.rs, http.rs, dns.rs, credential.rs and manager.rs

    For every formatter, over the crates of [ProxyTestKit]. *)

From S2P Require Import Prelude RustStr PolicyTypes LeaseTypes AuditLog ProxyScope ProxyAuth ProxyHttp ProxyManager.
From S2P Require Import Asserts LeaseTestKit ProxyTestKit.

#[local] Arguments String.append !_ _ /.

Section Tests.
Context `{Fmt} `{FmtAddr}.

Definition accepted {A : Type} (r : result A ProxyError) : bool := let? _ := r in true.

Definition localhost_ip : IpAddr := V4 [Byte.x7f; Byte.x00; Byte.x00; Byte.x01].

(** ** lib.rs *)

Definition range_is (text : string) (a b : Z) : bool :=
  let? range := parse_port_range text in asserts [range.1 =? a; range.2 =? b].
Definition range_refused (text : string) : bool :=
  unwrapping_err (parse_port_range text) (fun e => match e with ListenerError _ => true | _ => false end).

Definition test_parse_port_range_valid : bool := range_is "19000-19999" 19000 19999.
Definition test_parse_port_range_single_port : bool := range_is "8080-8080" 8080 8080.
Definition test_parse_port_range_with_spaces : bool := range_is "1000 - 2000" 1000 2000.
Definition test_parse_port_range_inverted_fails : bool := range_refused "9999-1000".
Definition test_parse_port_range_bad_format_fails : bool := range_refused "notarange".
Definition test_parse_port_range_non_numeric_fails : bool := range_refused "abc-def".
Definition test_proxy_config_default : bool :=
  let cfg := default_proxy_config in
  asserts [assert_eq (bind_address cfg) localhost_ip; port_range_start cfg =? 19000; port_range_end cfg =? 19999].

(** The test module of [lib.rs] passes. *)
Theorem proxy_lib_tests_pass :
  asserts [test_parse_port_range_valid; test_parse_port_range_single_port; test_parse_port_range_with_spaces;
           test_parse_port_range_inverted_fails; test_parse_port_range_bad_format_fails;
           test_parse_port_range_non_numeric_fails; test_proxy_config_default] = true.
Proof. vm_compute. reflexivity. Qed.

(** ** scope.rs *)

Definition violates (r : result unit ProxyError) : bool :=
  unwrapping_err r (fun e => match e with ScopeViolation _ => true | _ => false end).
Definition forbids (field : string) (r : result unit ProxyError) : bool :=
  unwrapping_err r (fun e => match e with ForbiddenField f => assert_eq f field | _ => false end).

(** [BodyConstraints { .., ..Default::default() }] *)
Definition size_limit (n : Z) : BodyConstraints := mkBodyConstraints [] (Some n) [].
Definition content_types (l : list string) : BodyConstraints := mkBodyConstraints [] None l.
Definition forbidden (l : list string) : BodyConstraints := mkBodyConstraints l None [].

Definition test_host_allowed_exact_match : bool := accepted (validate_host "api.example.com" ["api.example.com"]).
Definition test_host_denied_not_in_list : bool := violates (validate_host "evil.example.com" ["api.example.com"]).
Definition test_host_empty_list_allows_all : bool := accepted (validate_host "anything.example.com" []).

Definition test_path_glob_match : bool := accepted (validate_path "/api/v1/users" ["/api/**"] []).
Definition test_path_glob_no_match : bool := violates (validate_path "/admin" ["/api/**"] []).
Definition test_path_empty_allowed_permits_all : bool := accepted (validate_path "/anything/goes" [] []).
Definition test_forbidden_path_overrides_allowed : bool :=
  violates (validate_path "/api/admin" ["/api/**"] ["/api/admin"]).
Definition test_forbidden_glob_path : bool :=
  violates (validate_path "/api/admin/users" ["/api/**"] ["/api/admin/**"]).
Definition test_non_forbidden_path_passes : bool :=
  accepted (validate_path "/api/v1/users" ["/api/**"] ["/api/admin/**"]).

Definition test_method_allowed : bool := accepted (validate_method "GET" ["GET"; "POST"]).
Definition test_method_denied : bool := violates (validate_method "DELETE" ["GET"; "POST"]).
Definition test_method_empty_list_allows_all : bool := accepted (validate_method "PATCH" []).
Definition test_method_case_insensitive : bool := accepted (validate_method "POST" ["post"]).

Definition test_body_size_within_limit : bool :=
  accepted (validate_body (Some (as_bytes "small body")) None (size_limit 100)).
Definition test_body_size_exceeds_limit : bool :=
  unwrapping_err (validate_body (Some (as_bytes "this is too large")) None (size_limit 5))
    (fun e => match e with BodyTooLarge size limit => (size =? 17) && (limit =? 5) | _ => false end).

Definition test_content_type_allowed : bool :=
  accepted (validate_body (Some (as_bytes "{}")) (Some "application/json") (content_types ["application/json"])).
Definition test_content_type_with_charset_allowed : bool :=
  accepted (validate_body (Some (as_bytes "{}")) (Some "application/json; charset=utf-8")
            (content_types ["application/json"])).
Definition test_content_type_denied : bool :=
  unwrapping_err (validate_body (Some (as_bytes "data")) (Some "text/plain") (content_types ["application/json"]))
    (fun e => match e with ContentTypeNotAllowed _ => true | _ => false end).

Definition test_forbidden_field_top_level : bool :=
  let body := body_of "{'username': 'alice', 'password': 'hunter2'}" in
  forbids "password" (validate_body (Some body) (Some "application/json") (forbidden ["password"])).
Definition test_forbidden_field_nested_object : bool :=
  let body := body_of "{'user': {'name': 'alice', 'secret': 'topsecret'}}" in
  forbids "secret" (validate_body (Some body) (Some "application/json") (forbidden ["secret"])).
Definition test_forbidden_field_inside_array : bool :=
  let body := body_of "{'items': [{'name': 'x', 'token': 'abc123'}]}" in
  forbids "token" (validate_body (Some body) (Some "application/json") (forbidden ["token"])).
Definition test_forbidden_field_deeply_nested : bool :=
  let body := body_of "{'a': {'b': {'c': {'api_key': 'leak'}}}}" in
  forbids "api_key" (validate_body (Some body) (Some "application/json") (forbidden ["api_key"])).
Definition test_forbidden_field_not_present_passes : bool :=
  let body := body_of "{'username': 'alice', 'action': 'read'}" in
  accepted (validate_body (Some body) (Some "application/json") (forbidden ["password"])).
Definition test_find_forbidden_field_returns_none_for_primitives : bool :=
  is_none (find_forbidden_field (JString "hello") ["hello"]).
Definition test_non_json_body_ignored_for_field_check : bool :=
  let body := as_bytes "this is plain text password=secret" in
  accepted (validate_body (Some body) (Some "text/plain") (mkBodyConstraints ["password"] None ["text/plain"])).

Definition test_validate_request_all_pass : bool :=
  let scope := mkScope ["api.example.com"] ["POST"] ["/api/**"] ["/api/admin/**"] None None
                 (Some (mkBodyConstraints ["secret"] (Some 1024) ["application/json"])) None in
  let body := body_of "{'action': 'read', 'resource': 'users'}" in
  accepted (validate_request "POST" "api.example.com" "/api/v1/users" (Some "application/json") (Some body) scope).
Definition test_validate_request_host_fail : bool :=
  let scope := mkScope ["api.example.com"] [] [] [] None None None None in
  is_err (validate_request "GET" "evil.example.com" "/" None None scope).

(** The test module of [scope.rs] passes. *)
Theorem scope_tests_pass :
  asserts
    [test_host_allowed_exact_match; test_host_denied_not_in_list; test_host_empty_list_allows_all;
     test_path_glob_match; test_path_glob_no_match; test_path_empty_allowed_permits_all;
     test_forbidden_path_overrides_allowed; test_forbidden_glob_path; test_non_forbidden_path_passes;
     test_method_allowed; test_method_denied; test_method_empty_list_allows_all; test_method_case_insensitive;
     test_body_size_within_limit; test_body_size_exceeds_limit; test_content_type_allowed;
     test_content_type_with_charset_allowed; test_content_type_denied; test_forbidden_field_top_level;
     test_forbidden_field_nested_object; test_forbidden_field_inside_array; test_forbidden_field_deeply_nested;
     test_forbidden_field_not_present_passes; test_find_forbidden_field_returns_none_for_primitives;
     test_non_json_body_ignored_for_field_check; test_validate_request_all_pass; test_validate_request_host_fail]
  = true.
Proof. vm_compute. reflexivity. Qed.

(** ** redirect.rs *)

Definition no_header_map : HeaderMap := [].

Definition make_headers_with_location (location : string) : HeaderMap :=
  hm_insert no_header_map "location" (as_bytes location).

Definition redirected (status : Z) (location : string) (follow : bool) (hosts : list string)
    : result RedirectAction ProxyError :=
  evaluate_redirect status (make_headers_with_location location) follow hosts.
Definition is_pass_through (r : result RedirectAction ProxyError) : bool :=
  let? action := r in match action with PassThrough => true | _ => false end.
Definition is_follow (r : result RedirectAction ProxyError) : bool :=
  let? action := r in match action with Follow _ _ => true | _ => false end.

Definition test_follow_disabled_returns_pass_through : bool :=
  is_pass_through (redirected 301 "https://api.example.com/new-path" false ["api.example.com"]).
Definition test_follow_disabled_302_returns_pass_through : bool :=
  is_pass_through (redirected 302 "https://other.example.com/" false []).
Definition test_non_redirect_status_returns_pass_through : bool :=
  is_pass_through (redirected 200 "https://example.com/" true []).
Definition test_follow_enabled_allowed_host_returns_follow : bool :=
  let? action := redirected 301 "https://api.example.com/v2/resource" true ["api.example.com"] in
  match action with
  | Follow location host => asserts [assert_eq host "api.example.com"; assert_eq (uri_path location) "/v2/resource"]
  | _ => false
  end.
Definition test_follow_enabled_empty_allowed_hosts_permits_all : bool :=
  is_follow (redirected 302 "https://any.example.com/path" true []).
(** The reason quotes the host, so the formatter counts. *)
Definition test_follow_enabled_disallowed_host_returns_block : bool :=
  let? action := evaluate_redirect (H:=plain_fmt) 302 (make_headers_with_location "https://evil.example.com/steal")
                   true ["api.example.com"] in
  match action with Block reason => str_contains reason "evil.example.com" | _ => false end.
Definition test_follow_enabled_missing_location_is_error : bool :=
  unwrapping_err (evaluate_redirect 302 no_header_map true [])
    (fun e => match e with RedirectBlocked _ => true | _ => false end).
Definition test_redirect_301 : bool := is_follow (redirected 301 "https://api.example.com/new" true ["api.example.com"]).
Definition test_redirect_307 : bool := is_follow (redirected 307 "https://api.example.com/new" true ["api.example.com"]).
Definition test_redirect_308 : bool := is_follow (redirected 308 "https://api.example.com/new" true ["api.example.com"]).
Definition test_follow_strips_port_from_host : bool :=
  let? action := redirected 302 "https://api.example.com:8443/path" true ["api.example.com"] in
  match action with Follow _ host => assert_eq host "api.example.com" | _ => false end.

(** The test module of [redirect.rs] passes. *)
Theorem redirect_tests_pass :
  asserts
    [test_follow_disabled_returns_pass_through; test_follow_disabled_302_returns_pass_through;
     test_non_redirect_status_returns_pass_through; test_follow_enabled_allowed_host_returns_follow;
     test_follow_enabled_empty_allowed_hosts_permits_all; test_follow_enabled_disallowed_host_returns_block;
     test_follow_enabled_missing_location_is_error; test_redirect_301; test_redirect_307; test_redirect_308;
     test_follow_strips_port_from_host] = true.
Proof. vm_compute. reflexivity. Qed.

(** ** sanitizer.rs *)

(** [Response::builder().header(..)] appends; names are lowered. *)
Definition make_response_with_headers (headers : list (string * string)) : Response :=
  mkResponse 200 (fold_left (fun h kv => hm_append h (lowercase kv.1) (as_bytes kv.2)) headers no_header_map) (inl []).

Definition has (h : HeaderMap) (name : string) : bool := is_some (hm_get h name).
Definition text_of (h : HeaderMap) (name : string) : option string := v ← hm_get h name; header_value_to_str v.

Definition test_strip_authorization_header : bool :=
  let resp := make_response_with_headers [("Authorization", "Bearer secret-token")] in
  negb (has (r_headers (sanitize_response resp)) "authorization").
Definition test_strip_set_cookie_header : bool :=
  let resp := make_response_with_headers [("Set-Cookie", "session=abc123; HttpOnly; Secure")] in
  negb (has (r_headers (sanitize_response resp)) "set-cookie").
Definition test_strip_www_authenticate_header : bool :=
  let resp := make_response_with_headers [("WWW-Authenticate", requote "Basic realm='test'")] in
  negb (has (r_headers (sanitize_response resp)) "www-authenticate").
Definition test_strip_proxy_authorization_header : bool :=
  let resp := make_response_with_headers [("Proxy-Authorization", "Basic dXNlcjpwYXNz")] in
  negb (has (r_headers (sanitize_response resp)) "proxy-authorization").
Definition test_non_sensitive_headers_preserved : bool :=
  let resp := make_response_with_headers
                [("Content-Type", "application/json"); ("X-Request-Id", "abc-123"); ("Cache-Control", "no-store")] in
  let headers := r_headers (sanitize_response resp) in
  asserts [assert_eq (text_of headers "content-type") (Some "application/json");
           assert_eq (text_of headers "x-request-id") (Some "abc-123");
           assert_eq (text_of headers "cache-control") (Some "no-store")].
Definition test_strip_is_case_insensitive : bool :=
  let headers := hm_insert no_header_map "authorization" (as_bytes "Bearer secret") in
  let headers := hm_insert headers "set-cookie" (as_bytes "id=xyz") in
  let headers := strip_credential_headers headers in
  asserts [negb (has headers "authorization"); negb (has headers "set-cookie")].
Definition test_mixed_response_only_sensitive_stripped : bool :=
  let resp := make_response_with_headers
                [("Authorization", "Bearer tok"); ("Set-Cookie", "sess=abc"); ("WWW-Authenticate", "Basic");
                 ("Proxy-Authorization", "Basic xyz"); ("Content-Length", "42"); ("Server", "nginx")] in
  let headers := r_headers (sanitize_response resp) in
  asserts [negb (has headers "authorization"); negb (has headers "set-cookie"); negb (has headers "www-authenticate");
           negb (has headers "proxy-authorization"); has headers "content-length"; has headers "server"].
Definition test_empty_response_is_fine : bool :=
  let resp := mkResponse 204 no_header_map (inl []) in is_empty_vec (r_headers (sanitize_response resp)).

(** The test module of [sanitizer.rs] passes. *)
Theorem sanitizer_tests_pass :
  asserts
    [test_strip_authorization_header; test_strip_set_cookie_header; test_strip_www_authenticate_header;
     test_strip_proxy_authorization_header; test_non_sensitive_headers_preserved; test_strip_is_case_insensitive;
     test_mixed_response_only_sensitive_stripped; test_empty_response_is_fine] = true.
Proof. vm_compute. reflexivity. Qed.

(** ** http.rs *)

(** A request builder is its headers. *)
Definition test_inject_headers_adds_header : bool :=
  let? headers := inject_headers no_header_map [mkCredentialHeader "Authorization" (as_bytes "Bearer token123")] in
  assert_eq (text_of headers "authorization") (Some "Bearer token123").
Definition test_inject_multiple_headers : bool :=
  let? headers := inject_headers no_header_map [mkCredentialHeader "Authorization" (as_bytes "Bearer tok");
                                                mkCredentialHeader "X-API-Key" (as_bytes "apikey123")] in
  asserts [has headers "authorization"; has headers "x-api-key"].
Definition test_strip_proxy_internal_headers : bool :=
  let headers := hm_insert no_header_map HEADER_LEASE_TOKEN (as_bytes "some-token") in
  let headers := hm_insert headers HEADER_CHANNEL_BINDING (as_bytes "nonce-hex") in
  let headers := hm_insert headers "host" (as_bytes "api.example.com") in
  let headers := strip_proxy_internal_headers headers in
  asserts [negb (has headers HEADER_LEASE_TOKEN); negb (has headers HEADER_CHANNEL_BINDING); has headers "host"].
Definition test_extract_host_from_header : bool :=
  let headers := hm_insert no_header_map "host" (as_bytes "api.example.com:8080") in
  let uri := parse_uri "http://api.example.com:8080/path" in
  assert_eq (extract_host headers uri) (Some "api.example.com").
Definition test_extract_host_from_uri_fallback : bool :=
  let uri := parse_uri "http://api.example.com/path" in
  assert_eq (extract_host no_header_map uri) (Some "api.example.com").
Definition test_extract_host_missing_returns_none : bool :=
  let uri := parse_uri "/relative-path" in is_none (extract_host no_header_map uri).
Definition test_port_for_uri_explicit : bool := port_for_uri (parse_uri "http://api.example.com:9090/path") =? 9090.
Definition test_port_for_uri_https_default : bool := port_for_uri (parse_uri "https://api.example.com/path") =? 443.
Definition test_port_for_uri_http_default : bool := port_for_uri (parse_uri "http://api.example.com/path") =? 80.

Definition response_body_string (resp : Z * string) : string := resp.2.

Definition test_proxy_error_to_response_auth_failure : bool :=
  let resp := proxy_error_to_response (AuthFailed "bad token") in
  asserts [resp.1 =? 403; negb (str_contains (response_body_string resp) "bad token")].
Definition test_proxy_error_to_response_body_too_large : bool :=
  (proxy_error_to_response (BodyTooLarge 100 50)).1 =? 413.
Definition test_proxy_error_to_response_dns_pin : bool :=
  let resp := proxy_error_to_response (DnsPinMismatch "evil.example.com" (V4 [Byte.x01; Byte.x02; Byte.x03; Byte.x04]) []) in
  asserts [resp.1 =? 403; negb (str_contains (response_body_string resp) "evil.example.com");
           negb (str_contains (response_body_string resp) "1.2.3.4")].
Definition test_proxy_error_to_response_upstream_502 : bool :=
  let resp := proxy_error_to_response (UpstreamError "connection refused") in
  asserts [resp.1 =? 502; negb (str_contains (response_body_string resp) "connection refused")].

(** The test module of [http.rs] passes. *)
Theorem http_tests_pass :
  asserts
    [test_inject_headers_adds_header; test_inject_multiple_headers; test_strip_proxy_internal_headers;
     test_extract_host_from_header; test_extract_host_from_uri_fallback; test_extract_host_missing_returns_none;
     test_port_for_uri_explicit; test_port_for_uri_https_default; test_port_for_uri_http_default;
     test_proxy_error_to_response_auth_failure; test_proxy_error_to_response_body_too_large;
     test_proxy_error_to_response_dns_pin; test_proxy_error_to_response_upstream_502] = true.
Proof. vm_compute. reflexivity. Qed.

(** ** dns.rs *)

Definition make_lease_with_pins (pins : gmap string (list IpAddr)) : Lease :=
  mkLease (lease_id_of (os_draw 0)) "cred-001" "test-policy" "auto" (replicate 32 Byte.x00) "/usr/bin/agent" 1000 42
    default_scope "tok" (replicate 32 Byte.x00) pins Active test_epoch (test_epoch + 3600 * NANOS) 3600 3600 None 0 0 3
    14400 true None [] 0 false None false.

Definition ipv4 (a b c d : byte) : IpAddr := V4 [a; b; c; d].

Definition test_verify_pinned_ip_match : bool :=
  let pins := <["api.example.com" := [localhost_ip]]> ∅ in
  accepted (verify_pinned_ip (make_lease_with_pins pins) "api.example.com" localhost_ip).
Definition test_verify_pinned_ip_mismatch : bool :=
  let pinned := ipv4 Byte.x0a Byte.x00 Byte.x00 Byte.x01 in
  let resolved := ipv4 Byte.x08 Byte.x08 Byte.x08 Byte.x08 in
  let pins := <["api.example.com" := [pinned]]> ∅ in
  unwrapping_err (verify_pinned_ip (make_lease_with_pins pins) "api.example.com" resolved)
    (fun e => match e with
              | DnsPinMismatch host r p =>
                  asserts [assert_eq host "api.example.com"; assert_eq r resolved; assert_eq p [pinned]]
              | _ => false
              end).
Definition test_verify_pinned_ip_unknown_host : bool :=
  unwrapping_err (verify_pinned_ip (make_lease_with_pins ∅) "unknown.example.com" localhost_ip)
    (fun e => match e with
              | DnsPinMismatch host _ pinned => asserts [assert_eq host "unknown.example.com"; is_empty_vec pinned]
              | _ => false
              end).
Definition test_verify_pinned_ip_multiple_allowed_ips : bool :=
  let ip1 := ipv4 Byte.x0a Byte.x00 Byte.x00 Byte.x01 in
  let ip2 := ipv4 Byte.x0a Byte.x00 Byte.x00 Byte.x02 in
  let lease := make_lease_with_pins (<["api.example.com" := [ip1; ip2]]> ∅) in
  asserts [accepted (verify_pinned_ip lease "api.example.com" ip1); accepted (verify_pinned_ip lease "api.example.com" ip2)].
Definition test_resolve_and_verify_localhost : bool :=
  match lookup_host "localhost:0" with
  | inl resolved =>
      let lease := make_lease_with_pins (<["localhost" := resolved]> ∅) in
      asserts [negb (is_empty_vec resolved);
               let? ips := resolve_and_verify hosts_file lease "localhost" in negb (is_empty_vec ips)]
  | inr _ => false
  end.
Definition test_resolve_and_verify_pin_mismatch : bool :=
  let wrong_ip := ipv4 Byte.x01 Byte.x02 Byte.x03 Byte.x04 in
  let lease := make_lease_with_pins (<["localhost" := [wrong_ip]]> ∅) in
  unwrapping_err (resolve_and_verify hosts_file lease "localhost")
    (fun e => match e with DnsPinMismatch _ _ _ => true | _ => false end).

(** The test module of [dns.rs] passes. *)
Theorem dns_tests_pass :
  asserts [test_verify_pinned_ip_match; test_verify_pinned_ip_mismatch; test_verify_pinned_ip_unknown_host;
           test_verify_pinned_ip_multiple_allowed_ips; test_resolve_and_verify_localhost;
           test_resolve_and_verify_pin_mismatch] = true.
Proof. vm_compute. reflexivity. Qed.

(** ** credential.rs *)

(** The provider of the [test-support] feature. *)
Record MockCredentialProvider : Type := mkMockCredentialProvider { credentials : gmap string string }.

Definition mock_new : MockCredentialProvider := mkMockCredentialProvider ∅.
Definition mock_add (cred value : string) (p : MockCredentialProvider) : MockCredentialProvider :=
  mkMockCredentialProvider (<[cred := value]> (credentials p)).
Definition mock_default : MockCredentialProvider := mock_new.
Definition mock_fetch_credential (p : MockCredentialProvider) (cred _lease_id : string)
    : result (list CredentialHeader) ProxyError :=
  match credentials p !! cred with
  | Some value => Ok [mkCredentialHeader "Authorization" (as_bytes value)]
  | None => Err (CredentialInjection ("credential not found: " +:+ cred))
  end.

(** [headers[0].value] *)
Definition first_value (headers : list CredentialHeader) (s : string) : bool :=
  let?? h := head headers in assert_eq (ch_value h) (as_bytes s).

Definition test_mock_provider_returns_credential : bool :=
  let provider := mock_add "cred-001" "Bearer test-token-abc" mock_new in
  let? headers := mock_fetch_credential provider "cred-001" "lease-xyz" in
  asserts [assert_eq (length headers) 1%nat; assert_eq (ch_name <$> head headers) (Some "Authorization");
           first_value headers "Bearer test-token-abc"].
Definition test_mock_provider_missing_credential : bool :=
  match mock_fetch_credential mock_new "nonexistent" "lease-xyz" with
  | Err (CredentialInjection _) => true
  | _ => false
  end.
Definition test_mock_provider_multiple_credentials : bool :=
  let provider := mock_add "cred-bearer" "Bearer jwt.token.here" (mock_add "cred-api-key" "ApiKey secret123" mock_new) in
  asserts [let? h1 := mock_fetch_credential provider "cred-api-key" "lease-1" in first_value h1 "ApiKey secret123";
           let? h2 := mock_fetch_credential provider "cred-bearer" "lease-1" in first_value h2 "Bearer jwt.token.here"].
Definition test_credential_header_value_is_secure_buffer : bool :=
  let header := mkCredentialHeader "X-API-Key" (as_bytes "my-secret-key") in
  asserts [assert_eq (ch_name header) "X-API-Key"; assert_eq (ch_value header) (as_bytes "my-secret-key")].
Definition test_mock_provider_default_is_empty : bool := assert_eq (size (credentials mock_default)) 0%nat.

(** The test module of [credential.rs] passes. *)
Theorem credential_tests_pass :
  asserts [test_mock_provider_returns_credential; test_mock_provider_missing_credential;
           test_mock_provider_multiple_credentials; test_credential_header_value_is_secure_buffer;
           test_mock_provider_default_is_empty] = true.
Proof. vm_compute. reflexivity. Qed.

(** ** manager.rs *)

Definition test_config : ProxyConfig := mkProxyConfig (bind_address default_proxy_config) 20000 20004.
Definition make_manager : ProxyManager := proxy_manager_new test_config.

(** The [n]-th identifier a test generates. *)
Definition generated (n : nat) : string := lease_id_of (os_draw n).

(** [n] allocations for fresh leases. *)
Fixpoint allocate_many (n k : nat) (mgr : ProxyManager) : option ProxyManager :=
  match n with
  | O => Some mgr
  | S n' => match allocate_port mgr (generated k) with
            | (mgr, Ok _) => allocate_many n' (S k) mgr
            | _ => None
            end
  end.

Definition test_allocate_port_returns_first_available : bool :=
  let? port := (allocate_port make_manager (generated 0)).2 in port =? 20000.
Definition test_allocate_different_ports_per_lease : bool :=
  let '(mgr, p1) := allocate_port make_manager (generated 0) in
  let '(mgr, p2) := allocate_port mgr (generated 1) in
  let? p1 := p1 in let? p2 := p2 in negb (p1 =? p2).
Definition test_port_exhausted : bool :=
  let?? mgr := allocate_many 5 0 make_manager in
  unwrapping_err (allocate_port mgr (generated 5)).2 (fun e => match e with PortExhausted _ => true | _ => false end).
Definition test_release_frees_port : bool :=
  let '(mgr, port) := allocate_port make_manager (generated 0) in
  let '(mgr', released) := release_lease mgr (generated 0) in
  let '(_, port2) := allocate_port mgr' (generated 1) in
  let? port := port in let? port2 := port2 in
  asserts [assert_eq (active_count mgr) 1%nat; released; assert_eq (active_count mgr') 0%nat; port2 =? port].
Definition test_release_nonexistent_returns_false : bool := negb (release_lease make_manager (generated 0)).2.
Definition test_port_for_lease : bool :=
  let '(mgr, port) := allocate_port make_manager (generated 0) in
  let? port := port in
  asserts [is_none (port_for_lease make_manager (generated 0));
           assert_eq (port_for_lease mgr (generated 0)) (Some port)].
Definition test_listener_addr_helper : bool :=
  let addr := listener_addr default_proxy_config 19500 in
  asserts [sa_port addr =? 19500; assert_eq (sa_ip addr) localhost_ip].
Definition test_stop_all_clears_pool : bool :=
  let?? mgr := allocate_many 3 0 make_manager in
  asserts [assert_eq (active_count mgr) 3%nat; assert_eq (active_count (stop_all mgr)) 0%nat].
Definition test_stop_all_idempotent_on_empty : bool := assert_eq (active_count (stop_all make_manager)) 0%nat.

(** The test module of [manager.rs] passes. *)
Theorem pool_tests_pass :
  asserts [test_allocate_port_returns_first_available; test_allocate_different_ports_per_lease; test_port_exhausted;
           test_release_frees_port; test_release_nonexistent_returns_false; test_port_for_lease;
           test_listener_addr_helper; test_stop_all_clears_pool; test_stop_all_idempotent_on_empty] = true.
Proof. vm_compute. reflexivity. Qed.
End Tests.
