(* ===== verification/AuthTests.v ===== *)
(** * cdp-proxy: the unit tests of auth.rs

    In every environment: none of the tests gets as far as reading [/proc]. *)

From S2P Require Import Prelude RustStr Crypto PolicyTypes LeaseTypes ProxyScope ProxyAuth ProxyHttp.
From S2P Require Import Asserts LeaseTestKit ProxyTestKit.

#[local] Arguments String.append !_ _ /.

Section Tests.
Context `{Fmt} `{FmtAddr} `{ProcFs}.

Definition loopback_addr (port : Z) : SocketAddr := mkSocketAddr loopback port.
(** [::1] *)
Definition ipv6_loopback : list byte := replicate 15 Byte.x00 ++ [Byte.x01].

Definition test_hex_addr_encoding_loopback : bool :=
  assert_eq (ipv4_to_proc_hex [Byte.x7f; Byte.x00; Byte.x00; Byte.x01]) "0100007F".
Definition test_hex_addr_encoding_all_zeros : bool :=
  assert_eq (ipv4_to_proc_hex [Byte.x00; Byte.x00; Byte.x00; Byte.x00]) "00000000".
Definition test_hex_addr_encoding_192_168_1_1 : bool :=
  assert_eq (ipv4_to_proc_hex [Byte.xc0; Byte.xa8; Byte.x01; Byte.x01]) "0101A8C0".

Definition SAMPLE_TCP : string :=
  "  sl  local_address rem_address   st tx_queue rx_queue tr tm->when retrnsmt   uid  timeout inode" +:+ nl +:+
  "0: 0100007F:4E24 0100007F:A1B2 01 00000000:00000000 00:00000000 00000000  1000        0 12345 1 0000000000000000 100 0 0 10 0" +:+ nl +:+
  "1: 0100007F:1F90 00000000:0000 0A 00000000:00000000 00:00000000 00000000  1000        0 67890 1 0000000000000000 100 0 0 10 0" +:+ nl.

Definition auth_fails {A : Type} (r : result A ProxyError) : bool :=
  unwrapping_err r (fun e => match e with AuthFailed _ => true | _ => false end).
(** ... and the displayed error has the text. *)
Definition auth_fails_with {A : Type} (text : string) (r : result A ProxyError) : bool :=
  unwrapping_err r (fun e => match e with AuthFailed _ => str_contains (display_proxy_error e) text | _ => false end).

Definition test_parse_proc_net_tcp_finds_matching_entry : bool :=
  let? inode := parse_proc_net_tcp SAMPLE_TCP (loopback_addr 0x4E24) in inode =? 12345.
Definition test_parse_proc_net_tcp_no_match : bool := auth_fails (parse_proc_net_tcp SAMPLE_TCP (loopback_addr 9999)).
Definition test_parse_proc_net_tcp_second_entry : bool :=
  let? inode := parse_proc_net_tcp SAMPLE_TCP (loopback_addr 0x1F90) in inode =? 67890.

Definition SAMPLE_TCP6 : string :=
  "  sl  local_address                         remote_address                        st tx_queue rx_queue tr tm->when retrnsmt   uid  timeout inode" +:+ nl +:+
  "0: 00000000000000000000000001000000:1F90 00000000000000000000000000000000:0000 0A 00000000:00000000 00:00000000 00000000  1000        0 55555 1 0000000000000000 100 0 0 10 0" +:+ nl.

Definition test_parse_proc_net_tcp6_loopback : bool :=
  let? inode := parse_proc_net_tcp SAMPLE_TCP6 (mkSocketAddr (V6 ipv6_loopback) 8080) in inode =? 55555.
Definition test_parse_proc_net_tcp6_no_match_in_v4_data : bool :=
  auth_fails (parse_proc_net_tcp SAMPLE_TCP (mkSocketAddr (V6 ipv6_loopback) 8080)).
Definition test_ipv6_to_proc_hex_loopback : bool :=
  assert_eq (ipv6_to_proc_hex ipv6_loopback) "00000000000000000000000001000000".

Definition decoded (s : string) : result (option (list byte)) ProxyError := hex_to_bytes s.
Definition test_hex_to_bytes_valid : bool :=
  let? bytes := decoded "deadbeef" in assert_eq bytes (Some [Byte.xde; Byte.xad; Byte.xbe; Byte.xef]).
Definition test_hex_to_bytes_empty : bool := let? bytes := decoded EmptyString in assert_eq bytes (Some []).
Definition test_hex_to_bytes_odd_length : bool := let? bytes := decoded "abc" in is_none bytes.
Definition test_hex_to_bytes_invalid_char : bool := let? bytes := decoded "gggg" in is_none bytes.

Definition make_test_lease : Lease :=
  mkLease (lease_id_of (os_draw 0)) "cred-001" "test-policy" "auto" (replicate 32 Byte.xab) "/usr/bin/agent" 1000 42
    default_scope "placeholder" (replicate 32 Byte.xcd) ∅ Active test_epoch (test_epoch + 3600 * NANOS) 3600 3600 None 0 0
    3 14400 true None [] 0 false None false.

Definition no_header_map : HeaderMap := [].

Definition test_authenticate_missing_lease_token_header : bool :=
  let lease := make_test_lease in
  auth_fails_with "X-CDP-Lease-Token"
    (authenticate (loopback_addr 12345) no_header_map (lease_id lease) lease (as_bytes "gate-key")).

Definition test_authenticate_missing_channel_binding_header : bool :=
  let lease := make_test_lease in
  let gate_key := as_bytes "test-gate-key" in
  let token := generate_lease_token gate_key (lease_id lease) (agent_fingerprint_hash lease) (channel_binding_nonce lease) in
  let headers := hm_insert no_header_map HEADER_LEASE_TOKEN (as_bytes token) in
  auth_fails (authenticate (loopback_addr 12345) headers (lease_id lease) lease gate_key).

Definition test_authenticate_bad_lease_token : bool :=
  let lease := make_test_lease in
  let gate_key := as_bytes "test-gate-key" in
  let cb_hex := bytes_to_hex (channel_binding_nonce lease) in
  let headers := hm_insert no_header_map HEADER_LEASE_TOKEN
                   (as_bytes "deadbeefdeadbeefdeadbeefdeadbeefdeadbeefdeadbeefdeadbeefdeadbeef") in
  let headers := hm_insert headers HEADER_CHANNEL_BINDING (as_bytes cb_hex) in
  auth_fails_with "lease token verification failed"
    (authenticate (loopback_addr 12345) headers (lease_id lease) lease gate_key).

Definition test_authenticate_bad_channel_binding : bool :=
  let lease := make_test_lease in
  let gate_key := as_bytes "test-gate-key" in
  let token := generate_lease_token gate_key (lease_id lease) (agent_fingerprint_hash lease) (channel_binding_nonce lease) in
  let wrong_nonce := replicate 32 Byte.x00 in
  let headers := hm_insert no_header_map HEADER_LEASE_TOKEN (as_bytes token) in
  let headers := hm_insert headers HEADER_CHANNEL_BINDING (as_bytes (bytes_to_hex wrong_nonce)) in
  auth_fails_with "channel binding nonce mismatch"
    (authenticate (loopback_addr 12345) headers (lease_id lease) lease gate_key).

(** The test module of [auth.rs] passes. *)
Theorem auth_tests_pass :
  asserts
    [test_hex_addr_encoding_loopback; test_hex_addr_encoding_all_zeros; test_hex_addr_encoding_192_168_1_1;
     test_parse_proc_net_tcp_finds_matching_entry; test_parse_proc_net_tcp_no_match;
     test_parse_proc_net_tcp_second_entry; test_parse_proc_net_tcp6_loopback;
     test_parse_proc_net_tcp6_no_match_in_v4_data; test_ipv6_to_proc_hex_loopback; test_hex_to_bytes_valid;
     test_hex_to_bytes_empty; test_hex_to_bytes_odd_length; test_hex_to_bytes_invalid_char;
     test_authenticate_missing_lease_token_header; test_authenticate_missing_channel_binding_header;
     test_authenticate_bad_lease_token; test_authenticate_bad_channel_binding] = true.
Proof. vm_compute. reflexivity. Qed.
End Tests.
