(* ===== verification/MitmTests.v ===== *)
(** * cdp-proxy: the unit tests of mitm.rs and mitm_ca.rs

    Certificates are a [SEQUENCE] tag with their names; generated keys are
    numbered. *)

From S2P Require Import Prelude StateM RustStr LeaseTypes ProxyScope BrowserCookies Mitm Asserts.

#[local] Arguments String.append !_ _ /.

(** ** mitm.rs *)

(** Lines joined by CRLF, as a byte string literal has them. *)
Definition crlf_join (ls : list string) : list byte :=
  as_bytes (join (of_bytes CRLF) ls).

Definition is_upstream_error {A : Type} (r : result A ProxyError) : bool :=
  unwrapping_err r (fun e => match e with UpstreamError _ => true | _ => false end).

Definition test_parse_connect_target_with_port : bool :=
  let? target := parse_connect_target "api.example.com:443" in
  asserts [assert_eq target.1 "api.example.com"; target.2 =? 443].
Definition test_parse_connect_target_no_port_fails : bool := is_upstream_error (parse_connect_target "api.example.com").
Definition test_parse_connect_target_invalid_port_fails : bool :=
  is_upstream_error (parse_connect_target "api.example.com:notaport").
Definition test_connection_established_response : bool :=
  let '(status, _, _) := connection_established_response in status =? 200.
Definition test_bad_gateway_response : bool :=
  let '(status, _, _) := bad_gateway_response "upstream unreachable" in status =? 502.

Definition test_find_header_end_found : bool :=
  let data := crlf_join ["GET / HTTP/1.1"; "Host: example.com"; EmptyString; "body"] in
  let?? p := find_header_end data in assert_eq (drop p data) (as_bytes "body").
Definition test_find_header_end_not_found : bool :=
  let data := crlf_join ["GET / HTTP/1.1"; "Host: example.com"; EmptyString] in is_none (find_header_end data).

Definition test_inject_cookie_header : bool :=
  let request := crlf_join ["GET /api HTTP/1.1"; "Host: api.example.com"; EmptyString; EmptyString] in
  let injected := inject_cookie_header request "session_id=abc" in
  let?? cookie_pos := position (as_bytes "Cookie:") injected in
  let?? blank_pos := position SEPARATOR injected in
  asserts [str_contains (of_bytes injected) (of_bytes (crlf_join ["Cookie: session_id=abc"; EmptyString]));
           ends_with (of_bytes injected) (of_bytes SEPARATOR); (cookie_pos <? blank_pos)%nat].
Definition test_inject_cookie_header_no_separator : bool :=
  let data := as_bytes "partial data without header end" in
  assert_eq (inject_cookie_header data "session=x") data.

Definition test_strip_set_cookie : bool :=
  let response := crlf_join ["HTTP/1.1 200 OK"; "Content-Type: application/json"; "Set-Cookie: session=abc; HttpOnly";
                             "X-Custom: value"; EmptyString; "{" +:+ dquote +:+ "ok" +:+ dquote +:+ ":true}"] in
  let stripped_str := of_bytes (strip_set_cookie response) in
  asserts [negb (str_contains stripped_str "Set-Cookie"); str_contains stripped_str "Content-Type: application/json";
           str_contains stripped_str "X-Custom: value";
           str_contains stripped_str ("{" +:+ dquote +:+ "ok" +:+ dquote +:+ ":true}")].
Definition test_strip_set_cookie_multiple : bool :=
  let response := crlf_join ["HTTP/1.1 200 OK"; "Set-Cookie: a=1"; "Set-Cookie: b=2"; "X-OK: yes"; EmptyString; EmptyString] in
  let stripped_str := of_bytes (strip_set_cookie response) in
  asserts [negb (str_contains stripped_str "Set-Cookie"); str_contains stripped_str "X-OK: yes"].
Definition test_strip_set_cookie_no_header_section : bool :=
  let data := as_bytes "no header end here" in assert_eq (strip_set_cookie data) data.

Definition test_filter_header_lines_keep_all : bool :=
  let headers := crlf_join ["HTTP/1.1 200 OK"; "Content-Type: text/html"; EmptyString] in
  contains (filter_header_lines headers (fun _ => true)) Byte.x32.
Definition test_filter_header_lines_drop_all : bool :=
  let headers := crlf_join ["X-Custom: value"; "X-Other: val"; EmptyString] in
  is_empty_vec (filter_header_lines headers (fun _ => false)).

(** ** mitm_ca.rs *)

Inductive PrivateKeyDer : Type := Pkcs8 (key : Z) | Sec1 (key : Z).

#[local] Instance numbered_keys : Rcgen := {|
  KeyT := Z; CertT := list string; KeyDer := PrivateKeyDer;
  self_sign := fun p _ => inl (cp_permitted p);
  leaf_params_check := fun _ => None;
  sign_leaf := fun p k _ _ => inl (display_Z k :: lp_san p);
  cert_der := fun c => Byte.x30 :: as_bytes (join "," c);
  key_der := Pkcs8;
  time_add_hours := fun t h => Some (t + 3600 * h)
|}.

Definition origins : list string := ["api.example.com"; "auth.example.com"].

(** The CA under key 1, generated at time 0. *)
Definition generated_ca (names : list string) (hours : Z) : result MitmCa ProxyError :=
  generate names hours (inl (1 : KeyT)) 0.

(** Issue with the [k]-th key generated. *)
Definition issued (k : Z) (origin : string) : M MitmCa ProxyError (list byte * KeyDer) :=
  issue_leaf_cert origin (inl (k : KeyT)) 0.

Definition test_mitm_proxy_new : bool :=
  let? ca := generated_ca ["api.example.com"] 1 in
  let _proxy := mkMitmProxy ca ∅ {["api.example.com"]} tt in true.

Definition test_generate_succeeds : bool :=
  let? ca := generated_ca origins 24 in
  asserts [negb (is_empty_vec (ca_cert_der ca)); assert_eq (length (allowed_origins ca)) 2%nat].
Definition test_generate_empty_origins_fails : bool := is_upstream_error (generated_ca [] 24).
Definition test_ca_cert_der_is_valid_der : bool :=
  let? ca := generated_ca origins 1 in
  asserts [negb (is_empty_vec (ca_cert_der ca)); assert_eq (head (ca_cert_der ca)) (Some Byte.x30)].
Definition test_is_allowed_exact : bool :=
  let? ca := generated_ca origins 1 in
  asserts [is_allowed ca "api.example.com"; is_allowed ca "auth.example.com"; negb (is_allowed ca "evil.com")].
Definition test_is_allowed_subdomain : bool :=
  let? ca := generated_ca ["example.com"] 1 in
  asserts [is_allowed ca "sub.example.com"; is_allowed ca "example.com"; negb (is_allowed ca "notexample.com")].
Definition test_issue_leaf_cert_allowed : bool :=
  let? ca := generated_ca origins 1 in
  let? leaf := (issued 2 "api.example.com" ca).2 in
  asserts [negb (is_empty_vec leaf.1); match leaf.2 with Pkcs8 _ | Sec1 _ => true end].
Definition test_issue_leaf_cert_blocked_for_disallowed_origin : bool :=
  let? ca := generated_ca origins 1 in
  unwrapping_err (issued 2 "evil.com" ca).2 (fun e => match e with ScopeViolation _ => true | _ => false end).
Definition test_issue_leaf_cert_cached : bool :=
  let? ca := generated_ca origins 1 in
  let? certs := ((cert1 ← issued 2 "api.example.com"; cert2 ← issued 3 "api.example.com"; mret (cert1.1, cert2.1)) ca).2 in
  assert_eq certs.1 certs.2.
Definition test_different_origins_get_different_certs : bool :=
  let? ca := generated_ca origins 1 in
  let? certs := ((cert1 ← issued 2 "api.example.com"; cert2 ← issued 3 "auth.example.com"; mret (cert1.1, cert2.1)) ca).2 in
  negb (assert_eq certs.1 certs.2).

(** The test modules of [mitm.rs] and [mitm_ca.rs] pass. *)
Theorem mitm_tests_pass :
  asserts
    [test_parse_connect_target_with_port; test_parse_connect_target_no_port_fails;
     test_parse_connect_target_invalid_port_fails; test_connection_established_response; test_bad_gateway_response;
     test_find_header_end_found; test_find_header_end_not_found; test_inject_cookie_header;
     test_inject_cookie_header_no_separator; test_strip_set_cookie; test_strip_set_cookie_multiple;
     test_strip_set_cookie_no_header_section; test_filter_header_lines_keep_all; test_filter_header_lines_drop_all;
     test_mitm_proxy_new; test_generate_succeeds; test_generate_empty_origins_fails; test_ca_cert_der_is_valid_der;
     test_is_allowed_exact; test_is_allowed_subdomain; test_issue_leaf_cert_allowed;
     test_issue_leaf_cert_blocked_for_disallowed_origin; test_issue_leaf_cert_cached;
     test_different_origins_get_different_certs] = true.
Proof. vm_compute. reflexivity. Qed.
