(* ===== verification/CookieTests.v ===== *)
(** * cdp-browser: the unit tests of cookies.rs

    The patterns of the tests and of the filter are anchored literals. *)

From S2P Require Import Prelude RustStr BrowserCookies Asserts.

#[local] Arguments String.append !_ _ /.
#[local] Existing Instance anchored_regex.

Definition make_cookie (name value : string) : Cookie :=
  mkCookie name value "example.com" "/" true true "Lax" None None.

Definition has_cookie (name : string) (l : list Cookie) : bool := existsb (fun c => assert_eq (ck_name c) name) l.
Definition first_name (l : list Cookie) : option string := ck_name <$> head l.
Definition count_is (n : nat) (l : list Cookie) : bool := assert_eq (length l) n.

#[local] Instance cookie_eq_dec : EqDecision Cookie.
Proof. solve_decision. Defined.

Definition test_filter_drops_tracking_cookies : bool :=
  let cookies := [make_cookie "_ga" "GA1.2.123"; make_cookie "session_id" "abc123"; make_cookie "_gid" "GA1.2.456";
                  make_cookie "auth_token" "tok"] in
  let kept := filter_cookies cookies filter_new in
  asserts [count_is 2 kept; has_cookie "session_id" kept; has_cookie "auth_token" kept; negb (has_cookie "_ga" kept);
           negb (has_cookie "_gid" kept)].
Definition test_filter_keep_tracking_when_disabled : bool :=
  let cookies := [make_cookie "_ga" "GA1.2.123"; make_cookie "tok" "x"] in
  count_is 2 (filter_cookies cookies (with_drop_tracking filter_new false)).
Definition test_filter_keep_patterns : bool :=
  let cookies := [make_cookie "session_id" "s"; make_cookie "auth_token" "a"; make_cookie "pref_lang" "en"] in
  let? filter := keep filter_new "^session_" in
  let kept := filter_cookies cookies filter in
  asserts [count_is 1 kept; assert_eq (first_name kept) (Some "session_id")].
Definition test_filter_drop_patterns : bool :=
  let cookies := [make_cookie "session_id" "s"; make_cookie "csrf_token" "c"; make_cookie "auth_token" "a"] in
  let? filter := drop_pattern filter_new "^csrf_" in
  let kept := filter_cookies cookies filter in
  asserts [count_is 2 kept; negb (has_cookie "csrf_token" kept)].
Definition test_transform_for_proxy_only_unchanged : bool :=
  let cookies := [make_cookie "session_id" "s"] in assert_eq (transform_for_proxy_only cookies) cookies.
Definition test_transform_for_scoped_snapshot : bool :=
  let cookie := mkCookie "session_id" "xyz" "auth.example.com" "/" false true "Strict" (Some 9999999999) (Some 86400) in
  let result := transform_for_scoped_snapshot [cookie] "api.example.com" 3600 in
  let?? c := head result in
  asserts [count_is 1 result; negb (ck_http_only c); assert_eq (ck_domain c) "api.example.com";
           assert_eq (ck_max_age c) (Some 3600); is_none (ck_expires c); ck_secure c].
Definition test_cookie_store_set_get : bool :=
  let store := store_set ∅ "https://example.com" [make_cookie "session_id" "abc"] in
  let retrieved := store_get store "https://example.com" in
  asserts [count_is 1 retrieved; assert_eq (first_name retrieved) (Some "session_id")].
Definition test_cookie_store_get_missing_returns_empty : bool := is_empty_vec (store_get ∅ "https://notexist.com").
Definition test_cookie_store_remove : bool :=
  let store := store_set ∅ "https://example.com" [make_cookie "s" "x"] in
  is_empty_vec (store_get (store_remove store "https://example.com") "https://example.com").
Definition test_cookie_store_build_header : bool :=
  let store := store_set ∅ "https://example.com" [make_cookie "session_id" "abc"; make_cookie "auth_token" "xyz"] in
  let?? header := build_cookie_header store "https://example.com" in
  asserts [str_contains header "session_id=abc"; str_contains header "auth_token=xyz"; str_contains header "; "].
Definition test_cookie_store_build_header_missing : bool := is_none (build_cookie_header ∅ "https://missing.com").
Definition test_cookie_store_total_count : bool :=
  let store := store_set ∅ "https://a.com" [make_cookie "s1" "v1"; make_cookie "s2" "v2"] in
  let store := store_set store "https://b.com" [make_cookie "s3" "v3"] in
  assert_eq (total_count store) 3%nat.
Definition test_cookie_manager_store_proxy_only : bool :=
  let cookies := [make_cookie "_ga" "tracking"; make_cookie "session_id" "s"] in
  let stored := store_get (store_proxy_only ∅ "https://example.com" cookies filter_new) "https://example.com" in
  asserts [count_is 1 stored; assert_eq (first_name stored) (Some "session_id")].
Definition test_cookie_manager_store_scoped_snapshot : bool :=
  let cookies := [make_cookie "session_id" "s"] in
  let manager := store_scoped_snapshot ∅ "https://example.com" cookies filter_new "api.example.com" 300 in
  let stored := store_get manager "https://example.com" in
  let?? c := head stored in
  asserts [count_is 1 stored; negb (ck_http_only c); assert_eq (ck_max_age c) (Some 300)].
Definition test_cookie_session_constructor : bool :=
  let c := cookie_session "tok" "val" "example.com" in
  asserts [assert_eq (ck_name c) "tok"; assert_eq (ck_value c) "val"; assert_eq (ck_domain c) "example.com";
           ck_secure c; ck_http_only c; is_none (ck_expires c); is_none (ck_max_age c)].
Definition test_filter_gcl_tracking_dropped : bool :=
  let cookies := [make_cookie "_gcl_au" "tracking"; make_cookie "session" "s"] in
  let kept := filter_cookies cookies filter_new in
  asserts [count_is 1 kept; assert_eq (first_name kept) (Some "session")].

(** The test module of [cookies.rs] passes. *)
Theorem cookie_tests_pass :
  asserts
    [test_filter_drops_tracking_cookies; test_filter_keep_tracking_when_disabled; test_filter_keep_patterns;
     test_filter_drop_patterns; test_transform_for_proxy_only_unchanged; test_transform_for_scoped_snapshot;
     test_cookie_store_set_get; test_cookie_store_get_missing_returns_empty; test_cookie_store_remove;
     test_cookie_store_build_header; test_cookie_store_build_header_missing; test_cookie_store_total_count;
     test_cookie_manager_store_proxy_only; test_cookie_manager_store_scoped_snapshot; test_cookie_session_constructor;
     test_filter_gcl_tracking_dropped] = true.
Proof. vm_compute. reflexivity. Qed.
