(* ===== verification/CryptoTestKit.v ===== *)
(** * cdp-crypto: toy primitives to run the tests with

    A polynomial checksum stands for SHA-256, and through it for HMAC, HKDF
    and the authentication tag of the cipher. *)

From S2P Require Import Prelude RustStr Crypto AuditLog.

Definition checksum (l : list byte) : N :=
  fold_left (fun h b => (h * 257 + Byte.to_N b + 1) mod 2 ^ 256)%N l 7%N.

Definition digest (l : list byte) : list byte := be_bytes 32 (checksum l).

#[export] Instance toy_sha : Sha256 := {| sha256 := digest |}.
#[export] Instance toy_hmac : HmacSha256 := {| hmac_sha256 := fun key msg => digest (key ++ [Byte.x00] ++ msg) |}.
#[export] Instance toy_hkdf : HkdfSha256 :=
  {| hkdf_expand := fun salt master info n => inl (take n (digest (salt ++ [Byte.x00] ++ master ++ [Byte.x00] ++ info))) |}.

Definition seal_tag (key nonce plaintext : list byte) : list byte :=
  take 16 (digest (key ++ nonce ++ plaintext)).

(** The plaintext with its tag. *)
#[export] Instance toy_aead : Aead :=
  {| aead_encrypt := fun key nonce p => inl (p ++ seal_tag key nonce p);
     aead_decrypt := fun key nonce c =>
       let p := take (length c - 16) c in
       if bool_decide (drop (length c - 16) c = seal_tag key nonce p) then Some p else None |}.
