(* ===== verification/CryptoTests.v ===== *)
(** * cdp-crypto: the unit tests of hmac_ops.rs, hkdf_ops.rs, cipher.rs and mempool.rs *)

From S2P Require Import Prelude Asserts RustStr Crypto SecureMem CryptoTestKit.

(** ** hmac_ops.rs *)

Definition KEY : list byte := as_bytes "super-secret-gate-key-for-testing-only".
Definition FP : list byte := as_bytes "agent-fingerprint-bytes".
Definition CONN : list byte := as_bytes "connection-id-001".
Definition LEASE : string := "lease-abc-123".
Definition CB : list byte := as_bytes "channel-binding-nonce".

Definition verified (r : result bool unit) : bool := match r with Ok b => b | _ => false end.
Definition rejected (r : result bool unit) : bool := match r with Ok b => negb b | _ => false end.

(** Flip the first character. *)
Definition flipped (token : string) : string :=
  match token with
  | String first rest => String (if bool_decide (first = Ascii.ascii_of_N 97) then Ascii.ascii_of_N 98
                                 else Ascii.ascii_of_N 97) rest
  | EmptyString => EmptyString
  end.

Definition test_session_token_roundtrip : bool :=
  let token := generate_session_token KEY FP CONN in verified (verify_session_token KEY FP CONN token).
Definition test_session_token_reject_tampered : bool :=
  let token := flipped (generate_session_token KEY FP CONN) in rejected (verify_session_token KEY FP CONN token).
Definition test_lease_token_roundtrip : bool :=
  let token := generate_lease_token KEY LEASE FP CB in verified (verify_lease_token KEY LEASE FP CB token).
Definition test_lease_token_reject_tampered : bool :=
  let token := flipped (generate_lease_token KEY LEASE FP CB) in rejected (verify_lease_token KEY LEASE FP CB token).

(** ** hkdf_ops.rs *)

Definition MASTER : list byte := as_bytes "aaaaaaaaaaaaaaaaaaaaaaaaaaaaaaaaaaaaaaaaaaaaaaaaaaaaaaaaaaaaaaaa".
Definition SALT : list byte := as_bytes "random-gate-salt-32-bytes-long!!".

Definition test_hkdf_determinism : bool :=
  let? k1 := derive_credential_key MASTER SALT "cred-abc" "lease-001" in
  let? k2 := derive_credential_key MASTER SALT "cred-abc" "lease-001" in
  assert_eq k1 k2.
Definition test_hkdf_different_inputs : bool :=
  let? k1 := derive_credential_key MASTER SALT "cred-abc" "lease-001" in
  let? k2 := derive_credential_key MASTER SALT "cred-xyz" "lease-001" in
  let? k3 := derive_credential_key MASTER SALT "cred-abc" "lease-002" in
  asserts [negb (assert_eq k1 k2); negb (assert_eq k1 k3); negb (assert_eq k2 k3)].
Definition test_hkdf_different_salt : bool :=
  let? k1 := derive_credential_key MASTER SALT "cred-abc" "lease-001" in
  let? k2 := derive_credential_key MASTER (as_bytes "different-salt-value!!!!!!!!!!!") "cred-abc" "lease-001" in
  negb (assert_eq k1 k2).
Definition test_hkdf_no_ambiguity : bool :=
  let? k1 := derive_credential_key MASTER SALT "cred-ab" "c-lease" in
  let? k2 := derive_credential_key MASTER SALT "cred-abc" "-lease" in
  negb (assert_eq k1 k2).

(** ** cipher.rs *)

Definition test_key : list byte := replicate 32 Byte.x42.

(** The [n]-th nonce the generator draws. *)
Definition nonce_draw (n : N) : list byte := be_bytes 12 (n + 1).

Definition test_encrypt_decrypt_roundtrip : bool :=
  let plaintext := as_bytes "hello, secure world!" in
  let? blob := encrypt (nonce_draw 0) test_key plaintext in
  let? decrypted := decrypt test_key blob in
  assert_eq decrypted plaintext.
Definition test_decrypt_wrong_key_fails : bool :=
  let key_a := replicate 32 Byte.xaa in
  let key_b := replicate 32 Byte.xbb in
  let? blob := encrypt (nonce_draw 0) key_a (as_bytes "sensitive") in
  is_err (decrypt key_b blob).
Definition test_encrypt_produces_different_nonces : bool :=
  let data := as_bytes "same plaintext" in
  let? blob1 := encrypt (nonce_draw 0) test_key data in
  let? blob2 := encrypt (nonce_draw 1) test_key data in
  negb (assert_eq (nonce blob1) (nonce blob2)).

(** ** mempool.rs *)

#[local] Existing Instance linux_mem.

(** The vector at [at], with its bytes in memory. *)
Definition stored_vec (at_ : Z) (data : list byte) : RVec * Memory :=
  (mkRVec at_ (length data) (length data),
   fold_left (fun m ib => poke (at_ + Z.of_nat ib.1) ib.2 m) (zip (seq 0 (length data)) data) (mkMemory ∅ ∅)).

Definition test_secure_buffer_access : bool :=
  let data := as_bytes "super secret credential" in
  let '(v, m) := stored_vec 8192 data in
  let '(m, _, buf) := secure_new v m in
  assert_eq (secure_deref buf m) data.
Definition test_secure_pool_insert_get_remove : bool :=
  let pool0 := pool_new in
  let blob := mkEncryptedBlob (replicate 12 Byte.x00) [Byte.x01; Byte.x02; Byte.x03] in
  let pool := pool_insert pool0 "cred-1" blob in
  let '(pool', removed) := pool_remove pool "cred-1" in
  let?? retrieved := pool_get pool "cred-1" in
  let?? removed := removed in
  asserts [pool_is_empty pool0; assert_eq (pool_len pool) 1%nat;
           assert_eq (ciphertext retrieved) [Byte.x01; Byte.x02; Byte.x03];
           assert_eq (ciphertext removed) (ciphertext blob); pool_is_empty pool'].

(** The test modules of the crate pass; the serialisation of blobs is in [SerdeTests]. *)
Theorem crypto_tests_pass :
  asserts
    [test_session_token_roundtrip; test_session_token_reject_tampered; test_lease_token_roundtrip;
     test_lease_token_reject_tampered; test_hkdf_determinism; test_hkdf_different_inputs; test_hkdf_different_salt;
     test_hkdf_no_ambiguity; test_encrypt_decrypt_roundtrip; test_decrypt_wrong_key_fails;
     test_encrypt_produces_different_nonces; test_secure_buffer_access; test_secure_pool_insert_get_remove] = true.
Proof. vm_compute. reflexivity. Qed.
