(* ===== verification/AuditTestKit.v ===== *)
(** * cdp-audit: an entry codec to run the tests with

    The JSON lines serde writes for an [AuditEntry] whose texts have no
    characters to escape: absent fields are skipped. *)

From S2P Require Import Prelude RustStr AuditLog.

#[local] Arguments String.append !_ _ /.

Definition quote_char : Ascii.ascii := Ascii.ascii_of_N 34.
Definition comma_char : Ascii.ascii := Ascii.ascii_of_N 44.

Definition json_text (s : string) : string := dquote +:+ s +:+ dquote.
Definition json_pair (key : string) (value : option string) : list string :=
  match value with Some v => [json_text key +:+ ":" +:+ json_text v] | None => [] end.

Definition entry_line (e : AuditEntry) : string :=
  let f := e_fields e in
  "{" +:+ join "," ([json_text "sequence" +:+ ":" +:+ display_Z (e_sequence e)] ++
     json_pair "timestamp" (Some (display_Z (e_timestamp e))) ++ json_pair "event" (Some (event_name (e_event e))) ++
     json_pair "lease_id" (af_lease_id f) ++ json_pair "agent_fingerprint" (af_agent_fingerprint f) ++
     json_pair "agent_binary_path" (af_agent_binary_path f) ++ json_pair "credential_ref" (af_credential_ref f) ++
     json_pair "policy_matched" (af_policy_matched f) ++ json_pair "approval_method" (af_approval_method f) ++
     json_pair "detail" (af_detail f) ++ json_pair "prev_hash" (Some (e_prev_hash e)) ++
     json_pair "hash" (Some (e_hash e))) +:+ "}".

(** The pieces between quotation marks, as members: after a key comes [:] and
    the pieces of a string, or [:], a number and a comma. *)
Fixpoint members (fuel : nat) (pieces : list string) : list (string * string) :=
  match fuel, pieces with
  | S n, key :: sep :: rest =>
      if bool_decide (sep = ":") then
        match rest with
        | value :: _ :: rest => (key, value) :: members n rest
        | _ => []
        end
      else
        match strip_prefix ":" sep with
        | Some number => (key, default EmptyString (head (splitn2 comma_char number))) :: members n rest
        | None => []
        end
  | _, _ => []
  end.

Definition member (key : string) (ms : list (string * string)) : option string :=
  snd <$> List.find (fun m => bool_decide (m.1 = key)) ms.

Definition all_events : list AuditEventType :=
  [AgentRegistered; AgentDied; LeaseRequested; LeaseApproved; LeaseDenied; LeaseGranted; LeaseUsed; LeaseRenewed;
   LeaseRevoked; LeaseExpired; LeaseDelegated; CredentialRotated; SecurityAlert; ProxyBlocked].

Definition parse_entry (line : string) : option AuditEntry :=
  let pieces := tail (split quote_char line) in
  let ms := members (length pieces) pieces in
  seq ← s ← member "sequence" ms; parse_u U64 s;
  ts ← s ← member "timestamp" ms; parse_u U64 s;
  ev ← s ← member "event" ms; List.find (fun e => bool_decide (event_name e = s)) all_events;
  ph ← member "prev_hash" ms;
  h ← member "hash" ms;
  Some (mkAuditEntry seq ts ev
          (mkAuditFields (member "lease_id" ms) (member "agent_fingerprint" ms) (member "agent_binary_path" ms)
             (member "credential_ref" ms) None (member "policy_matched" ms) (member "approval_method" ms)
             (member "detail" ms)) ph h).

#[export] Instance line_codec : EntryCodec :=
  {| entry_to_string := fun e => match af_scope (e_fields e) with
                                 | None => inl (entry_line e)
                                 | Some _ => inr "not in these tests"
                                 end;
     entry_from_str := fun s => match parse_entry s with Some e => inl e | None => inr "invalid entry" end |}.

#[export] Existing Instances plain_time plain_json.
