(* ===== verification/AuditTests.v ===== *)
(** * cdp-audit: the unit tests of logger.rs and integrity.rs

    On a host with a temporary directory, over the codec of [AuditTestKit]
    and the checksum of [CryptoTestKit]; that absent fields are skipped is
    tested in [SerdeTests]. *)

From S2P Require Import Prelude StateM RustStr AuditLog UnixHost GateAudit Asserts CryptoTestKit AuditTestKit.

#[local] Arguments String.append !_ _ /.

Section Tests.
Context `{Build}.

Definition log_path : string := path_join temp_dir "audit.jsonl".

Abbreviation LoggerAt := (string * AuditLogger)%type.

Definition t_open (p : string) : TestM Host LoggerAt := on_host (logger_open (Some p)).

(** [logger.log(..).await.unwrap()]: the line is in the file afterwards. *)
Definition t_log (l : LoggerAt) (event : AuditEventType) (fields : AuditFields) : TestM Host LoggerAt := fun h =>
  match log l.2 (h_now h) Written event fields with
  | (lg, Ok _) => Some ((l.1, lg), flushed l.1 lg (tick h))
  | _ => None
  end.

Fixpoint t_log_all (l : LoggerAt) (events : list (AuditEventType * AuditFields)) : TestM Host LoggerAt :=
  match events with
  | [] => mret l
  | e :: rest => l ← t_log l e.1 e.2; t_log_all l rest
  end.

Definition t_verify (p : string) : TestM Host ChainStatus :=
  content ← on_host (fs_read_to_string p);
  ok_of (verify_chain content).

Fixpoint decode_all (ls : list string) : option (list AuditEntry) :=
  match ls with
  | [] => Some []
  | l :: rest => match entry_from_str l with
                 | inl e => es ← decode_all rest; Some (e :: es)
                 | inr _ => None
                 end
  end.

(** Rewrite line [n] with a changed entry. *)
Definition tamper (p : string) (n : nat) (f : AuditEntry -> AuditEntry) : TestM Host unit :=
  raw ← on_host (fs_read_to_string p);
  line ← some_of (lines raw !! n);
  entry ← some_of (match entry_from_str line with inl e => Some e | inr _ => None end);
  let ls := <[n := entry_line (f entry)]> (lines raw) in
  poke (put p (File 384 (as_bytes (join (String newline EmptyString) ls +:+ String newline EmptyString)))).

Definition set_credential_ref (c : string) (e : AuditEntry) : AuditEntry :=
  let f := e_fields e in
  mkAuditEntry (e_sequence e) (e_timestamp e) (e_event e)
    (mkAuditFields (af_lease_id f) (af_agent_fingerprint f) (af_agent_binary_path f) (Some c) (af_scope f)
       (af_policy_matched f) (af_approval_method f) (af_detail f)) (e_prev_hash e) (e_hash e).
Definition set_prev_hash (ph : string) (e : AuditEntry) : AuditEntry :=
  mkAuditEntry (e_sequence e) (e_timestamp e) (e_event e) (e_fields e) ph (e_hash e).

(** [AuditFields { .., ..Default::default() }] *)
Definition of_lease (id : string) : AuditFields := mkAuditFields (Some id) None None None None None None None.
Definition of_credential (c : string) : AuditFields := mkAuditFields None None None (Some c) None None None None.

(** ** logger.rs *)

Definition make_logger (dir : string) : TestM Host LoggerAt := t_open (path_join dir "audit.jsonl").
Definition sample_fields : AuditFields := mkAuditFields (Some "lease-001") (Some "fp-abc") None None None None None None.
Definition read_entries (p : string) : TestM Host (list AuditEntry) :=
  content ← on_host (fs_read_to_string p);
  some_of (decode_all (List.filter not_blank (lines content))).

(** The [n]-th entry satisfies. *)
Definition at_entry (es : list AuditEntry) (n : nat) (k : AuditEntry -> bool) : bool := expecting (es !! n) k.
Definition linked (es : list AuditEntry) (n : nat) : bool :=
  at_entry es n (fun a => at_entry es (S n) (fun b => assert_eq (e_prev_hash b) (e_hash a))).

Definition test_single_entry_has_genesis_prev_hash : bool := run_test temp_host (
  logger ← make_logger temp_dir;
  logger ← t_log logger AgentRegistered no_fields;
  entries ← read_entries logger.1;
  mret (asserts [assert_eq (length entries) 1%nat; at_entry entries 0 (fun e => assert_eq (e_prev_hash e) "genesis");
                 at_entry entries 0 (fun e => is_some (strip_prefix "sha256:" (e_hash e)))])).
Definition test_multiple_entries_form_chain : bool := run_test temp_host (
  logger ← make_logger temp_dir;
  logger ← t_log_all logger (repeat (LeaseGranted, sample_fields) 3);
  entries ← read_entries logger.1;
  mret (asserts [assert_eq (length entries) 3%nat; at_entry entries 0 (fun e => assert_eq (e_prev_hash e) "genesis");
                 linked entries 0; linked entries 1])).
Definition test_hash_is_deterministic : bool := run_test temp_host (
  logger ← make_logger temp_dir;
  logger ← t_log logger LeaseGranted sample_fields;
  entries ← read_entries logger.1;
  mret (asserts [assert_eq (length entries) 1%nat;
                 at_entry entries 0 (fun e => assert_eq (e_hash e) (compute_entry_hash e))])).
Definition test_resume_from_existing_file : bool := run_test temp_host (
  logger ← t_open log_path;
  _ ← t_log_all logger [(AgentRegistered, no_fields); (LeaseGranted, sample_fields)];
  logger ← t_open log_path;
  _ ← t_log logger LeaseUsed no_fields;
  entries ← read_entries log_path;
  mret (asserts [assert_eq (length entries) 3%nat; at_entry entries 2 (fun e => e_sequence e =? 3); linked entries 0;
                 linked entries 1])).
(** [mode & 0o777 == 0o600] *)
Definition test_file_permissions_are_0600 : bool := run_test temp_host (
  logger ← make_logger temp_dir;
  node ← peek (fun h => h_fs h !! logger.1);
  mret (Z.land (node_mode node) 511 =? 384)).
Definition test_event_type_serialization : bool :=
  let cases := [(AgentRegistered, "agent.registered"); (AgentDied, "agent.died"); (LeaseRequested, "lease.requested");
                (LeaseApproved, "lease.approved"); (LeaseDenied, "lease.denied"); (LeaseGranted, "lease.granted");
                (LeaseUsed, "lease.used"); (LeaseRenewed, "lease.renewed"); (LeaseRevoked, "lease.revoked");
                (LeaseExpired, "lease.expired"); (LeaseDelegated, "lease.delegated");
                (CredentialRotated, "credential.rotated"); (SecurityAlert, "security.alert");
                (ProxyBlocked, "proxy.blocked")] in
  forallb (fun case => assert_eq (event_name case.1) case.2) cases.

(** ** integrity.rs *)

Definition lease_number (i : nat) : string := "lease-" +:+ display_Z (Z.of_nat i).
Definition cred_number (i : nat) : string := "cred-" +:+ display_Z (Z.of_nat i).

(** [assert_eq!(status, ChainStatus::Valid { entries })] and a break at a
    sequence number. *)
Definition chain_valid (n : Z) (s : ChainStatus) : bool := match s with Valid k => k =? n | _ => false end.
Definition broken_at (n : Z) (s : ChainStatus) : bool := match s with Broken k _ _ => k =? n | _ => false end.

Definition test_valid_chain : bool := run_test temp_host (
  logger ← t_open log_path;
  _ ← t_log_all logger (map (fun i => (LeaseGranted, of_lease (lease_number i))) (seq 0 5));
  status ← t_verify log_path;
  mret (chain_valid 5 status)).
Definition test_empty_file_returns_empty : bool := run_test temp_host (
  _ ← on_host (fs_write log_path []);
  status ← t_verify log_path;
  mret (match status with Empty => true | _ => false end)).
Definition test_tampered_entry_detected : bool := run_test temp_host (
  logger ← t_open log_path;
  _ ← t_log_all logger (map (fun i => (LeaseGranted, of_credential (cred_number i))) (seq 0 5));
  _ ← tamper log_path 2 (set_credential_ref "TAMPERED");
  status ← t_verify log_path;
  mret (broken_at 3 status)).
Definition test_broken_prev_hash_detected : bool := run_test temp_host (
  logger ← t_open log_path;
  _ ← t_log_all logger (repeat (AgentRegistered, no_fields) 3);
  _ ← tamper log_path 1 (set_prev_hash "sha256:deadbeefdeadbeef");
  status ← t_verify log_path;
  mret (broken_at 2 status)).

(** The test modules of [logger.rs] and [integrity.rs] pass. *)
Theorem audit_tests_pass :
  asserts
    [test_single_entry_has_genesis_prev_hash; test_multiple_entries_form_chain; test_hash_is_deterministic;
     test_resume_from_existing_file; test_file_permissions_are_0600; test_event_type_serialization; test_valid_chain;
     test_empty_file_returns_empty; test_tampered_entry_detected; test_broken_prev_hash_detected] = true.
Proof. vm_compute. reflexivity. Qed.
End Tests.
