(* ===== verification/TomlTestKit.v ===== *)
(** * A reader of TOML to run the tests with

    Tables and arrays of tables whose values are strings without escapes,
    unsigned integers, booleans and arrays of strings; over it the structures
    serde derives for a policy file and for the gate's configuration, with the
    defaults their attributes name.  A test writes its documents with
    apostrophes for quotation marks. *)

From S2P Require Import Prelude RustStr PolicyTypes PolicyParser UnixHost GateConfig.
From S2P Require ProxyTestKit.

Inductive Toml : Type :=
| TStr (s : string)
| TInt (s : string)
| TBool (b : bool)
| TArr (l : list string).

Definition Table : Type := list (string * Toml).

(** [[name]] or [[[name]]] and the pairs under it. *)
Record TomlSection : Type := mkTomlSection { ts_name : string; ts_element : bool; ts_table : Table }.

(** ** Reading *)

Definition char (n : N) : Ascii.ascii := Ascii.ascii_of_N n.

Fixpoint drop_last (s : string) : string :=
  match s with
  | String _ EmptyString => EmptyString
  | String c s' => String c (drop_last s')
  | EmptyString => EmptyString
  end.

(** What is between [l] and [r]. *)
Definition between (l r s : string) : option string :=
  inner ← strip_prefix l s;
  let n := (String.length inner - String.length r)%nat in
  if bool_decide (String.substring n (String.length r) inner = r)
  then Some (String.substring 0 n inner) else None.

Definition read_string (s : string) : option string :=
  t ← between dquote dquote (trim s);
  if str_contains t dquote then None else Some t.

Fixpoint read_strings (l : list string) : option (list string) :=
  match l with
  | [] => Some []
  | x :: rest => s ← read_string x; ss ← read_strings rest; Some (s :: ss)
  end.

Definition read_value (s : string) : option Toml :=
  if bool_decide (s = "true") then Some (TBool true)
  else if bool_decide (s = "false") then Some (TBool false)
  else if bool_decide (s = "[]") then Some (TArr [])
  else match between "[" "]" s with
       | Some inner => TArr <$> read_strings (split (char 44) inner)
       | None => match read_string s with
                 | Some t => Some (TStr t)
                 | None => if bool_decide (is_Some (parse_u U64 s)) then Some (TInt s) else None
                 end
       end.

Definition is_key (s : string) : bool :=
  negb (bool_decide (s = EmptyString)) && forallb (fun c => negb (str_contains s c)) [" "; "["; "]"; dquote].

(** The sections in reverse, the pairs of each in order. *)
Fixpoint read_lines (done : list TomlSection) (ls : list string) : option (list TomlSection) :=
  match ls with
  | [] => Some (rev done)
  | l :: rest =>
      let l := trim l in
      if bool_decide (l = EmptyString) then read_lines done rest
      else match between "[[" "]]" l with
           | Some n => if is_key n then read_lines (mkTomlSection n true [] :: done) rest else None
           | None =>
               match between "[" "]" l with
               | Some n => if is_key n then read_lines (mkTomlSection n false [] :: done) rest else None
               | None =>
                   match splitn2 (char 61) l, done with
                   | [k; v], sec :: done =>
                       value ← read_value (trim v);
                       if is_key (trim k)
                       then read_lines (mkTomlSection (ts_name sec) (ts_element sec)
                                          (ts_table sec ++ [(trim k, value)]) :: done) rest
                       else None
                   | _, _ => None
                   end
               end
           end
  end.

Definition read_toml (text : string) : option (list TomlSection) := read_lines [mkTomlSection EmptyString false []] (lines text).

(** ** Fields *)

Definition lookup_key (t : Table) (k : string) : option Toml := snd <$> List.find (fun p => bool_decide (p.1 = k)) t.

(** A field that may be absent; a value of another type is an error. *)
Definition field {A : Type} (decode : Toml -> option A) (t : Table) (k : string) : option (option A) :=
  match lookup_key t k with Some v => Some <$> decode v | None => Some None end.
Definition field_or {A : Type} (decode : Toml -> option A) (d : A) (t : Table) (k : string) : option A :=
  default d <$> field decode t k.
Definition required {A : Type} (decode : Toml -> option A) (t : Table) (k : string) : option A :=
  v ← lookup_key t k; decode v.

Definition text (v : Toml) : option string := match v with TStr s => Some s | _ => None end.
Definition flag (v : Toml) : option bool := match v with TBool b => Some b | _ => None end.
Definition texts (v : Toml) : option (list string) := match v with TArr l => Some l | _ => None end.
Definition number (m : Z) (v : Toml) : option Z := match v with TInt s => parse_u m s | _ => None end.

Definition section (n : string) (l : list TomlSection) : option Table :=
  ts_table <$> List.find (fun s => bool_decide (ts_name s = n) && negb (ts_element s)) l.

(** ** Policy files *)

(** The sections from each [[[policy]]] to the next. *)
Fixpoint elements (l : list TomlSection) : list (list TomlSection) :=
  match l with
  | [] => []
  | s :: rest =>
      match elements rest with
      | e :: es => if ts_element s then [] :: (s :: e) :: es else (s :: e) :: es
      | [] => if ts_element s then [[]; [s]] else [[s]]
      end
  end.

Definition read_match (t : Table) : option PolicyMatch :=
  hash ← field text t "agent_binary_hash"; path ← field text t "agent_binary_path"; id ← field text t "agent_id";
  cred ← required text t "credential_ref";
  Some (mkPolicyMatch hash path id cred).

Definition read_body (t : Table) : option BodyConstraints :=
  fields ← field_or texts [] t "forbidden_fields"; size ← field (number U64) t "max_size_bytes";
  types ← field_or texts [] t "allowed_content_types";
  Some (mkBodyConstraints fields size types).

Definition read_network (t : Table) : option NetworkConstraints :=
  follow ← field_or flag false t "follow_redirects"; dns ← required text t "dns_resolution";
  ranges ← field_or texts [] t "allowed_ip_ranges";
  Some (mkNetworkConstraints follow dns ranges).

(** A sub-table that may be absent. *)
Definition sub {A : Type} (read : Table -> option A) (n : string) (l : list TomlSection) : option (option A) :=
  match section n l with Some t => Some <$> read t | None => Some None end.

Definition read_allow (l : list TomlSection) : option PolicyAllow :=
  t ← section "policy.allow" l;
  hosts ← field_or texts [] t "hosts"; methods ← field_or texts [] t "methods"; paths ← field_or texts [] t "paths";
  forbidden ← field_or texts [] t "forbidden_paths"; ttl ← field (number U64) t "max_ttl_seconds";
  requests ← field (number U64) t "max_requests_per_lease"; renewals ← field (number U32) t "max_renewals";
  cumulative ← field (number U64) t "max_cumulative_ttl_seconds";
  renewable ← field_or flag default_renewable t "renewable";
  body ← sub read_body "policy.allow.body_constraints" l; network ← sub read_network "policy.allow.network" l;
  Some (mkPolicyAllow hosts methods paths forbidden ttl requests renewals cumulative renewable body network).

Definition read_approval (t : Table) : option PolicyApproval :=
  mkPolicyApproval <$> field_or text default_approval_mode t "mode".

Definition read_delegation (t : Table) : option PolicyDelegation :=
  allowed ← field_or flag false t "allowed"; depth ← field (number U32) t "max_depth";
  approve ← field_or flag false t "require_approval_for_delegate";
  Some (mkPolicyDelegation allowed depth approve).

Definition read_entry (l : list TomlSection) : option PolicyEntry :=
  top ← head l;
  name ← required text (ts_table top) "name"; description ← field_or text EmptyString (ts_table top) "description";
  mt ← section "policy.match" l; mb ← read_match mt; allow ← read_allow l;
  approval ← sub read_approval "policy.approval" l; delegation ← sub read_delegation "policy.delegation" l;
  Some (mkPolicyEntry name description mb allow (default PolicyTypes.default_approval approval)
          (default default_delegation delegation)).

Definition read_policy_file (doc : string) : option PolicyFile :=
  l ← read_toml doc;
  es ← mapM read_entry (tail (elements l));
  if existsb ts_element l then Some (mkPolicyFile es) else None.

Definition toml_policies (doc : string) : PolicyFile + string :=
  match read_policy_file doc with Some f => inl f | None => inr "TOML parse error" end.

(** A file system with one directory of files. *)
Definition dir_fs (dir : string) (files : list (string * string)) : PolicyFs := {|
  path_exists := fun p => bool_decide (p = dir);
  path_is_dir := fun p => bool_decide (p = dir);
  read_dir := fun p => if bool_decide (p = dir) then inl (map (fun f => Some f.1) files) else inr "No such file or directory (os error 2)";
  read_to_string := fun p n =>
    match List.find (fun f => bool_decide (f.1 = n)) files with
    | Some f => if bool_decide (p = dir) then inl f.2 else inr "No such file or directory (os error 2)"
    | None => inr "No such file or directory (os error 2)"
    end;
  toml_from_str := toml_policies
|}.

Definition requote : string -> string := ProxyTestKit.requote.

(** ** The gate's configuration: every field has a default *)

Definition table (n : string) (l : list TomlSection) : Table := default [] (section n l).

Definition read_tls (l : list TomlSection) : option TlsSection :=
  let t := table "gate.tls" l in let d := default_tls in
  enabled ← field_or flag (tls_enabled d) t "enabled"; bind ← field_or text (tls_bind_address d) t "bind_address";
  cert ← field_or text (cert_path d) t "cert_path"; key ← field_or text (key_path d) t "key_path";
  ca ← field_or text (client_ca_path d) t "client_ca_path";
  Some (mkTlsSection enabled bind cert key ca).

Definition read_gate (h : Host) (l : list TomlSection) : option GateSection :=
  let t := table "gate" l in let d := default_gate h in
  sock ← field_or text (gs_socket_path d) t "socket_path"; level ← field_or text (log_level d) t "log_level";
  audit ← field_or text (audit_log_path d) t "audit_log_path";
  fp ← field_or text (fingerprint_path d) t "fingerprint_path"; tls ← read_tls l;
  Some (mkGateSection sock level audit fp tls).

Definition read_vault (l : list TomlSection) : option VaultSection :=
  let t := table "vault" l in let d := default_vault in
  let b := table "vault.bitwarden" l in let f := table "vault.file" l in
  backend ← field_or text (backend d) t "backend"; sandbox ← field_or flag (subprocess_sandbox d) t "subprocess_sandbox";
  cli ← field_or text (cli_path default_bitwarden) b "cli_path";
  minutes ← field_or (number U64) (session_timeout_minutes default_bitwarden) b "session_timeout_minutes";
  path ← field_or text (file_path default_file) f "path";
  Some (mkVaultSection backend sandbox (mkBitwardenSection cli minutes) (mkFileSection path)).

Definition read_approval_section (l : list TomlSection) : option ApprovalSection :=
  let t := table "approval" l in let d := default_approval in
  how ← field_or text (default_method d) t "default_method"; gui ← field_or text (as_gui_command d) t "gui_command";
  timeout ← field_or (number U64) (as_timeout_seconds d) t "timeout_seconds";
  cooldown ← field_or (number U64) (cooldown_seconds d) t "cooldown_seconds";
  hash ← field_or flag (as_show_binary_hash d) t "show_binary_hash";
  label ← field_or flag (as_label_reason_untrusted d) t "label_reason_untrusted";
  max ← field_or (number U64) (as_max_reason_length d) t "max_reason_length";
  Some (mkApprovalSection how gui timeout cooldown hash label max).

Definition read_security (l : list TomlSection) : option SecuritySection :=
  let t := table "security" l in let d := default_security in
  let n := table "security.dns" l in let p := table "security.proxy" l in
  depth ← field_or (number U32) (max_delegation_depth d) t "max_delegation_depth";
  ttl ← field_or (number U64) (default_lease_ttl_seconds d) t "default_lease_ttl_seconds";
  max_ttl ← field_or (number U64) (max_lease_ttl_seconds d) t "max_lease_ttl_seconds";
  renewals ← field_or (number U32) (max_renewals_per_lease d) t "max_renewals_per_lease";
  cumulative ← field_or (number U64) (max_cumulative_ttl_seconds d) t "max_cumulative_ttl_seconds";
  remote ← field_or (number U64) (remote_max_ttl_seconds d) t "remote_max_ttl_seconds";
  single ← field_or flag (remote_single_use d) t "remote_single_use";
  memory ← field_or flag (encrypted_memory d) t "encrypted_memory";
  keys ← field_or flag (per_credential_keys d) t "per_credential_keys";
  dumps ← field_or flag (disable_core_dumps d) t "disable_core_dumps";
  hash ← field_or flag (require_binary_hash_for_auto d) t "require_binary_hash_for_auto";
  signing ← field_or flag (policy_signing d) t "policy_signing";
  signing_key ← field_or text (policy_signing_key d) t "policy_signing_key";
  window ← field_or (number U64) (nonce_window_seconds d) t "nonce_window_seconds";
  entries ← field_or (number U64) (nonce_max_entries d) t "nonce_max_entries";
  pin ← field_or flag (pin_at_lease_creation default_dns) n "pin_at_lease_creation";
  dynamic ← field_or flag (allow_dynamic_dns default_dns) n "allow_dynamic_dns";
  follow ← field_or flag (follow_redirects default_security_proxy) p "follow_redirects";
  cookie ← field_or flag (strip_set_cookie default_security_proxy) p "strip_set_cookie";
  echo ← field_or flag (strip_auth_echo default_security_proxy) p "strip_auth_echo";
  Some (mkSecuritySection depth ttl max_ttl renewals cumulative remote single memory keys dumps hash signing
          signing_key window entries (mkDnsSection pin dynamic) (mkSecurityProxySection follow cookie echo)).

Definition read_proxy (l : list TomlSection) : option ProxySection :=
  let t := table "proxy" l in let d := default_proxy in
  bind ← field_or text (ps_bind_address d) t "bind_address"; ports ← field_or text (port_range d) t "port_range";
  Some (mkProxySection bind ports).

Definition read_browser (l : list TomlSection) : option BrowserSection :=
  let t := table "browser" l in let d := default_browser in
  how ← field_or text (sandbox_method d) t "sandbox_method"; mode ← field_or text (default_mode d) t "default_mode";
  hours ← field_or (number U64) (mitm_ca_validity_hours d) t "mitm_ca_validity_hours";
  constrained ← field_or flag (mitm_ca_name_constrained d) t "mitm_ca_name_constrained";
  kill ← field_or flag (kill_after_snapshot d) t "kill_after_snapshot";
  Some (mkBrowserSection how mode hours constrained kill).

Definition read_gate_config (h : Host) (doc : string) : option GateConfig :=
  l ← read_toml doc;
  g ← read_gate h l; v ← read_vault l; a ← read_approval_section l; s ← read_security l; p ← read_proxy l;
  b ← read_browser l;
  Some (mkGateConfig g v a s p b).

#[export] Instance toml_config : ConfigToml :=
  {| config_from_str := fun h doc => match read_gate_config h doc with Some c => inl c | None => inr "TOML parse error" end |}.
