(* ===== verification/PolicyFileTests.v ===== *)
(** * cdp-policy: the unit tests of parser.rs, watcher.rs and lib.rs

    Over the reader of [TomlTestKit] and directories that hold the files the
    tests write. *)

From S2P Require Import Prelude RustStr PolicyTypes PolicyParser PolicyEvaluator PolicyEngine PolicyWatcher Asserts TomlTestKit.

#[local] Arguments String.append !_ _ /.

Section Tests.
Context `{Fmt}.

Definition temp_dir : string := "/tmp/policies".
Definition load (files : list (string * string)) : result (list PolicyEntry) PolicyError :=
  load_policies_from_dir (H0:=dir_fs temp_dir files) temp_dir.

(** [let pf = toml::from_str(..).expect(..); ... &pf.policies[0]] *)
Definition parsed (doc : string) (k : list PolicyEntry -> bool) : bool :=
  match toml_policies doc with inl pf => k (policies pf) | inr _ => false end.
Definition parsed_entry (doc : string) (k : PolicyEntry -> bool) : bool :=
  parsed doc (fun es => expecting (head es) k).

Definition validation_error (name reason : string) (e : PolicyError) : bool :=
  match e with Validation n r => bool_decide (n = name) && str_contains r reason | _ => false end.
Definition parse_failure (file reason : string) (e : PolicyError) : bool :=
  match e with Parse f r => bool_decide (f = file) && str_contains r reason | _ => false end.
(** [err.to_string().contains(..)] *)
Definition reason_mentions (m : string) (e : PolicyError) : bool :=
  match e with Validation _ r => str_contains r m | _ => false end.

Definition accepted (e : PolicyEntry) : bool := negb (is_err (validate_policy e)).

(** ** parser.rs *)

Definition optional_line (key : string) (value : option string) : string :=
  match value with Some v => key +:+ " = '" +:+ v +:+ "'" +:+ String newline EmptyString | None => EmptyString end.
Definition make_policy_toml (name mode : string) (agent_binary_hash agent_binary_path agent_id : option string) : string :=
  requote ("
[[policy]]
name = '" +:+ name +:+ "'
description = 'Test policy'

[policy.match]
credential_ref = 'test_cred'
" +:+ optional_line "agent_binary_hash" agent_binary_hash +:+ optional_line "agent_binary_path" agent_binary_path +:+
  optional_line "agent_id" agent_id +:+ "
[policy.allow]
hosts = ['api.example.com']
methods = ['GET']

[policy.approval]
mode = '" +:+ mode +:+ "'
").

Definition full_policy_parses_correctly : bool :=
  let toml := requote "
[[policy]]
name = 'github-readonly'
description = 'Allow MCP GitHub server read-only API access'

[policy.match]
agent_binary_hash = 'sha256:abcdef1234567890abcdef1234567890abcdef1234567890abcdef1234567890'
credential_ref = 'github_api'

[policy.allow]
hosts = ['api.github.com']
methods = ['GET']
paths = ['/repos/**', '/users/**']
forbidden_paths = ['/repos/*/keys', '/repos/*/hooks']
max_ttl_seconds = 3600
max_requests_per_lease = 100
max_renewals = 3
max_cumulative_ttl_seconds = 7200
renewable = true

[policy.allow.body_constraints]
forbidden_fields = ['admin', 'deploy_key', 'delete']
max_size_bytes = 65536

[policy.allow.network]
follow_redirects = false
dns_resolution = 'pinned'
allowed_ip_ranges = []

[policy.approval]
mode = 'auto'

[policy.delegation]
allowed = true
max_depth = 2
require_approval_for_delegate = false
" in
  parsed toml (fun es => assert_eq (length es) 1%nat) &&
  parsed_entry toml (fun e =>
    let allow := pe_allow e in
    asserts [assert_eq (pe_name e) "github-readonly";
             assert_eq (pe_description e) "Allow MCP GitHub server read-only API access";
             assert_eq (pm_agent_binary_hash (pe_match_block e))
               (Some "sha256:abcdef1234567890abcdef1234567890abcdef1234567890abcdef1234567890");
             assert_eq (pm_credential_ref (pe_match_block e)) "github_api"; assert_eq (pa_hosts allow) ["api.github.com"];
             assert_eq (pa_methods allow) ["GET"]; assert_eq (pa_paths allow) ["/repos/**"; "/users/**"];
             assert_eq (pa_forbidden_paths allow) ["/repos/*/keys"; "/repos/*/hooks"];
             assert_eq (pa_max_ttl_seconds allow) (Some 3600); assert_eq (pa_max_requests_per_lease allow) (Some 100);
             assert_eq (pa_max_renewals allow) (Some 3); assert_eq (pa_max_cumulative_ttl_seconds allow) (Some 7200);
             pa_renewable allow;
             expecting (pa_body_constraints allow) (fun bc =>
               assert_eq (bc_forbidden_fields bc) ["admin"; "deploy_key"; "delete"] &&
               assert_eq (bc_max_size_bytes bc) (Some 65536));
             expecting (pa_network allow) (fun nc =>
               negb (n_follow_redirects nc) && assert_eq (n_dns_resolution nc) "pinned" &&
               is_empty_vec (n_allowed_ip_ranges nc));
             assert_eq (mode (pe_approval e)) "auto"; pd_allowed (pe_delegation e);
             assert_eq (pd_max_depth (pe_delegation e)) (Some 2);
             negb (pd_require_approval_for_delegate (pe_delegation e)); accepted e]).

Definition auto_approve_with_only_agent_id_is_rejected : bool :=
  let toml := make_policy_toml "bad-auto" "auto" None None (Some "my-agent") in
  parsed_entry toml (fun e => unwrapping_err (validate_policy e) (validation_error "bad-auto" "agent_binary_hash")).
Definition auto_approve_with_binary_hash_is_accepted : bool :=
  let hash := "sha256:abcdef1234567890abcdef1234567890abcdef1234567890abcdef1234567890" in
  parsed_entry (make_policy_toml "hash-auto" "auto" (Some hash) None None) accepted.
Definition auto_approve_with_only_binary_path_is_rejected : bool :=
  let toml := make_policy_toml "path-auto" "auto" None (Some "/usr/bin/my-agent") None in
  parsed_entry toml (fun e => unwrapping_err (validate_policy e) (reason_mentions "agent_binary_hash")).
Definition auto_approve_with_hash_and_path_is_accepted : bool :=
  let hash := "sha256:abcdef1234567890abcdef1234567890abcdef1234567890abcdef1234567890" in
  parsed_entry (make_policy_toml "both-auto" "auto" (Some hash) (Some "/usr/bin/my-agent") None) accepted.

Definition missing_optional_fields_use_defaults : bool :=
  let toml := requote "
[[policy]]
name = 'minimal'

[policy.match]
credential_ref = 'some_cred'

[policy.allow]
hosts = ['example.com']
" in
  parsed_entry toml (fun e =>
    asserts [assert_eq (pe_description e) EmptyString; pa_renewable (pe_allow e);
             assert_eq (mode (pe_approval e)) "prompt"; negb (pd_allowed (pe_delegation e));
             is_none (pd_max_depth (pe_delegation e)); negb (pd_require_approval_for_delegate (pe_delegation e));
             is_none (pa_body_constraints (pe_allow e)); is_none (pa_network (pe_allow e))]).

Definition multiple_policy_entries_in_one_file : bool :=
  let toml := requote "
[[policy]]
name = 'first'

[policy.match]
credential_ref = 'cred_a'

[policy.allow]
hosts = ['host-a.example.com']

[[policy]]
name = 'second'

[policy.match]
credential_ref = 'cred_b'
agent_binary_hash = 'sha256:abcdef1234567890abcdef1234567890abcdef1234567890abcdef1234567890'
agent_binary_path = '/usr/bin/agent-b'

[policy.allow]
hosts = ['host-b.example.com']

[policy.approval]
mode = 'auto'
" in
  parsed toml (fun es => assert_eq (map pe_name es) ["first"; "second"] && forallb accepted es).

Definition wildcard_credential_ref_is_valid : bool :=
  let toml := requote "
[[policy]]
name = 'wildcard-cred'

[policy.match]
credential_ref = '*'

[policy.allow]
hosts = ['example.com']
" in
  parsed_entry toml accepted.

Definition malformed_toml_returns_parse_error : bool :=
  unwrapping_err (load [("bad.toml", "this is [[[not valid toml")]) (parse_failure "bad.toml" EmptyString).

Definition byte_at (l : list byte) (i : nat) (b : byte) : bool := bool_decide (l !! i = Some b).
Definition parse_binary_hash_valid : bool :=
  let raw := "sha256:abcdef1234567890abcdef1234567890abcdef1234567890abcdef1234567890" in
  let? bytes := parse_binary_hash raw in
  asserts [assert_eq (length bytes) 32%nat; byte_at bytes 0 Byte.xab; byte_at bytes 1 Byte.xcd; byte_at bytes 2 Byte.xef].
Definition parse_binary_hash_invalid_prefix : bool :=
  unwrapping_err (parse_binary_hash "md5:abcdef1234567890abcdef1234567890") (parse_failure "<none>" "sha256:").
Definition parse_binary_hash_wrong_length : bool :=
  unwrapping_err (parse_binary_hash "sha256:abcdef1234567890abcdef1234567890") (parse_failure "<none>" "32 bytes").

Definition load_policies_from_dir_multiple_files : bool :=
  let toml_a := requote "
[[policy]]
name = 'policy-a'

[policy.match]
credential_ref = 'cred_a'

[policy.allow]
hosts = ['a.example.com']
" in
  let toml_b := requote "
[[policy]]
name = 'policy-b'

[policy.match]
credential_ref = 'cred_b'

[policy.allow]
hosts = ['b.example.com']

[[policy]]
name = 'policy-c'

[policy.match]
credential_ref = 'cred_c'

[policy.allow]
hosts = ['c.example.com']
" in
  let? entries := load [("a.toml", toml_a); ("b.toml", toml_b)] in
  let names := map pe_name entries in
  asserts [assert_eq (length entries) 3%nat; contains names "policy-a"; contains names "policy-b";
           contains names "policy-c"].
Definition load_policies_from_dir_empty_dir_returns_empty_vec : bool :=
  let? entries := load [] in is_empty_vec entries.
Definition load_policies_from_dir_nonexistent_returns_directory_not_found : bool :=
  unwrapping_err (load_policies_from_dir (H0:=dir_fs temp_dir []) "/tmp/cdp-policy-nonexistent-dir-abc123")
    (fun e => match e with DirectoryNotFound _ => true | _ => false end).

Definition invalid_approval_mode_is_rejected : bool :=
  let toml := requote "
[[policy]]
name = 'bad-mode'

[policy.match]
credential_ref = 'some_cred'

[policy.allow]
hosts = ['example.com']

[policy.approval]
mode = 'always'
" in
  parsed_entry toml (fun e =>
    unwrapping_err (validate_policy e) (validation_error "bad-mode" (requote "'auto' or 'prompt'"))).

Definition load_policies_from_dir_ignores_non_toml_files : bool :=
  let valid_toml := requote "
[[policy]]
name = 'only-policy'

[policy.match]
credential_ref = 'cred'

[policy.allow]
hosts = ['example.com']
" in
  let? entries := load [("policy.toml", valid_toml); ("notes.txt", "this is not toml");
                        ("config.json", requote "{'not': 'toml'}")] in
  assert_eq (map pe_name entries) ["only-policy"].

Definition empty_credential_ref_is_rejected : bool :=
  let toml := requote "
[[policy]]
name = 'empty-cred'

[policy.match]
credential_ref = '   '

[policy.allow]
hosts = ['example.com']
" in
  parsed_entry toml (fun e =>
    unwrapping_err (validate_policy e) (validation_error "empty-cred" "credential_ref must not be empty")).

Definition parse_binary_hash_non_hex_chars : bool :=
  let raw := "sha256:gggggggggggggggggggggggggggggggggggggggggggggggggggggggggggggggg" in
  unwrapping_err (parse_binary_hash raw) (parse_failure "<none>" "not valid hexadecimal").
Definition parse_binary_hash_all_zeros : bool :=
  let raw := "sha256:0000000000000000000000000000000000000000000000000000000000000000" in
  let? bytes := parse_binary_hash raw in assert_eq bytes (replicate 32 Byte.x00).
Definition parse_binary_hash_uppercase_hex : bool :=
  let raw := "sha256:ABCDEF1234567890ABCDEF1234567890ABCDEF1234567890ABCDEF1234567890" in
  let? bytes := parse_binary_hash raw in byte_at bytes 0 Byte.xab && byte_at bytes 1 Byte.xcd.

Definition empty_policy_name_is_rejected : bool :=
  let toml := requote "
[[policy]]
name = ''
[policy.match]
credential_ref = 'cred'
[policy.allow]
hosts = ['example.com']
" in
  parsed_entry toml (fun e => unwrapping_err (validate_policy e) (reason_mentions "name must not be empty")).
Definition long_policy_name_is_rejected : bool :=
  let long_name := concat_str (replicate 200 "a") in
  let toml := requote ("
[[policy]]
name = '" +:+ long_name +:+ "'
[policy.match]
credential_ref = 'cred'
[policy.allow]
hosts = ['example.com']
") in
  parsed_entry toml (fun e => unwrapping_err (validate_policy e) (reason_mentions "128 characters")).
Definition max_renewals_exceeding_protocol_limit_is_rejected : bool :=
  let toml := requote "
[[policy]]
name = 'too-many-renewals'
[policy.match]
credential_ref = 'cred'
[policy.allow]
hosts = ['example.com']
max_renewals = 10
" in
  parsed_entry toml (fun e => unwrapping_err (validate_policy e) (reason_mentions "exceeds protocol maximum of 3")).
Definition max_cumulative_ttl_exceeding_protocol_limit_is_rejected : bool :=
  let toml := requote "
[[policy]]
name = 'too-long-ttl'
[policy.match]
credential_ref = 'cred'
[policy.allow]
hosts = ['example.com']
max_cumulative_ttl_seconds = 99999
" in
  parsed_entry toml (fun e => unwrapping_err (validate_policy e) (reason_mentions "14400")).
Definition max_renewals_at_protocol_limit_is_accepted : bool :=
  let toml := requote "
[[policy]]
name = 'ok-renewals'
[policy.match]
credential_ref = 'cred'
[policy.allow]
hosts = ['example.com']
max_renewals = 3
" in
  parsed_entry toml accepted.

(** ** watcher.rs *)

Definition is_known_editor_known_names : bool := forallb (fun name => is_known_editor ("/usr/bin/" +:+ name)) KNOWN_EDITORS.
Definition is_known_editor_unknown_names : bool :=
  let unknowns := ["/usr/bin/curl"; "/bin/sh"; "/usr/bin/python3"; "/usr/local/bin/my-script"; "/proc/self/exe"] in
  forallb (fun path_str => negb (is_known_editor path_str)) unknowns.
Definition is_known_editor_full_path_to_known_editor : bool :=
  forallb is_known_editor ["/usr/local/bin/nvim"; "/usr/bin/vim"; "/usr/bin/code"].
Definition is_known_editor_empty_path_returns_false : bool := negb (is_known_editor EmptyString).

(** The channel of the tests has no engine behind it. *)
Definition dir_engine : PolicyEngine :=
  mkPolicyEngine (mkPolicyEvaluator []) temp_dir (mkApprovalConfig "echo" 5 true true 200).

Definition policy_watcher_new_stores_dir : bool :=
  assert_eq (PolicyEngine.policy_dir (w_engine (watcher_start (dir_fs temp_dir []) dir_engine))) temp_dir.

(** The watcher's turn: it opens its watch, or takes what the watch recorded
    and loads the directory, or hands over what it loaded. *)
Definition watcher_turn (receiver : bool) (w : Watching) : Watching :=
  match w_phase w with
  | Unarmed => set_phase w (Armed [])
  | Armed [] => w
  | Armed q => set_phase w (Settling q)
  | Settling _ => reload_round w
  | Sending entries =>
      if negb receiver then set_phase w Stopped
      else if bool_decide (length (w_channel w) < RELOAD_CAPACITY)%nat then send_entries entries w else w
  | Stopped => w
  end.

(** The watcher starts, the test writes a file, the watcher runs on. *)
Definition watcher_run (receiver : bool) (before after : list (string * string)) (name : string) : Watching :=
  let w := watcher_turn receiver (watcher_start (dir_fs temp_dir before) dir_engine) in
  watcher_turn receiver (watcher_turn receiver (watcher_turn receiver (disk_change (dir_fs temp_dir after) (Some name) w))).

Definition watcher_fires_on_file_creation : bool :=
  let policy_toml := requote "
[[policy]]
name = 'test-policy'

[policy.match]
credential_ref = 'test_cred'

[policy.allow]
hosts = ['example.com']
methods = ['GET']
" in
  let w := watcher_run true [] [("test.toml", policy_toml)] "test.toml" in
  assert_eq (map (map pe_name) (w_channel w)) [["test-policy"]].
Definition watcher_exits_when_receiver_dropped : bool :=
  let policy_toml := requote "
[[policy]]
name = 'exit-test'

[policy.match]
credential_ref = 'cred'

[policy.allow]
hosts = ['example.com']
" in
  match w_phase (watcher_run false [] [("exit.toml", policy_toml)] "exit.toml") with Stopped => true | _ => false end.
Definition watcher_sends_updated_entries_on_modify : bool :=
  let initial_toml := requote "
[[policy]]
name = 'initial'

[policy.match]
credential_ref = 'cred'

[policy.allow]
hosts = ['example.com']
" in
  let updated_toml := requote "
[[policy]]
name = 'updated'

[policy.match]
credential_ref = 'cred'

[policy.allow]
hosts = ['updated.example.com']
" in
  let w := watcher_run true [("policy.toml", initial_toml)] [("policy.toml", updated_toml)] "policy.toml" in
  let?? entries := head (w_channel w) in
  asserts [assert_eq (map pe_name entries) ["updated"];
           assert_eq (map (fun e => pm_credential_ref (pe_match_block e)) entries) ["cred"]].

(** ** lib.rs *)

Definition approval_settings : ApprovalConfig := mkApprovalConfig "echo" 5 true true 200.
Definition create_dir (fs : PolicyFs) (dir : string) : PolicyFs + string := inl (dir_fs dir []).

Definition hash_agent : AgentInfo :=
  mkAgentInfo 1000 42 "/usr/bin/agent" (replicate 32 Byte.xab) 1234 (replicate 32 Byte.xcd) (Some "test") None.

Definition new_engine_with_empty_dir : bool :=
  let? engine := engine_new create_dir (dir_fs temp_dir []) temp_dir approval_settings in
  assert_eq (engine_policy_count engine) 0%nat.
Definition new_engine_creates_missing_dir : bool :=
  let policy_dir := path_join temp_dir "policies" in
  negb (is_err (engine_new create_dir (dir_fs temp_dir []) policy_dir approval_settings)).
Definition evaluate_denies_with_no_policies : bool :=
  let? engine := engine_new create_dir (dir_fs temp_dir []) temp_dir approval_settings in
  let? decision := engine_evaluate engine hash_agent "some_cred" default_scope in
  match decision with Denied _ => true | _ => false end.
Definition evaluate_with_loaded_policy : bool :=
  let hash_hex := concat_str (replicate 32 "ab") in
  let policy_toml := requote ("
[[policy]]
name = 'test-auto'
[policy.match]
agent_binary_hash = 'sha256:" +:+ hash_hex +:+ "'
credential_ref = 'my_cred'
[policy.allow]
hosts = ['api.example.com']
methods = ['GET']
paths = ['/data/**']
[policy.approval]
mode = 'auto'
") in
  let? engine := engine_new create_dir (dir_fs temp_dir [("test.toml", policy_toml)]) temp_dir approval_settings in
  let scope := mkScope ["api.example.com"] ["GET"] ["/data/reports"] [] None None None None in
  let? decision := engine_evaluate engine hash_agent "my_cred" scope in
  match decision with
  | AutoApprove granted_scope policy_name _ =>
      asserts [assert_eq policy_name "test-auto"; assert_eq (s_hosts granted_scope) ["api.example.com"];
               assert_eq (s_methods granted_scope) ["GET"]]
  | _ => false
  end.

(** The watcher's turns are steps of its task. *)
Lemma watcher_turn_step receiver w : watcher_turn receiver w = w \/ wtask w (watcher_turn receiver w).
Proof.
  unfold watcher_turn. destruct (w_phase w) as [|[|e q]|q|es|] eqn:Hp; auto.
  - right. by apply w_arm.
  - right. by apply w_read.
  - right. by eapply w_reload.
  - destruct receiver; cbn; [|right; by eapply w_send_fails]. case_bool_decide; [|auto]. right. by apply w_send.
Qed.

(** The test modules of [parser.rs], [watcher.rs] and [lib.rs] pass. *)
Theorem policy_file_tests_pass :
  asserts
    [full_policy_parses_correctly; auto_approve_with_only_agent_id_is_rejected;
     auto_approve_with_binary_hash_is_accepted; auto_approve_with_only_binary_path_is_rejected;
     auto_approve_with_hash_and_path_is_accepted; missing_optional_fields_use_defaults;
     multiple_policy_entries_in_one_file; wildcard_credential_ref_is_valid; malformed_toml_returns_parse_error;
     parse_binary_hash_valid; parse_binary_hash_invalid_prefix; parse_binary_hash_wrong_length;
     load_policies_from_dir_multiple_files; load_policies_from_dir_empty_dir_returns_empty_vec;
     load_policies_from_dir_nonexistent_returns_directory_not_found; invalid_approval_mode_is_rejected;
     load_policies_from_dir_ignores_non_toml_files; empty_credential_ref_is_rejected;
     parse_binary_hash_non_hex_chars; parse_binary_hash_all_zeros; parse_binary_hash_uppercase_hex;
     empty_policy_name_is_rejected; long_policy_name_is_rejected; max_renewals_exceeding_protocol_limit_is_rejected;
     max_cumulative_ttl_exceeding_protocol_limit_is_rejected; max_renewals_at_protocol_limit_is_accepted;
     is_known_editor_known_names; is_known_editor_unknown_names; is_known_editor_full_path_to_known_editor;
     is_known_editor_empty_path_returns_false; policy_watcher_new_stores_dir; watcher_fires_on_file_creation;
     watcher_exits_when_receiver_dropped; watcher_sends_updated_entries_on_modify; new_engine_with_empty_dir;
     new_engine_creates_missing_dir; evaluate_denies_with_no_policies; evaluate_with_loaded_policy] = true.
Proof. vm_compute. reflexivity. Qed.
End Tests.
