(* ===== verification/IntegrationTests.v ===== *)
(** * cdp-integration-tests/tests/integration_test.rs

    The tests of the workspace, which take several crates through the
    protocol, run on the models of those crates together. *)

From S2P Require Import Prelude RustStr Crypto PolicyTypes PolicyParser LeaseTypes LeaseManager AuditLog GateAgent Asserts CryptoTestKit AuditTestKit LeaseTestKit TomlTestKit.
From S2P Require AuditTests PolicyFileTests.

#[local] Arguments String.append !_ _ /.

Section Tests.
Context `{Build} `{Fmt}.

(** ** Helpers *)

Definition test_agent : AgentInfo :=
  mkAgentInfo 1000 42 "/usr/bin/test-agent" (replicate 32 Byte.xab) 123456789 (replicate 32 Byte.xcd)
    (Some "test-agent") (Some "0.1.0").
Definition delegate_agent : AgentInfo :=
  mkAgentInfo 1001 99 "/usr/bin/child-agent" (replicate 32 Byte.xef) 234567890 (replicate 32 Byte.x12)
    (Some "child-agent") (Some "0.1.0").
Definition test_constraints : PolicyConstraints :=
  mkPolicyConstraints (Some 3600) None (Some 3) (Some 14400) true true (Some 3) false.
Definition api_scope : Scope := mkScope ["localhost"] ["GET"; "POST"] ["/v1/*"] [] (Some 3600) None None None.
Definition make_manager : LeaseManager := manager_new (as_bytes "integration-test-gate-key-32byte") false.

(** [Scope { hosts, methods, paths, ..Default::default() }] *)
Definition scope_of (hosts methods paths : list string) : Scope := mkScope hosts methods paths [] None None None None.
Definition forbidding (paths : list string) : Scope := mkScope [] [] [] paths None None None None.
Definition lasting (ttl : Z) : Scope := mkScope [] [] [] [] (Some ttl) None None None.

(** ** Leases *)

Definition test_lease_lifecycle : bool := run_test (fresh make_manager) (
  lease ← unwrapped (t_create test_agent "cred-api-key" api_scope test_constraints "api-access-policy" "auto");
  created ← utc_now;
  used ← unwrapped (t_use (lease_id lease));
  _ ← unwrapped (t_renew (lease_id lease) 600);
  renewed ← unwrapped (t_get (lease_id lease));
  _ ← unwrapped (t_revoke (lease_id lease) "integration-test revocation");
  revoked ← unwrapped (t_get (lease_id lease));
  now ← utc_now;
  mret (asserts
    [assert_eq (status lease) Active; assert_eq (credential_ref lease) "cred-api-key";
     assert_eq (policy_name lease) "api-access-policy"; assert_eq (s_hosts (granted_scope lease)) ["localhost"];
     assert_eq (s_methods (granted_scope lease)) ["GET"; "POST"]; assert_eq (s_paths (granted_scope lease)) ["/v1/*"];
     negb (is_empty_vec (map_to_list (dns_pinned_ips lease))); negb (assert_eq (lease_token lease) EmptyString);
     negb (assert_eq (channel_binding_nonce lease) (replicate 32 Byte.x00)); is_active created lease;
     requests_used used =? 1; renewals_used renewed =? 1; expires_at renewed >? expires_at lease;
     is_revoked_lease revoked; negb (is_active now revoked)])).

Definition test_renewal_limits : bool := run_test (fresh make_manager) (
  lease ← unwrapped (t_create test_agent "cred-x" api_scope test_constraints "pol" "auto");
  _ ← unwrapped (t_renew (lease_id lease) 100);
  _ ← unwrapped (t_renew (lease_id lease) 100);
  _ ← unwrapped (t_renew (lease_id lease) 100);
  err ← refused (t_renew (lease_id lease) 100);
  mret (match err with MaxRenewalsExceeded n => n =? 3 | _ => false end)).

Definition test_delegation_cascade : bool := run_test (fresh make_manager) (
  parent ← unwrapped (t_create test_agent "cred-api" api_scope test_constraints "pol" "auto");
  let child_scope := scope_of ["localhost"] ["GET"] ["/v1/*"] in
  child ← unwrapped (t_delegate (lease_id parent) delegate_agent child_scope 1800 true);
  now ← utc_now;
  parent_snapshot ← unwrapped (t_get (lease_id parent));
  _ ← unwrapped (t_revoke (lease_id parent) "cascade-test");
  parent_after ← unwrapped (t_get (lease_id parent));
  child_after ← unwrapped (t_get (lease_id child));
  mret (asserts [assert_eq (status child) Active; is_active now child;
                 contains (child_lease_ids parent_snapshot) (lease_id child); is_revoked_lease parent_after;
                 is_revoked_lease child_after])).

Definition test_multiple_leases_same_agent : bool := run_test (fresh make_manager) (
  lease1 ← unwrapped (t_create test_agent "cred-a" api_scope test_constraints "pol1" "auto");
  lease2 ← unwrapped (t_create test_agent "cred-b" api_scope test_constraints "pol2" "auto");
  now ← utc_now;
  revoked ← unwrapped (t_revoke_agent (ai_fingerprint_hash test_agent) "cleanup");
  l1 ← unwrapped (t_get (lease_id lease1));
  l2 ← unwrapped (t_get (lease_id lease2));
  mret (asserts [negb (assert_eq (lease_id lease1) (lease_id lease2)); is_active now lease1; is_active now lease2;
                 contains revoked (lease_id lease1); contains revoked (lease_id lease2); is_revoked_lease l1;
                 is_revoked_lease l2])).

Definition test_lease_token_and_channel_binding_are_unique : bool := run_test (fresh make_manager) (
  lease1 ← unwrapped (t_create test_agent "cred" api_scope test_constraints "pol" "auto");
  lease2 ← unwrapped (t_create test_agent "cred" api_scope test_constraints "pol" "auto");
  mret (asserts [negb (assert_eq (lease_token lease1) (lease_token lease2));
                 negb (assert_eq (channel_binding_nonce lease1) (channel_binding_nonce lease2))])).

(** ** Scopes *)

Definition test_scope_intersection : bool :=
  let hosts := intersect_scopes (scope_of ["a.com"; "b.com"] [] []) (scope_of ["b.com"; "c.com"] [] []) in
  let methods := intersect_scopes (scope_of [] ["GET"; "POST"] []) (scope_of [] ["GET"] []) in
  let forbidden := s_forbidden_paths (intersect_scopes (forbidding ["/*"]) (forbidding ["/admin/*"])) in
  let ttl := intersect_scopes (lasting 3600) (lasting 1800) in
  asserts [assert_eq (s_hosts hosts) ["b.com"]; assert_eq (s_methods methods) ["GET"]; contains forbidden "/*";
           contains forbidden "/admin/*"; assert_eq (length forbidden) 2%nat;
           assert_eq (s_ttl_seconds ttl) (Some 1800)].

Definition test_scope_subset_validation : bool :=
  let parent := scope_of ["a.com"; "b.com"] ["GET"; "POST"] ["/api/"] in
  let child_valid := scope_of ["a.com"] ["GET"] ["/api/"] in
  let child_bad_host := scope_of ["c.com"] ["GET"] ["/api/"] in
  let parent_get_only := scope_of ["a.com"] ["GET"] ["/api/"] in
  let child_two_methods := scope_of ["a.com"] ["GET"; "POST"] ["/api/"] in
  asserts [is_scope_subset child_valid parent; negb (is_scope_subset child_bad_host parent);
           negb (is_scope_subset child_two_methods parent_get_only)].

(** ** The audit log *)

Definition audit_events : list (AuditEventType * AuditFields) :=
  [(AgentRegistered, mkAuditFields None (Some "fp-abc123") None None None None None None);
   (LeaseGranted, mkAuditFields (Some "lease-001") None None (Some "cred-api") None None None None);
   (LeaseUsed, mkAuditFields (Some "lease-001") None None None None None None (Some "request 1"));
   (AuditLog.LeaseRevoked, mkAuditFields (Some "lease-001") None None None None None None (Some "user-initiated"))].

Definition test_audit_chain_integrity : bool := run_test temp_host (
  logger ← AuditTests.t_open AuditTests.log_path;
  _ ← AuditTests.t_log_all logger audit_events;
  status ← AuditTests.t_verify AuditTests.log_path;
  _ ← AuditTests.tamper AuditTests.log_path 1 (AuditTests.set_credential_ref "TAMPERED_CREDENTIAL");
  tampered_status ← AuditTests.t_verify AuditTests.log_path;
  mret (asserts [AuditTests.chain_valid 4 status;
                 match tampered_status with Broken _ _ _ => true | _ => false end])).

(** ** Credential keys *)

(** [tampered.ciphertext[0] ^= 0xFF] *)
Definition tampered_blob (b : EncryptedBlob) : EncryptedBlob :=
  mkEncryptedBlob (nonce b)
    (match ciphertext b with
     | x :: rest => default Byte.x00 (Byte.of_N (N.lxor (Byte.to_N x) 255)) :: rest
     | [] => []
     end).

Definition test_crypto_encrypt_decrypt_roundtrip : bool :=
  let master := as_bytes "master-key-material-for-integration-test" in
  let salt := as_bytes "random-gate-instance-salt-32byte" in
  let plaintext := as_bytes "super-secret-api-key-value-12345" in
  let? key := derive_credential_key master salt "cred-api-key" "lease-abc123" in
  let? blob := encrypt (replicate 12 Byte.x07) key plaintext in
  let? decrypted := decrypt key blob in
  asserts [assert_eq decrypted plaintext; is_err (decrypt key (tampered_blob blob))].

Definition test_hkdf_key_isolation : bool :=
  let master := as_bytes "shared-master-key-material-value" in
  let salt := as_bytes "gate-instance-salt-value-32bytez" in
  let plaintext := as_bytes "github-token-secret-value" in
  let? key_a := derive_credential_key master salt "cred-github" "lease-001" in
  let? key_b := derive_credential_key master salt "cred-aws" "lease-001" in
  let? key_c := derive_credential_key master salt "cred-github" "lease-002" in
  let? blob := encrypt (replicate 12 Byte.x07) key_a plaintext in
  let? correct := decrypt key_a blob in
  asserts [negb (assert_eq key_a key_b); negb (assert_eq key_a key_c); negb (assert_eq key_b key_c);
           is_err (decrypt key_b blob); assert_eq correct plaintext].

(** ** Policies *)

Definition auto_entry (name description : string) (binary_hash agent_id : option string) : PolicyEntry :=
  mkPolicyEntry name description (mkPolicyMatch binary_hash None agent_id "some-cred")
    (mkPolicyAllow ["api.example.com"] ["GET"] ["/data/**"] [] (Some 3600) None (Some 3) (Some 14400) true None None)
    (mkPolicyApproval "auto") default_delegation.

Definition hash_hex : string := concat_str (replicate 32 "ab").

Definition test_policy_auto_approve_requires_binary_hash : bool :=
  let bad_entry := auto_entry "bad-auto-policy" "should fail validation" None (Some "my-agent") in
  let good_entry := auto_entry "good-auto-policy" "should pass validation" (Some ("sha256:" +:+ hash_hex)) None in
  unwrapping_err (validate_policy bad_entry) (fun err => str_contains (display_policy_error err) "agent_binary_hash") &&
  negb (is_err (validate_policy good_entry)).

Definition test_policy_toml_parse : bool :=
  let bad_toml := requote "
[[policy]]
name = 'bad-auto'
[policy.match]
agent_id = 'my-agent'
credential_ref = 'cred-x'
[policy.allow]
hosts = ['api.example.com']
[policy.approval]
mode = 'auto'
" in
  let good_toml := requote ("
[[policy]]
name = 'good-auto'
[policy.match]
agent_binary_hash = 'sha256:" +:+ hash_hex +:+ "'
credential_ref = 'cred-x'
[policy.allow]
hosts = ['api.example.com']
methods = ['GET']
paths = ['/data/**']
[policy.approval]
mode = 'auto'
") in
  let? policies := PolicyFileTests.load [("good.toml", good_toml)] in
  asserts [is_err (PolicyFileTests.load [("bad.toml", bad_toml)]); assert_eq (map pe_name policies) ["good-auto"];
           assert_eq (map (fun e => mode (pe_approval e)) policies) ["auto"]].

(** The tests of the workspace pass. *)
Theorem integration_tests_pass :
  asserts
    [test_lease_lifecycle; test_renewal_limits; test_delegation_cascade; test_scope_intersection;
     test_audit_chain_integrity; test_scope_subset_validation; test_crypto_encrypt_decrypt_roundtrip;
     test_policy_auto_approve_requires_binary_hash; test_policy_toml_parse; test_multiple_leases_same_agent;
     test_lease_token_and_channel_binding_are_unique; test_hkdf_key_isolation] = true.
Proof. vm_compute. reflexivity. Qed.
End Tests.
