(* ===== verification/JsonTestKit.v ===== *)
(** * JSON to run the tests with

    A writer and a reader of JSON whose texts need no escapes and whose
    numbers are integers, as the codec classes of the components use them. *)

From S2P Require Import Prelude RustStr AuditLog.

#[local] Arguments String.append !_ _ /.

(** ** Writing *)

Fixpoint write_json (v : Json) : string :=
  match v with
  | JNull => "null"
  | JBool b => if b then "true" else "false"
  | JNumber (PosInt n) | JNumber (NegInt n) => display_Z n
  | JNumber (Float _) => "0.0"
  | JString s => dquote +:+ s +:+ dquote
  | JArray l => "[" +:+ join "," (map write_json l) +:+ "]"
  | JObject fs => "{" +:+ join "," (map (fun f => dquote +:+ f.1 +:+ dquote +:+ ":" +:+ write_json f.2) fs) +:+ "}"
  end.

(** ** Reading *)

Inductive Token : Type :=
| TMark (c : Ascii.ascii)
| TText (s : string)
| TNumber (s : string)
| TWord (s : string).

Definition mark (n : N) : Token := TMark (Ascii.ascii_of_N n).

Definition is_blank (c : Ascii.ascii) : bool := existsb (fun n => bool_decide (c = Ascii.ascii_of_N n)) [32; 9; 10; 13]%N.
Definition is_mark (c : Ascii.ascii) : bool := existsb (fun n => bool_decide (c = Ascii.ascii_of_N n)) [44; 58; 91; 93; 123; 125]%N.
Definition is_quote (c : Ascii.ascii) : bool := bool_decide (c = Ascii.ascii_of_N 34).

(** A word that ended: a literal or a number. *)
Definition word_token (w : string) : list Token :=
  if bool_decide (w = EmptyString) then [] else if bool_decide (w ∈ ["null"; "true"; "false"]) then [TWord w] else [TNumber w].

(** The rest of a text [quoted], or of a word. *)
Fixpoint lex (quoted : bool) (w : string) (s : string) : option (list Token) :=
  match s with
  | EmptyString => if quoted then None else Some (word_token w)
  | String c s =>
      if quoted then
        if is_quote c then (fun l => TText w :: l) <$> lex false EmptyString s
        else lex true (w +:+ String c EmptyString) s
      else if is_quote c then (fun l => word_token w ++ l) <$> lex true EmptyString s
      else if is_mark c then (fun l => word_token w ++ TMark c :: l) <$> lex false EmptyString s
      else if is_blank c then (fun l => word_token w ++ l) <$> lex false EmptyString s
      else lex false (w +:+ String c EmptyString) s
  end.

#[export] Instance Token_eq_dec : EqDecision Token.
Proof. solve_decision. Defined.

Definition read_number (w : string) : option Json :=
  match strip_prefix "-" w with
  | Some d => (fun n => JNumber (NegInt (- n))) <$> parse_u U64 d
  | None => (fun n => JNumber (PosInt n)) <$> parse_u U64 w
  end.

Definition word_value (w : string) : Json :=
  if bool_decide (w = "true") then JBool true else if bool_decide (w = "false") then JBool false else JNull.

(** A value; the items and members that follow one. *)
Fixpoint read_value (fuel : nat) (ts : list Token) : option (Json * list Token) :=
  match fuel, ts with
  | S n, TText s :: rest => Some (JString s, rest)
  | S n, TWord w :: rest => Some (word_value w, rest)
  | S n, TNumber w :: rest => v ← read_number w; Some (v, rest)
  | S n, t :: rest =>
      if decide (t = mark 91) then
        match rest with
        | t' :: rest' => if decide (t' = mark 93) then Some (JArray [], rest')
                         else r ← read_items n [] rest; Some (JArray r.1, r.2)
        | [] => None
        end
      else if decide (t = mark 123) then
        match rest with
        | t' :: rest' => if decide (t' = mark 125) then Some (JObject [], rest')
                         else r ← read_members n [] rest; Some (JObject r.1, r.2)
        | [] => None
        end
      else None
  | _, _ => None
  end
with read_items (fuel : nat) (done : list Json) (ts : list Token) : option (list Json * list Token) :=
  match fuel with
  | O => None
  | S n =>
      r ← read_value n ts;
      let done := done ++ [r.1] in
      match r.2 with
      | t :: rest => if decide (t = mark 44) then read_items n done rest
                     else if decide (t = mark 93) then Some (done, rest) else None
      | [] => None
      end
  end
with read_members (fuel : nat) (done : list (string * Json)) (ts : list Token)
    : option (list (string * Json) * list Token) :=
  match fuel, ts with
  | S n, TText k :: colon :: ts =>
      if decide (colon = mark 58) then
        r ← read_value n ts;
        let done := obj_insert k r.1 done in
        match r.2 with
        | t :: rest => if decide (t = mark 44) then read_members n done rest
                       else if decide (t = mark 125) then Some (done, rest) else None
        | [] => None
        end
      else None
  | _, _ => None
  end.

Definition read_json (s : string) : option Json :=
  ts ← lex false EmptyString s;
  match read_value (S (length ts)) ts with Some (v, []) => Some v | _ => None end.

(** ** Fields of objects, as serde's derived readers take them *)

Definition as_text (v : Json) : option string := match v with JString s => Some s | _ => None end.
Definition as_flag (v : Json) : option bool := match v with JBool b => Some b | _ => None end.
Definition as_number (v : Json) : option Z := match v with JNumber (PosInt n) | JNumber (NegInt n) => Some n | _ => None end.
Definition as_list {A : Type} (f : Json -> option A) (v : Json) : option (list A) :=
  match v with JArray l => mapM f l | _ => None end.

(** A required field; an [Option] that is absent or null. *)
Definition req {A : Type} (f : Json -> option A) (v : Json) (k : string) : option A := x ← json_get v k; f x.
Definition opt {A : Type} (f : Json -> option A) (v : Json) (k : string) : option (option A) :=
  match json_get v k with Some JNull | None => Some None | Some x => Some <$> f x end.

Definition decoded {A : Type} (o : option A) : A + string := match o with Some a => inl a | None => inr "invalid JSON" end.
Definition from_text {A : Type} (f : Json -> option A) (s : string) : A + string := decoded (v ← read_json s; f v).

(** [json!({..})]: members in any order. *)
Definition obj (fields : list (string * Json)) : Json := JObject (fold_left (fun acc f => obj_insert f.1 f.2 acc) fields []).
Definition num (n : Z) : Json := JNumber (if n <? 0 then NegInt n else PosInt n).
Definition strs (l : list string) : Json := JArray (map JString l).

#[export] Instance json_writer : JsonText := {| json_to_string := write_json |}.

(** What is written is read back. *)
Definition json_sample : bool :=
  let v := obj [("b", JArray [num 1; num (-2); JBool true; JNull]); ("a", obj [("x", JString "hello, {world}")])] in
  match read_json (write_json v) with Some w => bool_decide (write_json w = write_json v) | None => false end.
Example json_sample_read : json_sample = true.
Proof. vm_compute. reflexivity. Qed.
