(* ===== verification/GateTests.v ===== *)
(** * cdp-gate: the unit tests of the crate

    [config.rs], [types.rs], [agent_verify.rs], [fingerprint.rs],
    [listener.rs], [tls_listener.rs] and [router.rs] on the host of
    [Asserts], with toy keys and encodings; the ignored test of
    [tls_listener.rs] is left out. *)

From S2P Require Import Prelude StateM RustStr Crypto AuditLog PolicyTypes PolicyEngine UnixHost LeaseManager ProxyScope ProxyAuth ProxyManager GateAgent GateConfig.
From S2P Require Import VaultProtocol Mtls GateFiles GateRouter Asserts CryptoTestKit LeaseTestKit JsonTestKit TomlTestKit.

#[local] Arguments String.append !_ _ /.

(** ** The environment *)

(** The process itself: pid 77. *)
#[export] Instance self_os : AgentOs :=
  {| sys_pidfd_open := fun _ => inl 3; fd_try_clone := fun fd => inl (fd + 1);
     os_read_link := fun p => if bool_decide (p = "/proc/77/exe") then inl "/usr/bin/test" else inr "No such file or directory (os error 2)";
     os_read := fun p => if bool_decide (p = "/usr/bin/test") then inl (as_bytes "ELF") else inr "No such file or directory (os error 2)";
     os_read_to_string := fun _ => inl "77 (test) S 1 77 77 0 -1 4194560 0 0 0 0 0 0 0 0 20 0 1 0 9000 0" |}.

(** A public key is the digest of the private one. *)
#[export] Instance toy_identity : IdentityCrates :=
  {| verifying_key := digest; to_rfc3339 := display_Z;
     fp_to_string_pretty := fun f => inl (write_json (obj
       [("gate_pid", num (ff_gate_pid f)); ("gate_binary_hash", JString (ff_gate_binary_hash f));
        ("public_key", JString (ff_public_key f)); ("socket_path", JString (ff_socket_path f));
        ("started_at", JString (ff_started_at f))])) |}.

#[export] Instance hex_base64 : Base64Std :=
  {| std_encode := bytes_to_hex;
     std_decode := fun s => match hex_to_bytes (E:=unit) s with Ok (Some b) => inl b | _ => inr "invalid byte" end |}.

(** Hyphenated UUIDs by their version, time stamps as nanoseconds. *)
Definition is_hex (s : string) : bool := forallb (fun c => bool_decide (is_Some (hex_value c))) (String.list_ascii_of_string s).
Definition read_uuid (s : string) : option Z :=
  match split (Ascii.ascii_of_N 45) s with
  | [a; b; c; d; e] =>
      if bool_decide (map String.length [a; b; c; d; e] = [8; 4; 4; 4; 12])%nat && forallb is_hex [a; b; c; d; e]
      then match c with String v _ => Z.of_N <$> hex_value v | EmptyString => None end
      else None
  | _ => None
  end.
#[export] Instance uuid_text : TextParse := {| uuid_version := read_uuid; parse_rfc3339 := parse_u U64 |}.

(** The [lru] crate: the most recent first. *)
#[export] Instance vec_lru : LruCache :=
  {| Lru := nat * list string; lru_new := fun n => (n, []); lru_contains := fun c k => contains c.2 k;
     lru_put := fun c k => (c.1, take c.1 (k :: List.filter (fun x => negb (bool_decide (x = k))) c.2)) |}.
#[export] Instance any_order : MapOrder := {| values_order := fun m => map snd (map_to_list m) |}.

(** The derived readers and writers of [types.rs]. *)
Definition json_or (d : Json) (v : Json) (k : string) : Json := default d (json_get v k).
Definition list_or (v : Json) (k : string) : option (list string) :=
  match json_get v k with Some x => as_list as_text x | None => Some [] end.
Definition read_request (v : Json) : option JsonRpcRequest :=
  version ← req as_text v "jsonrpc"; method ← req as_text v "method"; id ← json_get v "id";
  Some (mkJsonRpcRequest version method (json_or JNull v "params") id).
Definition read_register (v : Json) : option RegisterParams :=
  agent ← req as_text v "agent_id"; version ← req as_text v "agent_version"; caps ← list_or v "capabilities";
  attestation ← opt Some v "attestation"; nonce ← req as_text v "nonce"; ts ← req as_text v "timestamp";
  Some (mkRegisterParams agent version caps attestation nonce ts).
Definition read_scope (v : Json) : option RequestedScope :=
  hosts ← list_or v "hosts"; methods ← list_or v "methods"; paths ← list_or v "paths";
  ttl ← opt as_number v "ttl_seconds"; requests ← opt as_number v "max_requests";
  Some (mkRequestedScope hosts methods paths ttl requests).
Definition read_credential (v : Json) : option RequestCredentialParams :=
  token ← req as_text v "session_token"; cred ← req as_text v "credential_ref"; scope ← req read_scope v "scope";
  reason ← req as_text v "reason"; nonce ← req as_text v "nonce"; ts ← req as_text v "timestamp";
  Some (mkRequestCredentialParams token cred scope reason nonce ts).
Definition write_opt (o : option Z) : Json := match o with Some n => num n | None => JNull end.
#[export] Instance json_rpc : RpcCodec :=
  {| parse_request := fun raw => from_text read_request (of_bytes raw); parse_register := fun v => decoded (read_register v);
     parse_credential := fun v => decoded (read_credential v);
     register_to_value := fun r =>
       obj [("status", JString (rr_status r)); ("agent_fingerprint", JString (rr_agent_fingerprint r));
            ("session_token", JString (rr_session_token r)); ("capabilities_granted", strs (rr_capabilities_granted r))];
     credential_to_value := fun r =>
       let s := cr_granted_scope r in
       obj [("status", JString (cr_status r)); ("lease_id", JString (cr_lease_id r)); ("proxy_port", num (cr_proxy_port r));
            ("lease_token", JString (cr_lease_token r));
            ("channel_binding_nonce", JString (cr_channel_binding_nonce r)); ("ttl_seconds", num (cr_ttl_seconds r));
            ("granted_scope", obj [("hosts", strs (rs_hosts s)); ("methods", strs (rs_methods s));
                                   ("paths", strs (rs_paths s)); ("ttl_seconds", write_opt (rs_ttl_seconds s));
                                   ("max_requests", write_opt (rs_max_requests s))])] |}.

(** [Serialize for JsonRpcResponse]: absent members are skipped. *)
Definition response_json (r : JsonRpcResponse) : string :=
  write_json (obj (("jsonrpc", JString "2.0") ::
    match rp_result r with Some v => [("result", v)] | None => [] end ++
    match rp_error r with
    | Some (code, message) => [("error", obj [("code", num code); ("message", JString message)])]
    | None => []
    end ++ [("id", rp_id r)])).

Section Tests.
Context `{Fmt} `{Gui} `{FmtAddr} `{FmtParse} `{Build}.

(** ** config.rs *)

Definition home_host : Host :=
  mkHost {["HOME" := "/home/u"]} (h_fs temp_host) false 18 77 (h_self_exe temp_host) (h_now temp_host).
Definition parsed_config (doc : string) (k : GateConfig -> bool) : bool :=
  match config_from_str home_host doc with inl c => k c | inr _ => false end.

Definition default_config_is_valid : bool :=
  let config := default_config home_host in
  asserts [assert_eq (log_level (gate config)) "info"; max_renewals_per_lease (security config) =? 3;
           max_cumulative_ttl_seconds (security config) =? 14400; as_timeout_seconds (approval config) =? 30;
           nonce_max_entries (security config) =? 100000; disable_core_dumps (security config);
           require_binary_hash_for_auto (security config); negb (allow_dynamic_dns (dns (security config)))].
Definition parse_empty_toml_gives_defaults : bool :=
  parsed_config EmptyString (fun config =>
    assert_eq (log_level (gate config)) "info" && (max_delegation_depth (security config) =? 3)).
Definition parse_partial_toml : bool :=
  let toml_str := requote "
[gate]
log_level = 'debug'

[security]
max_renewals_per_lease = 5
" in
  parsed_config toml_str (fun config =>
    asserts [assert_eq (log_level (gate config)) "debug"; max_renewals_per_lease (security config) =? 5;
             max_delegation_depth (security config) =? 3; assert_eq (as_gui_command (approval config)) "kdialog"]).
Definition tilde_expansion : bool :=
  asserts [assert_eq (expand_tilde home_host "~/some/path") "/home/u/some/path";
           assert_eq (expand_tilde home_host "~") "/home/u";
           assert_eq (expand_tilde home_host "/absolute/path") "/absolute/path"].
Definition parse_full_config : bool :=
  let toml_str := requote "
[gate]
socket_path = '/tmp/test.sock'
log_level = 'trace'
audit_log_path = '/tmp/audit.jsonl'
fingerprint_path = '/tmp/gate.fingerprint'

[gate.tls]
enabled = true
cert_path = '/tmp/cert.pem'
key_path = '/tmp/key.pem'
client_ca_path = '/tmp/ca.pem'

[vault]
backend = '1password'
subprocess_sandbox = false

[vault.bitwarden]
cli_path = '/usr/local/bin/bw'
session_timeout_minutes = 120

[vault.file]
path = '/tmp/dev-vault.json.enc'

[approval]
default_method = 'cli'
gui_command = 'zenity'
timeout_seconds = 60
cooldown_seconds = 10
show_binary_hash = false
label_reason_untrusted = false
max_reason_length = 500

[security]
max_delegation_depth = 5
default_lease_ttl_seconds = 7200
max_lease_ttl_seconds = 172800
max_renewals_per_lease = 10
max_cumulative_ttl_seconds = 28800
remote_max_ttl_seconds = 600
remote_single_use = false
encrypted_memory = false
per_credential_keys = false
disable_core_dumps = false
require_binary_hash_for_auto = false
policy_signing = true
policy_signing_key = 'base64key'
nonce_window_seconds = 600
nonce_max_entries = 200000

[security.dns]
pin_at_lease_creation = false
allow_dynamic_dns = true

[security.proxy]
follow_redirects = true
strip_set_cookie = false
strip_auth_echo = false

[proxy]
bind_address = '0.0.0.0'
port_range = '20000-20999'

[browser]
sandbox_method = 'unshare'
default_mode = 'full_snapshot'
mitm_ca_validity_hours = 48
mitm_ca_name_constrained = false
kill_after_snapshot = false
" in
  parsed_config toml_str (fun config =>
    asserts [tls_enabled (gs_tls (gate config)); assert_eq (backend (vault config)) "1password";
             assert_eq (file_path (vs_file (vault config))) "/tmp/dev-vault.json.enc";
             assert_eq (as_gui_command (approval config)) "zenity"; max_delegation_depth (security config) =? 5;
             allow_dynamic_dns (dns (security config)); follow_redirects (sec_proxy (security config));
             assert_eq (port_range (proxy config)) "20000-20999";
             assert_eq (sandbox_method (browser config)) "unshare"]).

(** ** types.rs *)

Definition hex_encode_known_vectors : bool :=
  asserts [assert_eq (bytes_to_hex []) EmptyString; assert_eq (bytes_to_hex [Byte.x00]) "00";
           assert_eq (bytes_to_hex [Byte.xde; Byte.xad; Byte.xbe; Byte.xef]) "deadbeef";
           assert_eq (bytes_to_hex (replicate 4 Byte.xff)) "ffffffff"].
Definition json_rpc_response_success_serializes : bool :=
  let json := response_json (success (num 1) (obj [("status", JString "ok")])) in
  asserts [str_contains json (requote "'jsonrpc':'2.0'"); str_contains json (requote "'status':'ok'");
           negb (str_contains json (requote "'error'"))].
Definition json_rpc_response_error_serializes : bool :=
  let json := response_json (error (num 1) (-32600) "bad request") in
  asserts [negb (str_contains json (requote "'-32600'")) || str_contains json "-32600";
           str_contains json "bad request"; negb (str_contains json (requote "'result'"))].
Definition register_params_deserializes : bool :=
  let json := obj [("agent_id", JString "test-agent"); ("agent_version", JString "1.0.0");
                   ("capabilities", strs ["http_proxy"]); ("attestation", JNull);
                   ("nonce", JString "550e8400-e29b-41d4-a716-446655440000");
                   ("timestamp", JString "2026-04-07T14:00:00Z")] in
  let?? params := read_register json in
  asserts [assert_eq (rg_agent_id params) "test-agent"; assert_eq (rg_capabilities params) ["http_proxy"];
           is_none (rg_attestation params)].

(** ** agent_verify.rs *)

Definition compute_fingerprint_determinism : bool :=
  let binary_hash := replicate 32 Byte.xab in
  let a := compute_fingerprint 1000 42 binary_hash 123456 in
  let b := compute_fingerprint 1000 42 binary_hash 123456 in
  assert_eq a b.
Definition compute_fingerprint_different_inputs : bool :=
  let binary_hash := replicate 32 Byte.xab in
  let a := compute_fingerprint 1000 42 binary_hash 123456 in
  let b := compute_fingerprint 1001 42 binary_hash 123456 in
  let c := compute_fingerprint 1000 43 binary_hash 123456 in
  let d := compute_fingerprint 1000 42 binary_hash 123457 in
  asserts [negb (assert_eq a b); negb (assert_eq a c); negb (assert_eq a d)].
Definition read_binary_path_self : bool :=
  let? path := read_binary_path 77 in match os_read path with inl _ => true | inr _ => false end.
Definition read_start_time_self : bool := let? st := read_start_time 77 in st >? 0.
Definition hash_binary_self : bool :=
  let? binary_path := read_binary_path 77 in
  let? hash := hash_binary binary_path in
  let? hash2 := hash_binary binary_path in
  asserts [assert_eq (length hash) 32%nat; assert_eq hash hash2].

(** ** fingerprint.rs *)

Definition seed : list byte := replicate 32 Byte.x07.
Definition fp_path : string := path_join temp_dir "gate.fingerprint".
Definition there (p : string) : TestM Host bool := peek (fun h => Some (fs_exists p h)).
Definition t_identity : TestM Host GateIdentity := on_host (identity_create seed fp_path "/tmp/test.sock").
Definition text_at (v : Json) (k : string) : string := default EmptyString (req as_text v k).

Definition create_and_verify_fingerprint_file : bool := run_test temp_host (
  identity ← t_identity;
  exists_ ← there fp_path;
  node ← peek (fun h => h_fs h !! fp_path);
  contents ← on_host (fs_read_to_string fp_path);
  value ← some_of (read_json contents);
  let pk_bytes := match std_decode (text_at value "public_key") with inl b => b | inr _ => [] end in
  mret (asserts [exists_; Z.land (node_mode node) 511 =? 256; assert_eq (req as_number value "gate_pid") (Some 77);
                 is_some (strip_prefix "sha256:" (text_at value "gate_binary_hash"));
                 assert_eq (text_at value "socket_path") "/tmp/test.sock"; is_some (req as_text value "started_at");
                 assert_eq (length pk_bytes) 32%nat; assert_eq pk_bytes (verifying_key (signing_key identity))])).
Definition cleanup_deletes_file : bool := run_test temp_host (
  identity ← t_identity;
  before ← there fp_path;
  _ ← on_host (GateFiles.cleanup identity);
  after ← there fp_path;
  mret (before && negb after)).
Definition double_cleanup_is_idempotent : bool := run_test temp_host (
  identity ← t_identity;
  _ ← on_host (GateFiles.cleanup identity);
  _ ← on_host (GateFiles.cleanup identity);
  mret true).

(** ** listener.rs *)

Definition bind_in_tempdir_succeeds : bool := run_test temp_host (
  let sock := path_join temp_dir "test.sock" in
  listener ← on_host (bind sock);
  bound ← there sock;
  mret (assert_eq (l_socket_path listener) sock && bound)).
Definition bind_removes_stale_socket : bool := run_test temp_host (
  let sock := path_join temp_dir "stale.sock" in
  _ ← on_host (fs_write sock (as_bytes "stale"));
  _ ← on_host (bind sock);
  there sock).
(** The process connects to itself, as user 1000. *)
Definition accept_returns_peer_info_with_correct_pid_and_uid : bool := run_test temp_host (
  _ ← on_host (bind (path_join temp_dir "peer.sock"));
  r ← peek (fun h => match accept (inl (tt, inl (h_pid h, 1000, 1000))) with Ok r => Some r | _ => None end);
  mret (asserts [peer_pid r.2 =? 77; peer_uid r.2 =? 1000])).

(** ** tls_listener.rs *)

Definition remote_constraint_constants : bool :=
  asserts [REMOTE_MAX_TTL_SECONDS =? 300; REMOTE_SINGLE_USE; negb REMOTE_DELEGATION_ALLOWED].
Definition tls_listener_config_defaults : bool :=
  let cfg := tls_config_new "cert.pem" "key.pem" "ca.pem" in
  asserts [assert_eq (tl_bind_address cfg) "127.0.0.1"; tl_bind_port cfg =? 9443; require_client_cert cfg;
           assert_eq (server_cert_path cfg) "cert.pem"].
Definition hex_encode_output : bool :=
  asserts [assert_eq (bytes_to_hex [Byte.xca; Byte.xfe]) "cafe"; assert_eq (bytes_to_hex []) EmptyString].

(** No PEM file is there. *)
Definition no_pem : TlsCrates Host unit unit unit :=
  {| pem_file_certs := fun _ => fail "No such file or directory (os error 2)";
     pem_file_key := fun _ => fail "No such file or directory (os error 2)";
     root_store_add := fun store _ => inl store; client_verifier := fun _ => inl tt; server_config := fun _ _ _ => inl tt;
     parse_socket_addr := inl; tcp_bind := fun _ => mret tt; local_addr := fun _ => inr "not bound";
     tcp_accept := fun _ => fail "closed"; tls_accept := fun _ _ => mret tt; peer_certificates := fun _ => None |}.
Definition listener_error {A : Type} (r : result A GateError) : bool :=
  unwrapping_err r (fun e => match e with GateListener _ => true | _ => false end).
Definition load_certs_missing_file_returns_error : bool :=
  listener_error (load_certs (H1:=no_pem) "/nonexistent/cert.pem" temp_host).2.
Definition load_private_key_missing_file_returns_error : bool :=
  listener_error (load_private_key (H1:=no_pem) "/nonexistent/key.pem" temp_host).2.

(** ** router.rs *)

Definition make_router : Router :=
  let gate_key := replicate 32 Byte.x00 in
  let approval_config := mkApprovalConfig "echo" 5 true true 200 in
  router_new gate_key 100000 (manager_new gate_key false) (proxy_manager_new default_proxy_config)
    (mkPolicyEngine (PolicyEvaluator.mkPolicyEvaluator []) temp_dir approval_config).

Definition new_v4 : string := "550e8400-e29b-41d4-a716-446655440000".
(** The clock moves a second between the calls. *)
Definition t_replay (nonce timestamp : string) : TestM (Lru * Z) (result unit GateError) := fun w =>
  let '(cache, r) := validate_replay w.2 w.1 nonce timestamp in Some (r, (cache, w.2 + NANOS)).
Definition replay_refused (e : GateError) : bool := match e with Replay _ => true | _ => false end.
Definition replay_test (t : TestM (Lru * Z) bool) : bool := run_test (rt_nonces make_router, test_epoch) t.

Definition validate_replay_fresh_nonce_passes : bool := replay_test (
  let ts := display_Z test_epoch in
  _ ← unwrapped (t_replay new_v4 ts);
  mret true).
Definition validate_replay_duplicate_nonce_rejected : bool := replay_test (
  let ts := display_Z test_epoch in
  _ ← unwrapped (t_replay new_v4 ts);
  err ← refused (t_replay new_v4 ts);
  mret (replay_refused err)).
Definition validate_replay_stale_timestamp_rejected : bool := replay_test (
  let old_ts := display_Z (test_epoch - 60 * NANOS) in
  err ← refused (t_replay new_v4 old_ts);
  mret (replay_refused err)).
Definition validate_replay_invalid_uuid_rejected : bool := replay_test (
  err ← refused (t_replay "not-a-uuid" (display_Z test_epoch));
  mret (replay_refused err)).

Definition dummy_peer : PeerInfo := mkPeerInfo 1 1000 1000.
Definition no_draw : Draw := mkDraw (os_draw 0) (os_draw 1) test_epoch.
Definition answered_with (code : Z) (raw : string) : bool :=
  match (handle_request make_router test_epoch no_draw (as_bytes raw) dummy_peer (replicate 16 Byte.x01)).2 with
  | Ok resp => match rp_error resp with Some (c, _) => c =? code | None => false end
  | _ => false
  end.

Definition handle_request_invalid_json_returns_parse_error : bool := answered_with PARSE_ERROR "{{not valid json".
Definition handle_request_missing_jsonrpc_returns_parse_error : bool :=
  answered_with PARSE_ERROR (requote "{'method':'cdp.register','params':{},'id':1}").
Definition handle_request_wrong_jsonrpc_version_returns_invalid_request : bool :=
  answered_with INVALID_REQUEST (requote "{'jsonrpc':'1.0','method':'cdp.register','params':{},'id':1}").

(** The test modules of the crate pass. *)
Theorem gate_tests_pass :
  asserts
    [default_config_is_valid; parse_empty_toml_gives_defaults; parse_partial_toml; tilde_expansion; parse_full_config;
     hex_encode_known_vectors; json_rpc_response_success_serializes; json_rpc_response_error_serializes;
     register_params_deserializes; compute_fingerprint_determinism; compute_fingerprint_different_inputs;
     read_binary_path_self; read_start_time_self; hash_binary_self; create_and_verify_fingerprint_file;
     cleanup_deletes_file; double_cleanup_is_idempotent; bind_in_tempdir_succeeds; bind_removes_stale_socket;
     accept_returns_peer_info_with_correct_pid_and_uid; remote_constraint_constants; tls_listener_config_defaults;
     hex_encode_output; load_certs_missing_file_returns_error; load_private_key_missing_file_returns_error;
     validate_replay_fresh_nonce_passes; validate_replay_duplicate_nonce_rejected;
     validate_replay_stale_timestamp_rejected; validate_replay_invalid_uuid_rejected;
     handle_request_invalid_json_returns_parse_error; handle_request_missing_jsonrpc_returns_parse_error;
     handle_request_wrong_jsonrpc_version_returns_invalid_request] = true.
Proof. vm_compute. reflexivity. Qed.
End Tests.
