(* ===== verification/TokenTests.v ===== *)
(** * cdp-token: the unit tests of the crate

    [issuer.rs], [revocation.rs] and [validator.rs], with the URL-safe base64
    alphabet, the derived codec of the claims and a toy signature: the digest
    of the public key and the message. *)

From S2P Require Import Prelude RustStr Crypto AuditLog LeaseTypes Token Mtls.
From S2P Require Import Asserts CryptoTestKit JsonTestKit.
From S2P Require LeaseProps LeaseTestKit ProxyTestKit.

#[local] Arguments String.append !_ _ /.

(** ** base64 *)

Definition alphabet : string := "ABCDEFGHIJKLMNOPQRSTUVWXYZabcdefghijklmnopqrstuvwxyz0123456789-_".
Definition sextet (n : N) : Ascii.ascii := default Ascii.zero (String.get (N.to_nat (n mod 64)) alphabet).
Fixpoint index_in (c : Ascii.ascii) (s : string) : option N :=
  match s with
  | EmptyString => None
  | String c' s => if bool_decide (c = c') then Some 0%N else N.succ <$> index_in c s
  end.

Fixpoint encode64 (l : list byte) : string :=
  match l with
  | a :: b :: c :: rest =>
      let n := (Byte.to_N a * 65536 + Byte.to_N b * 256 + Byte.to_N c)%N in
      String (sextet (n / 262144)) (String (sextet (n / 4096)) (String (sextet (n / 64)) (String (sextet n) (encode64 rest))))
  | [a; b] =>
      let n := (Byte.to_N a * 1024 + Byte.to_N b * 4)%N in
      String (sextet (n / 4096)) (String (sextet (n / 64)) (String (sextet n) EmptyString))
  | [a] => let n := (Byte.to_N a * 16)%N in String (sextet (n / 64)) (String (sextet n) EmptyString)
  | [] => EmptyString
  end.

Definition octet (n : N) : byte := default Byte.x00 (Byte.of_N (n mod 256)).
Fixpoint decode64 (l : list N) : option (list byte) :=
  match l with
  | a :: b :: c :: d :: rest =>
      let n := (a * 262144 + b * 4096 + c * 64 + d)%N in
      bs ← decode64 rest; Some (octet (n / 65536) :: octet (n / 256) :: octet n :: bs)
  | [a; b; c] => let n := (a * 4096 + b * 64 + c)%N in
                 if (n mod 4 =? 0)%N then Some [octet (n / 1024); octet (n / 4)] else None
  | [a; b] => let n := (a * 64 + b)%N in if (n mod 16 =? 0)%N then Some [octet (n / 16)] else None
  | [_] => None
  | [] => Some []
  end.
Definition read64 (s : string) : option (list byte) :=
  l ← mapM (fun c => index_in c alphabet) (String.list_ascii_of_string s); decode64 l.

#[local] Instance url_safe : Base64Url :=
  {| b64_encode := encode64;
     b64_decode := fun s => match read64 s with Some b => inl b | None => inr "Invalid symbol" end |}.

(** ** Signatures and claims *)

Definition toy_signature (public m : list byte) : list byte := let d := digest (public ++ m) in d ++ d.
#[local] Instance toy_ed : Ed25519 :=
  {| ed_public := digest; ed_sign := fun sk m => toy_signature (digest sk) m;
     ed_verify := fun pk m s => bool_decide (s = toy_signature pk m) |}.

Definition default_single_use : bool := true.

Definition claims_json (c : TokenClaims) : Json :=
  obj [("iss", JString (tc_iss c)); ("sub", JString (tc_sub c)); ("aud", JString (tc_aud c)); ("exp", num (tc_exp c));
       ("iat", num (tc_iat c)); ("jti", JString (tc_jti c)); ("scope", strs (tc_scope c));
       ("lease_id", JString (tc_lease_id c)); ("delegation_chain", strs (tc_delegation_chain c));
       ("single_use", JBool (tc_single_use c))].
Definition defaulted {A : Type} (d : A) (f : Json -> option A) (v : Json) (k : string) : option A :=
  match json_get v k with Some x => f x | None => Some d end.
Definition read_claims (v : Json) : option TokenClaims :=
  iss ← req as_text v "iss"; sub ← req as_text v "sub"; aud ← req as_text v "aud"; exp ← req as_number v "exp";
  iat ← req as_number v "iat"; jti ← req as_text v "jti"; scope ← defaulted [] (as_list as_text) v "scope";
  lease ← req as_text v "lease_id"; chain ← defaulted [] (as_list as_text) v "delegation_chain";
  single ← defaulted default_single_use as_flag v "single_use";
  Some (mkTokenClaims iss sub aud exp iat jti scope lease chain single).
#[local] Instance json_claims : ClaimsCodec :=
  {| claims_to_vec := fun c => inl (as_bytes (write_json (claims_json c)));
     claims_from_slice := fun b => from_text read_claims (of_bytes b); claims_to_value := fun c => inl (claims_json c);
     value_to_vec := fun v => inl (as_bytes (write_json v)); value_from_slice := fun b => from_text Some (of_bytes b) |}.
#[local] Instance auto_time : Rfc3339Auto := {| to_rfc3339 := display_Z |}.
#[local] Existing Instance LeaseProps.chrono_range.

Definition requote : string -> string := ProxyTestKit.requote.

Section Tests.
Context `{Fmt}.

(** ** issuer.rs *)

(** [_check_header_const] *)
Definition check_header_const : bool :=
  assert_eq (b64_encode (as_bytes (requote "{'alg':'EdDSA','typ':'JWT'}"))) JWT_HEADER_B64.

Definition now : Z := 1704067200.
Definition make_claims (exp_offset_secs : Z) : TokenClaims :=
  mkTokenClaims "cdp-gate" "agent-abc123" "remote-api" (now + exp_offset_secs) now
    "550e8400-e29b-41d4-a716-446655440000" ["read"] "lease-123" [] true.

(** [TokenIssuer::new()] on the [n]-th draw of the generator. *)
Definition generated (n : nat) : TokenIssuer := issuer_from_key (LeaseTestKit.os_draw n).
Definition crypto_error (e : TokenError) : bool := match e with TokenCrypto _ => true | _ => false end.
Definition invalid_claims (e : TokenError) : bool := match e with InvalidClaims _ => true | _ => false end.

Definition new_generates_key : bool :=
  let pk := verifying_key (generated 0) in
  asserts [assert_eq (length pk) 32%nat; negb (assert_eq pk (replicate 32 Byte.x00))].
Definition from_key_roundtrip : bool :=
  let issuer1 := generated 0 in
  let issuer2 := issuer_from_key (secret_bytes issuer1) in
  assert_eq (verifying_key issuer1) (verifying_key issuer2).
Definition public_key_base64_is_valid : bool :=
  let issuer := generated 0 in
  match b64_decode (public_key_base64 issuer) with inl d => assert_eq d (verifying_key issuer) | inr _ => false end.
Definition issue_and_verify_roundtrip : bool :=
  let issuer := generated 0 in
  let claims := make_claims 300 in
  let? token := issue issuer claims in
  let? verified := verify issuer now token in
  asserts [assert_eq (tc_sub verified) "agent-abc123"; assert_eq (tc_jti verified) (tc_jti claims); tc_single_use verified].
Definition verify_rejects_expired_token : bool :=
  let issuer := generated 0 in
  let? token := issue issuer (make_claims (-1)) in
  unwrapping_err (verify issuer now token) (fun e => match e with TokenExpired => true | _ => false end).
Definition verify_rejects_tampered_claims : bool :=
  let issuer := generated 0 in
  let? token := issue issuer (make_claims 300) in
  let tampered_claims := b64_encode (as_bytes (requote
    "{'iss':'evil','sub':'attacker','aud':'api','exp':9999999999,'iat':0,'jti':'x','lease_id':'y','single_use':false}")) in
  let bad_token := join "." (<[1%nat := tampered_claims]> (splitn3 dot token)) in
  unwrapping_err (verify issuer now bad_token) crypto_error.
Definition verify_rejects_wrong_algorithm : bool :=
  let issuer := generated 0 in
  let bad_header := b64_encode (as_bytes (requote "{'alg':'RS256','typ':'JWT'}")) in
  let claims_b64 := b64_encode (as_bytes (write_json (claims_json (make_claims 300)))) in
  let fake_sig := b64_encode (as_bytes "fakesig") in
  unwrapping_err (verify issuer now (bad_header +:+ "." +:+ claims_b64 +:+ "." +:+ fake_sig)) invalid_claims.
Definition verify_rejects_malformed_token : bool :=
  let issuer := generated 0 in
  unwrapping_err (verify issuer now "not.a.token.with.five.parts") (fun e => invalid_claims e || crypto_error e) &&
  unwrapping_err (verify issuer now "onlytwoparts.here") invalid_claims.
Definition different_issuers_cannot_verify_each_others_tokens : bool :=
  let? token := issue (generated 0) (make_claims 300) in
  unwrapping_err (verify (generated 1) now token) crypto_error.

(** ** revocation.rs *)

Definition exp_in (seconds : Z) : Z := (now + seconds) * NANOS.

Definition revoke_and_check : bool :=
  let rl := revocation_new in
  asserts [negb (is_revoked_jti rl "test-jti-1"); is_revoked_jti (revoke rl "test-jti-1" (exp_in 300)) "test-jti-1"].
Definition check_and_mark_used_allows_first_use : bool :=
  let '(rl, r) := check_and_mark_used revocation_new "single-use-jti" (exp_in 300) in
  let? _ := r in is_revoked_jti rl "single-use-jti".
Definition check_and_mark_used_rejects_second_use : bool :=
  let '(rl, r) := check_and_mark_used revocation_new "single-use-jti-2" (exp_in 300) in
  let? _ := r in
  unwrapping_err (check_and_mark_used rl "single-use-jti-2" (exp_in 300)).2
    (fun e => match e with TokenRevoked => true | _ => false end).
Definition cleanup_removes_expired_entries : bool :=
  let rl := revoke (revoke revocation_new "expired-jti" (exp_in (-1))) "valid-jti" (exp_in 300) in
  let rl := cleanup rl (exp_in 0) in
  asserts [negb (is_revoked_jti rl "expired-jti"); is_revoked_jti rl "valid-jti"].
Definition to_signed_list_produces_valid_jwt : bool :=
  let rl := revoke revocation_new "jti-abc" (exp_in 300) in
  let? token := to_signed_list rl (generated 0) (exp_in 0) "550e8400-e29b-41d4-a716-446655440001" in
  assert_eq (length (split dot token)) 3%nat.

(** ** validator.rs *)

(** [Serialize for AttestationType] *)
Definition attestation_name (t : AttestationType) : string :=
  match t with Token.Mtls => "Mtls" | Oidc => "Oidc" | Enclave => "Enclave" | SignedCode => "SignedCode" end.
Definition attestation_failed (r : result AttestationResult TokenError) : bool :=
  unwrapping_err r (fun e => match e with AttestationFailed _ => true | _ => false end).

Definition attestation_type_serialize : bool :=
  assert_eq (write_json (JString (attestation_name Token.Mtls))) (requote "'Mtls'").
Definition enclave_returns_error : bool := attestation_failed (verify_enclave_attestation (as_bytes "evidence")).
Definition signed_code_returns_error : bool := attestation_failed (verify_signed_code_attestation (as_bytes "evidence")).
(** No text is a certificate. *)
#[local] Instance no_der : X509 := {| from_der := fun _ => inr "unexpected tag" |}.
Definition verify_mtls_rejects_garbage_der : bool :=
  unwrapping_err (verify_mtls_attestation (now * NANOS) (as_bytes "not a certificate"))
    (fun e => match e with InvalidCertificate _ => true | _ => false end).
Definition hex_encode_known : bool := assert_eq (bytes_to_hex [Byte.xde; Byte.xad; Byte.xbe; Byte.xef]) "deadbeef".

(** The test modules of the crate pass. *)
Theorem token_tests_pass :
  asserts
    [check_header_const; new_generates_key; from_key_roundtrip; public_key_base64_is_valid; issue_and_verify_roundtrip;
     verify_rejects_expired_token; verify_rejects_tampered_claims; verify_rejects_wrong_algorithm;
     verify_rejects_malformed_token; different_issuers_cannot_verify_each_others_tokens; revoke_and_check;
     check_and_mark_used_allows_first_use; check_and_mark_used_rejects_second_use; cleanup_removes_expired_entries;
     to_signed_list_produces_valid_jwt; attestation_type_serialize; enclave_returns_error; signed_code_returns_error;
     verify_mtls_rejects_garbage_der; hex_encode_known] = true.
Proof. vm_compute. reflexivity. Qed.
End Tests.
