(* ===== verification/VaultTests.v ===== *)
(** * cdp-vault: the unit tests of the crate

    [protocol.rs], [bitwarden.rs], [file.rs], [sandbox.rs] and
    [subprocess.rs], with the derived codecs of the messages and of what [bw]
    prints, the files of [Asserts] and a toy password hash;
    [watch_rotation] is not modelled and its test left out. *)

From S2P Require Import Prelude StateM RustStr Crypto AuditLog UnixHost VaultProtocol VaultBitwarden VaultManager VaultFile VaultWorker.
From S2P Require Import Asserts CryptoTestKit JsonTestKit.
From S2P Require GateMain.

#[local] Arguments String.append !_ _ /.

(** ** Codecs *)

(** [#[serde(tag = "cmd", rename_all = "snake_case")]] *)
Definition command_json (c : VaultCommand) : Json :=
  obj match c with
      | Init key => [("cmd", JString "init"); ("key", JString key)]
      | Unlock password => [("cmd", JString "unlock"); ("password", JString password)]
      | VaultProtocol.List => [("cmd", JString "list")]
      | Fetch ref_id => [("cmd", JString "fetch"); ("ref_id", JString ref_id)]
      | Exists ref_id => [("cmd", JString "exists"); ("ref_id", JString ref_id)]
      end.
Definition read_command (v : Json) : option VaultCommand :=
  tag ← req as_text v "cmd";
  if bool_decide (tag = "init") then Init <$> req as_text v "key"
  else if bool_decide (tag = "unlock") then Unlock <$> req as_text v "password"
  else if bool_decide (tag = "list") then Some VaultProtocol.List
  else if bool_decide (tag = "fetch") then Fetch <$> req as_text v "ref_id"
  else if bool_decide (tag = "exists") then Exists <$> req as_text v "ref_id"
  else None.

(** [#[serde(tag = "status", rename_all = "snake_case")]] *)
Definition response_json (r : VaultResponse) : Json :=
  obj match r with
      | ROk data => [("status", JString "ok"); ("data", data)]
      | RError message => [("status", JString "error"); ("message", JString message)]
      end.
Definition read_response (v : Json) : option VaultResponse :=
  tag ← req as_text v "status";
  if bool_decide (tag = "ok") then ROk <$> json_get v "data"
  else if bool_decide (tag = "error") then RError <$> req as_text v "message"
  else None.

Definition to_vec {A : Type} (f : A -> Json) (a : A) : list byte + string := inl (as_bytes (write_json (f a))).

#[local] Instance json_vault : VaultCodec :=
  {| command_to_vec := to_vec command_json; command_from_slice := fun b => from_text read_command (of_bytes b);
     response_to_vec := to_vec response_json; response_from_slice := fun b => from_text read_response (of_bytes b) |}.

(** What [bw] prints; an [Option] may be absent or null. *)
Definition read_uri (v : Json) : option BwUri :=
  m ← opt as_number v "match"; uri ← req as_text v "uri"; Some (mkBwUri m uri).
Definition read_login (v : Json) : option BwLogin :=
  user ← opt as_text v "username"; pw ← opt as_text v "password"; uris ← opt (as_list read_uri) v "uris";
  Some (mkBwLogin user pw uris).
Definition read_field (v : Json) : option BwField :=
  name ← req as_text v "name"; value ← req as_text v "value"; ty ← req as_number v "field_type";
  Some (mkBwField name value ty).
Definition read_item (v : Json) : option BwItem :=
  id ← req as_text v "id"; name ← req as_text v "name"; ty ← req as_number v "type"; login ← opt read_login v "login";
  notes ← opt as_text v "notes"; fields ← opt (as_list read_field) v "fields";
  Some (mkBwItem id name ty login notes fields).
#[local] Instance json_bw : BwJson :=
  {| bw_item_from_str := from_text read_item; bw_items_from_str := from_text (as_list read_item) |}.

Definition vault_json (f : DevVaultFile) : Json :=
  obj [("credentials", obj (map (fun kv => (kv.1, obj [("value", JString (dc_value kv.2)); ("name", JString (dc_name kv.2))]))
                              (map_to_list (credentials f))))].
Definition read_credential (v : Json) : option DevCredential :=
  value ← req as_text v "value"; name ← req as_text v "name"; Some (mkDevCredential value name).
Definition read_vault (v : Json) : option DevVaultFile :=
  match json_get v "credentials" with
  | Some (JObject fields) =>
      l ← mapM (fun kv => c ← read_credential kv.2; Some (kv.1, c)) fields;
      Some (mkDevVaultFile (list_to_map l))
  | _ => None
  end.
#[local] Instance json_dev : DevVaultCodec :=
  {| vault_to_vec := to_vec vault_json; vault_from_slice := fun b => from_text read_vault (of_bytes b) |}.

#[local] Instance toy_argon : Argon2 :=
  {| ArgonParams := unit; params_new := fun _ _ _ _ => inl tt;
     hash_password_into := fun _ p salt => inl (digest (p ++ salt)) |}.
(** The generator of a host: its clock. *)
#[local] Instance clock_rng : OsRng Host :=
  {| gen_bytes := fun n h => (tick h, take n (digest (be_bytes 8 (Z.to_N (h_now h))))) |}.
#[local] Existing Instance GateMain.host_files.
#[local] Instance any_iter : MapIter := {| map_iter := fun A m => map_to_list m |}.

(** ** protocol.rs *)

Definition make_message (payload : list byte) : list byte := (write_message payload []).1.
Definition read_back (framed : list byte) : result (list byte) VaultError := (read_message framed).2.
Definition protocol_error {A : Type} (r : result A VaultError) : bool :=
  unwrapping_err r (fun e => match e with Protocol _ => true | _ => false end).

Definition test_roundtrip_encode_decode : bool :=
  let payload := as_bytes "hello, vault!" in
  let? decoded := read_back (make_message payload) in assert_eq decoded payload.
Definition test_empty_message_roundtrip : bool :=
  let framed := make_message [] in
  let? decoded := read_back framed in assert_eq framed (replicate 4 Byte.x00) && is_empty_vec decoded.
Definition test_max_size_rejection : bool :=
  let oversized_len := Z.to_N (MAX_MESSAGE_SIZE + 1) in protocol_error (read_back (be_bytes 4 oversized_len)).
Definition test_vault_command_serde_roundtrip : bool :=
  let cmd := Fetch "abc-123" in
  match command_to_vec cmd with
  | inl json => match command_from_slice json with inl (Fetch ref_id) => assert_eq ref_id "abc-123" | _ => false end
  | inr _ => false
  end.
(** A response as JSON and back. *)
Definition rewritten (resp : VaultResponse) (k : VaultResponse -> bool) : bool :=
  match response_to_vec resp with
  | inl json => match response_from_slice json with inl r => k r | inr _ => false end
  | inr _ => false
  end.
Definition test_vault_response_ok_serde : bool :=
  rewritten (ROk (obj [("found", JBool true)])) (fun r => match r with ROk _ => true | _ => false end).
Definition test_vault_response_error_serde : bool :=
  rewritten (RError "vault locked") (fun r => match r with RError _ => true | _ => false end).
Definition test_async_roundtrip : bool :=
  let payload := as_bytes "async vault payload" in
  let? decoded := read_back (make_message payload) in assert_eq decoded payload.
Definition test_async_max_size_rejection : bool :=
  protocol_error (read_back (be_bytes 4 (Z.to_N (MAX_MESSAGE_SIZE + 1)))).

(** ** bitwarden.rs *)

(** The responses queued, and how often the generator was asked. *)
Record MockCommandExecutor : Type := mkMock { responses : list (result string VaultError); mock_draws : nat }.
(** [MockCommandExecutor::execute]; an empty queue panics. *)
Definition mock_execute : M MockCommandExecutor VaultError string := fun m =>
  match responses m with
  | [] => (m, Panic)
  | r :: rest => (mkMock rest (mock_draws m), r)
  end.
#[local] Instance mock_executor : CommandExecutor MockCommandExecutor := {| execute := fun _ _ _ => mock_execute |}.
#[local] Instance mock_rng : OsRng MockCommandExecutor :=
  {| gen_bytes := fun n m => (mkMock (responses m) (S (mock_draws m)), take n (digest (be_bytes 8 (N.of_nat (mock_draws m))))) |}.

Abbreviation Backend := (BitwardenBackend MockCommandExecutor).

Definition test_ipc_key : list byte := replicate 32 Byte.xab.
Definition make_backend (queued : list (result string VaultError)) : Backend :=
  (set_ipc_key (E:=VaultError) test_ipc_key (backend_new (mkMock queued 0))).1.

(** A call that must succeed, and one that must not. *)
Definition bw {A : Type} (m : M Backend VaultError A) : TestM Backend (result A VaultError) := fun b =>
  let '(b, r) := m b in Some (r, b).
Definition cli_error (e : VaultError) : bool := match e with BitwardenCli _ => true | _ => false end.
Definition unlocked (queued : list (result string VaultError)) (t : TestM Backend bool) : bool :=
  run_test (make_backend (Ok "session-key" :: queued)) (_ ← unwrapped (bw (backend_unlock "pw")); t).

Definition test_unlock_success : bool := run_test (make_backend [Ok "session-key-value"]) (
  _ ← unwrapped (bw (backend_unlock "correct-password"));
  seen (fun b => is_some (session_key b))).
Definition test_unlock_wrong_password : bool :=
  run_test (make_backend [Err (BitwardenCli "bw exited with 1: Invalid master password.")]) (
    e ← refused (bw (backend_unlock "wrong-password"));
    mret (cli_error e)).

Definition login_item (user id name password : string) : Json :=
  obj [("id", JString id); ("name", JString name); ("type", num 1);
       ("login", obj [("username", JString user); ("password", JString password); ("uris", JArray [])]);
       ("notes", JNull); ("fields", JNull)].
Definition bw_item_login_json (id name password : string) : string :=
  write_json (JArray [login_item "user@example.com" id name password]).
Definition bw_get_item_login_json (id name password : string) : string := write_json (login_item "user" id name password).
Definition bw_get_item_note_json (id name notes : string) : string :=
  write_json (obj [("id", JString id); ("name", JString name); ("type", num 2); ("login", JNull);
                   ("notes", JString notes); ("fields", JNull)]).

Definition test_list_credentials : bool :=
  let json := bw_item_login_json "id-1" "My API Key" "secret" in
  unlocked [Ok json] (
    creds ← unwrapped (bw backend_list);
    mret (assert_eq (map (fun c => (cr_id c, cr_name c, cr_vault_type c)) creds) [("id-1", "My API Key", "login")])).
Definition test_list_empty : bool := unlocked [Ok "[]"] (
  creds ← unwrapped (bw backend_list);
  mret (is_empty_vec creds)).
Definition opens_to (text : string) (enc : EncryptedCredential) : bool :=
  assert_eq (aead_decrypt test_ipc_key (ec_nonce enc) (ec_data enc)) (Some (as_bytes text)).
Definition test_fetch_login_credential : bool :=
  let item_json := bw_get_item_login_json "id-1" "API Key" "s3cr3t" in
  unlocked [Ok item_json] (
    enc ← unwrapped (bw (backend_fetch "id-1"));
    mret (opens_to "s3cr3t" enc)).
Definition test_fetch_notes_credential : bool :=
  let item_json := bw_get_item_note_json "id-2" "Secure Note" "my-secret-note" in
  unlocked [Ok item_json] (
    enc ← unwrapped (bw (backend_fetch "id-2"));
    mret (opens_to "my-secret-note" enc)).
Definition test_fetch_not_found : bool := unlocked [Err (BitwardenCli "bw exited with 1: Not found.")] (
  e ← refused (bw (backend_fetch "nonexistent"));
  mret (cli_error e)).
Definition test_exists_found : bool :=
  let item_json := bw_get_item_login_json "id-3" "Found" "pw" in
  unlocked [Ok item_json] (unwrapped (bw (backend_exists "id-3"))).
Definition test_exists_not_found : bool := unlocked [Err (BitwardenCli "bw exited with 1: Not found.")] (
  found ← unwrapped (bw (backend_exists "nonexistent"));
  mret (negb found)).

Definition test_extract_credential_value_priority_login_over_notes : bool :=
  let item := mkBwItem "x" "X" 1 (Some (mkBwLogin None (Some "login-pw") None)) (Some "some notes")
                (Some [mkBwField "field" "field-val" 0]) in
  let? value := extract_credential_value item in assert_eq value "login-pw".
Definition test_extract_credential_value_notes_over_fields : bool :=
  let item := mkBwItem "x" "X" 2 None (Some "note-content") (Some [mkBwField "f" "field-val" 0]) in
  let? value := extract_credential_value item in assert_eq value "note-content".
Definition test_extract_credential_value_fields_fallback : bool :=
  let item := mkBwItem "x" "X" 1 (Some (mkBwLogin (Some "user") None None)) None
                (Some [mkBwField "api_key" "key-from-field" 0]) in
  let? value := extract_credential_value item in assert_eq value "key-from-field".
Definition not_found (e : VaultError) : bool := match e with NotFound _ => true | _ => false end.
Definition test_extract_credential_value_no_value_returns_error : bool :=
  unwrapping_err (extract_credential_value (mkBwItem "empty" "Empty" 1 None None None)) not_found.

(** ** file.rs *)

Definition sample_credentials : gmap string DevCredential :=
  <["api-key-1" := mkDevCredential "super-secret-api-key" "My API Key"]>
  (<["db-password" := mkDevCredential "postgres-password-123" "Database Password"]> ∅).

Definition files {A : Type} (m : M Host VaultError A) : TestM Host (result A VaultError) := fun h =>
  let '(h, r) := m h in Some (r, h).
Definition at_path (name : string) : string := path_join temp_dir name.
Definition sealed (name pw : string) (creds : gmap string DevCredential) : TestM Host unit :=
  unwrapped (files (create_dev_vault (at_path name) pw creds)).
Definition opened (name pw : string) : TestM Host FileBackend := unwrapped (files (open (at_path name) pw)).
Definition decryption_error (e : VaultError) : bool := match e with VaultDecryption _ => true | _ => false end.

Definition test_create_and_open_roundtrip : bool := run_test temp_host (
  _ ← sealed "vault.cdp" "my-master-password" sample_credentials;
  backend ← opened "vault.cdp" "my-master-password";
  mret (asserts [assert_eq (size (fb_credentials backend)) (size sample_credentials);
                 forallb (fun kv => expecting (fb_credentials backend !! kv.1) (fun actual =>
                            assert_eq (dc_value actual) (dc_value kv.2) && assert_eq (dc_name actual) (dc_name kv.2)))
                   (map_to_list sample_credentials)])).
Definition test_wrong_password_fails : bool := run_test temp_host (
  _ ← sealed "vault.cdp" "correct-password" sample_credentials;
  e ← refused (files (open (at_path "vault.cdp") "wrong-password"));
  mret (decryption_error e)).
(** [test_list_credentials] of [file.rs] *)
Definition file_test_list_credentials : bool := run_test temp_host (
  _ ← sealed "vault.cdp" "pw" sample_credentials;
  backend ← opened "vault.cdp" "pw";
  let list := file_list backend in
  let ids := map cr_id list in
  mret (asserts [assert_eq (length list) (size sample_credentials);
                 forallb (fun kv => contains ids kv.1) (map_to_list sample_credentials);
                 forallb (fun r => assert_eq (cr_vault_type r) "dev") list])).
Definition test_fetch_credential : bool := run_test temp_host (
  _ ← sealed "vault.cdp" "pw" sample_credentials;
  backend ← opened "vault.cdp" "pw";
  enc ← unwrapped (files (file_fetch backend "api-key-1"));
  mret (assert_eq (aead_decrypt (fb_ipc_key backend) (ec_nonce enc) (ec_data enc))
          (Some (as_bytes "super-secret-api-key")))).
(** [test_fetch_not_found] of [file.rs] *)
Definition file_test_fetch_not_found : bool := run_test temp_host (
  _ ← sealed "vault.cdp" "pw" sample_credentials;
  backend ← opened "vault.cdp" "pw";
  e ← refused (files (file_fetch backend "nonexistent-id"));
  mret (not_found e)).
Definition test_exists : bool := run_test temp_host (
  _ ← sealed "vault.cdp" "pw" sample_credentials;
  backend ← opened "vault.cdp" "pw";
  mret (file_exists backend "api-key-1" && negb (file_exists backend "not-there"))).
Definition test_empty_vault : bool := run_test temp_host (
  _ ← sealed "empty.cdp" "pw" ∅;
  backend ← opened "empty.cdp" "pw";
  mret (assert_eq (size (fb_credentials backend)) 0%nat)).
Definition test_corrupted_file : bool := run_test temp_host (
  let garbage := map (fun n => default Byte.x00 (Byte.of_N (N.of_nat n))) (seq 0 64) in
  _ ← on_host (fs_write (at_path "corrupted.cdp") garbage);
  e ← refused (files (open (at_path "corrupted.cdp") "pw"));
  mret (decryption_error e)).
Definition test_too_short_file : bool := run_test temp_host (
  _ ← on_host (fs_write (at_path "short.cdp") (as_bytes "tooshort"));
  e ← refused (files (open (at_path "short.cdp") "pw"));
  mret (decryption_error e)).

(** ** sandbox.rs *)

(** A kernel that takes every filter and setting. *)
#[local] Instance any_seccomp : Seccomp :=
  {| syscall_number := fun name => Z.of_N (checksum (as_bytes name)); target_arch := inl "x86_64"; filter_check := fun _ => None;
     BpfProgram := SeccompFilter; filter_compile := inl |}.
#[local] Instance lenient_os : SandboxOs unit :=
  {| set_dumpable_off := mret tt; setrlimit_core_zero := mret tt; unshare_newpid := fail "EPERM";
     apply_filter := fun _ => mret tt; proc_self_fd := mret []; close_fd := fun _ x => x;
     try_clone := fun _ => mret tt |}.
Definition test_seccomp_filter_compiles_without_error : bool := negb (is_err build_seccomp_filter).
Definition test_apply_sandbox_disabled_does_not_fail : bool := negb (is_err (apply_sandbox false tt).2).

(** ** subprocess.rs *)

Definition test_ok_or_err_ok : bool :=
  let? val := ok_or_err (ROk (JBool true)) in match val with JBool b => b | _ => false end.
Definition test_ok_or_err_error : bool :=
  unwrapping_err (ok_or_err (RError "something went wrong")) (fun e => match e with Subprocess _ => true | _ => false end).

(** The test modules of the crate pass. *)
Theorem vault_tests_pass :
  asserts
    [test_roundtrip_encode_decode; test_empty_message_roundtrip; test_max_size_rejection;
     test_vault_command_serde_roundtrip; test_vault_response_ok_serde; test_vault_response_error_serde;
     test_async_roundtrip; test_async_max_size_rejection; test_unlock_success; test_unlock_wrong_password;
     test_list_credentials; test_list_empty; test_fetch_login_credential; test_fetch_notes_credential;
     test_fetch_not_found; test_exists_found; test_exists_not_found;
     test_extract_credential_value_priority_login_over_notes; test_extract_credential_value_notes_over_fields;
     test_extract_credential_value_fields_fallback; test_extract_credential_value_no_value_returns_error;
     test_create_and_open_roundtrip; test_wrong_password_fails; file_test_list_credentials; test_fetch_credential;
     file_test_fetch_not_found; test_exists; test_empty_vault; test_corrupted_file; test_too_short_file;
     test_seccomp_filter_compiles_without_error; test_apply_sandbox_disabled_does_not_fail; test_ok_or_err_ok;
     test_ok_or_err_error] = true.
Proof. vm_compute. reflexivity. Qed.
