(* ===== verification/SdkTests.v ===== *)
(** * cdp-sdk: the unit tests of the crate

    [discovery.rs], [transport.rs], [client.rs], [session.rs] and [lease.rs]
    against scripted gates, with the derived codecs of [types.rs]. *)

From S2P Require Import Prelude StateM RustStr AuditLog UnixHost ProxyScope ProxyAuth Sdk.
From S2P Require Import Asserts JsonTestKit.
From S2P Require GateConfig LeaseProps ProxyTestKit.

#[local] Arguments String.append !_ _ /.

(** ** Codecs *)

Definition read_sdk_scope (v : Json) : option SdkScope :=
  hosts ← req (as_list as_text) v "hosts"; methods ← req (as_list as_text) v "methods";
  paths ← req (as_list as_text) v "paths"; ttl ← opt as_number v "ttl_seconds"; reqs ← opt as_number v "max_requests";
  Some (mkSdkScope hosts methods paths ttl reqs).
Definition read_error (v : Json) : option (Z * string) :=
  code ← req as_number v "code"; message ← req as_text v "message"; Some (code, message).
Definition read_response (v : Json) : option SdkResponse :=
  _ ← req as_text v "jsonrpc"; e ← opt read_error v "error"; id ← json_get v "id";
  Some (mkSdkResponse (match json_get v "result" with Some JNull => None | o => o end) e id).
Definition read_registered (v : Json) : option SdkRegisterResult :=
  status ← req as_text v "status"; fp ← req as_text v "agent_fingerprint"; token ← req as_text v "session_token";
  caps ← req (as_list as_text) v "capabilities_granted"; Some (mkSdkRegisterResult status fp token caps).
Definition read_granted (v : Json) : option SdkCredentialResult :=
  status ← req as_text v "status"; id ← req as_text v "lease_id"; port ← req as_number v "proxy_port";
  token ← req as_text v "lease_token"; nonce ← req as_text v "channel_binding_nonce";
  ttl ← req as_number v "ttl_seconds"; scope ← req read_sdk_scope v "granted_scope";
  Some (mkSdkCredentialResult status id port token nonce ttl scope).
Definition read_renewal (v : Json) : option RenewalInfo :=
  status ← req as_text v "status"; at_ ← req as_text v "new_expires_at"; left ← req as_number v "renewals_remaining";
  Some (mkRenewalInfo status at_ left).
Definition read_fingerprint (v : Json) : option GateFingerprint :=
  pid ← req as_number v "gate_pid"; hash ← req as_text v "gate_binary_hash"; key ← req as_text v "public_key";
  sock ← req as_text v "socket_path"; at_ ← req as_text v "started_at"; Some (mkGateFingerprint pid hash key sock at_).
Definition fingerprint_json (f : GateFingerprint) : Json :=
  obj [("gate_pid", num (gate_pid f)); ("gate_binary_hash", JString (gate_binary_hash f));
       ("public_key", JString (public_key f)); ("socket_path", JString (socket_path f)); ("started_at", JString (started_at f))].

#[local] Instance json_sdk : SdkCodec :=
  {| request_to_string := fun r =>
       inl (write_json (obj [("jsonrpc", JString (sq_jsonrpc r)); ("method", JString (sq_method r));
                             ("params", sq_params r); ("id", num (sq_id r))]));
     response_from_str := from_text read_response; register_from_value := fun v => decoded (read_registered v);
     credential_from_value := fun v => decoded (read_granted v); renewal_from_value := fun v => decoded (read_renewal v);
     fingerprint_from_str := from_text read_fingerprint |}.

(** ** A scripted gate *)

(** The lines it received and those it will answer, one for each. *)
Record MockGate : Type := mkMockGate { received : list string; answers : list Json }.

#[local] Instance gate_io : LineIo MockGate :=
  {| write_line_bytes := fun l g => (mkMockGate (received g ++ [trim (of_bytes l)]) (answers g), Ok tt);
     read_line := fun g => match answers g with
                           | a :: rest => (mkMockGate (received g) rest,
                                           Ok (write_json a +:+ String newline EmptyString))
                           | [] => (g, Ok EmptyString)
                           end |}.

(** The host with a gate behind one socket. *)
Record World : Type := mkWorld { w_host : Host; w_gate : option (string * MockGate) }.
Definition on_world_host {A : Type} (m : M Host IoErr A) : M World string A :=
  map_errM display_io (zoom w_host (fun h w => mkWorld h (w_gate w)) m).
#[local] Instance world_os : SdkOs World MockGate :=
  {| env_var := fun k w => GateConfig.env_get k (w_host w); sdk_read_to_string := fun p => on_world_host (fs_read_to_string p);
     connect_blocking := fun _ => mret 3; peer_cred_pid := fun _ w => inl (h_pid (w_host w));
     connect_async := fun p w => match w_gate w with
                                 | Some (sock, g) => if bool_decide (sock = p) then (w, Ok g)
                                                     else (w, Err "No such file or directory (os error 2)")
                                 | None => (w, Err "No such file or directory (os error 2)")
                                 end |}.
#[local] Existing Instance LeaseProps.chrono_range.

Definition env_host (env : gmap string string) : Host :=
  mkHost env (h_fs temp_host) false 18 77 (h_self_exe temp_host) (h_now temp_host).
Definition alone (env : gmap string string) : World := mkWorld (env_host env) None.

(** [json!({"jsonrpc": "2.0", "result": .., "id": ..})] *)
Definition answer (id : Z) (value : Json) : Json := obj [("jsonrpc", JString "2.0"); ("result", value); ("id", num id)].
Definition refusal (code : Z) (message : string) : Json :=
  obj [("jsonrpc", JString "2.0"); ("error", obj [("code", num code); ("message", JString message)]); ("id", num 1)].

(** ** discovery.rs *)

Definition ends_with (s suffix : string) : bool :=
  bool_decide (String.substring (String.length s - String.length suffix) (String.length suffix) s = suffix).
Definition default_fingerprint_path_uses_home : bool :=
  let path_str := default_fingerprint_path (alone {["HOME" := "/home/u"]}) in
  str_contains path_str "cdp" && ends_with path_str "gate.fingerprint".
Definition discover_uses_env_override : bool :=
  let? fp := (discover (alone {["CDP_GATE_SOCKET" := "/tmp/test.sock"]})).2 in
  assert_eq (socket_path fp) "/tmp/test.sock" && (gate_pid fp =? 0).
Definition discover_fails_when_no_file_and_no_env : bool :=
  unwrapping_err (discover (alone {["XDG_CONFIG_HOME" := "/tmp/cdp-sdk-test-nonexistent-xdg"]})).2
    (fun e => match e with GateNotFound _ => true | _ => false end).
Definition discover_parses_fingerprint_file : bool :=
  let fingerprint := mkGateFingerprint 12345 "abc123" "base64pubkey" "/tmp/gate.sock" "2026-01-01T00:00:00Z" in
  let json := write_json (fingerprint_json fingerprint) in
  let home := env_host {["HOME" := temp_dir]} in
  let config_dir := path_join (path_join temp_dir ".config") "cdp" in
  run_test home (
    _ ← on_host (fs_create_dir_all config_dir);
    _ ← on_host (fs_write (path_join config_dir "gate.fingerprint") (as_bytes json));
    parsed ← seen (fun h => (discover (mkWorld h None)).2);
    mret (unwrapping parsed (fun p => (gate_pid p =? 12345) && assert_eq (socket_path p) "/tmp/gate.sock"))).
Definition pid_fingerprint (pid : Z) : GateFingerprint :=
  mkGateFingerprint pid EmptyString EmptyString EmptyString EmptyString.
Definition verify_gate_skips_check_when_pid_is_zero : bool :=
  negb (is_err (verify_gate 3 (pid_fingerprint 0) (alone ∅)).2).
Definition verify_gate_rejects_wrong_pid : bool :=
  unwrapping_err (verify_gate 3 (pid_fingerprint (U32 - 1)) (alone ∅)).2
    (fun e => match e with IdentityVerification _ => true | _ => false end).

(** ** transport.rs *)

Definition temp_socket_path : string := path_join temp_dir "cdp-test.sock".
Definition mock_gate (answers : list Json) : World := mkWorld temp_host (Some (temp_socket_path, mkMockGate [] answers)).

(** Connect, then send as a step of a test; the nonce and the clock are those
    of the first call. *)
Definition connected (answers : list Json) (t : TestM (Transport MockGate) bool) : bool :=
  let? transport := (transport_connect temp_socket_path (mock_gate answers)).2 in run_test transport t.
Definition t_send (method : string) (params : Json) : TestM (Transport MockGate) (result Json CdpError) := fun t =>
  let '(t, r) := send method params "550e8400-e29b-41d4-a716-446655440000" "2026-04-07T14:00:00Z" t in Some (r, t).
(** What the gate received, parsed. *)
Definition received_values (t : Transport MockGate) : list Json := omap read_json (received (chan t)).
Definition param (v : Json) (k : string) : option string := p ← json_get v "params"; req as_text p k.
Definition malformed (e : CdpError) : bool := match e with MalformedResponse _ => true | _ => false end.

Definition send_injects_nonce_and_timestamp : bool := connected [answer 1 (obj [("status", JString "ok")])] (
  result ← unwrapped (t_send "cdp.test" (obj [("key", JString "value")]));
  lines ← seen received_values;
  mret (expecting (head lines) (fun received =>
    asserts [is_some (param received "nonce"); is_some (param received "timestamp");
             assert_eq (param received "key") (Some "value"); assert_eq (req as_text result "status") (Some "ok")]))).
Definition send_propagates_gate_error : bool := connected [refusal (-32600) "Invalid Request"] (
  e ← refused (t_send "cdp.test" (obj []));
  mret (match e with CdpGateError code _ => code =? -32600 | _ => false end)).
Definition send_increments_request_id : bool := connected [answer 1 (obj []); answer 2 (obj [])] (
  _ ← unwrapped (t_send "cdp.test" (obj []));
  _ ← unwrapped (t_send "cdp.test" (obj []));
  lines ← seen received_values;
  mret (assert_eq (map (fun v => req as_number v "id") lines) [Some 1; Some 2])).
Definition send_rejects_non_object_params : bool := connected [] (
  e ← refused (t_send "cdp.test" (JArray [num 1; num 2; num 3]));
  mret (malformed e)).

(** ** client.rs *)

Definition nonce0 : string := "550e8400-e29b-41d4-a716-446655440000".
Definition ts0 : string := "2026-04-07T14:00:00Z".

(** The gate of [mock_gate_register], by the status it answers. *)
Definition registering (status fp token : string) (caps : list string) : World :=
  mock_gate [answer 1 (obj [("status", JString status); ("agent_fingerprint", JString fp); ("session_token", JString token);
                            ("capabilities_granted", strs caps)])].
Definition mock_gate_register : World := registering "registered" "fp-abc123" "tok-xyz" ["api:read"].

Definition connect_and_register_succeeds : bool :=
  let? client := (client_connect temp_socket_path mock_gate_register).2 in
  let? session := register client "test-agent" "0.1.0" ["api:read"] nonce0 ts0 in
  assert_eq (session_token session) "tok-xyz" && assert_eq (agent_fingerprint session) "fp-abc123".
Definition connect_fails_with_nonexistent_socket : bool :=
  unwrapping_err (client_connect "/tmp/cdp-does-not-exist.sock" (alone ∅)).2
    (fun e => match e with Connection _ => true | _ => false end).
Definition register_fails_on_unexpected_status : bool :=
  let? client := (client_connect temp_socket_path (registering "rejected" EmptyString EmptyString [])).2 in
  unwrapping_err (register client "test-agent" "0.1.0" [] nonce0 ts0) malformed.

(** ** session.rs *)

Definition now : Z := 1704067200 * NANOS.
Definition granting (status id : string) (port ttl : Z) (token nonce : string) (scope : Json) : World :=
  mock_gate [answer 1 (obj [("status", JString status); ("lease_id", JString id); ("proxy_port", num port);
                            ("lease_token", JString token); ("channel_binding_nonce", JString nonce);
                            ("ttl_seconds", num ttl); ("granted_scope", scope)])].
Definition requesting (w : World) (scope : SdkScope) : result (SdkLease MockGate) CdpError :=
  let! transport := (transport_connect temp_socket_path w).2 in
  let session := mkSession transport "sess-tok" "fp" in
  (request_lease (mkLeaseRequest "my-cred" scope "test") nonce0 ts0 now session).2.

Definition request_lease_success : bool :=
  let scope := obj [("hosts", strs ["api.example.com"]); ("methods", strs ["GET"]); ("paths", strs ["/v1/*"]);
                    ("ttl_seconds", num 300); ("max_requests", num 100)] in
  let? lease := requesting (granting "granted" "lease-abc" 9999 300 "lt-tok" "nonce-xyz" scope)
                  (mkSdkScope ["api.example.com"] ["GET"] ["/v1/*"] (Some 300) (Some 100)) in
  asserts [assert_eq (sl_lease_id lease) "lease-abc"; sl_proxy_port lease =? 9999; negb (is_expired lease now)].
Definition request_lease_rejects_denied_status : bool :=
  let scope := obj [("hosts", strs []); ("methods", strs []); ("paths", strs [])] in
  unwrapping_err (requesting (granting "denied" EmptyString 0 0 EmptyString EmptyString scope)
                    (mkSdkScope [] [] [] None None)) malformed.

(** ** lease.rs *)

Definition granted (host : string) (max_requests : option Z) : SdkScope :=
  mkSdkScope [host] ["GET"] ["/"] (Some 300) max_requests.
Definition make_lease (expires_offset_secs : Z) : SdkLease MockGate :=
  lease_new (mkSdkCredentialResult "granted" "lease-test" 9999 "lease-token-val" "nonce-val" 300 (granted "example.com" (Some 100)))
    (now + expires_offset_secs * NANOS) "sess-tok".

Definition is_expired_false_for_future_lease : bool := let lease := make_lease 300 in negb (is_expired lease now).
Definition is_expired_true_for_past_lease : bool := let lease := make_lease (-1) in is_expired lease now.
Definition accessors_return_correct_values : bool :=
  let lease := make_lease 300 in
  asserts [assert_eq (sl_lease_id lease) "lease-test"; sl_proxy_port lease =? 9999;
           assert_eq (sl_lease_token lease) "lease-token-val"; assert_eq (sl_channel_binding_nonce lease) "nonce-val";
           sl_ttl_seconds lease =? 300].

(** URIs have no spaces. *)
#[local] Instance strict_http : HttpCrate :=
  {| HeaderMap := @HeaderMap ProxyTestKit.url_http; hm_get_all := @hm_get_all ProxyTestKit.url_http;
     hm_remove := @hm_remove ProxyTestKit.url_http; hm_insert := @hm_insert ProxyTestKit.url_http;
     hm_append := @hm_append ProxyTestKit.url_http; header_name_from_bytes := @header_name_from_bytes ProxyTestKit.url_http;
     header_value_from_bytes := @header_value_from_bytes ProxyTestKit.url_http;
     header_value_from_str := @header_value_from_str ProxyTestKit.url_http;
     header_value_to_str := @header_value_to_str ProxyTestKit.url_http; UriT := @UriT ProxyTestKit.url_http;
     uri_host := @uri_host ProxyTestKit.url_http; uri_port_u16 := @uri_port_u16 ProxyTestKit.url_http;
     uri_scheme_str := @uri_scheme_str ProxyTestKit.url_http; uri_path := @uri_path ProxyTestKit.url_http;
     uri_parse := fun s => if str_contains s " " then inr "invalid uri character" else inl (ProxyTestKit.parse_uri s) |}.
#[local] Instance any_iter : MapIter := {| map_iter := fun A m => map_to_list m |}.

(** A server that records the headers of the request and answers 200. *)
Definition header_lines (h : list (string * list byte)) : list string := map (fun f => f.1 +:+ ": " +:+ of_bytes f.2) h.
#[local] Instance recording : @SdkHttp strict_http (list string) :=
  {| hm_empty := ([] : @HeaderMap strict_http); method_from_str := inl; uri_path_and_query := fun u : @UriT strict_http => Some u.2;
     uri_with_path := fun (u : @UriT strict_http) p => inl (u.1, default "/" p);
     http_request := fun (r : @HttpRequest strict_http) _ => (header_lines (hq_headers r), Ok (mkRawResponse 200 [] (inl []))) |}.

Definition plain_options : FetchOptions := mkFetchOptions None ∅ None.
Definition fetching (l : SdkLease MockGate) (url : string) : list string * result SdkHttpResponse CdpError :=
  fetch l now url plain_options [].

Definition fetch_returns_lease_expired_error : bool :=
  let lease := make_lease (-1) in
  unwrapping_err (fetching lease "https://example.com/test").2
    (fun e => match e with LeaseExpiredError => true | _ => false end).
Definition fetch_rejects_invalid_url : bool :=
  let lease := make_lease 300 in
  unwrapping_err (fetching lease "not a valid url !!!").2 (fun e => match e with ProxyRequest _ => true | _ => false end).
Definition fetch_injects_auth_headers : bool :=
  let port := 40000 in
  let lease := lease_new (mkSdkCredentialResult "granted" "lease-123" port "my-lease-token" "my-nonce" 300 (granted "127.0.0.1" None))
                 (now + 300 * NANOS) "sess" in
  let request_text := (fetching lease ("http://127.0.0.1:" +:+ display_Z port +:+ "/test")).1 in
  asserts [contains request_text "x-cdp-lease-token: my-lease-token";
           contains request_text "x-cdp-channel-binding: my-nonce"].

(** The test modules of the crate pass. *)
Theorem sdk_tests_pass :
  asserts
    [default_fingerprint_path_uses_home; discover_uses_env_override; discover_fails_when_no_file_and_no_env;
     discover_parses_fingerprint_file; verify_gate_skips_check_when_pid_is_zero; verify_gate_rejects_wrong_pid;
     send_injects_nonce_and_timestamp; send_propagates_gate_error; send_increments_request_id;
     send_rejects_non_object_params; connect_and_register_succeeds; connect_fails_with_nonexistent_socket;
     register_fails_on_unexpected_status; request_lease_success; request_lease_rejects_denied_status;
     is_expired_false_for_future_lease; is_expired_true_for_past_lease; accessors_return_correct_values;
     fetch_returns_lease_expired_error; fetch_rejects_invalid_url; fetch_injects_auth_headers] = true.
Proof. vm_compute. reflexivity. Qed.
