(* ===== verification/BrowserTests.v ===== *)
(** * cdp-browser: the unit tests of sandbox.rs and snapshot.rs

    With the derived codecs of the messages; the tests of [cookies.rs] are in
    [CookieTests]. *)

From S2P Require Import Prelude StateM RustStr AuditLog VaultProtocol BrowserCookies Browser Asserts JsonTestKit.

#[local] Arguments String.append !_ _ /.

(** ** Codecs *)

(** [#[serde(tag = "type", rename_all = "snake_case")]] *)
Definition indicator_json (i : SuccessIndicatorMsg) : Json :=
  obj match i with
      | MUrlChange p => [("type", JString "url_change"); ("pattern", JString p)]
      | MCookiePresent n => [("type", JString "cookie_present"); ("name", JString n)]
      | MSelectorAppears s => [("type", JString "selector_appears"); ("selector", JString s)]
      end.
Definition read_indicator (v : Json) : option SuccessIndicatorMsg :=
  tag ← req as_text v "type";
  if bool_decide (tag = "url_change") then MUrlChange <$> req as_text v "pattern"
  else if bool_decide (tag = "cookie_present") then MCookiePresent <$> req as_text v "name"
  else if bool_decide (tag = "selector_appears") then MSelectorAppears <$> req as_text v "selector"
  else None.

(** [#[serde(tag = "cmd", rename_all = "snake_case")]] *)
Definition command_json (c : BrowserCommand) : Json :=
  obj match c with
      | Navigate url => [("cmd", JString "navigate"); ("url", JString url)]
      | FillCredentials u p us ps =>
          [("cmd", JString "fill_credentials"); ("username", JString u); ("password", JString p);
           ("username_selector", JString us); ("password_selector", JString ps)]
      | Submit s => [("cmd", JString "submit"); ("selector", JString s)]
      | WaitForLogin i => [("cmd", JString "wait_for_login"); ("success_indicator", indicator_json i)]
      | ExtractCookies => [("cmd", JString "extract_cookies")]
      | Enter2Fa code => [("cmd", JString "enter2_fa"); ("code", JString code)]
      | Browser.Shutdown => [("cmd", JString "shutdown")]
      end.
Definition read_command (v : Json) : option BrowserCommand :=
  tag ← req as_text v "cmd";
  if bool_decide (tag = "navigate") then Navigate <$> req as_text v "url"
  else if bool_decide (tag = "fill_credentials") then
    u ← req as_text v "username"; p ← req as_text v "password"; us ← req as_text v "username_selector";
    ps ← req as_text v "password_selector"; Some (FillCredentials u p us ps)
  else if bool_decide (tag = "submit") then Submit <$> req as_text v "selector"
  else if bool_decide (tag = "wait_for_login") then WaitForLogin <$> req read_indicator v "success_indicator"
  else if bool_decide (tag = "extract_cookies") then Some ExtractCookies
  else if bool_decide (tag = "enter2_fa") then Enter2Fa <$> req as_text v "code"
  else if bool_decide (tag = "shutdown") then Some Browser.Shutdown
  else None.

(** [#[serde(tag = "status", rename_all = "snake_case")]]; no data is skipped. *)
Definition response_json (r : BrowserResponse) : Json :=
  obj match r with
      | BOk data => ("status", JString "ok") :: match data with Some v => [("data", v)] | None => [] end
      | BError message => [("status", JString "error"); ("message", JString message)]
      | TwoFaRequired hint => [("status", JString "two_fa_required"); ("hint", JString hint)]
      end.
Definition read_response (v : Json) : option BrowserResponse :=
  tag ← req as_text v "status";
  if bool_decide (tag = "ok") then BOk <$> opt Some v "data"
  else if bool_decide (tag = "error") then BError <$> req as_text v "message"
  else if bool_decide (tag = "two_fa_required") then TwoFaRequired <$> req as_text v "hint"
  else None.

(** Written as JSON and read back. *)
Definition rewritten {A : Type} (write : A -> Json) (read : Json -> option A) (a : A) (k : A -> bool) : bool :=
  let?? v := read_json (write_json (write a)) in expecting (read v) k.

(** ** sandbox.rs *)

Definition test_sandbox_config_default : bool :=
  let cfg := default_sandbox in
  asserts [assert_eq (bwrap_path cfg) "/usr/bin/bwrap"; assert_eq (chromium_path cfg) "/usr/bin/chromium";
           enable_seccomp cfg; enable_pid_namespace cfg; negb (enable_net_namespace cfg)].
Definition test_browser_command_serde_navigate : bool :=
  rewritten command_json read_command (Navigate "https://example.com/login")
    (fun c => match c with Navigate url => assert_eq url "https://example.com/login" | _ => false end).
Definition test_browser_command_serde_fill_credentials : bool :=
  rewritten command_json read_command (FillCredentials "alice" "s3cr3t" "input[name=username]" "input[type=password]")
    (fun c => match c with FillCredentials _ _ _ _ => true | _ => false end).
Definition test_browser_command_serde_shutdown : bool :=
  rewritten command_json read_command Browser.Shutdown (fun c => match c with Browser.Shutdown => true | _ => false end).
Definition test_browser_response_serde_ok : bool :=
  rewritten response_json read_response (BOk None) (fun r => match r with BOk _ => true | _ => false end).
Definition test_browser_response_serde_error : bool :=
  rewritten response_json read_response (BError "navigation failed")
    (fun r => match r with BError message => assert_eq message "navigation failed" | _ => false end).
Definition test_browser_response_serde_twofa : bool :=
  rewritten response_json read_response (TwoFaRequired "Enter the code from your authenticator")
    (fun r => match r with TwoFaRequired _ => true | _ => false end).
Definition test_success_indicator_msg_serde : bool :=
  rewritten indicator_json read_indicator (MUrlChange "dashboard") (fun i => match i with MUrlChange _ => true | _ => false end).
(** The writer's end of the pipe is read from the other. *)
Definition test_framing_roundtrip : bool :=
  let payload := as_bytes "hello browser" in
  let '(pipe, r) := b_write_message payload [] in
  let? _ := r in
  let? decoded := (b_read_message pipe).2 in
  assert_eq decoded payload.
Definition test_framing_oversized_rejected : bool :=
  let framed := be_bytes 4 (Z.to_N (MAX_MESSAGE_SIZE + 1)) in
  unwrapping_err (b_read_message framed).2 (fun e => match e with BProtocol _ => true | _ => false end).

(** ** snapshot.rs *)

Definition test_snapshot_config_default : bool :=
  let cfg := default_snapshot in
  asserts [assert_eq (username_selector cfg) "input[name=username],input[type=email]";
           assert_eq (password_selector cfg) "input[type=password]";
           assert_eq (submit_selector cfg) "button[type=submit],input[type=submit]"; timeout_seconds cfg =? 30;
           is_none (twofa_detector cfg)].
Definition test_success_indicator_to_msg_url_change : bool :=
  match to_msg (UrlChange "dashboard") with MUrlChange _ => true | _ => false end.
Definition test_success_indicator_to_msg_cookie_present : bool :=
  match to_msg (CookiePresent "session_id") with MCookiePresent _ => true | _ => false end.
Definition test_success_indicator_to_msg_selector_appears : bool :=
  match to_msg (SelectorAppears ".dashboard-header") with MSelectorAppears _ => true | _ => false end.
Definition test_login_credential_new : bool :=
  let cred := mkLoginCredential "alice@example.com" (as_bytes "supersecret") in
  assert_eq (lc_username cred) "alice@example.com" && negb (is_empty_vec (lc_password cred)).
Definition test_cmd_name : bool :=
  asserts [assert_eq (cmd_name (Navigate "x")) "Navigate"; assert_eq (cmd_name (FillCredentials "u" "p" "s" "s")) "FillCredentials";
           assert_eq (cmd_name ExtractCookies) "ExtractCookies"; assert_eq (cmd_name Browser.Shutdown) "Shutdown"].
Definition test_twofa_trigger_url_pattern : bool :=
  let detector := mkTwoFactorDetector (UrlPattern "two-factor") "input[name=code]" "button[type=submit]" in
  match trigger detector with UrlPattern _ => true | _ => false end.
Definition test_snapshot_config_with_twofa : bool :=
  let d := default_snapshot in
  let cfg := mkSnapshotConfig "https://example.com/login" (username_selector d) (password_selector d) (submit_selector d)
               (success_indicator d) (Some (mkTwoFactorDetector (Selector "#twofa-input") "#code" "#submit-code"))
               (timeout_seconds d) (sandbox_config d) in
  is_some (twofa_detector cfg).

(** The test modules of [sandbox.rs] and [snapshot.rs] pass. *)
Theorem browser_tests_pass :
  asserts
    [test_sandbox_config_default; test_browser_command_serde_navigate; test_browser_command_serde_fill_credentials;
     test_browser_command_serde_shutdown; test_browser_response_serde_ok; test_browser_response_serde_error;
     test_browser_response_serde_twofa; test_success_indicator_msg_serde; test_framing_roundtrip;
     test_framing_oversized_rejected; test_snapshot_config_default; test_success_indicator_to_msg_url_change;
     test_success_indicator_to_msg_cookie_present; test_success_indicator_to_msg_selector_appears;
     test_login_credential_new; test_cmd_name; test_twofa_trigger_url_pattern; test_snapshot_config_with_twofa] = true.
Proof. vm_compute. reflexivity. Qed.
