(* ===== verification/SerdeTests.v ===== *)
(** * The tests of derived serialisation

    The tests of cdp-policy/src/types.rs, cdp-crypto/src/mempool.rs and
    cdp-audit/src/logger.rs that write a value as JSON and read it back, over
    the reader and writer of [JsonTestKit].  The tests of [types.rs] that only
    build a value and look at it are left out. *)

From S2P Require Import Prelude RustStr Crypto PolicyTypes UnixHost AuditLog Asserts CryptoTestKit AuditTestKit JsonTestKit.
From S2P Require AuditTests ProxyTestKit.

#[local] Arguments String.append !_ _ /.

(** ** types.rs *)

(** An [Option] without [skip_serializing_if] is written as null. *)
Definition or_null {A : Type} (f : A -> Json) (o : option A) : Json := match o with Some a => f a | None => JNull end.
(** A field with [#[serde(default)]] whose default is the empty vector. *)
Definition texts_or (v : Json) (k : string) : option (list string) :=
  match json_get v k with Some x => as_list as_text x | None => Some [] end.

Definition body_json (b : BodyConstraints) : Json :=
  obj [("forbidden_fields", strs (bc_forbidden_fields b)); ("max_size_bytes", or_null num (bc_max_size_bytes b));
       ("allowed_content_types", strs (bc_allowed_content_types b))].
Definition read_body (v : Json) : option BodyConstraints :=
  fields ← texts_or v "forbidden_fields"; size ← opt as_number v "max_size_bytes";
  types ← texts_or v "allowed_content_types"; Some (mkBodyConstraints fields size types).
Definition network_json (n : NetworkConstraints) : Json :=
  obj [("follow_redirects", JBool (n_follow_redirects n)); ("dns_resolution", JString (n_dns_resolution n));
       ("allowed_ip_ranges", strs (n_allowed_ip_ranges n))].
(** [dns_resolution] alone has no default. *)
Definition read_network (v : Json) : option NetworkConstraints :=
  follow ← match json_get v "follow_redirects" with Some x => as_flag x | None => Some false end;
  dns ← req as_text v "dns_resolution"; ranges ← texts_or v "allowed_ip_ranges";
  Some (mkNetworkConstraints follow dns ranges).
Definition scope_json (s : Scope) : Json :=
  obj [("hosts", strs (s_hosts s)); ("methods", strs (s_methods s)); ("paths", strs (s_paths s));
       ("forbidden_paths", strs (s_forbidden_paths s)); ("ttl_seconds", or_null num (s_ttl_seconds s));
       ("max_requests", or_null num (s_max_requests s)); ("body_constraints", or_null body_json (s_body_constraints s));
       ("network", or_null network_json (s_network s))].
Definition read_scope (v : Json) : option Scope :=
  hosts ← texts_or v "hosts"; methods ← texts_or v "methods"; paths ← texts_or v "paths";
  forbidden ← texts_or v "forbidden_paths"; ttl ← opt as_number v "ttl_seconds";
  requests ← opt as_number v "max_requests"; body ← opt read_body v "body_constraints";
  network ← opt read_network v "network";
  Some (mkScope hosts methods paths forbidden ttl requests body network).

Definition read_text {A : Type} (f : Json -> option A) (s : string) : option A := v ← read_json s; f v.

Definition scope_serializes_and_deserializes : bool :=
  let original := mkScope ["example.com"] ["POST"] ["/api/"] ["/api/admin"] (Some 1800) (Some 100)
    (Some (mkBodyConstraints ["password"] (Some 65536) ["application/json"]))
    (Some (mkNetworkConstraints false "pinned" ["10.0.0.0/8"])) in
  let json := write_json (scope_json original) in
  let?? roundtrip := read_text read_scope json in
  let?? bc := s_body_constraints roundtrip in
  let?? nc := s_network roundtrip in
  asserts [assert_eq (s_hosts roundtrip) (s_hosts original); assert_eq (s_methods roundtrip) (s_methods original);
           assert_eq (s_paths roundtrip) (s_paths original);
           assert_eq (s_forbidden_paths roundtrip) (s_forbidden_paths original);
           assert_eq (s_ttl_seconds roundtrip) (Some 1800); assert_eq (s_max_requests roundtrip) (Some 100);
           assert_eq (bc_forbidden_fields bc) ["password"]; assert_eq (bc_max_size_bytes bc) (Some 65536);
           assert_eq (n_dns_resolution nc) "pinned"; assert_eq (n_allowed_ip_ranges nc) ["10.0.0.0/8"]].
Definition scope_deserializes_from_partial_json : bool :=
  let json := ProxyTestKit.requote "{'hosts': ['api.example.com']}" in
  let?? scope := read_text read_scope json in
  asserts [assert_eq (s_hosts scope) ["api.example.com"]; is_empty_vec (s_methods scope); is_none (s_ttl_seconds scope);
           is_none (s_body_constraints scope)].

#[local] Instance approval_result_eq_dec : EqDecision ApprovalResult.
Proof. solve_decision. Defined.
Definition approval_result_equality : bool :=
  asserts [assert_eq AllowOnce AllowOnce; assert_eq Deny Deny; assert_eq (AllowTimed 300) (AllowTimed 300);
           negb (assert_eq (AllowTimed 300) (AllowTimed 600)); negb (assert_eq AllowOnce Deny);
           negb (assert_eq AllowOnce (AllowTimed 1))].

(** ** mempool.rs *)

Definition bytes_json (l : list byte) : Json := JArray (map (fun b => num (Z.of_N (Byte.to_N b))) l).
Definition as_byte (v : Json) : option byte := n ← as_number v; Byte.of_N (Z.to_N n).
Definition blob_json (b : EncryptedBlob) : Json :=
  obj [("nonce", bytes_json (nonce b)); ("ciphertext", bytes_json (ciphertext b))].
(** The nonce is an array of twelve. *)
Definition read_blob (v : Json) : option EncryptedBlob :=
  n ← req (as_list as_byte) v "nonce"; c ← req (as_list as_byte) v "ciphertext";
  if bool_decide (length n = 12%nat) then Some (mkEncryptedBlob n c) else None.

Definition test_encrypted_blob_serde : bool :=
  let blob := mkEncryptedBlob (replicate 12 Byte.x2a) [Byte.xde; Byte.xad; Byte.xbe; Byte.xef] in
  let json := write_json (blob_json blob) in
  let?? decoded := read_text read_blob json in
  asserts [assert_eq (nonce decoded) (nonce blob); assert_eq (ciphertext decoded) (ciphertext blob)].

(** ** logger.rs *)

Definition test_audit_fields_skip_none `{Build} : bool := run_test temp_host (
  logger ← AuditTests.make_logger temp_dir;
  logger ← AuditTests.t_log logger AgentRegistered no_fields;
  raw ← on_host (fs_read_to_string logger.1);
  line ← some_of (head (lines raw));
  mret (forallb (fun key => negb (str_contains line key))
          ["lease_id"; "agent_fingerprint"; "agent_binary_path"; "credential_ref"; "scope"; "policy_matched";
           "approval_method"; "detail"])).

(** These tests pass. *)
Theorem serde_tests_pass `{Build} :
  asserts [scope_serializes_and_deserializes; scope_deserializes_from_partial_json; approval_result_equality;
           test_encrypted_blob_serde; test_audit_fields_skip_none] = true.
Proof. vm_compute. reflexivity. Qed.
